(* ===== verification/_CoqProject ===== *)
-Q . S2P
Prelude.v
Text.v
Bytes.v
Strings.v
Domain.v
Manifest.v
Packs.v
PackCodec.v
PackParse.v
PackProps.v
PackBuild.v
Storage.v
Placement.v
Effects.v
Provisioning.v
Secrets.v
ProvStore.v
ProvManager.v
ProvFlow.v
Email.v
EmailProps.v
MailIngest.v
MailIngestProps.v
MailFlow.v
Reservations.v
MegaAccount.v
MegaPool.v
MegaPoolProps.v
MegaFake.v
TempSpace.v
LedgerDb.v
LedgerDbProps.v
LedgerDbPool.v
