(* ===== verification/Prelude.v ===== *)
(** * Verification of the launcher server crates (header to be completed) *)
From stdpp Require Import base gmap strings list fin_maps sets pretty.
From Stdlib Require Import ZArith Lia Sorting.Sorted.

Declare Scope rust_scope.
Delimit Scope rust_scope with rust.

(** ** Results *)

(** [std::result::Result]: the value or the error of a fallible operation. *)
Inductive result (A E : Type) : Type :=
| Ok (a : A)
| Err (e : E).
Arguments Ok {A E} a.
Arguments Err {A E} e.

(** The [?] operator: continue with the value, return early with the error. *)
Definition rbind {A B E : Type} (r : result A E) (k : A -> result B E) : result B E :=
  match r with Ok a => k a | Err e => Err e end.

Notation "'let?' x ':=' c 'in' k" := (rbind c (fun x => k))
  (at level 10, x pattern, c at level 100, k at level 200) : rust_scope.
Open Scope rust_scope.

Definition is_ok {A E : Type} (r : result A E) : bool :=
  match r with Ok _ => true | Err _ => false end.

(** [Option::ok_or]. *)
Definition ok_or {A E : Type} (o : option A) (e : E) : result A E :=
  match o with Some a => Ok a | None => Err e end.

(** [Result::map_err]. *)
Definition map_err {A E F : Type} (f : E -> F) (r : result A E) : result A F :=
  match r with Ok a => Ok a | Err e => Err (f e) end.

(** [Iterator::try_fold], and with [B := unit] a [for] loop that may return
    early. *)
Fixpoint try_fold {A B E : Type} (f : B -> A -> result B E) (b : B) (l : list A)
  : result B E :=
  match l with
  | [] => Ok b
  | a :: l => let? b' := f b a in try_fold f b' l
  end.

(** Collecting an iterator of results into a result of a vector. *)
Fixpoint try_map {A B E : Type} (f : A -> result B E) (l : list A) : result (list B) E :=
  match l with
  | [] => Ok []
  | a :: l => let? b := f a in let? bs := try_map f l in Ok (b :: bs)
  end.

(** A loop that checks every element and stops at the first error. *)
Fixpoint for_each {A E : Type} (f : A -> result unit E) (l : list A) : result unit E :=
  match l with
  | [] => Ok tt
  | a :: l => let? _ := f a in for_each f l
  end.

(** ** Machine integers *)

Definition u32_max : Z := 2 ^ 32 - 1.
Definition u64_max : Z := 2 ^ 64 - 1.

Definition is_u32 (z : Z) : Prop := (0 <= z <= u32_max)%Z.
Definition is_u64 (z : Z) : Prop := (0 <= z <= u64_max)%Z.

(** [u64::checked_add], [u64::checked_mul], [u64::saturating_add],
    [u64::saturating_sub]. *)
Definition checked_add (a b : Z) : option Z :=
  if (a + b <=? u64_max)%Z then Some (a + b)%Z else None.

Definition checked_mul (a b : Z) : option Z :=
  if (a * b <=? u64_max)%Z then Some (a * b)%Z else None.

Definition saturating_add (a b : Z) : Z := Z.min (a + b) u64_max.

Definition saturating_sub (a b : Z) : Z := Z.max (a - b) 0.

(** [slice::len] as a [u64]. *)
Definition len64 {A : Type} (l : list A) : Z := Z.of_nat (length l).

(** ** Stable sorting ([slice::sort_by]) *)

(** Insertion keeps an element before the elements it compares equal to: the
    sort is stable. *)
Fixpoint sort_insert {A : Type} (cmp : A -> A -> comparison) (x : A) (l : list A) : list A :=
  match l with
  | [] => [x]
  | y :: l' => match cmp x y with
               | Gt => y :: sort_insert cmp x l'
               | _ => x :: l
               end
  end.

Definition sort_by {A : Type} (cmp : A -> A -> comparison) (l : list A) : list A :=
  foldr (sort_insert cmp) [] l.

(** [Ordering::then_with]. *)
Definition then_with (c d : comparison) : comparison :=
  match c with Eq => d | _ => c end.

(** [bool: Ord], with [false < true]. *)
Definition bool_cmp (a b : bool) : comparison :=
  match a, b with
  | false, true => Lt
  | true, false => Gt
  | _, _ => Eq
  end.

(** A comparison function that is a total preorder, the contract of
    [sort_by]. *)
Class TotalPreorder {A : Type} (cmp : A -> A -> comparison) : Prop := {
  cmp_antisym : forall x y, cmp x y = CompOpp (cmp y x);
  cmp_trans : forall x y z, cmp x y <> Gt -> cmp y z <> Gt -> cmp x z <> Gt
}.

Definition cmp_le {A : Type} (cmp : A -> A -> comparison) (x y : A) : Prop := cmp x y <> Gt.

(** ** Adjacent pairs ([slice::windows(2)]) *)
Fixpoint windows2 {A : Type} (l : list A) : list (A * A) :=
  match l with
  | x :: (y :: _) as l' => (x, y) :: windows2 l'
  | _ => []
  end.

(** ** Automation *)

Create HintDb launcher.

(** Splits the conditions of a translated handler: every [if], [match] and
    [let?] on which the goal or a hypothesis is stuck. *)
Ltac case_step :=
  match goal with
  | H : rbind ?r _ = _ |- _ => let E := fresh "E" in destruct r eqn:E; simpl in H; try discriminate H
  | H : (if ?b then _ else _) = _ |- _ => let E := fresh "E" in destruct b eqn:E; try discriminate H
  | H : match ?x with _ => _ end = _ |- _ => let E := fresh "E" in destruct x eqn:E; try discriminate H
  end.

Ltac run H :=
  repeat match type of H with
  | rbind ?r _ = _ => let E := fresh "E" in destruct r eqn:E; simpl in H; try discriminate H
  | (if ?b then _ else _) = _ => let E := fresh "E" in destruct b eqn:E; try discriminate H
  | match ?x with _ => _ end = _ => let E := fresh "E" in destruct x eqn:E; try discriminate H
  | Ok _ = Ok _ => injection H as H; subst
  | Err _ = Err _ => injection H as H; subst
  | _ => progress simplify_eq H
  end.

(** Turns the boolean guards of the code into propositions. *)
Ltac breflect :=
  repeat match goal with
  | H : _ || _ = false |- _ => apply orb_false_iff in H; destruct H
  | H : _ && _ = true |- _ => apply andb_true_iff in H; destruct H
  | H : negb _ = true |- _ => apply negb_true_iff in H
  | H : negb _ = false |- _ => apply negb_false_iff in H
  | H : (_ <? _)%Z = true |- _ => apply Z.ltb_lt in H
  | H : (_ <? _)%Z = false |- _ => apply Z.ltb_ge in H
  | H : (_ <=? _)%Z = true |- _ => apply Z.leb_le in H
  | H : (_ <=? _)%Z = false |- _ => apply Z.leb_gt in H
  | H : (_ =? _)%Z = true |- _ => apply Z.eqb_eq in H
  | H : (_ =? _)%Z = false |- _ => apply Z.eqb_neq in H
  | H : String.eqb _ _ = true |- _ => apply String.eqb_eq in H
  | H : String.eqb _ _ = false |- _ => apply String.eqb_neq in H
  | H : bool_decide _ = true |- _ => apply bool_decide_eq_true in H
  | H : bool_decide _ = false |- _ => apply bool_decide_eq_false in H
  end.

(** ** Lemmas on results *)

Lemma rbind_Ok {A B E} (r : result A E) (k : A -> result B E) b :
  rbind r k = Ok b <-> exists a, r = Ok a /\ k a = Ok b.
Proof. destruct r; simpl; naive_solver. Qed.

Lemma rbind_Err {A B E} (r : result A E) (k : A -> result B E) e :
  rbind r k = Err e <-> r = Err e \/ exists a, r = Ok a /\ k a = Err e.
Proof. destruct r; simpl; naive_solver. Qed.

Lemma rbind_assoc {A B C E} (r : result A E) (k : A -> result B E) (k' : B -> result C E) :
  rbind (rbind r k) k' = rbind r (fun a => rbind (k a) k').
Proof. by destruct r. Qed.

Lemma ok_or_Ok {A E} (o : option A) (e : E) a : ok_or o e = Ok a <-> o = Some a.
Proof. destruct o; simpl; naive_solver. Qed.

Lemma for_each_Ok {A E} (f : A -> result unit E) l :
  for_each f l = Ok tt <-> Forall (fun a => f a = Ok tt) l.
Proof.
  induction l as [|a l IH]; simpl; [split; constructor|].
  rewrite rbind_Ok, Forall_cons. setoid_rewrite IH. split.
  - intros [[] ?]. naive_solver.
  - intros [? ?]. by exists tt.
Qed.

Lemma for_each_ext {A E} (f g : A -> result unit E) l :
  Forall (fun a => f a = g a) l -> for_each f l = for_each g l.
Proof. induction 1 as [|a l H _ IH]; simpl; [done|]. by rewrite H, IH. Qed.

Lemma try_map_Ok {A B E} (f : A -> result B E) l bs :
  try_map f l = Ok bs <-> Forall2 (fun a b => f a = Ok b) l bs.
Proof.
  revert bs. induction l as [|a l IH]; intros bs; simpl.
  - split; [by intros [= <-]; constructor|]. by inversion 1.
  - rewrite rbind_Ok. setoid_rewrite rbind_Ok. setoid_rewrite IH. split.
    + intros (b & ? & bs' & ? & [= <-]). by constructor.
    + inversion 1; subst. naive_solver.
Qed.

Lemma try_map_ext {A B E} (f g : A -> result B E) l :
  Forall (fun a => f a = g a) l -> try_map f l = try_map g l.
Proof. induction 1 as [|a l H _ IH]; simpl; [done|]. by rewrite H, IH. Qed.

Lemma try_fold_app {A B E} (f : B -> A -> result B E) b l1 l2 :
  try_fold f b (l1 ++ l2) = rbind (try_fold f b l1) (fun b' => try_fold f b' l2).
Proof. revert b. induction l1 as [|a l1 IH]; intros b; simpl; [done|]. destruct (f b a); simpl; auto. Qed.

(** ** Lemmas on integers *)

Lemma checked_add_Some a b c : checked_add a b = Some c <-> c = (a + b)%Z /\ (a + b <= u64_max)%Z.
Proof. unfold checked_add. destruct (Z.leb_spec (a + b) u64_max); split; intros; naive_solver lia. Qed.

Lemma checked_mul_Some a b c : checked_mul a b = Some c <-> c = (a * b)%Z /\ (a * b <= u64_max)%Z.
Proof. unfold checked_mul. destruct (Z.leb_spec (a * b) u64_max); split; intros; naive_solver lia. Qed.

Lemma len64_nonneg {A} (l : list A) : (0 <= len64 l)%Z.
Proof. unfold len64. lia. Qed.

Lemma len64_app {A} (l k : list A) : len64 (l ++ k) = (len64 l + len64 k)%Z.
Proof. unfold len64. rewrite length_app. lia. Qed.

#[export] Hint Resolve len64_nonneg : launcher.


(** The running sum of a [try_fold] of [checked_add]s: the exact sum when it
    fits, the error otherwise. *)
Definition sumZ {A : Type} (f : A -> Z) (l : list A) : Z :=
  foldr (fun a s => f a + s)%Z 0%Z l.

Lemma sumZ_app {A} (f : A -> Z) l k : sumZ f (l ++ k) = (sumZ f l + sumZ f k)%Z.
Proof. induction l as [|a l IH]; simpl; lia. Qed.

Lemma sumZ_nonneg {A} (f : A -> Z) l : (forall a, a ∈ l -> 0 <= f a)%Z -> (0 <= sumZ f l)%Z.
Proof.
  induction l as [|a l IH]; intros H; simpl; [lia|].
  assert (0 <= f a)%Z by (apply H; left). assert (0 <= sumZ f l)%Z by (apply IH; intros; apply H; by right). lia.
Qed.

Lemma sumZ_perm {A} (f : A -> Z) l k : l ≡ₚ k -> sumZ f l = sumZ f k.
Proof. induction 1; simpl; lia. Qed.

Lemma sumZ_ext {A} (f g : A -> Z) l : (forall a, a ∈ l -> f a = g a) -> sumZ f l = sumZ g l.
Proof.
  induction l as [|a l IH]; intros H; simpl; [done|].
  rewrite (H a), IH; [done| |left]. intros; apply H; by right.
Qed.

Lemma sumZ_filter {A} (f : A -> Z) (p : A -> bool) l :
  sumZ f (filter (fun a => p a = true) l) = sumZ (fun a => if p a then f a else 0)%Z l.
Proof.
  induction l as [|a l IH]; [done|]. simpl. destruct (p a) eqn:E.
  - rewrite filter_cons_True by done. simpl. lia.
  - rewrite filter_cons_False by congruence. lia.
Qed.

Lemma sumZ_le {A} (f g : A -> Z) l : (forall a, a ∈ l -> f a <= g a)%Z -> (sumZ f l <= sumZ g l)%Z.
Proof.
  induction l as [|a l IH]; intros H; simpl; [lia|].
  assert (f a <= g a)%Z by (apply H; left). assert (sumZ f l <= sumZ g l)%Z by (apply IH; intros; apply H; by right).
  lia.
Qed.

Lemma try_fold_checked_sum {A E} (f : A -> Z) (e : E) b l c :
  (forall a, a ∈ l -> 0 <= f a)%Z ->
  try_fold (fun total a => ok_or (checked_add total (f a)) e) b l = Ok c <->
  c = (b + sumZ f l)%Z /\ (l = [] \/ (b + sumZ f l <= u64_max)%Z).
Proof.
  revert b. induction l as [|a l IH]; intros b Hf; simpl.
  { split; [intros [= <-]; split; [lia|by left] | intros [-> _]; f_equal; lia]. }
  assert (Hl : forall a, a ∈ l -> (0 <= f a)%Z) by (intros; apply Hf; by right).
  pose proof (sumZ_nonneg f l Hl). rewrite rbind_Ok. setoid_rewrite ok_or_Ok.
  setoid_rewrite checked_add_Some. split.
  - intros (x & [-> ?] & Hx). apply IH in Hx as [-> Hx]; [|done]. split; [lia|]. right.
    destruct Hx as [->|?]; simpl in *; lia.
  - intros [-> [?|?]]; [done|]. eexists. split; [split; [done|lia]|].
    apply IH; [done|]. split; [lia|]. right. lia.
Qed.

(** ** Lemmas on sorting *)

Section sorting.
Context {A : Type} (cmp : A -> A -> comparison).

Lemma sort_insert_perm x l : sort_insert cmp x l ≡ₚ x :: l.
Proof.
  induction l as [|y l IH]; simpl; [done|].
  destruct (cmp x y); try done. rewrite IH. apply Permutation_swap.
Qed.

Lemma sort_by_perm l : sort_by cmp l ≡ₚ l.
Proof. unfold sort_by. induction l as [|x l IH]; simpl; [done|]. by rewrite sort_insert_perm, IH. Qed.

Lemma elem_of_sort_by x l : x ∈ sort_by cmp l <-> x ∈ l.
Proof. by rewrite sort_by_perm. Qed.

Context `{TotalPreorder A cmp}.

Lemma cmp_refl x : cmp x x = Eq.
Proof. pose proof (cmp_antisym x x) as E. by destruct (cmp x x). Qed.

Lemma sort_insert_sorted x l :
  StronglySorted (cmp_le cmp) l -> StronglySorted (cmp_le cmp) (sort_insert cmp x l).
Proof.
  induction 1 as [|y l Hl IH Hy]; simpl; [repeat constructor|].
  destruct (cmp x y) eqn:E.
  1,2: constructor; [by constructor|]; constructor; [unfold cmp_le; congruence|];
    eapply Forall_impl; [exact Hy|]; intros z Hz; eapply cmp_trans; [|exact Hz]; congruence.
  constructor; [done|]. rewrite sort_insert_perm. constructor; [|done].
  unfold cmp_le. rewrite cmp_antisym, E. done.
Qed.

Lemma sort_by_sorted l : StronglySorted (cmp_le cmp) (sort_by cmp l).
Proof. unfold sort_by. induction l; simpl; [constructor|by apply sort_insert_sorted]. Qed.

Lemma sort_by_sorted_id l : StronglySorted (cmp_le cmp) l -> sort_by cmp l = l.
Proof.
  unfold sort_by. induction 1 as [|x l Hl IH Hx]; simpl; [done|]. rewrite IH.
  destruct Hx as [|y l Hy _]; simpl; [done|]. unfold cmp_le in Hy. by destruct (cmp x y).
Qed.

(** When elements that compare equal are equal, the order of the input does
    not matter. *)
Lemma sorted_perm_unique l k :
  (forall x y, x ∈ l -> y ∈ l -> cmp x y = Eq -> x = y) ->
  StronglySorted (cmp_le cmp) l -> StronglySorted (cmp_le cmp) k -> l ≡ₚ k -> l = k.
Proof.
  intros Hinj Hl. revert k. induction Hl as [|x l Hl IH Hx]; intros k Hk Hp.
  { by apply Permutation_nil_l in Hp as ->. }
  destruct Hk as [|y k Hk Hy]; [by apply Permutation_nil_r in Hp|].
  assert (x = y) as ->.
  { assert (x ∈ y :: k) as Hxk by (rewrite <- Hp; left).
    assert (y ∈ x :: l) as Hyl by (rewrite Hp; left).
    apply elem_of_cons in Hxk as [->|Hxk]; [done|].
    apply elem_of_cons in Hyl as [->|Hyl]; [done|].
    rewrite Forall_forall in Hx, Hy. specialize (Hx y Hyl). specialize (Hy x Hxk).
    apply Hinj; [left|by right|]. unfold cmp_le in *. rewrite cmp_antisym in Hy |- *.
    pose proof (cmp_antisym x y) as E. destruct (cmp y x), (cmp x y); simpl in *; congruence. }
  f_equal. apply IH; [|done|by eapply Permutation_cons_inv].
  intros ????; apply Hinj; by right.
Qed.

Lemma sort_by_perm_eq l k :
  (forall x y, x ∈ l -> y ∈ l -> cmp x y = Eq -> x = y) -> l ≡ₚ k -> sort_by cmp l = sort_by cmp k.
Proof.
  intros Hinj Hp. apply sorted_perm_unique; [|apply sort_by_sorted..|].
  - setoid_rewrite elem_of_sort_by. done.
  - by rewrite !sort_by_perm.
Qed.
End sorting.

(** ** Lemmas on adjacent pairs *)

Lemma windows2_StronglySorted {A} (R : A -> A -> Prop) `{!Transitive R} l :
  (forall x y, (x, y) ∈ windows2 l -> R x y) -> StronglySorted R l.
Proof.
  intros H. apply Sorted_StronglySorted; [done|].
  induction l as [|x [|y l] IH]; [repeat constructor..|].
  constructor; [apply IH; intros; apply H; by right|]. constructor. apply H. left.
Qed.

Lemma StronglySorted_windows2 {A} (R : A -> A -> Prop) l x y :
  StronglySorted R l -> (x, y) ∈ windows2 l -> R x y.
Proof.
  intros Hl. induction Hl as [|a l Hl IH Ha]; simpl; [by intros ?%elem_of_nil|].
  destruct l as [|b l]; [by intros ?%elem_of_nil|].
  intros [[= -> ->]|?]%elem_of_cons; [by inversion Ha|by apply IH].
Qed.

(** ** Lemmas on strongly sorted lists *)

Lemma StronglySorted_app_inv {A} (R : A -> A -> Prop) l k :
  StronglySorted R (l ++ k) ->
  StronglySorted R l /\ StronglySorted R k /\ (forall a b, a ∈ l -> b ∈ k -> R a b).
Proof.
  induction l as [|x l IH]; simpl.
  { intros H. split_and!; [constructor|done|]. by intros ?? ?%elem_of_nil. }
  intros [H Hx]%StronglySorted_inv. apply IH in H as (H1 & H2 & H3).
  apply Forall_app in Hx as [Hx1 Hx2]. split_and!; [by constructor|done|].
  intros a b [->|Ha]%elem_of_cons Hb; [|by apply H3]. rewrite Forall_forall in Hx2. by apply Hx2.
Qed.

Lemma StronglySorted_concat_inv {A} (R : A -> A -> Prop) ls :
  StronglySorted R (concat ls) -> Forall (StronglySorted R) ls.
Proof.
  induction ls as [|l ls IH]; simpl; [constructor|].
  intros (?&?&_)%StronglySorted_app_inv. constructor; auto.
Qed.

Lemma StronglySorted_related {A} (R : A -> A -> Prop) l a b :
  StronglySorted R l -> a ∈ l -> b ∈ l -> a <> b -> R a b \/ R b a.
Proof.
  induction 1 as [|x l Hl IH Hx]; [by intros ?%elem_of_nil|].
  rewrite Forall_forall in Hx. rewrite !elem_of_cons. naive_solver.
Qed.

Lemma StronglySorted_impl {A} (P : A -> Prop) (R S : A -> A -> Prop) l :
  (forall a b, P a -> P b -> R a b -> S a b) -> Forall P l ->
  StronglySorted R l -> StronglySorted S l.
Proof.
  intros HRS. induction 2 as [|x l Hl IH Hx]; [constructor|].
  match goal with H : Forall P (_ :: _) |- _ => apply Forall_cons in H as [Hpx Hpl] end.
  constructor; [by apply IH|]. rewrite Forall_forall in Hx, Hpl |- *. eauto.
Qed.

Lemma windows2_snoc {A} (l : list A) a b : windows2 ((l ++ [a]) ++ [b]) = windows2 (l ++ [a]) ++ [(a, b)].
Proof.
  induction l as [|x l IH]; [done|]. destruct l as [|y l]; [done|].
  change (windows2 (((x :: y :: l) ++ [a]) ++ [b])) with ((x, y) :: windows2 (((y :: l) ++ [a]) ++ [b])).
  rewrite IH. done.
Qed.

Lemma windows2_in {A} (l : list A) a b : (a, b) ∈ windows2 l -> a ∈ l /\ b ∈ l.
Proof.
  induction l as [|x [|y l] IH]; simpl; try by intros ?%elem_of_nil.
  intros [[= -> ->]|Hin]%elem_of_cons; [set_solver|]. apply IH in Hin. set_solver.
Qed.

(** ** Duplicate-free images *)

Lemma NoDup_map_inj {A B} (f : A -> B) l x y :
  NoDup (map f l) -> x ∈ l -> y ∈ l -> f x = f y -> x = y.
Proof.
  induction l as [|z l IH]; simpl; [by intros _ ?%elem_of_nil|].
  rewrite NoDup_cons. intros [Hz Hn]. rewrite !elem_of_cons. intros [->|Hx] [->|Hy] E; try done.
  - destruct Hz. rewrite E. by apply list_elem_of_fmap_2.
  - destruct Hz. rewrite <- E. by apply list_elem_of_fmap_2.
  - by apply IH.
Qed.
