(* ===== verification/Text.v ===== *)
(** * Text: the operations of [str] the server crates use

    A Rust [String] is its UTF-8 byte sequence, a [string] here: an [ascii] of
    it is one byte.  [len], [starts_with], [split('/')] and the comparisons of
    [str] are byte-wise in Rust too.  A test on [char]s that only singles out
    ASCII characters is the same test on bytes, because every byte of a
    multi-byte UTF-8 sequence is at least 0x80.  [trim] removes the characters
    with the Unicode White_Space property, listed by their encodings. *)
From stdpp Require Import base strings list pretty.
From Stdlib Require Import ZArith Lia Ascii.
From S2P Require Import Prelude.
Local Open Scope Z_scope.

(** ** Definitions *)

Definition code (c : ascii) : Z := Z.of_N (N_of_ascii c).

Definition char_eqb (a b : ascii) : bool := Ascii.eqb a b.

Definition str_len (s : string) : Z := Z.of_nat (String.length s).

Definition is_empty (s : string) : bool := String.eqb s "".

Definition chars (s : string) : list ascii := String.list_ascii_of_string s.

Definition of_chars (l : list ascii) : string := String.string_of_list_ascii l.

Definition all_chars (f : ascii -> bool) (s : string) : bool := forallb f (chars s).

Definition any_char (f : ascii -> bool) (s : string) : bool := existsb f (chars s).

(** [str::contains(char)], [str::starts_with], [str::ends_with],
    [str::contains(&str)]. *)
Definition contains_char (c : ascii) (s : string) : bool := any_char (char_eqb c) s.

Definition starts_with (p s : string) : bool := String.prefix p s.

Definition ends_with (suffix s : string) : bool :=
  String.prefix (of_chars (rev (chars suffix))) (of_chars (rev (chars s))).

Fixpoint contains_str (p s : string) : bool :=
  String.prefix p s || match s with
                       | EmptyString => false
                       | String _ s' => contains_str p s'
                       end.

(** [str::split(char)]. *)
Fixpoint split_on (c : ascii) (s : string) : list string :=
  match s with
  | EmptyString => [""%string]
  | String x s' =>
      if char_eqb x c then ""%string :: split_on c s'
      else match split_on c s' with
           | [] => [String x EmptyString]
           | p :: ps => String x p :: ps
           end
  end.

(** [[T]::join]. *)
Definition join (sep : string) (parts : list string) : string := String.concat sep parts.

(** [str::replace(char, char)]. *)
Definition replace_char (a b : ascii) (s : string) : string :=
  of_chars (map (fun c => if char_eqb c a then b else c) (chars s)).

Definition is_ascii_digit (c : ascii) : bool := (48 <=? code c) && (code c <=? 57).
Definition is_ascii_uppercase (c : ascii) : bool := (65 <=? code c) && (code c <=? 90).
Definition is_ascii_lowercase (c : ascii) : bool := (97 <=? code c) && (code c <=? 122).
Definition is_ascii_alphanumeric (c : ascii) : bool :=
  is_ascii_digit c || is_ascii_uppercase c || is_ascii_lowercase c.
Definition is_ascii_hexdigit (c : ascii) : bool :=
  is_ascii_digit c || ((65 <=? code c) && (code c <=? 70)) || ((97 <=? code c) && (code c <=? 102)).

Definition ascii_of_code (z : Z) : ascii := ascii_of_N (Z.to_N z).

Definition char_upper (c : ascii) : ascii :=
  if is_ascii_lowercase c then ascii_of_code (code c - 32) else c.
Definition char_lower (c : ascii) : ascii :=
  if is_ascii_uppercase c then ascii_of_code (code c + 32) else c.

Definition to_ascii_uppercase (s : string) : string := of_chars (map char_upper (chars s)).
Definition to_ascii_lowercase (s : string) : string := of_chars (map char_lower (chars s)).

(** The UTF-8 encodings of the characters with the property White_Space. *)
Definition white_space : list (list Z) :=
  [[9]; [10]; [11]; [12]; [13]; [32]; [194; 133]; [194; 160]; [225; 154; 128]]
  ++ map (fun b => [226; 128; b]) [128; 129; 130; 131; 132; 133; 134; 135; 136; 137; 138; 168; 169; 175]
  ++ [[226; 129; 159]; [227; 128; 128]].

Fixpoint strip_prefix_codes (p : list Z) (l : list ascii) : option (list ascii) :=
  match p, l with
  | [], _ => Some l
  | z :: p', c :: l' => if code c =? z then strip_prefix_codes p' l' else None
  | _ :: _, [] => None
  end.

Fixpoint strip_first (ps : list (list Z)) (l : list ascii) : option (list ascii) :=
  match ps with
  | [] => None
  | p :: ps' => match strip_prefix_codes p l with
                | Some l' => Some l'
                | None => strip_first ps' l
                end
  end.

(** Strips encodings of the list [ps] while one of them is a prefix; the fuel
    is the number of bytes, and each step removes at least one. *)
Fixpoint strip_while (fuel : nat) (ps : list (list Z)) (l : list ascii) : list ascii :=
  match fuel with
  | O => l
  | S fuel' => match strip_first ps l with
               | Some l' => strip_while fuel' ps l'
               | None => l
               end
  end.

Definition trim_start_chars (l : list ascii) : list ascii := strip_while (length l) white_space l.
Definition trim_end_chars (l : list ascii) : list ascii :=
  rev (strip_while (length l) (map (@rev Z) white_space) (rev l)).

(** [str::trim]. *)
Definition trim (s : string) : string := of_chars (trim_end_chars (trim_start_chars (chars s))).

(** [str::trim_end_matches(char)]. *)
Fixpoint drop_while (f : ascii -> bool) (l : list ascii) : list ascii :=
  match l with
  | c :: l' => if f c then drop_while f l' else l
  | [] => []
  end.
Definition trim_end_matches (c : ascii) (s : string) : string :=
  of_chars (rev (drop_while (char_eqb c) (rev (chars s)))).

(** [&s[from..to]] at character boundaries. *)
Definition slice (from to : nat) (s : string) : string := of_chars (take (to - from) (drop from (chars s))).

(** [{n}] of a formatted unsigned integer. *)
Definition fmt_u (z : Z) : string := pretty (Z.to_N z).

(** Lowercase hexadecimal digits, [is_ascii_hexdigit() && !is_ascii_uppercase()]. *)
Definition is_lower_hex (c : ascii) : bool := is_ascii_hexdigit c && negb (is_ascii_uppercase c).

(** A 64-character lowercase hexadecimal string: the test every crate makes on
    the text of a digest. *)
Definition is_lower_hex_hash (value : string) : bool :=
  (str_len value =? 64) && all_chars is_lower_hex value.

(** ** Lemmas *)

Lemma chars_of_chars l : chars (of_chars l) = l.
Proof. apply String.list_ascii_of_string_of_list_ascii. Qed.

Lemma of_chars_chars s : of_chars (chars s) = s.
Proof. apply String.string_of_list_ascii_of_string. Qed.

Lemma chars_inj s t : chars s = chars t -> s = t.
Proof. intros H. by rewrite <- (of_chars_chars s), H, of_chars_chars. Qed.

Lemma length_chars s : length (chars s) = String.length s.
Proof. unfold chars. induction s; simpl; congruence. Qed.

Lemma char_eqb_eq a b : char_eqb a b = true <-> a = b.
Proof. apply Ascii.eqb_eq. Qed.

Lemma code_range c : 0 <= code c < 256.
Proof. unfold code. pose proof (N_ascii_bounded c). lia. Qed.

Lemma code_inj a b : code a = code b -> a = b.
Proof.
  unfold code. intros H%N2Z.inj.
  by rewrite <- (ascii_N_embedding a), <- (ascii_N_embedding b), H.
Qed.

Lemma code_of_code z : 0 <= z < 256 -> code (ascii_of_code z) = z.
Proof. intros. unfold code, ascii_of_code. rewrite N_ascii_embedding; lia. Qed.

Lemma is_empty_true s : is_empty s = true <-> s = ""%string.
Proof. apply String.eqb_eq. Qed.

Lemma all_chars_spec f s : all_chars f s = true <-> forall c, c ∈ chars s -> f c = true.
Proof. unfold all_chars. rewrite forallb_forall. by setoid_rewrite list_elem_of_In. Qed.

Lemma any_char_false f s : any_char f s = false <-> forall c, c ∈ chars s -> f c = false.
Proof.
  unfold any_char. split.
  - intros H c Hc. destruct (f c) eqn:E; [|done].
    assert (existsb f (chars s) = true); [|congruence].
    apply existsb_exists. exists c. by rewrite <- list_elem_of_In.
  - intros H. destruct (existsb f (chars s)) eqn:E; [|done].
    apply existsb_exists in E as (c & Hc & Hf). apply list_elem_of_In in Hc. by rewrite H in Hf.
Qed.

Lemma contains_char_false c s : contains_char c s = false <-> c ∉ chars s.
Proof.
  unfold contains_char. rewrite any_char_false. split.
  - intros H Hc. specialize (H c Hc). by rewrite (proj2 (char_eqb_eq c c)) in H.
  - intros H d Hd. destruct (char_eqb c d) eqn:E; [|done]. apply char_eqb_eq in E as <-. done.
Qed.

Lemma split_on_nonnil c s : split_on c s <> [].
Proof. destruct s as [|x s]; simpl; [done|]. by destruct (char_eqb x c), (split_on c s). Qed.

Lemma concat_cons_char sep x p ps :
  String.concat sep (String x p :: ps) = String x (String.concat sep (p :: ps)).
Proof. by destruct ps. Qed.

(** Joining the pieces of a split with the separator gives the text back. *)
Lemma join_split c s : join (String c EmptyString) (split_on c s) = s.
Proof.
  unfold join. induction s as [|x s IH]; [done|]. simpl split_on.
  pose proof (split_on_nonnil c s). destruct (char_eqb x c) eqn:E.
  - apply char_eqb_eq in E as ->. destruct (split_on c s) eqn:Es; [done|].
    change (String.concat (String c "") ("" :: s0 :: l)%string)
      with (String c (String.concat (String c "") (s0 :: l))). by rewrite IH.
  - destruct (split_on c s) as [|p ps]; [done|]. by rewrite concat_cons_char, IH.
Qed.

(** No piece of a split holds the separator, and its characters are the
    text's. *)
Lemma split_on_chars c s p d : p ∈ split_on c s -> d ∈ chars p -> d ∈ chars s /\ d <> c.
Proof.
  revert p. induction s as [|x s IH]; intros p; simpl.
  { intros ->%list_elem_of_singleton. by intros ?%elem_of_nil. }
  destruct (char_eqb x c) eqn:E.
  { intros [->|H]%elem_of_cons Hd; [by apply elem_of_nil in Hd|].
    destruct (IH p H Hd). split; [by right|done]. }
  assert (x <> c) by (intros ->; by rewrite (proj2 (char_eqb_eq c c)) in E).
  pose proof (split_on_nonnil c s). destruct (split_on c s) as [|q ps]; [done|].
  intros [->|H']%elem_of_cons Hd.
  - simpl in Hd. apply elem_of_cons in Hd as [->|Hd]; [split; [left|done]|].
    destruct (IH q (list_elem_of_here _ _) Hd). split; [by right|done].
  - destruct (IH p (list_elem_of_further _ _ _ H') Hd). split; [by right|done].
Qed.

Lemma char_in_split c s d : d ∈ chars s -> d <> c -> exists p, p ∈ split_on c s /\ d ∈ chars p.
Proof.
  induction s as [|x s IH]; simpl; [by intros ?%elem_of_nil|].
  intros [->|Hd]%elem_of_cons Hne.
  - destruct (char_eqb x c) eqn:E; [by apply char_eqb_eq in E|].
    pose proof (split_on_nonnil c s). destruct (split_on c s) as [|q qs]; [done|].
    eexists. split; [left|]. simpl. left.
  - destruct (IH Hd Hne) as (p & Hp & Hdp). destruct (char_eqb x c).
    { exists p. split; [by right|done]. }
    destruct (split_on c s) as [|q qs]; [by apply elem_of_nil in Hp|].
    apply elem_of_cons in Hp as [->|Hp]; [|exists p; split; [by right|done]].
    eexists. split; [left|]. simpl. by right.
Qed.

(** The text order is total: [str: Ord] compares bytes from the left. *)
Lemma ascii_compare_code a b : Ascii.compare a b = (code a ?= code b).
Proof. unfold Ascii.compare, code. by rewrite N2Z.inj_compare. Qed.

Lemma str_compare_refl s : String.compare s s = Eq.
Proof. induction s as [|a s IH]; simpl; [done|]. by rewrite ascii_compare_code, Z.compare_refl. Qed.

Lemma str_compare_trans s t u :
  String.compare s t <> Gt -> String.compare t u <> Gt -> String.compare s u <> Gt.
Proof.
  revert t u. induction s as [|a s IH]; intros [|b t] [|c u]; simpl; try done.
  rewrite !ascii_compare_code.
  destruct (Z.compare_spec (code a) (code b)), (Z.compare_spec (code b) (code c)),
    (Z.compare_spec (code a) (code c)); try done; try lia. eauto.
Qed.

Lemma str_lt_trans s t u :
  String.compare s t = Lt -> String.compare t u = Lt -> String.compare s u = Lt.
Proof.
  intros H1 H2. pose proof (str_compare_trans s t u) as H.
  destruct (String.compare s u) eqn:E; [|done|].
  - apply String.compare_eq_iff in E as ->. rewrite String.compare_antisym, H2 in H1. done.
  - rewrite H1, H2 in H. by destruct H.
Qed.

Definition str_lt (s t : string) : Prop := String.compare s t = Lt.

#[export] Instance str_lt_transitive : Transitive str_lt.
Proof. intros ???. apply str_lt_trans. Qed.

Lemma str_lt_irrefl s : ~ str_lt s s.
Proof. unfold str_lt. by rewrite str_compare_refl. Qed.

#[export] Instance str_compare_order : TotalPreorder String.compare.
Proof. split; [apply String.compare_antisym|apply str_compare_trans]. Qed.

(** Comparing by a key. *)
Lemma cmp_by_key {A B} (f : A -> B) (cmp : B -> B -> comparison) :
  TotalPreorder cmp -> TotalPreorder (fun x y => cmp (f x) (f y)).
Proof. intros [H1 H2]. split; eauto. Qed.

Lemma bool_cmp_order : TotalPreorder bool_cmp.
Proof. split; [by intros [] []|by intros [] [] []]. Qed.

Lemma Z_compare_order : TotalPreorder Z.compare.
Proof.
  split; [intros; by rewrite Z.compare_antisym|]. intros x y z.
  destruct (Z.compare_spec x y), (Z.compare_spec y z), (Z.compare_spec x z); try done; lia.
Qed.

(** Lexicographic composition ([then_with]) of total preorders. *)
Lemma then_with_order {A} (c1 c2 : A -> A -> comparison) :
  TotalPreorder c1 -> TotalPreorder c2 -> TotalPreorder (fun x y => then_with (c1 x y) (c2 x y)).
Proof.
  intros [A1 T1] [A2 T2]. split.
  - intros x y. rewrite (A1 x y), (A2 x y). by destruct (c1 y x), (c2 y x).
  - intros x y z. specialize (T1 x y z) as Txyz. pose proof (T1 y z x) as Tyzx.
    pose proof (T1 z x y) as Tzxy. specialize (T2 x y z).
    pose proof (A1 x y). pose proof (A1 y z). pose proof (A1 x z).
    destruct (c1 x y), (c1 y z), (c1 x z), (c1 y x), (c1 z y), (c1 z x); simpl in *;
      try done; naive_solver.
Qed.

#[export] Hint Resolve cmp_by_key bool_cmp_order Z_compare_order then_with_order : launcher.

(** A valid digest text is 64 characters long and only holds [0-9a-f]. *)
Lemma is_lower_hex_hash_length v : is_lower_hex_hash v = true -> length (chars v) = 64%nat.
Proof. unfold is_lower_hex_hash, str_len. intros H. breflect. rewrite length_chars. lia. Qed.

Lemma is_lower_hex_hash_all v c : is_lower_hex_hash v = true -> c ∈ chars v -> is_lower_hex c = true.
Proof. unfold is_lower_hex_hash. intros H. breflect. by apply all_chars_spec. Qed.

(** ** Examples *)

Example split_ex : split_on "/" "a//b" = ["a"; ""; "b"]%string.
Proof. reflexivity. Qed.

Example trim_ex : trim (of_chars (map ascii_of_code [32; 194; 160; 97; 32; 98; 227; 128; 128; 9])) = "a b"%string.
Proof. vm_compute. reflexivity. Qed.

Example ends_with_ex : ends_with ".tar" "game.tar" = true /\ ends_with ".tar" "tar" = false.
Proof. vm_compute. split; reflexivity. Qed.

(** ** Concatenation *)

Lemma chars_app s t : chars (s +:+ t) = chars s ++ chars t.
Proof. unfold chars. induction s as [|c s IH]; simpl; [done|]. by rewrite IH. Qed.

Lemma append_inv_tail (a b t : string) : (a +:+ t)%string = (b +:+ t)%string -> a = b.
Proof.
  intros E. apply chars_inj. apply (f_equal chars) in E. rewrite !chars_app in E. by apply app_inv_tail in E.
Qed.
