(* ===== verification/Bytes.v ===== *)
(** * Bytes: slices, little-endian integers and hexadecimal digests

    A [&[u8]] is a [list byte]; offsets and lengths are [u64]/[usize] values
    of a 64-bit target, kept in [Z]. *)
From stdpp Require Import base strings list.
From Stdlib Require Import ZArith Lia Ascii Strings.Byte.
From coqutil Require Import Byte Word.LittleEndianList.
From S2P Require Import Prelude Text.
Local Open Scope Z_scope.

(** ** Definitions *)

Notation byte := Init.Byte.byte.

#[export] Instance byte_eq_dec : EqDecision byte := Byte.byte_eq_dec.

Definition bytes_of_string (s : string) : list byte := String.list_byte_of_string s.

(** [slice::get(start..end)]. *)
Definition get_range {A : Type} (l : list A) (s e : Z) : option (list A) :=
  if (0 <=? s) && (s <=? e) && (e <=? len64 l)
  then Some (take (Z.to_nat (e - s)) (drop (Z.to_nat s) l))
  else None.

(** [l[off..off + new.len()].copy_from_slice(new)], for a range in bounds. *)
Definition patch {A : Type} (off : nat) (new l : list A) : list A :=
  take off l ++ new ++ drop (off + length new) l.

(** [slice::starts_with] on bytes. *)
Definition bytes_eqb (a b : list byte) : bool := bool_decide (a = b).

Definition bytes_prefix (p l : list byte) : bool := bytes_eqb p (take (length p) l).

(** [{u16,u32,u64}::to_le_bytes] and [from_le_bytes]. *)
Definition to_le (n : nat) (z : Z) : list byte := LittleEndianList.le_split n z.
Definition from_le (bs : list byte) : Z := LittleEndianList.le_combine bs.

(** Lowercase hexadecimal text of a byte sequence ([{byte:02x}]). *)
Definition hex_digit (n : Z) : ascii := ascii_of_code (if n <? 10 then 48 + n else 87 + n).

Definition hex_of_byte (b : byte) : list ascii :=
  [hex_digit (byte.unsigned b / 16); hex_digit (byte.unsigned b mod 16)].

Definition to_hex (bs : list byte) : string := of_chars (flat_map hex_of_byte bs).

(** The value of a lowercase hexadecimal digit. *)
Definition hex_digit_value (c : ascii) : option Z :=
  if is_ascii_digit c then Some (code c - 48)
  else if (97 <=? code c) && (code c <=? 102) then Some (code c - 97 + 10)
  else None.

(** [slice::chunks_exact(2)]. *)
Fixpoint chunks_exact2 {A : Type} (l : list A) : list (A * A) :=
  match l with
  | a :: b :: l' => (a, b) :: chunks_exact2 l'
  | _ => []
  end.

(** ** Lemmas on slices *)

Lemma get_range_Some {A} (l : list A) s e r :
  get_range l s e = Some r <->
  (0 <= s <= e /\ e <= len64 l) /\ r = take (Z.to_nat (e - s)) (drop (Z.to_nat s) l).
Proof.
  unfold get_range. destruct (Z.leb_spec 0 s), (Z.leb_spec s e), (Z.leb_spec e (len64 l));
    simpl; split; intros; naive_solver lia.
Qed.

Lemma get_range_None {A} (l : list A) s e :
  get_range l s e = None <-> ~ (0 <= s <= e /\ e <= len64 l).
Proof.
  unfold get_range. destruct (Z.leb_spec 0 s), (Z.leb_spec s e), (Z.leb_spec e (len64 l));
    simpl; split; intros; naive_solver lia.
Qed.

Lemma get_range_length {A} (l r : list A) s e : get_range l s e = Some r -> len64 r = e - s.
Proof.
  intros [[? ?] ->]%get_range_Some. unfold len64 in *. rewrite length_take, length_drop. lia.
Qed.

(** A range that lies after, or exactly on, the first part of an append. *)
Lemma get_range_app_r {A} (a b : list A) s e :
  len64 a <= s -> get_range (a ++ b) s e = get_range b (s - len64 a) (e - len64 a).
Proof.
  intros Hs. unfold get_range. rewrite len64_app. pose proof (len64_nonneg a).
  destruct (Z.leb_spec 0 s), (Z.leb_spec s e), (Z.leb_spec e (len64 a + len64 b)),
    (Z.leb_spec 0 (s - len64 a)), (Z.leb_spec (s - len64 a) (e - len64 a)),
    (Z.leb_spec (e - len64 a) (len64 b)); try lia; simpl; try done.
  f_equal. replace (e - len64 a - (s - len64 a)) with (e - s) by lia. f_equal.
  rewrite drop_app_ge by (unfold len64 in *; lia). f_equal. unfold len64. lia.
Qed.

Lemma get_range_app_l {A} (a b : list A) s e :
  e <= len64 a -> get_range (a ++ b) s e = get_range a s e.
Proof.
  intros He. unfold get_range. rewrite len64_app. pose proof (len64_nonneg b).
  destruct (Z.leb_spec 0 s), (Z.leb_spec s e), (Z.leb_spec e (len64 a + len64 b)),
    (Z.leb_spec e (len64 a)); try lia; simpl; try done.
  f_equal. unfold len64 in *. rewrite drop_app_le by lia.
  rewrite take_app_le; [done|]. rewrite length_drop. lia.
Qed.

Lemma get_range_all {A} (a : list A) s e : s = 0 -> e = len64 a -> get_range a s e = Some a.
Proof.
  intros -> ->. apply get_range_Some. pose proof (len64_nonneg a). split; [lia|].
  rewrite drop_0, take_ge; [done|]. unfold len64. lia.
Qed.

Lemma get_range_here {A} (a b : list A) s e :
  s = 0 -> e = len64 a -> get_range (a ++ b) s e = Some a.
Proof. intros. rewrite get_range_app_l by lia. by apply get_range_all. Qed.

Lemma get_range_mid {A} (a b c : list A) s e :
  s = len64 a -> e = len64 a + len64 b -> get_range (a ++ b ++ c) s e = Some b.
Proof. intros. rewrite get_range_app_r by lia. apply get_range_here; lia. Qed.

(** ** Lemmas on little-endian integers *)

Lemma length_to_le n z : length (to_le n z) = n.
Proof. apply LittleEndianList.length_le_split. Qed.

Lemma len64_to_le n z : len64 (to_le n z) = Z.of_nat n.
Proof. unfold len64. by rewrite length_to_le. Qed.

Lemma from_to_le n z : 0 <= z < 2 ^ (Z.of_nat n * 8) -> from_le (to_le n z) = z.
Proof. intros. unfold from_le, to_le. rewrite LittleEndianList.le_combine_split. by apply Z.mod_small. Qed.

Lemma to_from_le bs : to_le (length bs) (from_le bs) = bs.
Proof. apply LittleEndianList.split_le_combine. Qed.

Lemma from_le_range bs : 0 <= from_le bs < 2 ^ (8 * len64 bs).
Proof. apply LittleEndianList.le_combine_bound. Qed.

(** ** Lemmas on hexadecimal text *)

Lemma chunks_exact2_flat {A} (f : byte -> A * A) bs :
  chunks_exact2 (flat_map (fun b => [(f b).1; (f b).2]) bs) = map f bs.
Proof. induction bs as [|b bs IH]; simpl; [done|]. rewrite IH. by destruct (f b). Qed.

Lemma length_flat_hex bs : length (flat_map hex_of_byte bs) = (2 * length bs)%nat.
Proof. induction bs as [|b bs IH]; simpl in *; lia. Qed.

Lemma length_to_hex bs : String.length (to_hex bs) = (2 * length bs)%nat.
Proof. unfold to_hex. rewrite <- length_chars, chars_of_chars. apply length_flat_hex. Qed.

Lemma hex_digit_code n : 0 <= n < 16 -> code (hex_digit n) = if n <? 10 then 48 + n else 87 + n.
Proof. intros. unfold hex_digit. apply code_of_code. destruct (n <? 10) eqn:E; breflect; lia. Qed.

Lemma hex_digit_value_digit n : 0 <= n < 16 -> hex_digit_value (hex_digit n) = Some n.
Proof.
  intros Hn. unfold hex_digit_value, is_ascii_digit. rewrite hex_digit_code by done.
  destruct (Z.ltb_spec n 10).
  - rewrite (proj2 (Z.leb_le _ _)), (proj2 (Z.leb_le _ _)) by lia. simpl. f_equal. lia.
  - rewrite (proj2 (Z.leb_le 48 _)), (proj2 (Z.leb_gt _ 57)) by lia. simpl.
    rewrite (proj2 (Z.leb_le _ _)), (proj2 (Z.leb_le _ _)) by lia. simpl. f_equal. lia.
Qed.

Lemma hex_digit_value_Some c n : hex_digit_value c = Some n -> 0 <= n < 16 /\ hex_digit n = c.
Proof.
  unfold hex_digit_value, is_ascii_digit. intros H.
  destruct ((48 <=? code c) && (code c <=? 57)) eqn:E;
    [|destruct ((97 <=? code c) && (code c <=? 102)) eqn:E2; [|done]];
    injection H as <-; breflect; (split; [lia|]); apply code_inj; rewrite hex_digit_code by lia;
    destruct (Z.ltb_spec (code c - 48) 10), (Z.ltb_spec (code c - 97 + 10) 10); lia.
Qed.

Lemma is_lower_hex_value c : is_lower_hex c = true -> exists n, hex_digit_value c = Some n.
Proof.
  unfold is_lower_hex, is_ascii_hexdigit, is_ascii_uppercase, hex_digit_value. intros H. breflect.
  destruct (is_ascii_digit c); simpl in *; [eauto|].
  destruct ((97 <=? code c) && (code c <=? 102)); [eauto|].
  exfalso. rewrite orb_false_r in H. breflect. apply andb_false_iff in H0 as [?|?]; breflect; lia.
Qed.

Lemma hex_digit_lower n : 0 <= n < 16 -> is_lower_hex (hex_digit n) = true.
Proof.
  intros. unfold is_lower_hex, is_ascii_hexdigit, is_ascii_uppercase, is_ascii_digit.
  rewrite hex_digit_code by done. destruct (Z.ltb_spec n 10); apply andb_true_iff;
    rewrite negb_true_iff, !orb_true_iff, !andb_true_iff, andb_false_iff, !Z.leb_le, !Z.leb_gt; lia.
Qed.

Lemma to_hex_chars bs c : c ∈ chars (to_hex bs) -> is_lower_hex c = true.
Proof.
  unfold to_hex. rewrite chars_of_chars.
  rewrite list_elem_of_In, in_flat_map. intros (b & _ & Hc). pose proof (byte.unsigned_range b).
  assert (0 <= byte.unsigned b / 16 < 16) by (split; [apply Z.div_pos|apply Z.div_lt_upper_bound]; lia).
  pose proof (Z.mod_pos_bound (byte.unsigned b) 16).
  simpl in Hc. destruct Hc as [<-|[<-|[]]]; apply hex_digit_lower; lia.
Qed.

Lemma to_hex_lower bs : length bs = 32%nat -> is_lower_hex_hash (to_hex bs) = true.
Proof.
  intros Hl. unfold is_lower_hex_hash, str_len. rewrite length_to_hex, Hl. simpl.
  apply all_chars_spec. apply to_hex_chars.
Qed.

Lemma to_hex_inj a b : to_hex a = to_hex b -> a = b.
Proof.
  unfold to_hex. intros H%(f_equal chars). rewrite !chars_of_chars in H. revert b H.
  induction a as [|x a IH]; intros [|y b]; simpl; [done..|]. intros [= H1 H2 H3].
  f_equal; [|by apply IH]. apply byte.unsigned_inj.
  pose proof (byte.unsigned_range x). pose proof (byte.unsigned_range y).
  assert (byte.unsigned x / 16 = byte.unsigned y / 16).
  { apply (f_equal hex_digit_value) in H1. rewrite !hex_digit_value_digit in H1; [by simplify_eq|..];
      split; try apply Z.div_pos; try apply Z.div_lt_upper_bound; lia. }
  assert (byte.unsigned x mod 16 = byte.unsigned y mod 16).
  { apply (f_equal hex_digit_value) in H2.
    rewrite !hex_digit_value_digit in H2 by (apply Z.mod_pos_bound; lia). by simplify_eq. }
  rewrite (Z.div_mod (byte.unsigned x) 16), (Z.div_mod (byte.unsigned y) 16) by lia. lia.
Qed.

#[export] Hint Resolve length_to_le len64_to_le to_hex_lower : launcher.

(** Two hexadecimal digits put together by shifting. *)
Lemma nibbles_unsigned h l :
  0 <= h < 16 -> 0 <= l < 16 -> byte.unsigned (byte.of_Z (Z.lor (Z.shiftl h 4) l)) = 16 * h + l.
Proof.
  intros Hh Hl.
  assert (forallb (fun h => forallb (fun l => Z.lor (Z.shiftl h 4) l =? 16 * h + l)
            (map Z.of_nat (seq 0 16))) (map Z.of_nat (seq 0 16)) = true) as Hall
    by (vm_compute; reflexivity).
  assert (forall z, 0 <= z < 16 -> In z (map Z.of_nat (seq 0 16))) as Hin.
  { intros z Hz. apply in_map_iff. exists (Z.to_nat z). rewrite in_seq. split; lia. }
  rewrite forallb_forall in Hall. specialize (Hall h (Hin h Hh)).
  rewrite forallb_forall in Hall. specialize (Hall l (Hin l Hl)).
  apply Z.eqb_eq in Hall. rewrite Hall, byte.unsigned_of_Z. unfold byte.wrap.
  apply Z.mod_small. lia.
Qed.

(** ** BLAKE3 *)

(** The hash of a third-party crate is a parameter; all that is assumed of it
    is that a digest has 32 bytes. *)
Class Blake3 : Type := blake3 : list byte -> list byte.

Class Blake3Laws `{Blake3} : Prop :=
  blake3_length : forall bs, length (blake3 bs) = 32%nat.

(** [blake3::hash(bytes).to_hex().to_string()]. *)
Definition blake3_hex `{Blake3} (bs : list byte) : string := to_hex (blake3 bs).
