(* ===== verification/Strings.v ===== *)
(** * More of [str]: splitting, lines and lossy decoding *)
From stdpp Require Import base strings list.
From Stdlib Require Import ZArith Lia Ascii.
From coqutil Require Import Byte.
From S2P Require Import Prelude Text Bytes.
Local Open Scope Z_scope.

(** ** Searching for a substring *)

Fixpoint strip_chars (p l : list ascii) : option (list ascii) :=
  match p, l with
  | [], _ => Some l
  | a :: p', c :: l' => if char_eqb a c then strip_chars p' l' else None
  | _ :: _, [] => None
  end.

(** [str::split_once]: around the first occurrence. *)
Fixpoint find_sub (p l : list ascii) : option (list ascii * list ascii) :=
  match strip_chars p l with
  | Some rest => Some ([], rest)
  | None => match l with
            | [] => None
            | c :: l' => match find_sub p l' with
                         | Some (before, after) => Some (c :: before, after)
                         | None => None
                         end
            end
  end.

Definition split_once (p s : string) : option (string * string) :=
  match find_sub (chars p) (chars s) with
  | Some (before, after) => Some (of_chars before, of_chars after)
  | None => None
  end.

(** [str::rsplit_once(char)]. *)
Definition rsplit_once (c : ascii) (s : string) : option (string * string) :=
  match find_sub [c] (rev (chars s)) with
  | Some (after, before) => Some (of_chars (rev before), of_chars (rev after))
  | None => None
  end.

(** [str::split(&str)], for a pattern that is not empty; each step removes the
    pattern, so the length of the text is enough fuel. *)
Fixpoint split_chars (fuel : nat) (p l : list ascii) : list (list ascii) :=
  match fuel with
  | O => [l]
  | S fuel' => match find_sub p l with
               | Some (before, after) => before :: split_chars fuel' p after
               | None => [l]
               end
  end.
Definition split_str (p s : string) : list string :=
  map of_chars (split_chars (String.length s) (chars p) (chars s)).

(** [str::splitn(3, char)]. *)
Definition splitn3 (c : ascii) (s : string) : string * option string * option string :=
  match split_once (String c EmptyString) s with
  | None => (s, None, None)
  | Some (a, rest) => match split_once (String c EmptyString) rest with
                      | None => (a, Some rest, None)
                      | Some (b, d) => (a, Some b, Some d)
                      end
  end.

(** [str::trim_start_matches] and [str::trim_end_matches] with a set of
    characters, and [str::trim_matches]. *)
Definition trim_start_set (f : ascii -> bool) (s : string) : string := of_chars (drop_while f (chars s)).
Definition trim_end_set (f : ascii -> bool) (s : string) : string :=
  of_chars (rev (drop_while f (rev (chars s)))).
Definition trim_set (f : ascii -> bool) (s : string) : string := trim_end_set f (trim_start_set f s).

(** [str::lines]: the lines end with a line feed, which a carriage return may
    precede; the last may lack it and then keeps its carriage return. *)
Definition strip_cr (l : list ascii) : list ascii :=
  match rev l with
  | c :: l' => if code c =? 13 then rev l' else l
  | [] => []
  end.

Fixpoint lines_from (line l : list ascii) : list (list ascii) :=
  match l with
  | [] => match line with [] => [] | _ => [rev line] end
  | c :: l' => if code c =? 10 then strip_cr (rev line) :: lines_from [] l' else lines_from (c :: line) l'
  end.
Definition lines (s : string) : list string := map of_chars (lines_from [] (chars s)).

Definition eq_ignore_ascii_case (a b : string) : bool := String.eqb (to_ascii_lowercase a) (to_ascii_lowercase b).

(** ** UTF-8 *)

Definition string_of_bytes (bs : list byte) : string := String.string_of_list_byte bs.

Definition continuation (b : option byte) : bool :=
  match b with Some b => (128 <=? byte.unsigned b) && (byte.unsigned b <=? 191) | None => false end.

Definition in_range (lo hi : Z) (b : option byte) : bool :=
  match b with Some b => (lo <=? byte.unsigned b) && (byte.unsigned b <=? hi) | None => false end.

(** The sequence at the head: how many bytes it takes and whether they are a
    character ([core::str::Utf8Chunks]). *)
Definition utf8_head (b0 : byte) (l : list byte) : nat * bool :=
  let u := byte.unsigned b0 in
  let b1 := l !! 0%nat in let b2 := l !! 1%nat in let b3 := l !! 2%nat in
  let second :=
    if u =? 224 then in_range 160 191 b1 else if u =? 237 then in_range 128 159 b1
    else if u =? 240 then in_range 144 191 b1 else if u =? 244 then in_range 128 143 b1
    else continuation b1 in
  if u <? 128 then (1%nat, true)
  else if (194 <=? u) && (u <=? 223) then if continuation b1 then (2%nat, true) else (1%nat, false)
  else if (224 <=? u) && (u <=? 239) then
    if second then if continuation b2 then (3%nat, true) else (2%nat, false) else (1%nat, false)
  else if (240 <=? u) && (u <=? 244) then
    if second then
      if continuation b2 then if continuation b3 then (4%nat, true) else (3%nat, false) else (2%nat, false)
    else (1%nat, false)
  else (1%nat, false).

Definition replacement : list byte := [Byte.xef; Byte.xbf; Byte.xbd].

Fixpoint lossy (fuel : nat) (l : list byte) : list byte :=
  match fuel, l with
  | S fuel', b :: l' =>
      let '(n, valid) := utf8_head b l' in
      (if valid then take n (b :: l') else replacement) ++ lossy fuel' (drop n (b :: l'))
  | _, _ => []
  end.

(** [String::from_utf8_lossy]. *)
Definition from_utf8_lossy (l : list byte) : string := string_of_bytes (lossy (length l) l).

Definition ascii_bytes (l : list byte) : Prop := Forall (fun b => byte.unsigned b < 128) l.

Lemma lossy_ascii l fuel : ascii_bytes l -> (length l <= fuel)%nat -> lossy fuel l = l.
Proof.
  intros Hl. revert fuel. induction Hl as [|b l Hb Hl IH]; intros [|fuel] Hf; simpl in *; try done; [lia|].
  unfold utf8_head. rewrite (proj2 (Z.ltb_lt _ _)) by done. simpl. f_equal. apply IH. lia.
Qed.

Example lines_ex : lines (of_chars (map ascii_of_code [97; 13; 10; 98; 10; 10; 99; 13])) =
  ["a"; "b"; EmptyString; of_chars (map ascii_of_code [99; 13])]%string.
Proof. reflexivity. Qed.

Example split_str_ex : split_str "--" "a--b----c" = ["a"; "b"; ""; "c"]%string.
Proof. reflexivity. Qed.

Example lossy_ex : from_utf8_lossy [Byte.x61; Byte.xe2; Byte.x82; Byte.x62; Byte.xff] =
  string_of_bytes ([Byte.x61] ++ replacement ++ [Byte.x62] ++ replacement).
Proof. reflexivity. Qed.

(** ** Texts that splitting and trimming leave alone *)

Lemma split_on_none c s : c ∉ chars s -> split_on c s = [s].
Proof.
  induction s as [|x s IH]; intros Hc; [done|]. simpl in Hc. rewrite not_elem_of_cons in Hc. destruct Hc.
  simpl. destruct (char_eqb x c) eqn:E; [by apply char_eqb_eq in E as ->|]. by rewrite IH.
Qed.

Lemma split_on_app c a s : c ∉ chars a -> split_on c (a +:+ String c s) = a :: split_on c s.
Proof.
  induction a as [|x a IH]; intros Hc; simpl.
  - by rewrite (proj2 (char_eqb_eq c c)).
  - simpl in Hc. rewrite not_elem_of_cons in Hc. destruct Hc.
    destruct (char_eqb x c) eqn:E; [by apply char_eqb_eq in E as ->|]. by rewrite IH.
Qed.

Lemma prefix_strip p s : String.prefix p s = false -> strip_chars (chars p) (chars s) = None.
Proof.
  revert s. induction p as [|a p IH]; intros [|c s]; simpl; try done.
  destruct (ascii_dec a c) as [->|Hne].
  - rewrite (proj2 (char_eqb_eq c c)) by done. apply IH.
  - destruct (char_eqb a c) eqn:E; [by apply char_eqb_eq in E|done].
Qed.

Lemma contains_str_false p s : contains_str p s = false -> find_sub (chars p) (chars s) = None.
Proof.
  induction s as [|c s IH]; cbn [contains_str]; intros [Hp Hs]%orb_false_iff; apply prefix_strip in Hp.
  - simpl in *. by rewrite Hp.
  - change (chars (String c s)) with (c :: chars s) in *. cbn [find_sub]. by rewrite Hp, IH.
Qed.

Lemma split_str_none p s : contains_str p s = false -> split_str p s = [s].
Proof.
  intros H. unfold split_str. destruct (String.length s); cbn [split_chars]; [|rewrite contains_str_false by done];
    simpl; by rewrite of_chars_chars.
Qed.

(** The characters from [0] to [z]: letters, digits and some punctuation. *)
Definition plain_char (c : ascii) : Prop := 48 <= code c <= 122.

Lemma strip_first_plain ps c l :
  Forall (fun p => match p with z :: _ => ~ 48 <= z <= 122 | [] => False end) ps -> plain_char c ->
  strip_first ps (c :: l) = None.
Proof.
  intros Hps Hc. induction Hps as [|p ps Hp _ IH]; simpl; [done|]. destruct p as [|z p]; [done|]. simpl.
  destruct (Z.eqb_spec (code c) z) as [<-|]; [done|]. exact IH.
Qed.

Lemma strip_while_plain fuel ps l :
  Forall (fun p => match p with z :: _ => ~ 48 <= z <= 122 | [] => False end) ps -> Forall plain_char l ->
  strip_while fuel ps l = l.
Proof.
  intros Hps Hl. destruct fuel as [|fuel]; [done|]. cbn [strip_while].
  destruct Hl as [|c l Hc Hl]; [|by rewrite strip_first_plain].
  replace (strip_first ps []) with (@None (list ascii)); [done|].
  induction Hps as [|[|z p] ps Hp _ IH]; simpl; done.
Qed.

Lemma white_space_not_plain :
  Forall (fun p => match p with z :: _ => ~ 48 <= z <= 122 | [] => False end) white_space /\
  Forall (fun p => match p with z :: _ => ~ 48 <= z <= 122 | [] => False end) (map (@rev Z) white_space).
Proof. split; apply Forall_forall; intros p Hp; vm_compute in Hp;
  repeat (apply elem_of_cons in Hp as [->|Hp]; [lia|]); by apply elem_of_nil in Hp. Qed.

Lemma trim_plain s : Forall plain_char (chars s) -> trim s = s.
Proof.
  intros Hs. unfold trim, trim_start_chars, trim_end_chars. destruct white_space_not_plain.
  rewrite (strip_while_plain _ white_space) by done.
  rewrite strip_while_plain by (done || by apply Forall_rev). by rewrite rev_involutive, of_chars_chars.
Qed.

Lemma trim_space_plain s : Forall plain_char (chars s) -> trim (String " " s) = s.
Proof.
  intros Hs. unfold trim, trim_start_chars. destruct white_space_not_plain.
  change (chars (String " " s)) with (" "%char :: chars s). cbn [length strip_while].
  replace (strip_first white_space (" "%char :: chars s)) with (Some (chars s)) by reflexivity.
  unfold trim_end_chars. rewrite (strip_while_plain _ white_space) by done.
  rewrite strip_while_plain by (done || by apply Forall_rev). by rewrite rev_involutive, of_chars_chars.
Qed.

Lemma trim_set_none f s : Forall (fun c => f c = false) (chars s) -> trim_set f s = s.
Proof.
  intros Hs. assert (forall l, Forall (fun c => f c = false) l -> drop_while f l = l) as Hd.
  { intros l Hl. destruct Hl as [|c l Hc Hl]; simpl; [done|]. by rewrite Hc. }
  unfold trim_set, trim_end_set, trim_start_set.
  rewrite (Hd (chars s)), chars_of_chars, Hd by (done || by apply Forall_rev).
  by rewrite rev_involutive, of_chars_chars.
Qed.

Lemma alphanumeric_plain s : all_chars is_ascii_alphanumeric s = true -> Forall plain_char (chars s).
Proof.
  intros H. apply Forall_forall. intros c Hc. pose proof (proj1 (all_chars_spec _ _) H c Hc) as Ha. revert Ha.
  unfold is_ascii_alphanumeric, is_ascii_digit, is_ascii_uppercase, is_ascii_lowercase, plain_char.
  intros Ha. breflect. repeat (apply orb_true_iff in Ha as [Ha|Ha]); breflect; lia.
Qed.

Lemma lowercase_app s t : to_ascii_lowercase (s +:+ t) = (to_ascii_lowercase s +:+ to_ascii_lowercase t)%string.
Proof.
  apply chars_inj. rewrite chars_app. unfold to_ascii_lowercase. by rewrite !chars_of_chars, chars_app, map_app.
Qed.

Lemma lowercase_alphanumeric s :
  all_chars is_ascii_alphanumeric s = true -> all_chars is_ascii_alphanumeric (to_ascii_lowercase s) = true.
Proof.
  rewrite !all_chars_spec. intros H c. unfold to_ascii_lowercase. rewrite chars_of_chars, list_elem_of_fmap.
  intros (d & -> & Hd). specialize (H d Hd). unfold char_lower.
  destruct (is_ascii_uppercase d) eqn:E; [|done]. unfold is_ascii_alphanumeric. unfold is_ascii_uppercase in E.
  breflect. unfold is_ascii_lowercase at 1. rewrite !code_of_code by lia. breflect.
  rewrite (proj2 (Z.leb_le 97 _)), (proj2 (Z.leb_le _ 122)) by lia. by rewrite orb_true_r.
Qed.
