(* ===== verification/Domain.v ===== *)
(** * Build lifecycle ([domain/src/lib.rs]) and ingestion progress
    ([worker/src/lib.rs])

    The state machine every published build goes through, and the progress
    record the worker advances along it. *)
From stdpp Require Import base list.
From Stdlib Require Import ZArith Lia.
From S2P Require Import Prelude.

(** ** Definitions *)

Inductive BuildState : Type :=
| Discovered | Analyzed | Packaged | Uploaded | Verified | Ready | Published | Failed.

#[export] Instance BuildState_eq_dec : EqDecision BuildState.
Proof. solve_decision. Defined.

(** [struct InvalidTransition]. *)
Record InvalidTransition : Type := { it_from : BuildState; it_to : BuildState }.

(** [BuildState::can_transition_to]. *)
Definition can_transition_to (self next : BuildState) : bool :=
  match self, next with
  | Discovered, Analyzed
  | Analyzed, Packaged
  | Packaged, Uploaded
  | Uploaded, Verified
  | Verified, Ready
  | Ready, Published
  | _, Failed => true
  | _, _ => false
  end.

(** [BuildState::transition]. *)
Definition transition (self next : BuildState) : result BuildState InvalidTransition :=
  if can_transition_to self next then Ok next
  else Err {| it_from := self; it_to := next |}.

(** [struct IngestionProgress]; the clock is an argument of the operations
    that read it. *)
Record IngestionProgress : Type := {
  ip_state : BuildState;
  ip_files_processed : Z;
  ip_bytes_processed : Z;
  ip_chunks_created : Z;
  ip_chunks_reused : Z;
  ip_updated_at : Z
}.

(** [IngestionProgress::new]. *)
Definition progress_new (now : Z) : IngestionProgress := {|
  ip_state := Discovered;
  ip_files_processed := 0;
  ip_bytes_processed := 0;
  ip_chunks_created := 0;
  ip_chunks_reused := 0;
  ip_updated_at := now
|}.

(** [IngestionProgress::advance]: the state only changes when the transition
    is allowed, and only then is the time stamp touched. *)
Definition advance (now : Z) (next : BuildState) (p : IngestionProgress)
  : result unit InvalidTransition * IngestionProgress :=
  match transition (ip_state p) next with
  | Ok s => (Ok tt, {| ip_state := s;
                       ip_files_processed := ip_files_processed p;
                       ip_bytes_processed := ip_bytes_processed p;
                       ip_chunks_created := ip_chunks_created p;
                       ip_chunks_reused := ip_chunks_reused p;
                       ip_updated_at := now |})
  | Err e => (Err e, p)
  end.

(** A run of the worker: the calls of [advance] with their clocks, the failed
    ones ignored by the caller. *)
Fixpoint advance_all (calls : list (Z * BuildState)) (p : IngestionProgress)
  : list BuildState * IngestionProgress :=
  match calls with
  | [] => ([], p)
  | (now, next) :: calls' =>
      match advance now next p with
      | (Ok _, p') => let (hist, q) := advance_all calls' p' in (next :: hist, q)
      | (Err _, p') => advance_all calls' p'
      end
  end.

(** The stages of the pipeline, in order. *)
Definition stages : list BuildState :=
  [Discovered; Analyzed; Packaged; Uploaded; Verified; Ready; Published].

(** ** Lemmas *)

Definition stage_rank (s : BuildState) : nat :=
  match s with
  | Discovered => 0 | Analyzed => 1 | Packaged => 2 | Uploaded => 3
  | Verified => 4 | Ready => 5 | Published => 6 | Failed => 7
  end.

Lemma can_transition_cases s n :
  can_transition_to s n = true -> n = Failed \/ (s <> Failed /\ stage_rank n = S (stage_rank s)).
Proof. destruct s, n; simpl; intros; try discriminate; auto; right; split; done. Qed.

Lemma advance_all_failed calls p hist q :
  ip_state p = Failed -> advance_all calls p = (hist, q) ->
  ip_state q = Failed /\ Forall (eq Failed) hist.
Proof.
  revert p hist q. induction calls as [|[now n] calls IH]; intros p hist q Hp; simpl.
  { intros [= <- <-]. auto. }
  unfold advance, transition. rewrite Hp. destruct n; simpl; try by apply IH.
  destruct (advance_all calls _) as [h q'] eqn:E. intros [= <- <-].
  apply IH in E as [? ?]; [|done]. auto.
Qed.

(** The accepted transitions of a run that does not end in [Failed] are the
    consecutive stages from where it starts. *)
Lemma advance_all_stages calls p hist q :
  advance_all calls p = (hist, q) -> ip_state q <> Failed ->
  map stage_rank hist = seq (S (stage_rank (ip_state p))) (length hist) /\
  stage_rank (ip_state q) = stage_rank (ip_state p) + length hist.
Proof.
  revert p hist q. induction calls as [|[now n] calls IH]; intros p hist q; simpl.
  { intros [= <- <-] _. simpl. split; [done|lia]. }
  unfold advance, transition. destruct (can_transition_to (ip_state p) n) eqn:Ec; [|apply IH].
  destruct (advance_all calls _) as [h q'] eqn:E. intros [= <- <-] Hq.
  destruct (can_transition_cases _ _ Ec) as [->|[_ Hr]].
  { apply advance_all_failed in E as [? _]; [congruence|done]. }
  apply IH in E as [E1 E2]; [|done]. simpl in *. rewrite E1, E2, Hr. split; [done|lia].
Qed.

Lemma stage_rank_inj s t : stage_rank s = stage_rank t -> s = t.
Proof. by destruct s, t. Qed.

Lemma map_stage_rank_inj l k : map stage_rank l = map stage_rank k -> l = k.
Proof.
  revert k. induction l as [|s l IH]; intros [|t k]; simpl; try done.
  intros [= H1 H2]. f_equal; [by apply stage_rank_inj|by apply IH].
Qed.

(** ** Properties *)

(** C9. A build is only published through every stage: whatever calls of
    [advance] the worker makes from a new progress record, if the state ends
    as [Published] then the accepted transitions are exactly the six stages
    after [Discovered], in order, none skipped and none repeated. *)
Theorem publication_requires_all_stages now calls hist q :
  advance_all calls (progress_new now) = (hist, q) ->
  ip_state q = Published ->
  Discovered :: hist = stages.
Proof.
  intros H Hq. apply advance_all_stages in H as [H1 H2]; [|by rewrite Hq].
  rewrite Hq in H2. simpl in H1, H2.
  apply map_stage_rank_inj. simpl. rewrite H1, <- H2. done.
Qed.

Theorem publication_requires_all_stages_witness :
  Discovered :: (advance_all
    [(1, Analyzed); (2, Published); (3, Packaged); (4, Uploaded); (5, Verified); (6, Ready);
     (7, Published)]%Z (progress_new 0%Z)).1 = stages.
Proof.
  apply (publication_requires_all_stages 0%Z _ _ _ (surjective_pairing _)).
  vm_compute. reflexivity.
Defined.
