(* ===== verification/Manifest.v ===== *)
(** * Manifests ([common/src/lib.rs])

    The manifest a build is published with, its validation, and the portable
    path rules every path of it obeys.  Unicode normalisation
    ([path.nfc()], the unicode-normalization crate) is the parameter [nfc]. *)
From stdpp Require Import base gmap strings list pretty.
From Stdlib Require Import ZArith Lia Ascii.
From S2P Require Import Prelude Text.
Local Open Scope Z_scope.

(** ** Data *)

Definition MANIFEST_SCHEMA_VERSION : Z := 1.
Definition MANIFEST_SIGNATURE_SCHEMA_VERSION : Z := 1.

Record ChunkingConfig : Type := {
  algorithm : string;
  format_version : Z;
  minimum_bytes : Z;
  average_bytes : Z;
  maximum_bytes : Z
}.

(** [ChunkingConfig::default]. *)
Definition ChunkingConfig_default : ChunkingConfig := {|
  algorithm := "fastcdc";
  format_version := 1;
  minimum_bytes := 1024 * 1024;
  average_bytes := 4 * 1024 * 1024;
  maximum_bytes := 16 * 1024 * 1024
|}.

Record EncodingConfig : Type := { encoding_id : string; encoding_level : Z }.

(** [EncodingConfig::default]. *)
Definition EncodingConfig_default : EncodingConfig :=
  {| encoding_id := "zstd-v1-level-3"; encoding_level := 3 |}.

Record ChunkRef : Type := {
  raw_hash : string;
  raw_size : Z;
  encoded_hash : string;
  encoded_size : Z;
  object_key : string
}.

#[export] Instance ChunkRef_eq_dec : EqDecision ChunkRef.
Proof. solve_decision. Defined.

Record FileRecipe : Type := {
  file_path : string;
  file_size : Z;
  file_blake3 : string;
  file_chunks : list ChunkRef
}.

Record LaunchProfile : Type := {
  executable : string;
  working_directory : string;
  arguments : list string;
  environment : gmap string string
}.

Record Manifest : Type := {
  schema_version : Z;
  manifest_id : string;
  game_id : string;
  build_id : string;
  display_version : string;
  generated_at : Z;
  chunking : ChunkingConfig;
  encoding : EncodingConfig;
  files : list FileRecipe;
  launch : LaunchProfile
}.

Inductive ManifestValidationError : Type :=
| SchemaVersion (version : Z)
| Chunking (message : string)
| Encoding
| Identity
| InvalidPath (path : string)
| DuplicatePath (path : string)
| Hash (field value : string)
| FileSize (path : string)
| ChunkSize (path : string)
| ConflictingChunk (hash : string)
| LaunchExecutable
| LaunchWorkingDirectory.

(** ** Operations *)

(** [is_reserved_windows_name]. *)
Definition is_reserved_windows_name (part : string) : bool :=
  let stem := to_ascii_uppercase (default ""%string (head (split_on "." part))) in
  existsb (String.eqb stem) ["CON"; "PRN"; "AUX"; "NUL"]%string
  || ((str_len stem =? 4)
      && (starts_with "COM" stem || starts_with "LPT" stem)
      && match String.get 3 stem with
         | Some c => is_ascii_digit c && (code "1" <=? code c) && (code c <=? code "9")
         | None => false
         end).

(** The test [normalize_manifest_path] makes on one component. *)
Definition part_rejected (part : string) : bool :=
  any_char (fun c => code c <=? 31) part
  || ends_with " " part
  || ends_with "." part
  || is_reserved_windows_name part.

(** The loop of [normalize_manifest_path] over the components. *)
Fixpoint normalize_parts (path : string) (parts : list string) (acc : list string)
  : result (list string) ManifestValidationError :=
  match parts with
  | [] => Ok acc
  | part :: parts' =>
      if is_empty part || String.eqb part "." || String.eqb part ".." then Err (InvalidPath path)
      else if part_rejected part then Err (InvalidPath path)
      else normalize_parts path parts' (acc ++ [part])
  end.

(** [normalize_manifest_path]. *)
Definition normalize_manifest_path (nfc : string -> string) (path : string)
  : result string ManifestValidationError :=
  if is_empty path || contains_char "\" path || starts_with "/" path || contains_char ":" path
  then Err (InvalidPath path)
  else if negb (String.eqb (nfc path) path) then Err (InvalidPath path)
  else
    let? parts := normalize_parts path (split_on "/" path) [] in
    Ok (join "/" parts).

(** [validate_hash]. *)
Definition validate_hash (field value : string) : result unit ManifestValidationError :=
  if negb (str_len value =? 64) || negb (all_chars is_lower_hex value)
  then Err (Hash field value)
  else Ok tt.

(** [format!("chunks/encoded/{}.bin", hash)]. *)
Definition expected_object_key (hash : string) : string :=
  ("chunks/encoded/" +:+ hash +:+ ".bin")%string.

(** The body of the loop over the chunks of one file; the state is
    [chunks_by_encoded_hash]. *)
Definition validate_chunk (path : string) (seen : gmap string ChunkRef) (chunk : ChunkRef)
  : result (gmap string ChunkRef) ManifestValidationError :=
  if (raw_size chunk =? 0) || (encoded_size chunk =? 0) then Err (ChunkSize path)
  else
    let? _ := validate_hash "raw" (raw_hash chunk) in
    let? _ := validate_hash "encoded" (encoded_hash chunk) in
    if negb (String.eqb (object_key chunk) (expected_object_key (encoded_hash chunk)))
    then Err (InvalidPath (object_key chunk))
    else match seen !! encoded_hash chunk with
         | Some existing =>
             if bool_decide (existing = chunk) then Ok seen
             else Err (ConflictingChunk (encoded_hash chunk))
         | None => Ok (<[encoded_hash chunk := chunk]> seen)
         end.

(** The sum of the raw sizes with [try_fold] of [checked_add]. *)
Definition chunks_size (chunks : list ChunkRef) : option Z :=
  fold_left (fun total c => match total with
                            | Some t => checked_add t (raw_size c)
                            | None => None
                            end) chunks (Some 0).

(** The body of the loop over the files; the state is [paths] and
    [chunks_by_encoded_hash]. *)
Definition validate_file (nfc : string -> string)
  (state : gset string * gmap string ChunkRef) (file : FileRecipe)
  : result (gset string * gmap string ChunkRef) ManifestValidationError :=
  let '(paths, seen) := state in
  let? normalized := normalize_manifest_path nfc (file_path file) in
  if negb (String.eqb normalized (file_path file)) then Err (InvalidPath (file_path file))
  else if bool_decide (file_path file ∈ paths) then Err (DuplicatePath (file_path file))
  else
    let paths := {[file_path file]} ∪ paths in
    let? _ := validate_hash "file" (file_blake3 file) in
    match chunks_size (file_chunks file) with
    | None => Err (FileSize (file_path file))
    | Some size =>
        if negb (size =? file_size file) then Err (FileSize (file_path file))
        else
          let? seen := try_fold (validate_chunk (file_path file)) seen (file_chunks file) in
          Ok (paths, seen)
    end.

(** The launch checks at the end of [Manifest::validate]. *)
Definition validate_launch (nfc : string -> string) (m : Manifest)
  : result unit ManifestValidationError :=
  let l := launch m in
  let? exe := map_err (fun _ => LaunchExecutable) (normalize_manifest_path nfc (executable l)) in
  if negb (String.eqb exe (executable l)) then Err LaunchExecutable
  else if negb (existsb (fun f => String.eqb (file_path f) exe) (files m)) then Err LaunchExecutable
  else if negb (String.eqb (working_directory l) ".") then
    let? wd := map_err (fun _ => LaunchWorkingDirectory)
                 (normalize_manifest_path nfc (working_directory l)) in
    if negb (String.eqb wd (working_directory l)) then Err LaunchWorkingDirectory else Ok tt
  else Ok tt.

(** [Manifest::validate]. *)
Definition validate (nfc : string -> string) (m : Manifest)
  : result unit ManifestValidationError :=
  if negb (schema_version m =? MANIFEST_SCHEMA_VERSION)
  then Err (SchemaVersion (schema_version m))
  else if is_empty (trim (manifest_id m)) || is_empty (trim (game_id m))
          || is_empty (trim (build_id m)) || is_empty (trim (display_version m))
  then Err Identity
  else
    let c := chunking m in
    if negb (String.eqb (algorithm c) "fastcdc")
       || negb (format_version c =? 1)
       || (minimum_bytes c =? 0)
       || (average_bytes c <? minimum_bytes c)
       || (maximum_bytes c <? average_bytes c)
    then Err (Chunking (algorithm c +:+ ":" +:+ fmt_u (minimum_bytes c) +:+ ":"
                        +:+ fmt_u (average_bytes c) +:+ ":" +:+ fmt_u (maximum_bytes c))%string)
    else if negb (String.eqb (encoding_id (encoding m)) "zstd-v1-level-3")
            || negb (encoding_level (encoding m) =? 3)
    then Err Encoding
    else
      let? _ := try_fold (validate_file nfc) (∅, ∅) (files m) in
      validate_launch nfc m.

(** ** Specification *)

Section spec.
Context (nfc : string -> string).

(** A component every supported platform stores as it is. *)
Definition portable_part (part : string) : Prop :=
  part <> ""%string /\ part <> "."%string /\ part <> ".."%string /\ part_rejected part = false.

(** A portable relative path. *)
Definition valid_path (path : string) : Prop :=
  path <> ""%string /\ contains_char "\" path = false /\ starts_with "/" path = false /\
  contains_char ":" path = false /\ nfc path = path /\
  Forall portable_part (split_on "/" path).

Definition valid_chunk (c : ChunkRef) : Prop :=
  raw_size c <> 0 /\ encoded_size c <> 0 /\
  is_lower_hex_hash (raw_hash c) = true /\ is_lower_hex_hash (encoded_hash c) = true /\
  object_key c = expected_object_key (encoded_hash c).

Definition valid_file (f : FileRecipe) : Prop :=
  valid_path (file_path f) /\ is_lower_hex_hash (file_blake3 f) = true /\
  sumZ raw_size (file_chunks f) = file_size f /\ Forall valid_chunk (file_chunks f).

(** Chunks with one encoded hash are one chunk. *)
Definition chunks_agree (cs : list ChunkRef) : Prop :=
  forall c d, c ∈ cs -> d ∈ cs -> encoded_hash c = encoded_hash d -> c = d.

Definition all_chunks (fs : list FileRecipe) : list ChunkRef := concat (map file_chunks fs).

Definition valid_chunking (c : ChunkingConfig) : Prop :=
  algorithm c = "fastcdc"%string /\ format_version c = 1 /\ minimum_bytes c <> 0 /\
  minimum_bytes c <= average_bytes c <= maximum_bytes c.

Definition valid_launch (m : Manifest) : Prop :=
  valid_path (executable (launch m)) /\
  executable (launch m) ∈ map file_path (files m) /\
  (working_directory (launch m) = "."%string \/ valid_path (working_directory (launch m))).

Definition identified (m : Manifest) : Prop :=
  Forall (fun s => trim s <> ""%string) [manifest_id m; game_id m; build_id m; display_version m].

(** What an accepted manifest promises to its readers. *)
Definition valid_manifest (m : Manifest) : Prop :=
  schema_version m = MANIFEST_SCHEMA_VERSION /\ identified m /\
  valid_chunking (chunking m) /\
  encoding_id (encoding m) = "zstd-v1-level-3"%string /\ encoding_level (encoding m) = 3 /\
  Forall valid_file (files m) /\ NoDup (map file_path (files m)) /\
  chunks_agree (all_chunks (files m)) /\ valid_launch m.

(** The sizes of a manifest are [u64]s. *)
Definition typed_sizes (m : Manifest) : Prop :=
  Forall (fun f => is_u64 (file_size f) /\ Forall (fun c => is_u64 (raw_size c)) (file_chunks f))
    (files m).

(** Lexical resolution of path components below a directory: a [..] leaves the
    directory, empty components and [.] are skipped. *)
Fixpoint resolve (base : list string) (parts : list string) : list string :=
  match parts with
  | [] => base
  | p :: ps => resolve (if String.eqb p ".." then removelast base
                        else if String.eqb p "." || is_empty p then base
                        else base ++ [p]) ps
  end.

(** ** Lemmas *)

Lemma validate_hash_Ok field v : validate_hash field v = Ok tt <-> is_lower_hex_hash v = true.
Proof.
  unfold validate_hash, is_lower_hex_hash.
  destruct (str_len v =? 64), (all_chars is_lower_hex v); simpl; split; done.
Qed.

Lemma validate_hash_cases field v :
  validate_hash field v = if is_lower_hex_hash v then Ok tt else Err (Hash field v).
Proof.
  unfold validate_hash, is_lower_hex_hash.
  by destruct (str_len v =? 64), (all_chars is_lower_hex v).
Qed.

Lemma normalize_parts_Ok path parts acc r :
  normalize_parts path parts acc = Ok r <-> r = acc ++ parts /\ Forall portable_part parts.
Proof.
  revert acc. induction parts as [|p ps IH]; intros acc; simpl.
  { rewrite app_nil_r. split; [intros [= ->]; auto|by intros [-> _]]. }
  destruct (is_empty p || String.eqb p "." || String.eqb p "..") eqn:E1.
  { split; [done|]. intros [_ H]. apply Forall_cons in H as [(?&?&?&?) _].
    rewrite !orb_true_iff in E1. unfold is_empty in E1. rewrite !String.eqb_eq in E1. naive_solver. }
  destruct (part_rejected p) eqn:E2.
  { split; [done|]. intros [_ H]. apply Forall_cons in H as [(?&?&?&?) _]. congruence. }
  rewrite IH, <- app_assoc, Forall_cons. unfold is_empty in E1. breflect. unfold portable_part.
  naive_solver.
Qed.

(** [normalize_manifest_path] accepts exactly the portable paths, and returns
    them unchanged. *)
Lemma normalize_Ok path q :
  normalize_manifest_path nfc path = Ok q <-> q = path /\ valid_path path.
Proof.
  unfold normalize_manifest_path, valid_path.
  destruct (_ || _ || _ || _) eqn:E.
  { split; [done|]. rewrite !orb_true_iff, is_empty_true in E. naive_solver congruence. }
  destruct (String.eqb (nfc path) path) eqn:En; simpl; breflect; [|naive_solver].
  rewrite rbind_Ok. setoid_rewrite normalize_parts_Ok. simpl. split.
  - intros (parts & [-> HF] & [= <-]). rewrite join_split. unfold is_empty in *. breflect. done.
  - intros [-> (?&?&?&?&?&?)]. exists (split_on "/" path). by rewrite join_split.
Qed.

Lemma normalize_cases path :
  (normalize_manifest_path nfc path = Ok path /\ valid_path path) \/
  (exists e, normalize_manifest_path nfc path = Err e /\ ~ valid_path path).
Proof.
  destruct (normalize_manifest_path nfc path) eqn:E.
  - apply normalize_Ok in E as [-> ?]. by left.
  - right. eexists. split; [done|]. intros Hv.
    assert (normalize_manifest_path nfc path = Ok path) by by apply normalize_Ok. congruence.
Qed.

Lemma normalize_valid path :
  valid_path path -> normalize_manifest_path nfc path = Ok path.
Proof. intros. by apply normalize_Ok. Qed.

Lemma normalize_err_path path e : normalize_manifest_path nfc path = Err e -> e = InvalidPath path.
Proof.
  unfold normalize_manifest_path. destruct (_ || _ || _ || _); [by intros [= <-]|].
  destruct (negb _); [by intros [= <-]|]. rewrite rbind_Err. intros [H|(?&_&?)]; [|done].
  revert H. generalize (@nil string). induction (split_on "/" path) as [|p ps IH]; intros acc; simpl; [done|].
  destruct (_ || _ || _); [by intros [= <-]|]. destruct (part_rejected p); [by intros [= <-]|apply IH].
Qed.

Lemma resolve_portable base parts : Forall portable_part parts -> resolve base parts = base ++ parts.
Proof.
  intros H. revert base. induction H as [|p ps (H1&H2&H3&_) _ IH]; intros base; simpl.
  { by rewrite app_nil_r. }
  apply String.eqb_neq in H1, H2, H3. unfold is_empty. rewrite H1, H2, H3. simpl.
  by rewrite IH, <- app_assoc.
Qed.

Lemma chunks_size_Some cs s :
  Forall (fun c => is_u64 (raw_size c)) cs ->
  chunks_size cs = Some s <-> s = sumZ raw_size cs /\ sumZ raw_size cs <= u64_max.
Proof.
  unfold chunks_size. intros H.
  assert (forall b, fold_left (fun total c => match total with Some t => checked_add t (raw_size c) | None => None end)
      cs b = match b with None => None | Some t => if decide (cs = []) then Some t else
        if t + sumZ raw_size cs <=? u64_max then Some (t + sumZ raw_size cs) else None end) as Hf.
  { induction H as [|c cs Hc Hcs IH]; intros [b|]; simpl; try done.
    - rewrite IH. destruct (decide (c :: cs = [])) as [|_]; [done|]. unfold checked_add.
      assert (0 <= sumZ raw_size cs) by (apply sumZ_nonneg; rewrite Forall_forall in Hcs; intros d Hd; apply Hcs in Hd; unfold is_u64 in Hd; lia).
      unfold is_u64 in Hc. rewrite Z.add_assoc.
      destruct (Z.leb_spec (b + raw_size c) u64_max), (Z.leb_spec (b + raw_size c + sumZ raw_size cs) u64_max);
        try done; try lia; destruct (decide (cs = [])) as [->|]; simpl in *; try done; try (f_equal; lia); lia.
    - by rewrite IH. }
  rewrite Hf. clear Hf H. destruct (decide (cs = [])) as [->|].
  - simpl. unfold u64_max. split; [intros [= <-]; done|intros [-> _]; done].
  - rewrite Z.add_0_l. destruct (Z.leb_spec (sumZ raw_size cs) u64_max) as [Hle|Hgt];
      (split; [intros [= <-]|intros [-> ?]]); try done; lia.
Qed.

(** The table of the loop over chunks holds the chunks seen so far. *)
Definition represents (seen : gmap string ChunkRef) (cs : list ChunkRef) : Prop :=
  forall h c, seen !! h = Some c <-> c ∈ cs /\ encoded_hash c = h.

Lemma represents_agree seen cs : represents seen cs -> chunks_agree cs.
Proof.
  intros H c d Hc Hd E. assert (seen !! encoded_hash c = Some c) by by apply H.
  assert (seen !! encoded_hash c = Some d) by by apply H. congruence.
Qed.

Lemma validate_chunk_valid path seen c :
  validate_chunk path seen c = 
  if (raw_size c =? 0) || (encoded_size c =? 0) then Err (ChunkSize path)
  else if negb (is_lower_hex_hash (raw_hash c)) then Err (Hash "raw" (raw_hash c))
  else if negb (is_lower_hex_hash (encoded_hash c)) then Err (Hash "encoded" (encoded_hash c))
  else if negb (String.eqb (object_key c) (expected_object_key (encoded_hash c)))
  then Err (InvalidPath (object_key c))
  else match seen !! encoded_hash c with
       | Some d => if bool_decide (d = c) then Ok seen else Err (ConflictingChunk (encoded_hash c))
       | None => Ok (<[encoded_hash c := c]> seen)
       end.
Proof.
  unfold validate_chunk. rewrite !validate_hash_cases.
  destruct (_ || _); [done|].
  destruct (is_lower_hex_hash (raw_hash c)); simpl; [|done].
  by destruct (is_lower_hex_hash (encoded_hash c)); simpl.
Qed.

Lemma validate_chunk_sound path seen cs c seen' :
  represents seen cs -> validate_chunk path seen c = Ok seen' ->
  valid_chunk c /\ represents seen' (cs ++ [c]).
Proof.
  intros Hr. rewrite validate_chunk_valid. intros H.
  repeat (case_match; [done|]). breflect. split; [done|].
  intros h d. setoid_rewrite elem_of_app. setoid_rewrite list_elem_of_singleton.
  destruct (seen !! encoded_hash c) as [e|] eqn:E.
  - destruct (bool_decide (e = c)) eqn:Ed; [|done]. breflect. subst e. injection H as <-.
    rewrite (Hr h d). apply Hr in E. naive_solver.
  - injection H as <-. rewrite lookup_insert_Some, (Hr h d). split.
    + naive_solver.
    + intros [[Hd| ->] <-]; [|by left]. right. split; [|done]. intros Eh.
      assert (seen !! encoded_hash c = Some d) by (apply Hr; auto). congruence.
Qed.

Lemma validate_chunk_complete path seen cs c :
  represents seen cs -> valid_chunk c -> chunks_agree (cs ++ [c]) ->
  exists seen', validate_chunk path seen c = Ok seen'.
Proof.
  intros Hr (H1 & H2 & H3 & H4 & H5) Ha. rewrite validate_chunk_valid.
  apply Z.eqb_neq in H1, H2. rewrite H1, H2, H3, H4, H5, String.eqb_refl. simpl.
  destruct (seen !! encoded_hash c) as [d|] eqn:E; [|eauto].
  apply Hr in E as [Hd Eh]. rewrite bool_decide_eq_true_2; [eauto|].
  apply Ha; [set_solver..|done].
Qed.

Lemma validate_chunks_sound path l : forall seen cs seen',
  represents seen cs -> try_fold (validate_chunk path) seen l = Ok seen' ->
  Forall valid_chunk l /\ represents seen' (cs ++ l).
Proof.
  induction l as [|c l IH]; intros seen cs seen' Hr; simpl.
  { intros [= <-]. by rewrite app_nil_r. }
  rewrite rbind_Ok. intros (s & H1 & H2). eapply validate_chunk_sound in H1 as [? Hs]; [|done].
  apply (IH _ _ _ Hs) in H2 as [? Hs']. rewrite <- app_assoc in Hs'. by split; [constructor|].
Qed.

Lemma validate_chunks_complete path l : forall seen cs,
  represents seen cs -> Forall valid_chunk l -> chunks_agree (cs ++ l) ->
  exists seen', try_fold (validate_chunk path) seen l = Ok seen'.
Proof.
  induction l as [|c l IH]; intros seen cs Hr Hv Ha; simpl; [eauto|].
  apply Forall_cons in Hv as [Hc Hl].
  destruct (validate_chunk_complete path seen cs c) as [s Hs]; [done..|intros ????; apply Ha; set_solver|].
  rewrite Hs. simpl. eapply validate_chunk_sound in Hs as [_ Hs]; [|done].
  eapply IH; [done..|]. by rewrite <- app_assoc.
Qed.

(** The state of the loop over files, after the files [fs]. *)
Definition files_state (st : gset string * gmap string ChunkRef) (fs : list FileRecipe) : Prop :=
  st.1 = list_to_set (map file_path fs) /\ NoDup (map file_path fs) /\
  represents st.2 (all_chunks fs).

Definition typed_file (f : FileRecipe) : Prop :=
  is_u64 (file_size f) /\ Forall (fun c => is_u64 (raw_size c)) (file_chunks f).

Lemma all_chunks_snoc fs f : all_chunks (fs ++ [f]) = all_chunks fs ++ file_chunks f.
Proof. unfold all_chunks. by rewrite map_app, concat_app; simpl; rewrite app_nil_r. Qed.

Lemma validate_file_sound st fs f st' :
  typed_file f -> files_state st fs -> validate_file nfc st f = Ok st' ->
  valid_file f /\ files_state st' (fs ++ [f]).
Proof.
  destruct st as [paths seen]. intros [Hu1 Hu2] (Hp & Hn & Hr) H. simpl in *. unfold validate_file in H.
  apply rbind_Ok in H as (q & Hq & H). apply normalize_Ok in Hq as [-> Hv].
  rewrite String.eqb_refl in H. simpl in H. case_bool_decide as Hin; [done|].
  rewrite validate_hash_cases in H. destruct (is_lower_hex_hash (file_blake3 f)) eqn:Eh; [|done].
  simpl in H. destruct (chunks_size (file_chunks f)) as [s|] eqn:Es; [|done].
  apply chunks_size_Some in Es as [-> _]; [|done].
  destruct (negb _) eqn:Ez; [done|]. breflect.
  apply rbind_Ok in H as (seen' & H & [= <-]).
  eapply validate_chunks_sound in H as [Hc Hr']; [|done].
  split; [done|]. unfold files_state. simpl. rewrite all_chunks_snoc, map_app. simpl.
  split_and!; [|apply NoDup_app; split_and!|done].
  - rewrite list_to_set_app_L, <- Hp. simpl. set_solver.
  - done.
  - intros x Hx ->%list_elem_of_singleton. apply Hin. rewrite Hp. by apply elem_of_list_to_set.
  - apply NoDup_singleton.
Qed.

Lemma validate_file_complete st fs f :
  typed_file f -> files_state st fs -> valid_file f -> file_path f ∉ map file_path fs ->
  chunks_agree (all_chunks (fs ++ [f])) -> exists st', validate_file nfc st f = Ok st'.
Proof.
  destruct st as [paths seen]. intros [Hu1 Hu2] (Hp & Hn & Hr) (Hv & Hh & Hs & Hc) Hnin Ha. simpl in *.
  unfold validate_file. rewrite normalize_valid by done. simpl. rewrite String.eqb_refl. simpl.
  rewrite bool_decide_eq_false_2 by (rewrite Hp, elem_of_list_to_set; done).
  rewrite validate_hash_cases, Hh. simpl.
  rewrite (proj2 (chunks_size_Some (file_chunks f) (file_size f) Hu2)) by (unfold is_u64 in *; lia).
  rewrite Z.eqb_refl. simpl. rewrite all_chunks_snoc in Ha.
  destruct (validate_chunks_complete (file_path f) (file_chunks f) seen (all_chunks fs)) as [s ->]; eauto.
Qed.

Lemma validate_files_sound l : forall st fs st',
  Forall typed_file l -> files_state st fs -> try_fold (validate_file nfc) st l = Ok st' ->
  Forall valid_file l /\ files_state st' (fs ++ l).
Proof.
  induction l as [|f l IH]; intros st fs st' Ht Hs; simpl.
  { intros [= <-]. by rewrite app_nil_r. }
  apply Forall_cons in Ht as [Hf Hl]. rewrite rbind_Ok. intros (s & H1 & H2).
  eapply validate_file_sound in H1 as [? Hs1]; [|done..].
  apply (IH _ _ _ Hl Hs1) in H2 as [? Hs2]. rewrite <- app_assoc in Hs2. by split; [constructor|].
Qed.

Lemma validate_files_complete l : forall st fs,
  Forall typed_file l -> files_state st fs -> Forall valid_file l ->
  NoDup (map file_path (fs ++ l)) -> chunks_agree (all_chunks (fs ++ l)) ->
  exists st', try_fold (validate_file nfc) st l = Ok st'.
Proof.
  induction l as [|f l IH]; intros st fs Ht Hs Hv Hn Ha; simpl; [eauto|].
  apply Forall_cons in Ht as [Hf Hl], Hv as [Hvf Hvl].
  destruct (validate_file_complete st fs f) as [s E]; [done..| | |].
  - rewrite map_app in Hn. apply NoDup_app in Hn as (_ & Hn & _). intros Hx. apply (Hn _ Hx). left.
  - intros c d Hc Hd. apply Ha; unfold all_chunks in *; rewrite !map_app, !concat_app in *; simpl in *; set_solver.
  - rewrite E. simpl. eapply validate_file_sound in E as [_ E]; [|done..].
    eapply IH; [done..| |]; by rewrite <- app_assoc.
Qed.

Lemma validate_launch_Ok m : validate_launch nfc m = Ok tt <-> valid_launch m.
Proof.
  unfold validate_launch, valid_launch.
  destruct (normalize_cases (executable (launch m))) as [[-> Hv]|(e & -> & Hv)]; simpl; [|naive_solver].
  rewrite String.eqb_refl. simpl.
  assert (existsb (fun f => String.eqb (file_path f) (executable (launch m))) (files m) = true <->
          executable (launch m) ∈ map file_path (files m)) as Hex.
  { rewrite existsb_exists, list_elem_of_In, in_map_iff. setoid_rewrite String.eqb_eq. naive_solver. }
  destruct (existsb _ _); simpl; [|split; [done|]; intros (_ & H & _); by apply Hex in H].
  destruct (String.eqb_spec (working_directory (launch m)) "."); simpl; [naive_solver|].
  destruct (normalize_cases (working_directory (launch m))) as [[-> Hw]|(e & -> & Hw)]; simpl; [|naive_solver].
  rewrite String.eqb_refl. simpl. naive_solver.
Qed.

Lemma identified_iff m :
  identified m <-> is_empty (trim (manifest_id m)) || is_empty (trim (game_id m))
          || is_empty (trim (build_id m)) || is_empty (trim (display_version m)) = false.
Proof.
  unfold identified, is_empty. rewrite !Forall_cons, !orb_false_iff, !String.eqb_neq. naive_solver.
Qed.

Lemma valid_chunking_iff c :
  valid_chunking c <-> negb (String.eqb (algorithm c) "fastcdc") || negb (format_version c =? 1)
       || (minimum_bytes c =? 0) || (average_bytes c <? minimum_bytes c)
       || (maximum_bytes c <? average_bytes c) = false.
Proof.
  unfold valid_chunking. rewrite !orb_false_iff, !negb_false_iff, String.eqb_eq, !Z.eqb_eq,
    !Z.ltb_ge, Z.eqb_neq. naive_solver lia.
Qed.

Lemma files_state_init : files_state (∅, ∅) [].
Proof.
  unfold files_state. simpl. split_and!; [done|constructor|]. intros h c.
  rewrite lookup_empty. split; [done|]. intros [H _]. by apply elem_of_nil in H.
Qed.

End spec.

(** ** Properties *)

(** C2. [Manifest::validate] accepts exactly the valid manifests: supported
    schema, non-blank identities, a usable chunking and encoding
    configuration, distinct portable file paths, well-formed digests, file
    sizes equal to the sum of their chunks without overflow, canonical object
    keys, one meaning per encoded hash across all files, and a launch profile
    that names an owned file and a portable directory. *)
Theorem validate_correct (nfc : string -> string) (m : Manifest) :
  typed_sizes m -> (validate nfc m = Ok tt <-> valid_manifest nfc m).
Proof.
  intros Ht. unfold validate, valid_manifest.
  rewrite identified_iff, valid_chunking_iff.
  destruct (schema_version m =? MANIFEST_SCHEMA_VERSION) eqn:E1; simpl; breflect; [|naive_solver].
  destruct (_ || _ || _ || is_empty (trim (display_version m))); [naive_solver|].
  destruct (_ || _ || _ || _ || (maximum_bytes (chunking m) <? _)); [naive_solver|].
  destruct (String.eqb_spec (encoding_id (encoding m)) "zstd-v1-level-3"); simpl; [|naive_solver].
  destruct (Z.eqb_spec (encoding_level (encoding m)) 3); simpl; [|naive_solver].
  rewrite rbind_Ok. setoid_rewrite validate_launch_Ok. split.
  - intros (st & Hst & Hl). eapply validate_files_sound in Hst as [Hv (_ & Hn & Hr)];
      [|done|apply files_state_init]. apply represents_agree in Hr. done.
  - intros (_ & _ & _ & _ & _ & Hv & Hn & Ha & Hl).
    destruct (validate_files_complete nfc (files m) (∅, ∅) []) as [st Hst]; eauto using files_state_init.
Qed.

Definition example_hash (c : ascii) : string := of_chars (repeat c 64).

Definition example_manifest : Manifest := {|
  schema_version := 1;
  manifest_id := "manifest"; game_id := "game"; build_id := "build"; display_version := "A";
  generated_at := 0;
  chunking := ChunkingConfig_default; encoding := EncodingConfig_default;
  files := [{| file_path := "bin/game.exe"; file_size := 3; file_blake3 := example_hash "a";
               file_chunks := [{| raw_hash := example_hash "a"; raw_size := 3;
                                  encoded_hash := example_hash "b"; encoded_size := 1;
                                  object_key := expected_object_key (example_hash "b") |}] |}];
  launch := {| executable := "bin/game.exe"; working_directory := "bin"; arguments := [];
               environment := ∅ |}
|}.

Theorem validate_correct_witness : valid_manifest id example_manifest.
Proof.
  apply (validate_correct id example_manifest); [|vm_compute; reflexivity].
  unfold typed_sizes, is_u64, u64_max. simpl. repeat constructor; simpl; lia.
Defined.

(** C8. A path accepted by [normalize_manifest_path] is returned unchanged and
    stays below the directory it is resolved against: none of its components
    climbs, is empty or is [.], so resolving it appends exactly its
    components; it has no drive letter, backslash or control character, no
    component that Windows reserves or that ends with a dot or a space. *)
Theorem normalize_path_safe (nfc : string -> string) (path q : string) :
  normalize_manifest_path nfc path = Ok q ->
  q = path /\ nfc q = q /\
  (forall base, resolve base (split_on "/" q) = base ++ split_on "/" q /\
                length base < length (resolve base (split_on "/" q)))%nat /\
  (forall c, c ∈ chars q -> c <> "\"%char /\ c <> ":"%char /\ (c = "/"%char \/ 31 < code c)) /\
  Forall (fun p => ends_with "." p = false /\ ends_with " " p = false /\
                   is_reserved_windows_name p = false) (split_on "/" q).
Proof.
  intros [-> (H1 & H2 & H3 & H4 & H5 & H6)]%normalize_Ok. split_and!; [done..| | |].
  - intros base. rewrite resolve_portable by done. rewrite length_app.
    pose proof (split_on_nonnil "/" path). destruct (split_on "/" path); [done|simpl; split; [done|lia]].
  - intros c Hc. apply contains_char_false in H2, H4. split_and!; [naive_solver..|].
    destruct (decide (c = "/"%char)) as [->|Hne]; [by left|right].
    destruct (char_in_split "/" path c Hc Hne) as (p & Hp & Hcp).
    rewrite Forall_forall in H6. destruct (H6 p Hp) as (_ & _ & _ & Hrej).
    unfold part_rejected in Hrej. breflect. eapply any_char_false in Hcp; [|done]. simpl in Hcp. by breflect.
  - eapply Forall_impl; [exact H6|]. intros p (_ & _ & _ & Hrej). unfold part_rejected in Hrej. by breflect.
Qed.

Theorem normalize_path_safe_witness :
  resolve ["root"%string] (split_on "/" "Game/Binaries/Game.exe") =
  ["root"; "Game"; "Binaries"; "Game.exe"]%string.
Proof.
  apply (proj1 (proj2 (proj2 (normalize_path_safe id "Game/Binaries/Game.exe"
    "Game/Binaries/Game.exe" ltac:(vm_compute; reflexivity)))) ["root"%string]).
Defined.
