(* ===== verification/Packs.v ===== *)
(** * Physical packs ([packs/src/lib.rs])

    The pack file format, the deterministic in-memory builder and the reader.
    BLAKE3 and Zstandard decompression are the parameters [blake3] and
    [zstd_decompress]; all that is assumed of BLAKE3 is that a digest has 32
    bytes ([Blake3Laws]). *)
From stdpp Require Import base gmap strings list pretty.
From Stdlib Require Import ZArith Lia Ascii.
From coqutil Require Import Byte.
From S2P Require Import Prelude Text Bytes.
Local Open Scope Z_scope.

(** ** Parameters *)

(** [zstd::bulk::decompress(bytes, capacity)]. *)
Class Zstd : Type := zstd_decompress : list byte -> Z -> result (list byte) string.

(** ** Data *)

Definition HEADER_MAGIC : list byte := bytes_of_string "LGRPACK1".
Definition FOOTER_MAGIC : list byte := bytes_of_string "LGRPFTR1".
Definition FORMAT_VERSION : Z := 1.
Definition HEADER_SIZE : Z := 64.
Definition ENTRY_SIZE : Z := 96.
Definition FOOTER_SIZE : Z := 72.
Definition COMPRESSION_ZSTD : Z := 1.
Definition DEFAULT_TARGET_BYTES : Z := 512 * 1024 * 1024.
Definition DEFAULT_MIN_BYTES : Z := 256 * 1024 * 1024.
Definition DEFAULT_MAX_BYTES : Z := 1024 * 1024 * 1024.
Definition MAX_PACK_BYTES : Z := 8 * 1024 * 1024 * 1024.
Definition MAX_DECLARED_CHUNK_BYTES : Z := 2 * 1024 * 1024 * 1024.

Inductive PackError : Type :=
| Io (message : string)
| Configuration (message : string)
| Truncated
| InvalidMagic
| UnsupportedVersion (version : Z)
| InvalidHeader (message : string)
| InvalidFooter (message : string)
| InvalidIndex (message : string)
| PackHashMismatch (expected actual : string)
| ChunkHashMismatch (expected actual : string)
| RawHashMismatch (expected actual : string)
| ChunkNotFound (hash : string)
| ChunkSizeMismatch
| UnsupportedCompression (compression : Z)
| Decompression (message : string).

Record PackConfig : Type := { target_bytes : Z; min_bytes : Z; max_bytes : Z }.

(** [PackConfig::default]. *)
Definition PackConfig_default : PackConfig := {|
  target_bytes := DEFAULT_TARGET_BYTES;
  min_bytes := DEFAULT_MIN_BYTES;
  max_bytes := DEFAULT_MAX_BYTES
|}.

Record PackInput : Type := {
  pi_encoded_hash : string;
  pi_raw_hash : string;
  pi_raw_size : Z;
  pi_encoded_bytes : list byte
}.

Record PackEntry : Type := {
  pe_encoded_hash : string;
  pe_raw_hash : string;
  pe_offset : Z;
  pe_encoded_length : Z;
  pe_raw_length : Z;
  pe_compression : Z;
  pe_flags : Z
}.

Record PackArtifact : Type := {
  pa_pack_hash : string;
  pa_bytes : list byte;
  pa_entries : list PackEntry
}.

Record PackBuilder : Type := { pb_config : PackConfig; pb_inputs : list PackInput }.

Record PackReader : Type := {
  pr_bytes : list byte;
  pr_entries : list PackEntry;
  pr_index_offset : Z
}.

(** ** Digest text *)

(** [validate_hash]. *)
Definition validate_hash (field value : string) : result unit PackError :=
  if negb (str_len value =? 64) || negb (all_chars is_lower_hex value)
  then Err (Configuration (field +:+ " hash must be 64 lowercase hexadecimal characters")%string)
  else Ok tt.

(** [hex_value]. *)
Definition hex_value (c : ascii) : result Z PackError :=
  ok_or (hex_digit_value c) (Configuration "hash must be lowercase hexadecimal").

(** [decode_hash]: two digits per byte, the first one in the high nibble. *)
Definition decode_hash (value : string) : result (list byte) PackError :=
  let? _ := validate_hash "hash" value in
  try_map (fun pair =>
    let? high := hex_value (fst pair) in
    let? low := hex_value (snd pair) in
    Ok (byte.of_Z (Z.lor (Z.shiftl high 4) low))) (chunks_exact2 (chars value)).

(** [write_hash]: the decoded digest is appended. *)
Definition write_hash (bytes : list byte) (value : string) : result (list byte) PackError :=
  let? decoded := decode_hash value in Ok (bytes ++ decoded).

(** [read_hash]. *)
Definition read_hash (bytes : list byte) (offset : Z) : result string PackError :=
  let? e := ok_or (checked_add offset 32) Truncated in
  let? value := ok_or (get_range bytes offset e) Truncated in
  Ok (to_hex value).

(** [read_u16], [read_u32], [read_u64]. *)
Definition read_uint (n : Z) (bytes : list byte) (offset : Z) : option Z :=
  match checked_add offset n with
  | Some e => match get_range bytes offset e with
              | Some bs => Some (from_le bs)
              | None => None
              end
  | None => None
  end.

Definition read_u16 (bytes : list byte) (offset : Z) : option Z := read_uint 2 bytes offset.
Definition read_u32 (bytes : list byte) (offset : Z) : option Z := read_uint 4 bytes offset.
Definition read_u64 (bytes : list byte) (offset : Z) : option Z := read_uint 8 bytes offset.

(** ** Configuration *)

(** [PackConfig::validate]. *)
Definition PackConfig_validate (c : PackConfig) : result unit PackError :=
  if (min_bytes c =? 0) || (target_bytes c <? min_bytes c) || (max_bytes c <? target_bytes c)
     || (MAX_PACK_BYTES <? max_bytes c)
  then Err (Configuration ("expected 0 < min <= target <= max <= " +:+ fmt_u MAX_PACK_BYTES
              +:+ ", got min=" +:+ fmt_u (min_bytes c) +:+ " target=" +:+ fmt_u (target_bytes c)
              +:+ " max=" +:+ fmt_u (max_bytes c))%string)
  else Ok tt.

(** [PackEntry::encoded_end]. *)
Definition encoded_end (e : PackEntry) : result Z PackError :=
  ok_or (checked_add (pe_offset e) (pe_encoded_length e)) (InvalidIndex "chunk offset overflows").

(** ** Grouping *)

(** [should_flush], the same condition in both builders. *)
Definition should_flush {A : Type} (config : PackConfig) (current : list A)
  (current_bytes input_bytes : Z) : bool :=
  negb (bool_decide (current = []))
  && ((max_bytes config <? saturating_add current_bytes input_bytes)
      || ((min_bytes config <=? current_bytes)
          && (target_bytes config <? saturating_add current_bytes input_bytes))).

(** The loop that cuts the sorted inputs into groups; the state is [groups],
    [current] and [current_bytes]. *)
Fixpoint group_loop {A : Type} (size : A -> Z) (config : PackConfig) (inputs : list A)
  (groups : list (list A)) (current : list A) (current_bytes : Z) : list (list A) :=
  match inputs with
  | [] => if bool_decide (current = []) then groups else groups ++ [current]
  | input :: inputs' =>
      if should_flush config current current_bytes (size input)
      then group_loop size config inputs' (groups ++ [current]) [input]
             (saturating_add 0 (size input))
      else group_loop size config inputs' groups (current ++ [input])
             (saturating_add current_bytes (size input))
  end.

Definition group_inputs {A : Type} (size : A -> Z) (config : PackConfig) (inputs : list A)
  : list (list A) :=
  group_loop size config inputs [] [] 0.

Section packs.
Context `{Blake3} `{Zstd}.

(** ** Building *)

(** [PackBuilder::new]. *)
Definition PackBuilder_new (config : PackConfig) : result PackBuilder PackError :=
  let? _ := PackConfig_validate config in
  Ok {| pb_config := config; pb_inputs := [] |}.

(** [PackBuilder::push]. *)
Definition push (b : PackBuilder) (input : PackInput) : result PackBuilder PackError :=
  let? _ := validate_hash "encoded" (pi_encoded_hash input) in
  let? _ := validate_hash "raw" (pi_raw_hash input) in
  if (MAX_DECLARED_CHUNK_BYTES <? pi_raw_size input)
     || (MAX_DECLARED_CHUNK_BYTES <? len64 (pi_encoded_bytes input))
  then Err (Configuration "chunk exceeds the maximum declared size")
  else
    let actual := blake3_hex (pi_encoded_bytes input) in
    if negb (String.eqb actual (pi_encoded_hash input))
    then Err (ChunkHashMismatch (pi_encoded_hash input) actual)
    else if existsb (fun item => String.eqb (pi_encoded_hash item) (pi_encoded_hash input)) (pb_inputs b)
    then Err (InvalidIndex ("duplicate encoded hash " +:+ pi_encoded_hash input)%string)
    else if max_bytes (pb_config b) <? len64 (pi_encoded_bytes input)
    then Err (Configuration ("chunk " +:+ pi_encoded_hash input
                             +:+ " is larger than the maximum pack size")%string)
    else Ok {| pb_config := pb_config b; pb_inputs := pb_inputs b ++ [input] |}.

(** The sizes of a pack, each with its overflow check: the data length, the
    index offset, the index length and the total. *)
Definition pack_lengths {A : Type} (size : A -> Z) (inputs : list A)
  : result (Z * Z * Z) PackError :=
  let? data_length := try_fold (fun total input =>
      ok_or (checked_add total (size input)) (InvalidHeader "data length overflows")) 0 inputs in
  let? index_offset := ok_or (checked_add HEADER_SIZE data_length)
      (InvalidHeader "index offset overflows") in
  let? index_length := ok_or (checked_mul (len64 inputs) ENTRY_SIZE)
      (InvalidHeader "index length overflows") in
  let? total_length := ok_or (match checked_add index_offset index_length with
                              | Some length => checked_add length FOOTER_SIZE
                              | None => None
                              end) (InvalidHeader "pack length overflows") in
  if MAX_PACK_BYTES <? total_length
  then Err (Configuration "pack exceeds the format size limit")
  else Ok (index_offset, index_length, total_length).

(** The loop that appends the chunk bytes and records one entry per chunk. *)
Fixpoint append_chunks (inputs : list PackInput) (bytes : list byte) (entries : list PackEntry)
  (offset : Z) : result (list byte * list PackEntry) PackError :=
  match inputs with
  | [] => Ok (bytes, entries)
  | input :: inputs' =>
      let encoded_length := len64 (pi_encoded_bytes input) in
      let bytes := bytes ++ pi_encoded_bytes input in
      let entries := entries ++ [{|
        pe_encoded_hash := pi_encoded_hash input;
        pe_raw_hash := pi_raw_hash input;
        pe_offset := offset;
        pe_encoded_length := encoded_length;
        pe_raw_length := pi_raw_size input;
        pe_compression := COMPRESSION_ZSTD;
        pe_flags := 0 |}] in
      let? offset := ok_or (checked_add offset encoded_length)
          (InvalidHeader "chunk offset overflows") in
      append_chunks inputs' bytes entries offset
  end.

(** One 96-byte index entry appended to [bytes]. *)
Definition write_entry (bytes : list byte) (entry : PackEntry) : result (list byte) PackError :=
  let? bytes := write_hash bytes (pe_encoded_hash entry) in
  let? bytes := write_hash bytes (pe_raw_hash entry) in
  Ok (bytes ++ to_le 8 (pe_offset entry) ++ to_le 8 (pe_encoded_length entry)
      ++ to_le 8 (pe_raw_length entry) ++ to_le 4 (pe_compression entry)
      ++ to_le 4 (pe_flags entry)).

(** The header fields written over the first 64 bytes. *)
Definition patch_header (bytes : list byte) (count index_offset index_length : Z) : list byte :=
  let bytes := patch 0 HEADER_MAGIC bytes in
  let bytes := patch 8 (to_le 2 FORMAT_VERSION) bytes in
  let bytes := patch 10 (to_le 2 0) bytes in
  let bytes := patch 12 (to_le 4 HEADER_SIZE) bytes in
  let bytes := patch 16 (to_le 8 count) bytes in
  let bytes := patch 24 (to_le 8 HEADER_SIZE) bytes in
  let bytes := patch 32 (to_le 8 index_offset) bytes in
  patch 40 (to_le 8 index_length) bytes.

(** [build_artifact]. *)
Definition build_artifact (inputs : list PackInput) : result PackArtifact PackError :=
  let? (index_offset, index_length, _) :=
    pack_lengths (fun input => len64 (pi_encoded_bytes input)) inputs in
  let? (bytes, entries) := append_chunks inputs (replicate 64 Byte.x00) [] HEADER_SIZE in
  let index_start := length bytes in
  let? bytes := try_fold write_entry bytes entries in
  let index_hash := blake3 (drop index_start bytes) in
  let bytes := bytes ++ FOOTER_MAGIC ++ to_le 2 FORMAT_VERSION ++ to_le 2 0
    ++ to_le 8 index_offset ++ to_le 8 index_length ++ to_le 8 (len64 entries)
    ++ to_le 4 0 ++ index_hash in
  let bytes := patch_header bytes (len64 entries) index_offset index_length in
  Ok {| pa_pack_hash := blake3_hex bytes; pa_bytes := bytes; pa_entries := entries |}.

(** The order of the inputs of a pack. *)
Definition by_encoded_hash (left right : PackInput) : comparison :=
  String.compare (pi_encoded_hash left) (pi_encoded_hash right).

(** [PackBuilder::build]. *)
Definition build (b : PackBuilder) : result (list PackArtifact) PackError :=
  try_map build_artifact
    (group_inputs (fun input => len64 (pi_encoded_bytes input)) (pb_config b)
       (sort_by by_encoded_hash (pb_inputs b))).

(** [build_packs]. *)
Definition build_packs (inputs : list PackInput) (config : PackConfig)
  : result (list PackArtifact) PackError :=
  let? builder := PackBuilder_new config in
  let? builder := try_fold push builder inputs in
  build builder.

(** ** Reading *)

(** The decoding of one index entry, with its own checks. *)
Definition read_entry (slice : list byte) : result PackEntry PackError :=
  let? encoded_hash := read_hash slice 0 in
  let? raw_hash := read_hash slice 32 in
  let? offset := ok_or (read_u64 slice 64) Truncated in
  let? encoded_length := ok_or (read_u64 slice 72) Truncated in
  let? raw_length := ok_or (read_u64 slice 80) Truncated in
  let? compression := ok_or (read_u32 slice 88) Truncated in
  let? flags := ok_or (read_u32 slice 92) Truncated in
  Ok {| pe_encoded_hash := encoded_hash; pe_raw_hash := raw_hash; pe_offset := offset;
        pe_encoded_length := encoded_length; pe_raw_length := raw_length;
        pe_compression := compression; pe_flags := flags |}.

(** The checks on one entry: digests, declared lengths, compression, strict
    order, data region. *)
Definition check_entry (data_offset index_offset : Z) (previous : option string) (entry : PackEntry)
  : result unit PackError :=
  let? _ := validate_hash "encoded" (pe_encoded_hash entry) in
  let? _ := validate_hash "raw" (pe_raw_hash entry) in
  if (MAX_DECLARED_CHUNK_BYTES <? pe_raw_length entry)
     || (MAX_DECLARED_CHUNK_BYTES <? pe_encoded_length entry)
  then Err (InvalidIndex "declared chunk length is too large")
  else if negb (pe_compression entry =? COMPRESSION_ZSTD)
  then Err (UnsupportedCompression (pe_compression entry))
  else if match previous with
          | Some p => match String.compare p (pe_encoded_hash entry) with Lt => false | _ => true end
          | None => false
          end
  then Err (InvalidIndex "entries are not strictly sorted or contain a duplicate")
  else
    let? end_offset := encoded_end entry in
    if (pe_offset entry <? data_offset) || (index_offset <? end_offset)
    then Err (InvalidIndex "chunk bytes are outside the data region")
    else Ok tt.

(** The loop over the index positions; [remaining] positions are left. *)
Fixpoint read_entries (bytes : list byte) (data_offset index_offset : Z) (remaining : nat)
  (position : Z) (previous : option string) (entries : list PackEntry)
  : result (list PackEntry) PackError :=
  match remaining with
  | O => Ok entries
  | S remaining' =>
      let? relative := ok_or (checked_mul position ENTRY_SIZE)
          (InvalidIndex "entry offset overflows") in
      let? start := ok_or (checked_add index_offset relative)
          (InvalidIndex "entry offset overflows") in
      let? stop := ok_or (checked_add start ENTRY_SIZE) (InvalidIndex "entry end overflows") in
      let? slice := ok_or (get_range bytes start stop) Truncated in
      let? entry := read_entry slice in
      let? _ := check_entry data_offset index_offset previous entry in
      read_entries bytes data_offset index_offset remaining' (position + 1)
        (Some (pe_encoded_hash entry)) (entries ++ [entry])
  end.

(** The final check that no two data ranges overlap. *)
Definition check_overlap (entries : list PackEntry) : result unit PackError :=
  for_each (fun pair =>
    let? e := encoded_end (fst pair) in
    if pe_offset (snd pair) <? e then Err (InvalidIndex "chunk data ranges overlap") else Ok tt)
    (windows2 (sort_by (fun a b => pe_offset a ?= pe_offset b) entries)).

(** The header checks of [PackReader::parse]; returns [entry_count],
    [data_offset], [index_offset] and [index_length]. *)
Definition parse_header (bytes : list byte) : result (Z * Z * Z * Z) PackError :=
  if len64 bytes <? HEADER_SIZE + FOOTER_SIZE then Err Truncated
  else if negb (bytes_eqb (take 8 bytes) HEADER_MAGIC) then Err InvalidMagic
  else
    let? version := ok_or (read_u16 bytes 8) Truncated in
    if negb (version =? FORMAT_VERSION) then Err (UnsupportedVersion version) else
    let? header_length := ok_or (read_u32 bytes 12) Truncated in
    if negb (header_length =? HEADER_SIZE)
    then Err (InvalidHeader ("header length is " +:+ fmt_u header_length +:+ ", expected "
                             +:+ fmt_u HEADER_SIZE)%string) else
    let? entry_count := ok_or (read_u64 bytes 16) Truncated in
    let? data_offset := ok_or (read_u64 bytes 24) Truncated in
    let? index_offset := ok_or (read_u64 bytes 32) Truncated in
    let? index_length := ok_or (read_u64 bytes 40) Truncated in
    if negb (data_offset =? HEADER_SIZE)
    then Err (InvalidHeader "data offset is not after the header") else
    let? expected_index_length := ok_or (checked_mul entry_count ENTRY_SIZE)
        (InvalidHeader "entry count overflows index length") in
    if negb (index_length =? expected_index_length)
    then Err (InvalidHeader "index length does not match entry count") else
    if MAX_PACK_BYTES <? len64 bytes
    then Err (InvalidHeader "pack exceeds the format size limit")
    else Ok (entry_count, data_offset, index_offset, index_length).

(** The footer and index checks of [PackReader::parse]. *)
Definition parse_footer (bytes : list byte) (entry_count data_offset index_offset index_length : Z)
  : result unit PackError :=
  let footer_start := len64 bytes - FOOTER_SIZE in
  let? magic := ok_or (get_range bytes footer_start (footer_start + 8)) Truncated in
  if negb (bytes_eqb magic FOOTER_MAGIC) then Err InvalidMagic else
  let? footer_version := ok_or (read_u16 bytes (footer_start + 8)) Truncated in
  if negb (footer_version =? FORMAT_VERSION) then Err (UnsupportedVersion footer_version) else
  let? footer_index_offset := ok_or (read_u64 bytes (footer_start + 12)) Truncated in
  let? footer_index_length := ok_or (read_u64 bytes (footer_start + 20)) Truncated in
  let? footer_entry_count := ok_or (read_u64 bytes (footer_start + 28)) Truncated in
  if negb (footer_index_offset =? index_offset) || negb (footer_index_length =? index_length)
     || negb (footer_entry_count =? entry_count)
  then Err (InvalidFooter "footer does not match the header") else
  let? index_end := ok_or (checked_add index_offset index_length)
      (InvalidIndex "index bounds overflow") in
  if (index_offset <? data_offset) || (footer_start <? index_end)
     || negb (index_end =? footer_start)
  then Err (InvalidIndex "index is outside the pack") else
  let? expected_index_hash := ok_or (get_range bytes (footer_start + 40) (footer_start + 72)) Truncated in
  let? index := ok_or (get_range bytes index_offset index_end) Truncated in
  if negb (bytes_eqb expected_index_hash (blake3 index))
  then Err (InvalidIndex "index digest mismatch")
  else Ok tt.

(** [PackReader::parse]. *)
Definition parse (bytes : list byte) : result PackReader PackError :=
  let? (entry_count, data_offset, index_offset, index_length) := parse_header bytes in
  let? _ := parse_footer bytes entry_count data_offset index_offset index_length in
  let? entries := read_entries bytes data_offset index_offset (Z.to_nat entry_count) 0 None [] in
  let? _ := check_overlap entries in
  Ok {| pr_bytes := bytes; pr_entries := entries; pr_index_offset := index_offset |}.

(** [PackReader::verify_pack_hash]. *)
Definition verify_pack_hash (r : PackReader) (expected : string) : result unit PackError :=
  let? _ := validate_hash "pack" expected in
  let actual := blake3_hex (pr_bytes r) in
  if negb (String.eqb actual expected) then Err (PackHashMismatch expected actual) else Ok tt.

(** [slice::binary_search_by]: halving of [base, base + size), then one last
    comparison.  The fuel is the length of the slice. *)
Fixpoint bisect {A : Type} (cmp : A -> comparison) (l : list A) (fuel base size : nat) : nat :=
  match fuel with
  | O => base
  | S fuel' =>
      if Nat.leb size 1 then base
      else
        let half := Nat.div2 size in
        let mid := (base + half)%nat in
        let base := match l !! mid with
                    | Some x => match cmp x with Gt => base | _ => mid end
                    | None => base
                    end in
        bisect cmp l fuel' base (size - half)
  end.

Definition binary_search_by {A : Type} (cmp : A -> comparison) (l : list A) : option nat :=
  match l with
  | [] => None
  | _ :: _ =>
      let base := bisect cmp l (length l) 0 (length l) in
      match l !! base with
      | Some x => match cmp x with Eq => Some base | _ => None end
      | None => None
      end
  end.

(** [PackReader::entry]. *)
Definition entry (r : PackReader) (encoded_hash : string) : result PackEntry PackError :=
  let? _ := validate_hash "encoded" encoded_hash in
  ok_or (match binary_search_by (fun e => String.compare (pe_encoded_hash e) encoded_hash)
                 (pr_entries r) with
         | Some index => pr_entries r !! index
         | None => None
         end) (ChunkNotFound encoded_hash).

(** [PackReader::read_encoded]. *)
Definition read_encoded (r : PackReader) (encoded_hash : string) : result (list byte) PackError :=
  let? entry := entry r encoded_hash in
  let? stop := ok_or (checked_add (pe_offset entry) (pe_encoded_length entry))
      (InvalidIndex "chunk end overflows") in
  let? bytes := ok_or (get_range (pr_bytes r) (pe_offset entry) stop) Truncated in
  let actual := blake3_hex bytes in
  if negb (String.eqb actual (pe_encoded_hash entry))
  then Err (ChunkHashMismatch (pe_encoded_hash entry) actual)
  else Ok bytes.

(** [PackReader::read_raw]. *)
Definition read_raw (r : PackReader) (encoded_hash : string) : result (list byte) PackError :=
  let? entry := entry r encoded_hash in
  let? encoded := read_encoded r encoded_hash in
  let? raw :=
    if pe_compression entry =? COMPRESSION_ZSTD
    then map_err Decompression (zstd_decompress encoded (pe_raw_length entry))
    else Err (UnsupportedCompression (pe_compression entry)) in
  if negb (len64 raw =? pe_raw_length entry) then Err ChunkSizeMismatch
  else
    let actual := blake3_hex raw in
    if negb (String.eqb actual (pe_raw_hash entry))
    then Err (RawHashMismatch (pe_raw_hash entry) actual)
    else Ok raw.

End packs.
