(* ===== verification/PackCodec.v ===== *)
(** * The byte layout of a pack

    What [build_artifact] writes, as a concatenation of its parts, and what
    the readers of the parts find in it: the lemmas behind the round trip of
    [PackProps]. *)
From stdpp Require Import base gmap strings list pretty.
From Stdlib Require Import ZArith Lia Ascii.
From coqutil Require Import Byte Word.LittleEndianList.
From S2P Require Import Prelude Text Bytes Packs.
Local Open Scope Z_scope.

(** ** Specification of the layout *)

(** The bytes of a valid digest text. *)
Definition hash_bytes (h : string) : list byte :=
  match decode_hash h with Ok d => d | Err _ => [] end.

Definition entry_bytes (e : PackEntry) : list byte :=
  hash_bytes (pe_encoded_hash e) ++ hash_bytes (pe_raw_hash e)
  ++ to_le 8 (pe_offset e) ++ to_le 8 (pe_encoded_length e) ++ to_le 8 (pe_raw_length e)
  ++ to_le 4 (pe_compression e) ++ to_le 4 (pe_flags e).

Definition header_bytes (count index_offset index_length : Z) : list byte :=
  HEADER_MAGIC ++ to_le 2 FORMAT_VERSION ++ to_le 2 0 ++ to_le 4 HEADER_SIZE ++ to_le 8 count
  ++ to_le 8 HEADER_SIZE ++ to_le 8 index_offset ++ to_le 8 index_length ++ replicate 16 Byte.x00.

Definition footer_bytes `{Blake3} (count index_offset index_length : Z) (index : list byte)
  : list byte :=
  FOOTER_MAGIC ++ to_le 2 FORMAT_VERSION ++ to_le 2 0 ++ to_le 8 index_offset
  ++ to_le 8 index_length ++ to_le 8 count ++ to_le 4 0 ++ blake3 index.

Definition index_bytes (es : list PackEntry) : list byte := concat (map entry_bytes es).

Definition data_bytes (inputs : list PackInput) : list byte :=
  concat (map pi_encoded_bytes inputs).

(** The entries of chunks laid out one after the other from [offset]. *)
Fixpoint layout (offset : Z) (inputs : list PackInput) : list PackEntry :=
  match inputs with
  | [] => []
  | i :: inputs' =>
      {| pe_encoded_hash := pi_encoded_hash i; pe_raw_hash := pi_raw_hash i; pe_offset := offset;
         pe_encoded_length := len64 (pi_encoded_bytes i); pe_raw_length := pi_raw_size i;
         pe_compression := COMPRESSION_ZSTD; pe_flags := 0 |}
      :: layout (offset + len64 (pi_encoded_bytes i)) inputs'
  end.

Definition pack_bytes `{Blake3} (inputs : list PackInput) : list byte :=
  let n := len64 inputs in
  let io := HEADER_SIZE + len64 (data_bytes inputs) in
  let il := n * ENTRY_SIZE in
  let index := index_bytes (layout HEADER_SIZE inputs) in
  header_bytes n io il ++ data_bytes inputs ++ index ++ footer_bytes n io il index.

(** What [push] has established about each input. *)
Definition input_ok `{Blake3} (i : PackInput) : Prop :=
  is_lower_hex_hash (pi_encoded_hash i) = true /\ is_lower_hex_hash (pi_raw_hash i) = true /\
  0 <= pi_raw_size i <= MAX_DECLARED_CHUNK_BYTES /\
  len64 (pi_encoded_bytes i) <= MAX_DECLARED_CHUNK_BYTES /\
  blake3_hex (pi_encoded_bytes i) = pi_encoded_hash i.

(** ** Digest text *)

Lemma pack_validate_hash_cases field v :
  validate_hash field v =
  if is_lower_hex_hash v then Ok tt
  else Err (Configuration (field +:+ " hash must be 64 lowercase hexadecimal characters")%string).
Proof.
  unfold validate_hash, is_lower_hex_hash.
  by destruct (str_len v =? 64), (all_chars is_lower_hex v).
Qed.

Lemma decode_pairs l n :
  length l = (2 * n)%nat -> (forall c, c ∈ l -> is_lower_hex c = true) ->
  exists d, try_map (fun pair =>
      let? high := hex_value (fst pair) in
      let? low := hex_value (snd pair) in
      Ok (byte.of_Z (Z.lor (Z.shiftl high 4) low))) (chunks_exact2 l) = Ok d /\
    length d = n /\ flat_map hex_of_byte d = l.
Proof.
  revert l. induction n as [|n IH]; intros [|a [|b l]] Hl Hc; simpl in Hl; try lia.
  { exists []. done. }
  destruct (IH l) as (d & Hd & Hn & Hf); [lia|intros; apply Hc; set_solver|].
  destruct (is_lower_hex_value a) as [x Hx]; [apply Hc; set_solver|].
  destruct (is_lower_hex_value b) as [y Hy]; [apply Hc; set_solver|].
  simpl. unfold hex_value at 1 2. rewrite Hx, Hy. simpl. rewrite Hd. simpl.
  eexists. split; [done|]. simpl. split; [lia|].
  apply hex_digit_value_Some in Hx as [Hx <-], Hy as [Hy <-].
  rewrite nibbles_unsigned by done. rewrite Hf. f_equal; [|f_equal]; f_equal.
  - rewrite Z.mul_comm, Z.div_add_l, Z.div_small by lia. lia.
  - rewrite Z.mul_comm, Z.add_comm, Z.mod_add by lia. apply Z.mod_small. lia.
Qed.

(** Decoding a valid digest text and printing it again gives the text. *)
Lemma decode_hash_valid h :
  is_lower_hex_hash h = true ->
  decode_hash h = Ok (hash_bytes h) /\ length (hash_bytes h) = 32%nat /\ to_hex (hash_bytes h) = h.
Proof.
  intros Hh. unfold hash_bytes, decode_hash. rewrite pack_validate_hash_cases, Hh. simpl.
  destruct (decode_pairs (chars h) 32) as (d & -> & Hn & Hf).
  - by apply is_lower_hex_hash_length.
  - intros c. by apply is_lower_hex_hash_all.
  - split; [done|]. split; [done|]. unfold to_hex. by rewrite Hf, of_chars_chars.
Qed.

Lemma length_hash_bytes h : is_lower_hex_hash h = true -> len64 (hash_bytes h) = 32.
Proof. intros Hh. unfold len64. by rewrite (proj1 (proj2 (decode_hash_valid h Hh))). Qed.

(** ** Lengths *)

Definition hashes_ok (e : PackEntry) : Prop :=
  is_lower_hex_hash (pe_encoded_hash e) = true /\ is_lower_hex_hash (pe_raw_hash e) = true.

Ltac len_tac :=
  repeat rewrite len64_app; repeat rewrite len64_to_le;
  repeat rewrite length_hash_bytes by assumption;
  try change (len64 HEADER_MAGIC) with 8; try change (len64 FOOTER_MAGIC) with 8;
  try change (len64 (replicate 16 Byte.x00)) with 16; simpl Z.of_nat; try lia.

Lemma len64_entry_bytes e : hashes_ok e -> len64 (entry_bytes e) = ENTRY_SIZE.
Proof. intros [? ?]. unfold entry_bytes, ENTRY_SIZE. len_tac. Qed.

Lemma len64_header_bytes c io il : len64 (header_bytes c io il) = HEADER_SIZE.
Proof. unfold header_bytes, HEADER_SIZE. len_tac. Qed.

Lemma len64_footer_bytes `{Blake3Laws} c io il ix : len64 (footer_bytes c io il ix) = FOOTER_SIZE.
Proof.
  unfold footer_bytes, FOOTER_SIZE. len_tac. unfold len64. rewrite blake3_length. lia.
Qed.

Lemma index_bytes_app es es' : index_bytes (es ++ es') = index_bytes es ++ index_bytes es'.
Proof. unfold index_bytes. by rewrite map_app, concat_app. Qed.

Lemma len64_index_bytes es : Forall hashes_ok es -> len64 (index_bytes es) = len64 es * ENTRY_SIZE.
Proof.
  induction 1 as [|e es He _ IH]; [done|].
  change (index_bytes (e :: es)) with (entry_bytes e ++ index_bytes es).
  rewrite len64_app, len64_entry_bytes, IH by done. unfold len64. simpl. lia.
Qed.

Lemma length_layout off inputs : length (layout off inputs) = length inputs.
Proof. revert off. induction inputs; intros; simpl; auto. Qed.

Lemma layout_hashes_ok `{Blake3} off inputs : Forall input_ok inputs -> Forall hashes_ok (layout off inputs).
Proof.
  intros Hi. revert off. induction Hi as [|i l (?&?&_) _ IH]; intros off; simpl; constructor; [done|apply IH].
Qed.

Lemma len64_data_bytes inputs :
  len64 (data_bytes inputs) = sumZ (fun i => len64 (pi_encoded_bytes i)) inputs.
Proof.
  induction inputs as [|i l IH]; [done|].
  change (data_bytes (i :: l)) with (pi_encoded_bytes i ++ data_bytes l). rewrite len64_app, IH. done.
Qed.

(** ** What [build_artifact] writes *)

Lemma append_chunks_spec inputs bytes entries offset :
  0 <= offset -> offset + len64 (data_bytes inputs) <= u64_max ->
  append_chunks inputs bytes entries offset =
  Ok (bytes ++ data_bytes inputs, entries ++ layout offset inputs).
Proof.
  revert bytes entries offset. induction inputs as [|i l IH]; intros bytes entries offset H0 Hmax; simpl.
  { by rewrite !app_nil_r. }
  change (data_bytes (i :: l)) with (pi_encoded_bytes i ++ data_bytes l) in *.
  rewrite len64_app in Hmax. pose proof (len64_nonneg (pi_encoded_bytes i)).
  pose proof (len64_nonneg (data_bytes l)).
  rewrite (proj2 (checked_add_Some offset _ (offset + len64 (pi_encoded_bytes i)))) by lia.
  simpl. rewrite IH by lia. by rewrite <- !app_assoc.
Qed.

Lemma write_entries_spec es bytes :
  Forall hashes_ok es -> try_fold write_entry bytes es = Ok (bytes ++ index_bytes es).
Proof.
  intros He. revert bytes. induction He as [|e es [H1 H2] _ IH]; intros bytes; simpl.
  { by rewrite app_nil_r. }
  unfold write_entry at 1, write_hash.
  rewrite (proj1 (decode_hash_valid _ H1)), (proj1 (decode_hash_valid _ H2)). simpl. rewrite IH.
  f_equal. change (index_bytes (e :: es)) with (entry_bytes e ++ index_bytes es).
  unfold entry_bytes. by rewrite <- !app_assoc.
Qed.

Lemma patch_header_spec rest c io il :
  patch_header (replicate 64 Byte.x00 ++ rest) c io il = header_bytes c io il ++ rest.
Proof.
  unfold patch_header, header_bytes, patch, to_le.
  cbv [LittleEndianList.le_split]. reflexivity.
Qed.

(** The lengths of a pack that fits the format. *)
Lemma pack_lengths_Ok inputs r :
  pack_lengths (fun i => len64 (pi_encoded_bytes i)) inputs = Ok r ->
  let io := HEADER_SIZE + len64 (data_bytes inputs) in
  let il := len64 inputs * ENTRY_SIZE in
  r = (io, il, io + il + FOOTER_SIZE) /\ io + il + FOOTER_SIZE <= MAX_PACK_BYTES.
Proof.
  unfold pack_lengths. intros H. apply rbind_Ok in H as (dl & H1 & H).
  apply try_fold_checked_sum in H1 as [-> _]; [|intros; apply len64_nonneg].
  rewrite Z.add_0_l, <- len64_data_bytes in H.
  apply rbind_Ok in H as (io & [-> _]%ok_or_Ok%checked_add_Some & H).
  apply rbind_Ok in H as (il & [-> _]%ok_or_Ok%checked_mul_Some & H).
  apply rbind_Ok in H as (t & Ht%ok_or_Ok & H).
  destruct (checked_add (HEADER_SIZE + _) _) as [x|] eqn:E; [|done].
  apply checked_add_Some in E as [-> _], Ht as [-> _].
  destruct (MAX_PACK_BYTES <? _) eqn:E; [done|]. breflect. by injection H as <-.
Qed.

Lemma pack_lengths_small inputs :
  HEADER_SIZE + len64 (data_bytes inputs) + len64 inputs * ENTRY_SIZE + FOOTER_SIZE <= MAX_PACK_BYTES ->
  exists r, pack_lengths (fun i => len64 (pi_encoded_bytes i)) inputs = Ok r.
Proof.
  intros Hs. unfold pack_lengths, HEADER_SIZE, ENTRY_SIZE, FOOTER_SIZE, MAX_PACK_BYTES in *.
  pose proof (len64_nonneg (data_bytes inputs)). pose proof (len64_nonneg inputs).
  rewrite (proj2 (try_fold_checked_sum (fun i => len64 (pi_encoded_bytes i)) _ 0 inputs (len64 (data_bytes inputs))
    ltac:(intros; apply len64_nonneg))) by (rewrite <- len64_data_bytes; unfold u64_max; split; [|right]; lia).
  simpl. rewrite (proj2 (checked_add_Some 64 _ (64 + len64 (data_bytes inputs)))) by (unfold u64_max; lia). simpl.
  rewrite (proj2 (checked_mul_Some _ _ (len64 inputs * 96))) by (unfold u64_max; lia). simpl.
  rewrite (proj2 (checked_add_Some _ _ (64 + len64 (data_bytes inputs) + len64 inputs * 96))) by (unfold u64_max; lia).
  rewrite (proj2 (checked_add_Some _ _ (64 + len64 (data_bytes inputs) + len64 inputs * 96 + 72))) by (unfold u64_max; lia).
  simpl. rewrite (proj2 (Z.ltb_ge _ _)) by lia. eauto.
Qed.

Section build.
Context `{Blake3Laws}.

(** [build_artifact] succeeds exactly when the pack fits the format, and
    writes header, data, index and footer. *)
Lemma build_artifact_spec inputs :
  Forall input_ok inputs ->
  HEADER_SIZE + len64 (data_bytes inputs) + len64 inputs * ENTRY_SIZE + FOOTER_SIZE <= MAX_PACK_BYTES ->
  build_artifact inputs =
  Ok {| pa_pack_hash := blake3_hex (pack_bytes inputs); pa_bytes := pack_bytes inputs;
        pa_entries := layout HEADER_SIZE inputs |}.
Proof.
  intros Hi Hs. unfold build_artifact.
  destruct (pack_lengths_small inputs Hs) as [r Hr]. rewrite Hr.
  apply pack_lengths_Ok in Hr as [-> _]. cbn [rbind].
  rewrite append_chunks_spec.
  2,3: unfold HEADER_SIZE, ENTRY_SIZE, FOOTER_SIZE, MAX_PACK_BYTES, u64_max in *;
    pose proof (len64_nonneg inputs); lia.
  cbn [rbind]. rewrite app_nil_l, write_entries_spec by by apply layout_hashes_ok.
  cbn [rbind]. rewrite drop_app_length, <- !app_assoc, patch_header_spec.
  assert (len64 (layout HEADER_SIZE inputs) = len64 inputs) as ->
    by (unfold len64; by rewrite length_layout).
  unfold pack_bytes, footer_bytes. by rewrite <- ?app_assoc.
Qed.

Lemma build_artifact_Ok inputs a :
  Forall input_ok inputs -> build_artifact inputs = Ok a ->
  a = {| pa_pack_hash := blake3_hex (pack_bytes inputs); pa_bytes := pack_bytes inputs;
         pa_entries := layout HEADER_SIZE inputs |} /\
  HEADER_SIZE + len64 (data_bytes inputs) + len64 inputs * ENTRY_SIZE + FOOTER_SIZE <= MAX_PACK_BYTES.
Proof.
  intros Hi Hb. assert (HEADER_SIZE + len64 (data_bytes inputs) + len64 inputs * ENTRY_SIZE + FOOTER_SIZE
    <= MAX_PACK_BYTES) as Hs.
  { unfold build_artifact in Hb. apply rbind_Ok in Hb as (r & Hr & _). by apply pack_lengths_Ok in Hr as [_ ?]. }
  rewrite build_artifact_spec in Hb by done. by injection Hb as <-.
Qed.
End build.
