(* ===== verification/PackParse.v ===== *)
(** * Reading packs

    [parse] finds in the bytes of [pack_bytes] the entries they were laid out
    from, and whatever it accepts is a well-formed pack. *)
From stdpp Require Import base gmap strings list pretty.
From Stdlib Require Import ZArith Lia Ascii Sorting.Sorted.
From coqutil Require Import Byte.
From S2P Require Import Prelude Text Bytes Packs PackCodec.
Local Open Scope Z_scope.

(** ** Fields *)

Lemma read_uint_eq n bs off :
  off + n <= u64_max -> read_uint n bs off =
  match get_range bs off (off + n) with Some r => Some (from_le r) | None => None end.
Proof. intros. unfold read_uint. by rewrite (proj2 (checked_add_Some off n (off + n))). Qed.

Lemma read_uint_range n bs off v :
  0 <= n -> read_uint n bs off = Some v -> 0 <= v < 2 ^ (8 * n).
Proof.
  intros Hn. unfold read_uint. destruct (checked_add off n) as [e|] eqn:E; [|done].
  apply checked_add_Some in E as [-> _]. destruct (get_range _ _ _) as [r|] eqn:Er; [|done].
  intros [= <-]. apply get_range_length in Er. pose proof (from_le_range r) as Hr.
  rewrite Er in Hr. by replace (off + n - off) with n in Hr by lia.
Qed.

Lemma read_u64_range bs off v : read_u64 bs off = Some v -> is_u64 v.
Proof. intros Hv%read_uint_range; [|lia]. unfold is_u64, u64_max. lia. Qed.

Lemma read_u32_range bs off v : read_u32 bs off = Some v -> is_u32 v.
Proof. intros Hv%read_uint_range; [|lia]. unfold is_u32, u32_max. lia. Qed.

(** Reads the field that starts at a known position of a concatenation. *)
Ltac read_field :=
  unfold read_u16, read_u32, read_u64; rewrite read_uint_eq by (unfold u64_max in *; lia);
  repeat rewrite get_range_app_r by len_tac;
  rewrite get_range_here by len_tac; f_equal; apply from_to_le; simpl; unfold u64_max in *; lia.

Section header.
Context (c io il : Z) (rest : list byte).

Lemma header_magic : take 8 (header_bytes c io il ++ rest) = HEADER_MAGIC.
Proof. unfold header_bytes. rewrite <- !app_assoc. apply take_app_length'. reflexivity. Qed.

Lemma header_version : read_u16 (header_bytes c io il ++ rest) 8 = Some FORMAT_VERSION.
Proof. unfold header_bytes, FORMAT_VERSION. rewrite <- !app_assoc. read_field. Qed.

Lemma header_length_field : read_u32 (header_bytes c io il ++ rest) 12 = Some HEADER_SIZE.
Proof. unfold header_bytes, HEADER_SIZE. rewrite <- !app_assoc. read_field. Qed.

Lemma header_count : is_u64 c -> read_u64 (header_bytes c io il ++ rest) 16 = Some c.
Proof. unfold is_u64. intros. unfold header_bytes. rewrite <- !app_assoc. read_field. Qed.

Lemma header_data_offset : read_u64 (header_bytes c io il ++ rest) 24 = Some HEADER_SIZE.
Proof. unfold header_bytes, HEADER_SIZE. rewrite <- !app_assoc. read_field. Qed.

Lemma header_index_offset : is_u64 io -> read_u64 (header_bytes c io il ++ rest) 32 = Some io.
Proof. unfold is_u64. intros. unfold header_bytes. rewrite <- !app_assoc. read_field. Qed.

Lemma header_index_length : is_u64 il -> read_u64 (header_bytes c io il ++ rest) 40 = Some il.
Proof. unfold is_u64. intros. unfold header_bytes. rewrite <- !app_assoc. read_field. Qed.
End header.

Lemma read_hash_here h rest :
  is_lower_hex_hash h = true -> read_hash (hash_bytes h ++ rest) 0 = Ok h.
Proof.
  intros Hh. unfold read_hash. change (checked_add 0 32) with (Some 32). simpl.
  rewrite get_range_here by len_tac. simpl. by rewrite (proj2 (proj2 (decode_hash_valid h Hh))).
Qed.

Lemma read_hash_second h1 h2 rest :
  is_lower_hex_hash h1 = true -> is_lower_hex_hash h2 = true ->
  read_hash (hash_bytes h1 ++ hash_bytes h2 ++ rest) 32 = Ok h2.
Proof.
  intros H1 H2. unfold read_hash. change (checked_add 32 32) with (Some 64). simpl.
  rewrite get_range_mid by len_tac. simpl. by rewrite (proj2 (proj2 (decode_hash_valid h2 H2))).
Qed.

(** The integers of an entry fit their fields. *)
Definition entry_typed (e : PackEntry) : Prop :=
  is_u64 (pe_offset e) /\ is_u64 (pe_encoded_length e) /\ is_u64 (pe_raw_length e) /\
  is_u32 (pe_compression e) /\ is_u32 (pe_flags e).

(** Reading an index entry inverts writing it. *)
Lemma read_entry_bytes e : hashes_ok e -> entry_typed e -> read_entry (entry_bytes e) = Ok e.
Proof.
  intros [Hh1 Hh2] (H1 & H2 & H3 & H4 & H5). unfold is_u64, is_u32 in *. unfold read_entry.
  assert (read_hash (entry_bytes e) 0 = Ok (pe_encoded_hash e)) as -> by by apply read_hash_here.
  assert (read_hash (entry_bytes e) 32 = Ok (pe_raw_hash e)) as -> by by apply read_hash_second.
  cbn [rbind].
  assert (read_u64 (entry_bytes e) 64 = Some (pe_offset e)) as -> by (unfold entry_bytes; read_field).
  assert (read_u64 (entry_bytes e) 72 = Some (pe_encoded_length e)) as -> by (unfold entry_bytes; read_field).
  assert (read_u64 (entry_bytes e) 80 = Some (pe_raw_length e)) as -> by (unfold entry_bytes; read_field).
  assert (read_u32 (entry_bytes e) 88 = Some (pe_compression e)) as ->
    by (unfold entry_bytes; unfold u32_max in *; read_field).
  assert (read_u32 (entry_bytes e) 92 = Some (pe_flags e)) as ->.
  { unfold entry_bytes, read_u32. rewrite read_uint_eq by (unfold u64_max; lia).
    repeat rewrite get_range_app_r by len_tac. rewrite get_range_all by len_tac.
    f_equal. apply from_to_le. unfold u32_max in *. simpl. lia. }
  simpl. by destruct e.
Qed.

(** ** The index loop *)

(** The check of the loop on each entry, given its predecessor's hash. *)
Fixpoint entries_checked (data_offset index_offset : Z) (previous : option string)
  (es : list PackEntry) : Prop :=
  match es with
  | [] => True
  | e :: es' => check_entry data_offset index_offset previous e = Ok tt /\
                entries_checked data_offset index_offset (Some (pe_encoded_hash e)) es'
  end.

Lemma read_entries_spec do io es : forall pre done post prev acc,
  io = len64 pre ->
  Forall hashes_ok (done ++ es) -> Forall entry_typed es ->
  entries_checked do io prev es ->
  io + (len64 done + len64 es) * ENTRY_SIZE <= u64_max ->
  read_entries (pre ++ index_bytes (done ++ es) ++ post) do io (length es) (len64 done) prev acc
  = Ok (acc ++ es).
Proof.
  induction es as [|e es IH]; intros pre done post prev acc Hio Hh Ht Hc Hm; simpl.
  { by rewrite app_nil_r. }
  apply Forall_app in Hh as [Hd Hes]. apply Forall_cons in Hes as [He Hes], Ht as [Hte Htes].
  destruct Hc as [Hce Hces]. pose proof (len64_nonneg pre). pose proof (len64_nonneg done).
  pose proof (len64_nonneg es). unfold ENTRY_SIZE, u64_max in *.
  assert (len64 (e :: es) = 1 + len64 es) as Hl by (unfold len64; simpl; lia). rewrite Hl in Hm.
  rewrite (proj2 (checked_mul_Some _ _ (len64 done * 96))) by (unfold u64_max; lia). simpl.
  rewrite (proj2 (checked_add_Some _ _ (io + len64 done * 96))) by (unfold u64_max; lia). simpl.
  rewrite (proj2 (checked_add_Some _ _ (io + len64 done * 96 + 96))) by (unfold u64_max; lia). simpl.
  rewrite index_bytes_app. change (index_bytes (e :: es)) with (entry_bytes e ++ index_bytes es).
  rewrite <- !app_assoc, (app_assoc pre).
  pose proof (len64_index_bytes done Hd) as Hld. pose proof (len64_entry_bytes e He) as Hle.
  unfold ENTRY_SIZE in *. rewrite get_range_mid by (rewrite len64_app; lia). simpl.
  rewrite read_entry_bytes by done. simpl. rewrite Hce. simpl.
  replace (len64 done + 1) with (len64 (done ++ [e])) by (rewrite len64_app; unfold len64; simpl; lia).
  specialize (IH pre (done ++ [e]) post (Some (pe_encoded_hash e)) (acc ++ [e])).
  rewrite <- !app_assoc in IH. simpl in IH. rewrite <- IH; try done.
  - rewrite index_bytes_app. change (index_bytes (e :: es)) with (entry_bytes e ++ index_bytes es).
    by rewrite <- !app_assoc.
  - apply Forall_app. split; [done|by constructor].
  - rewrite len64_app. change (len64 [e]) with 1. lia.
Qed.

(** ** The layout passes the checks *)

Definition entry_in (lo hi : Z) (e : PackEntry) : Prop :=
  lo <= pe_offset e /\ 0 <= pe_encoded_length e /\ pe_offset e + pe_encoded_length e <= hi.

Lemma layout_in off inputs :
  Forall (entry_in off (off + len64 (data_bytes inputs))) (layout off inputs).
Proof.
  revert off. induction inputs as [|i l IH]; intros off; simpl; constructor;
    change (data_bytes (i :: l)) with (pi_encoded_bytes i ++ data_bytes l); rewrite len64_app;
    pose proof (len64_nonneg (pi_encoded_bytes i)); pose proof (len64_nonneg (data_bytes l)).
  - unfold entry_in. simpl. lia.
  - eapply Forall_impl; [apply IH|]. unfold entry_in. intros e. lia.
Qed.

Definition hash_before (previous : option string) (e : PackEntry) : Prop :=
  match previous with Some p => str_lt p (pe_encoded_hash e) | None => True end.

Lemma check_entry_Ok do io prev e :
  is_u64 (pe_offset e + pe_encoded_length e) ->
  check_entry do io prev e = Ok tt <->
  hashes_ok e /\ pe_raw_length e <= MAX_DECLARED_CHUNK_BYTES /\
  pe_encoded_length e <= MAX_DECLARED_CHUNK_BYTES /\ pe_compression e = COMPRESSION_ZSTD /\
  hash_before prev e /\ do <= pe_offset e /\ pe_offset e + pe_encoded_length e <= io.
Proof.
  intros Hu. unfold is_u64 in Hu. unfold check_entry, hashes_ok, hash_before, encoded_end, str_lt.
  rewrite !pack_validate_hash_cases.
  destruct (is_lower_hex_hash (pe_encoded_hash e)), (is_lower_hex_hash (pe_raw_hash e)); simpl;
    try naive_solver.
  destruct (_ || _) eqn:E1; [split; [done|]; apply orb_true_iff in E1; rewrite !Z.ltb_lt in E1; naive_solver lia|].
  destruct (Z.eqb_spec (pe_compression e) COMPRESSION_ZSTD); simpl; [|naive_solver].
  breflect. destruct prev as [p|].
  - destruct (String.compare p (pe_encoded_hash e)) eqn:Ep; simpl; [naive_solver|..|naive_solver].
    rewrite (proj2 (checked_add_Some _ _ (pe_offset e + pe_encoded_length e))) by lia. simpl.
    destruct (Z.ltb_spec (pe_offset e) do), (Z.ltb_spec io (pe_offset e + pe_encoded_length e)); simpl; naive_solver lia.
  - rewrite (proj2 (checked_add_Some _ _ (pe_offset e + pe_encoded_length e))) by lia. simpl.
    destruct (Z.ltb_spec (pe_offset e) do), (Z.ltb_spec io (pe_offset e + pe_encoded_length e)); simpl; naive_solver lia.
Qed.

(** The inputs of one pack: checked, in strict hash order, and after the
    previous hash. *)
Definition hash_order (a b : PackInput) : Prop := str_lt (pi_encoded_hash a) (pi_encoded_hash b).

#[export] Instance offset_order : TotalPreorder (fun a b => pe_offset a ?= pe_offset b).
Proof. apply (cmp_by_key pe_offset), Z_compare_order. Qed.

Section layout.
Context `{Blake3Laws}.

Lemma layout_checked hi inputs : forall off prev,
  Forall input_ok inputs -> StronglySorted hash_order inputs ->
  (forall p i, prev = Some p -> i ∈ inputs -> str_lt p (pi_encoded_hash i)) ->
  HEADER_SIZE <= off -> off + len64 (data_bytes inputs) <= hi -> hi <= u64_max ->
  entries_checked HEADER_SIZE hi prev (layout off inputs).
Proof.
  induction inputs as [|i l IH]; intros off prev Hi Hs Hp Hlo Hhi Hmax; simpl; [done|].
  apply Forall_cons in Hi as [(?&?&?&?&?) Hl]. apply StronglySorted_inv in Hs as [Hsl Hsi].
  change (data_bytes (i :: l)) with (pi_encoded_bytes i ++ data_bytes l) in Hhi.
  rewrite len64_app in Hhi. pose proof (len64_nonneg (pi_encoded_bytes i)).
  pose proof (len64_nonneg (data_bytes l)). unfold HEADER_SIZE in Hlo. split.
  - apply check_entry_Ok; simpl; unfold is_u64, HEADER_SIZE; [lia|].
    split_and!; try done; try lia. destruct prev as [p|]; [|done]. apply Hp; [done|left].
  - apply IH; try done; unfold HEADER_SIZE; try lia.
    intros p j [= <-] Hj. rewrite Forall_forall in Hsi. by apply Hsi.
Qed.

Lemma layout_typed inputs : forall off,
  Forall input_ok inputs -> 0 <= off -> off + len64 (data_bytes inputs) <= u64_max ->
  Forall entry_typed (layout off inputs).
Proof.
  induction inputs as [|i l IH]; intros off Hi Hge Hm; simpl; [constructor|].
  apply Forall_cons in Hi as [(?&?&?&?&?) Hl].
  change (data_bytes (i :: l)) with (pi_encoded_bytes i ++ data_bytes l) in Hm.
  rewrite len64_app in Hm. pose proof (len64_nonneg (pi_encoded_bytes i)).
  pose proof (len64_nonneg (data_bytes l)). unfold MAX_DECLARED_CHUNK_BYTES in *.
  constructor; [|apply IH; done || lia].
  unfold entry_typed, is_u64, is_u32, u32_max, u64_max, COMPRESSION_ZSTD in *. simpl. lia.
Qed.

(** Adjacent entries of a layout are adjacent in the data. *)
Lemma layout_sorted inputs off :
  StronglySorted (cmp_le (fun a b => pe_offset a ?= pe_offset b)) (layout off inputs).
Proof.
  revert off. induction inputs as [|i l IH]; intros off; simpl; constructor; [apply IH|].
  eapply Forall_impl; [apply layout_in|]. intros e (? & ?). unfold cmp_le. simpl.
  pose proof (len64_nonneg (pi_encoded_bytes i)). destruct (Z.compare_spec off (pe_offset e)); lia || done.
Qed.

Lemma layout_windows inputs off a b :
  (a, b) ∈ windows2 (layout off inputs) -> pe_offset b = pe_offset a + pe_encoded_length a.
Proof.
  revert off. induction inputs as [|i [|j l] IH]; intros off; simpl; try by intros ?%elem_of_nil.
  intros [[= -> ->]|Hin]%elem_of_cons; [done|]. by eapply (IH (off + len64 (pi_encoded_bytes i))).
Qed.

Lemma layout_overlap inputs off :
  0 <= off -> off + len64 (data_bytes inputs) <= u64_max -> check_overlap (layout off inputs) = Ok tt.
Proof.
  intros Hge Hm. unfold check_overlap. rewrite sort_by_sorted_id by apply layout_sorted.
  apply for_each_Ok, Forall_forall. intros [a b] Hab. simpl.
  pose proof (layout_windows _ _ _ _ Hab) as Hb. apply windows2_in in Hab as [Ha _].
  pose proof (layout_in off inputs) as Hin. rewrite Forall_forall in Hin. apply Hin in Ha as (?&?&?).
  unfold encoded_end. rewrite (proj2 (checked_add_Some _ _ (pe_offset a + pe_encoded_length a))) by lia.
  simpl. by rewrite (proj2 (Z.ltb_ge _ _)) by lia.
Qed.

(** ** Parsing what was built *)

Definition fits (inputs : list PackInput) : Prop :=
  HEADER_SIZE + len64 (data_bytes inputs) + len64 inputs * ENTRY_SIZE + FOOTER_SIZE <= MAX_PACK_BYTES.

Lemma pack_bytes_length inputs :
  Forall input_ok inputs -> len64 (pack_bytes inputs) =
  HEADER_SIZE + len64 (data_bytes inputs) + len64 inputs * ENTRY_SIZE + FOOTER_SIZE.
Proof.
  intros Hi. unfold pack_bytes. rewrite !len64_app, len64_header_bytes, len64_footer_bytes.
  rewrite len64_index_bytes by by apply layout_hashes_ok.
  unfold len64 at 2. rewrite length_layout. unfold len64. lia.
Qed.

Lemma parse_header_pack inputs :
  Forall input_ok inputs -> fits inputs ->
  parse_header (pack_bytes inputs) =
  Ok (len64 inputs, HEADER_SIZE, HEADER_SIZE + len64 (data_bytes inputs), len64 inputs * ENTRY_SIZE).
Proof.
  intros Hi Hf. pose proof (pack_bytes_length inputs Hi) as Hlen. unfold fits in Hf.
  pose proof (len64_nonneg (data_bytes inputs)). pose proof (len64_nonneg inputs).
  unfold HEADER_SIZE, ENTRY_SIZE, FOOTER_SIZE, MAX_PACK_BYTES in *.
  assert (take 8 (pack_bytes inputs) = HEADER_MAGIC) as E1 by apply header_magic.
  assert (read_u16 (pack_bytes inputs) 8 = Some FORMAT_VERSION) as E2 by apply header_version.
  assert (read_u32 (pack_bytes inputs) 12 = Some HEADER_SIZE) as E3 by apply header_length_field.
  assert (read_u64 (pack_bytes inputs) 16 = Some (len64 inputs)) as E4
    by (apply header_count; unfold is_u64, u64_max; lia).
  assert (read_u64 (pack_bytes inputs) 24 = Some HEADER_SIZE) as E5 by apply header_data_offset.
  assert (read_u64 (pack_bytes inputs) 32 = Some (64 + len64 (data_bytes inputs))) as E6
    by (apply header_index_offset; unfold is_u64, u64_max; lia).
  assert (read_u64 (pack_bytes inputs) 40 = Some (len64 inputs * 96)) as E7
    by (apply header_index_length; unfold is_u64, u64_max; lia).
  revert Hlen E1 E2 E3 E4 E5 E6 E7. generalize (pack_bytes inputs). intros B Hlen E1 E2 E3 E4 E5 E6 E7.
  unfold parse_header, bytes_eqb. rewrite Hlen, E1, E2, E3, E4, E5, E6, E7.
  rewrite (proj2 (Z.ltb_ge _ _)) by (unfold HEADER_SIZE, FOOTER_SIZE; lia).
  rewrite bool_decide_eq_true_2 by done. cbn [rbind ok_or negb]. rewrite !Z.eqb_refl. cbn [rbind ok_or negb].
  rewrite (proj2 (checked_mul_Some _ _ (len64 inputs * 96))) by (unfold u64_max, ENTRY_SIZE; lia).
  cbn [rbind ok_or negb]. rewrite Z.eqb_refl. cbn [negb].
  by rewrite (proj2 (Z.ltb_ge _ _)) by (unfold MAX_PACK_BYTES; lia).
Qed.

(** A field of the footer of [P ++ footer], at [len64 P + k]. *)
Ltac footer_field :=
  unfold footer_bytes, FORMAT_VERSION; read_field.

Lemma parse_footer_pack inputs :
  Forall input_ok inputs -> fits inputs ->
  parse_footer (pack_bytes inputs) (len64 inputs) HEADER_SIZE
    (HEADER_SIZE + len64 (data_bytes inputs)) (len64 inputs * ENTRY_SIZE) = Ok tt.
Proof.
  intros Hi Hf. pose proof (pack_bytes_length inputs Hi) as Hlen. unfold fits in Hf.
  pose proof (len64_nonneg (data_bytes inputs)). pose proof (len64_nonneg inputs).
  unfold parse_footer. rewrite Hlen. unfold pack_bytes.
  pose proof (len64_header_bytes (len64 inputs) (HEADER_SIZE + len64 (data_bytes inputs))
    (len64 inputs * ENTRY_SIZE)) as Lh.
  pose proof (len64_index_bytes (layout HEADER_SIZE inputs) (layout_hashes_ok _ _ Hi)) as Li.
  unfold len64 at 2 in Li. rewrite length_layout in Li. fold (len64 inputs) in Li.
  set (HB := header_bytes _ _ _) in *. set (D := data_bytes inputs) in *.
  set (I := index_bytes _) in *. set (n := len64 inputs) in *.
  set (io := HEADER_SIZE + len64 D) in *. set (il := n * ENTRY_SIZE) in *.
  set (fs := io + il + FOOTER_SIZE - FOOTER_SIZE).
  assert (fs = len64 ((HB ++ D) ++ I)) as Hfs by (rewrite !len64_app; unfold fs, io; lia).
  rewrite (app_assoc HB), (app_assoc (HB ++ D)). set (P := (HB ++ D) ++ I) in *.
  assert (io + il + FOOTER_SIZE <= MAX_PACK_BYTES) as Hmax by (unfold io, il; lia).
  unfold HEADER_SIZE, ENTRY_SIZE, FOOTER_SIZE, MAX_PACK_BYTES in *.
  assert (0 <= fs <= 8589934592) by lia. assert (0 <= io) by lia. assert (0 <= il) by lia.
  assert (io + il = fs) as Hend by lia.
  assert (get_range (P ++ footer_bytes n io il I) fs (fs + 8) = Some FOOTER_MAGIC) as ->.
  { rewrite get_range_app_r by lia. unfold footer_bytes. apply get_range_here; len_tac. }
  unfold bytes_eqb. cbn [rbind ok_or negb orb]. rewrite bool_decide_eq_true_2 by done. cbn [rbind ok_or negb orb].
  assert (read_u16 (P ++ footer_bytes n io il I) (fs + 8) = Some 1) as -> by footer_field.
  assert (read_u64 (P ++ footer_bytes n io il I) (fs + 12) = Some io) as -> by footer_field.
  assert (read_u64 (P ++ footer_bytes n io il I) (fs + 20) = Some il) as -> by footer_field.
  assert (read_u64 (P ++ footer_bytes n io il I) (fs + 28) = Some n) as -> by footer_field.
  cbn [rbind ok_or negb orb]. rewrite !Z.eqb_refl. cbn [rbind ok_or negb orb].
  rewrite (proj2 (checked_add_Some io il fs)) by (unfold u64_max; lia). cbn [rbind ok_or negb orb].
  rewrite Z.eqb_refl, (proj2 (Z.ltb_ge io 64)), (proj2 (Z.ltb_ge fs fs)) by lia. cbn [rbind ok_or negb orb].
  assert (get_range (P ++ footer_bytes n io il I) (fs + 40) (fs + 72) = Some (blake3 I)) as ->.
  { unfold footer_bytes. repeat rewrite get_range_app_r by len_tac.
    assert (len64 (blake3 I) = 32) by (unfold len64; by rewrite blake3_length).
    apply get_range_all; len_tac. }
  cbn [rbind ok_or negb orb]. rewrite get_range_app_l by lia. unfold P.
  rewrite get_range_app_r by (rewrite len64_app; lia).
  rewrite get_range_all by (rewrite len64_app; lia). cbn [rbind ok_or negb orb].
  by rewrite bool_decide_eq_true_2.
Qed.

(** Parsing a built pack gives back its layout. *)
Lemma parse_pack_bytes inputs :
  Forall input_ok inputs -> StronglySorted hash_order inputs -> fits inputs ->
  parse (pack_bytes inputs) =
  Ok {| pr_bytes := pack_bytes inputs; pr_entries := layout HEADER_SIZE inputs;
        pr_index_offset := HEADER_SIZE + len64 (data_bytes inputs) |}.
Proof.
  intros Hi Hs Hf. unfold parse. rewrite parse_header_pack by done. cbn [rbind].
  rewrite parse_footer_pack by done. cbn [rbind]. unfold fits in Hf.
  pose proof (len64_nonneg (data_bytes inputs)). pose proof (len64_nonneg inputs).
  unfold ENTRY_SIZE, FOOTER_SIZE, MAX_PACK_BYTES in *.
  assert (HEADER_SIZE = 64) as Hhs by done.
  assert (Z.to_nat (len64 inputs) = length (layout HEADER_SIZE inputs)) as ->
    by (rewrite length_layout; unfold len64; lia).
  unfold pack_bytes. rewrite (app_assoc (header_bytes _ _ _)).
  change 0 with (len64 (@nil PackEntry)) at 1.
  rewrite (read_entries_spec HEADER_SIZE (HEADER_SIZE + len64 (data_bytes inputs))
    (layout HEADER_SIZE inputs) _ [] _ None []); cbn [app].
  - cbn [rbind]. rewrite layout_overlap by (unfold u64_max; lia). cbn [rbind].
    done.
  - by rewrite len64_app, len64_header_bytes.
  - by apply layout_hashes_ok.
  - apply layout_typed; [done|lia|unfold u64_max; lia].
  - apply layout_checked; try done; try (unfold u64_max; lia).
  - unfold len64 at 2 3. rewrite length_layout. fold (len64 inputs). unfold ENTRY_SIZE, u64_max. simpl. lia.
Qed.
End layout.
