(* ===== verification/PackProps.v ===== *)
(** * Properties of the pack format and builder *)
From stdpp Require Import base gmap strings list pretty.
From Stdlib Require Import ZArith Lia Ascii Sorting.Sorted.
From coqutil Require Import Byte.
From S2P Require Import Prelude Text Bytes Packs PackCodec PackParse.
Local Open Scope Z_scope.

(** ** Binary search *)

Section bisect.
Context {A : Type} (cmp : A -> comparison) (l : list A).

(** [cmp] sees the list as sorted: everything before a match is smaller,
    everything after it is larger. *)
Definition monotone_around (i : nat) : Prop :=
  forall j x, l !! j = Some x ->
    ((j < i)%nat -> cmp x = Lt) /\ ((i < j)%nat -> cmp x = Gt).

Lemma bisect_finds i y : forall fuel base size,
  monotone_around i -> l !! i = Some y -> cmp y = Eq ->
  (size <= fuel)%nat -> (base <= i < base + size)%nat ->
  bisect cmp l fuel base size = i.
Proof.
  induction fuel as [|fuel IH]; intros base size Hm Hi He Hf Hb; simpl; [lia|].
  destruct (Nat.leb_spec size 1) as [|Hs]; [lia|].
  pose proof (Nat.div2_div size) as Hd. pose proof (Nat.div_mod_eq size 2) as Hdm.
  pose proof (Nat.mod_upper_bound size 2 ltac:(lia)) as Hmo. rewrite <- Hd in Hdm.
  assert (0 < Nat.div2 size < size)%nat as Hhalf by lia.
  destruct (l !! (base + Nat.div2 size)%nat) as [x|] eqn:E.
  - destruct (Hm _ _ E) as [Hlt Hgt].
    destruct (lt_eq_lt_dec i (base + Nat.div2 size)) as [[H|H]|H].
    + rewrite (Hgt H). cbv iota. apply IH; try done; lia.
    + assert (x = y) as -> by (subst i; congruence). rewrite He. cbv iota. apply IH; try done; lia.
    + rewrite (Hlt H). cbv iota. apply IH; try done; lia.
  - apply lookup_ge_None in E. pose proof (lookup_lt_Some _ _ _ Hi). apply IH; try done; lia.
Qed.

Lemma binary_search_by_finds i y :
  monotone_around i -> l !! i = Some y -> cmp y = Eq -> binary_search_by cmp l = Some i.
Proof.
  intros Hm Hi He. pose proof (lookup_lt_Some _ _ _ Hi) as Hl.
  unfold binary_search_by. destruct l as [|z l'] eqn:El; [simpl in Hl; lia|]. rewrite <- El in *.
  erewrite bisect_finds by (done || lia). by rewrite Hi, He.
Qed.

Lemma binary_search_by_sound i :
  binary_search_by cmp l = Some i -> exists y, l !! i = Some y /\ cmp y = Eq.
Proof.
  unfold binary_search_by. destruct l as [|z l'] eqn:El; [done|]. rewrite <- El.
  destruct (l !! _) as [y|] eqn:E; [|done]. destruct (cmp y) eqn:Ec; [|done..].
  intros [= <-]. eauto.
Qed.
End bisect.

Definition entry_before (a b : PackEntry) : Prop := str_lt (pe_encoded_hash a) (pe_encoded_hash b).

Lemma sorted_lookup_lt es i j a b :
  StronglySorted entry_before es -> es !! i = Some a -> es !! j = Some b -> (i < j)%nat -> entry_before a b.
Proof.
  intros Hs. revert i j. induction Hs as [|e es Hs IH He]; intros [|i] [|j] Hi Hj Hij; simpl in *; try done; try lia.
  - injection Hi as ->. rewrite Forall_forall in He. apply He. by eapply list_elem_of_lookup_2.
  - eapply IH; [done..|lia].
Qed.

(** Looking a hash up in a sorted index. *)
Lemma entry_finds r h e :
  StronglySorted entry_before (pr_entries r) -> is_lower_hex_hash h = true ->
  e ∈ pr_entries r -> pe_encoded_hash e = h -> entry r h = Ok e.
Proof.
  intros Hs Hh He <-. unfold entry. rewrite pack_validate_hash_cases, Hh. simpl.
  apply list_elem_of_lookup_1 in He as [i Hi].
  erewrite binary_search_by_finds; [|..|exact Hi|apply str_compare_refl]; [by rewrite Hi|].
  intros j x Hx. split; intros Hij.
  - by eapply sorted_lookup_lt in Hij.
  - rewrite String.compare_antisym. eapply sorted_lookup_lt in Hij; [|done..].
    unfold entry_before, str_lt in Hij. by rewrite Hij.
Qed.

Lemma entry_sound r h e :
  entry r h = Ok e -> e ∈ pr_entries r /\ pe_encoded_hash e = h /\ is_lower_hex_hash h = true.
Proof.
  unfold entry. rewrite pack_validate_hash_cases. destruct (is_lower_hex_hash h); [simpl|done].
  destruct (binary_search_by _ _) as [i|] eqn:E; [|done].
  apply binary_search_by_sound in E as (y & Hy & Ey%String.compare_eq_iff). rewrite Hy. simpl.
  intros [= <-]. split_and!; [by eapply list_elem_of_lookup_2|done..].
Qed.

Lemma entry_err r h e : is_lower_hex_hash h = true -> entry r h = Err e -> e = ChunkNotFound h.
Proof.
  intros Hh. unfold entry. rewrite pack_validate_hash_cases, Hh. simpl.
  destruct (binary_search_by _ _) as [i|]; simpl; [destruct (pr_entries r !! i); simpl|]; congruence.
Qed.

(** ** What [parse] guarantees *)

Lemma read_entry_typed slice e : read_entry slice = Ok e -> entry_typed e.
Proof.
  unfold read_entry. intros H.
  apply rbind_Ok in H as (h1 & _ & H). apply rbind_Ok in H as (h2 & _ & H).
  apply rbind_Ok in H as (o & Ho%ok_or_Ok & H). apply rbind_Ok in H as (el & Hel%ok_or_Ok & H).
  apply rbind_Ok in H as (rl & Hrl%ok_or_Ok & H). apply rbind_Ok in H as (c & Hc%ok_or_Ok & H).
  apply rbind_Ok in H as (f & Hf%ok_or_Ok & [= <-]).
  unfold entry_typed. simpl. split_and!; eauto using read_u64_range, read_u32_range.
Qed.

Lemma read_entries_sound bytes do io remaining : forall position previous acc out,
  read_entries bytes do io remaining position previous acc = Ok out ->
  exists es, out = acc ++ es /\ length es = remaining /\ Forall entry_typed es /\
             entries_checked do io previous es.
Proof.
  induction remaining as [|n IH]; intros position previous acc out; simpl.
  { intros [= <-]. exists []. by rewrite app_nil_r. }
  intros H. apply rbind_Ok in H as (rel & _ & H). apply rbind_Ok in H as (start & _ & H).
  apply rbind_Ok in H as (stop & _ & H). apply rbind_Ok in H as (slice & _ & H).
  apply rbind_Ok in H as (e & He%read_entry_typed & H). apply rbind_Ok in H as ([] & Hc & H).
  apply IH in H as (es & -> & <- & Ht & Hes). exists (e :: es). rewrite <- app_assoc. simpl.
  split_and!; [done..|by constructor|done|done].
Qed.

Definition entry_sum_fits (e : PackEntry) : Prop := is_u64 (pe_offset e + pe_encoded_length e).

(** A checked entry has an end that does not overflow. *)
Lemma check_entry_sum do io prev e :
  entry_typed e -> check_entry do io prev e = Ok tt -> entry_sum_fits e.
Proof.
  intros (H1 & H2 & _). unfold check_entry. rewrite rbind_Ok. intros ([] & _ & H).
  apply rbind_Ok in H as ([] & _ & H). repeat (case_match; try done).
  all: apply rbind_Ok in H as (x & Hx & _); apply ok_or_Ok, checked_add_Some in Hx as [-> ?];
    unfold entry_sum_fits, is_u64 in *; lia.
Qed.

Lemma entries_checked_spec do io es : forall previous,
  Forall entry_typed es -> entries_checked do io previous es ->
  Forall (fun e => hashes_ok e /\ entry_in do io e /\ entry_sum_fits e /\
                   hash_before previous e) es /\
  StronglySorted entry_before es.
Proof.
  induction es as [|e es IH]; intros prev Ht Hc; simpl; [split; constructor|].
  apply Forall_cons in Ht as [He Hes]. destruct Hc as [Hce Hces].
  pose proof (check_entry_sum _ _ _ _ He Hce) as Hsum.
  apply check_entry_Ok in Hce as (?&?&?&?&Hb&?&?); [|done].
  destruct (IH _ Hes Hces) as [Hf Hs]. destruct He as (?&Hl&_). unfold is_u64 in Hl.
  split; constructor.
  - unfold entry_in. split_and!; done || lia.
  - eapply Forall_impl; [exact Hf|]. intros e' (?&?&?&Hlt). split_and!; try done.
    destruct prev as [p|]; [|done]. simpl in *. by eapply str_lt_trans.
  - done.
  - eapply Forall_impl; [exact Hf|]. by intros e' (?&?&?&Hlt).
Qed.

(** Data ranges that do not meet. *)
Definition ends_before (a b : PackEntry) : Prop :=
  pe_offset a + Z.max (pe_encoded_length a) 0 <= pe_offset b.

#[export] Instance ends_before_trans : Transitive ends_before.
Proof. unfold ends_before. intros a b c. lia. Qed.

Lemma check_overlap_sound es :
  Forall entry_typed es -> Forall entry_sum_fits es -> check_overlap es = Ok tt ->
  forall a b, a ∈ es -> b ∈ es -> a <> b -> ends_before a b \/ ends_before b a.
Proof.
  unfold check_overlap. intros Ht Hs Hw a b Ha Hb Hne.
  apply for_each_Ok in Hw. rewrite Forall_forall in Hw. rewrite Forall_forall in Ht. rewrite Forall_forall in Hs.
  eapply (StronglySorted_related ends_before (sort_by _ es)); [|by apply elem_of_sort_by..|done].
  apply windows2_StronglySorted; [apply _|]. intros x y Hxy. specialize (Hw _ Hxy). simpl in Hw.
  apply windows2_in in Hxy as [Hx _]. apply elem_of_sort_by in Hx.
  destruct (Ht _ Hx) as (_ & Hl & _). specialize (Hs _ Hx). unfold entry_sum_fits, is_u64 in *.
  unfold encoded_end in Hw. rewrite (proj2 (checked_add_Some _ _ (pe_offset x + pe_encoded_length x))) in Hw by lia.
  simpl in Hw. destruct (_ <? _) eqn:E; [done|]. breflect. unfold ends_before. lia.
Qed.

Section props.
Context `{Blake3}.

Lemma parse_header_sound bytes n do io il :
  parse_header bytes = Ok (n, do, io, il) ->
  do = HEADER_SIZE /\ il = n * ENTRY_SIZE /\ is_u64 n /\ is_u64 io /\
  HEADER_SIZE + FOOTER_SIZE <= len64 bytes <= MAX_PACK_BYTES.
Proof.
  unfold parse_header. intros H0. destruct (_ <? _) eqn:E1 in H0; [done|].
  destruct (negb _) eqn:E2 in H0; [done|].
  apply rbind_Ok in H0 as (v & _ & H0). case_match; [done|].
  apply rbind_Ok in H0 as (hl & _ & H0). case_match; [done|].
  apply rbind_Ok in H0 as (n' & Hn%ok_or_Ok%read_u64_range & H0).
  apply rbind_Ok in H0 as (do' & _ & H0).
  apply rbind_Ok in H0 as (io' & Hio%ok_or_Ok%read_u64_range & H0).
  apply rbind_Ok in H0 as (il' & _ & H0). case_match; [done|].
  apply rbind_Ok in H0 as (eil & He & H0). apply ok_or_Ok, checked_mul_Some in He as [-> _].
  repeat (case_match; try done). injection H0 as -> -> -> ->. breflect.
  split_and!; done || lia.
Qed.

Lemma parse_footer_sound bytes n do io il :
  parse_footer bytes n do io il = Ok tt ->
  do <= io /\ io + il = len64 bytes - FOOTER_SIZE /\
  get_range bytes (len64 bytes - 32) (len64 bytes) =
  option_map blake3 (get_range bytes io (io + il)).
Proof.
  unfold parse_footer. set (fs := len64 bytes - FOOTER_SIZE). intros H0.
  apply rbind_Ok in H0 as (m & _ & H0). case_match; [done|].
  apply rbind_Ok in H0 as (v & _ & H0). case_match; [done|].
  apply rbind_Ok in H0 as (a & _ & H0). apply rbind_Ok in H0 as (b & _ & H0).
  apply rbind_Ok in H0 as (c & _ & H0). case_match; [done|].
  apply rbind_Ok in H0 as (ie & Hie & H0). apply ok_or_Ok, checked_add_Some in Hie as [-> _].
  case_match; [done|]. apply rbind_Ok in H0 as (h & Hh%ok_or_Ok & H0).
  apply rbind_Ok in H0 as (ix & Hix%ok_or_Ok & H0). case_match; [done|]. breflect.
  unfold bytes_eqb in *. breflect. subst h. split_and!; [done..|].
  rewrite Hix. simpl. rewrite <- Hh. unfold fs, FOOTER_SIZE. f_equal; lia.
Qed.

Lemma parse_sound bytes r :
  parse bytes = Ok r ->
  pr_bytes r = bytes /\
  HEADER_SIZE <= pr_index_offset r /\
  len64 bytes = pr_index_offset r + len64 (pr_entries r) * ENTRY_SIZE + FOOTER_SIZE /\
  len64 bytes <= MAX_PACK_BYTES /\
  Forall (fun e => hashes_ok e /\ entry_in HEADER_SIZE (pr_index_offset r) e) (pr_entries r) /\
  StronglySorted entry_before (pr_entries r) /\
  (forall a b, a ∈ pr_entries r -> b ∈ pr_entries r -> a <> b -> ends_before a b \/ ends_before b a).
Proof.
  unfold parse. intros H0. apply rbind_Ok in H0 as ([[[n do] io] il] & Hh & H0).
  apply parse_header_sound in Hh as (-> & -> & Hn & Hio & Hlen).
  apply rbind_Ok in H0 as ([] & Hf & H0). apply parse_footer_sound in Hf as (Hdo & Hend & _).
  apply rbind_Ok in H0 as (es & He & H0). apply rbind_Ok in H0 as ([] & Ho & [= <-]). simpl.
  apply read_entries_sound in He as (es' & -> & Hl & Ht & Hc). simpl in *.
  apply entries_checked_spec in Hc as [Hf Hs]; [|done].
  unfold is_u64 in Hn. assert (len64 es' = n) as -> by (unfold len64; lia).
  split_and!; try done; try lia.
  - eapply Forall_impl; [exact Hf|]. by intros e (?&?&_).
  - apply check_overlap_sound; try done. eapply Forall_impl; [exact Hf|]. by intros e (?&?&?&_).
Qed.
End props.
