(* ===== verification/PackBuild.v ===== *)
(** * The pack builder

    How [PackBuilder] cuts its inputs into packs, and the properties of the
    whole pack component. *)
From stdpp Require Import base gmap strings list pretty.
From Stdlib Require Import ZArith Lia Ascii Sorting.Sorted.
From coqutil Require Import Byte.
From S2P Require Import Prelude Text Bytes Packs PackCodec PackParse PackProps.
Local Open Scope Z_scope.

(** ** Grouping *)

Section grouping.
Context {A : Type} (size : A -> Z) (config : PackConfig).
Context (Hsize : forall a, 0 <= size a).
Context (Hmax : max_bytes config <= MAX_PACK_BYTES).

(** A group is closed before the next input [x] only when it must be: the two
    together pass the maximum, or the group has its minimum and would pass the
    target. *)
Definition closed_before (g h : list A) : Prop :=
  exists x h', h = x :: h' /\
    (max_bytes config < sumZ size g + size x \/
     (min_bytes config <= sumZ size g /\ target_bytes config < sumZ size g + size x)).

Definition group_ok (g : list A) : Prop := g <> [] /\ sumZ size g <= max_bytes config.

Definition groups_ok (gs : list (list A)) : Prop :=
  Forall group_ok gs /\ (forall g h, (g, h) ∈ windows2 gs -> closed_before g h).

Lemma closed_before_extend g h l : closed_before g h -> closed_before g (h ++ l).
Proof. intros (x & h' & -> & ?). exists x, (h' ++ l). done. Qed.

Lemma windows_extend gs cur i :
  (forall g h, (g, h) ∈ windows2 (gs ++ [cur]) -> closed_before g h) ->
  (forall g h, (g, h) ∈ windows2 (gs ++ [cur ++ i]) -> closed_before g h).
Proof.
  intros Hw g h. destruct gs as [|y gs _] using rev_ind; [by intros ?%elem_of_nil|].
  rewrite windows2_snoc. rewrite windows2_snoc in Hw.
  rewrite elem_of_app, list_elem_of_singleton. intros [Hin|[= -> ->]].
  - apply Hw. rewrite elem_of_app. by left.
  - apply closed_before_extend, Hw. rewrite elem_of_app, list_elem_of_singleton. by right.
Qed.

Lemma group_loop_spec inputs : forall groups current current_bytes,
  Forall (fun a => size a <= max_bytes config) inputs ->
  current_bytes = sumZ size current -> sumZ size current <= max_bytes config ->
  (current = [] -> groups = []) ->
  (current <> [] -> groups_ok (groups ++ [current])) ->
  concat (group_loop size config inputs groups current current_bytes)
    = concat groups ++ current ++ inputs /\
  groups_ok (group_loop size config inputs groups current current_bytes).
Proof.
  unfold MAX_PACK_BYTES in Hmax.
  induction inputs as [|i l IH]; intros groups current cb Hl -> Hc Hnil Hok; simpl.
  { case_bool_decide as Hcur.
    - subst current. rewrite (Hnil eq_refl). split; [done|]. split; [constructor|]. by intros ?? ?%elem_of_nil.
    - split; [|by apply Hok]. rewrite concat_app. simpl. by rewrite !app_nil_r. }
  apply Forall_cons in Hl as [Hi Hl]. specialize (Hsize i) as Hsi.
  assert (0 <= sumZ size current) by (apply sumZ_nonneg; auto).
  assert (saturating_add (sumZ size current) (size i) = sumZ size current + size i) as Hsat
    by (unfold saturating_add, u64_max; lia).
  destruct (should_flush config current (sumZ size current) (size i)) eqn:Ef.
  - unfold should_flush in Ef. rewrite Hsat in Ef. breflect.
    destruct (IH (groups ++ [current]) [i] (saturating_add 0 (size i))) as [E1 E2]; try done.
    + unfold saturating_add, u64_max. simpl. lia.
    + simpl. lia.
    + intros _. destruct (Hok ltac:(done)) as [Hg Hw]. split.
      * apply Forall_app. split; [done|]. constructor; [|constructor]. split; [done|simpl; lia].
      * intros g h. rewrite windows2_snoc, elem_of_app, list_elem_of_singleton.
        intros [Hin|[= -> ->]]; [by apply Hw|]. exists i, []. split; [done|].
        apply orb_true_iff in H1 as [?|?]; breflect; [left|right]; lia.
    + rewrite E1, concat_app. simpl. rewrite app_nil_r, <- app_assoc. done.
  - rewrite Hsat.
    assert (sumZ size (current ++ [i]) = sumZ size current + size i) as Hsum
      by (rewrite sumZ_app; simpl; lia).
    assert (sumZ size current + size i <= max_bytes config) as Hle.
    { unfold should_flush in Ef. case_bool_decide as Hcur; [subst; simpl in *; lia|].
      rewrite Hsat in Ef. simpl in Ef. by breflect. }
    destruct (IH groups (current ++ [i]) (sumZ size current + size i)) as [E1 E2]; try done; try lia.
    + by destruct current.
    + intros _. destruct (decide (current = [])) as [->|Hcur].
      * rewrite (Hnil eq_refl). split; [|by intros ?? ?%elem_of_nil].
        constructor; [|constructor]. split; [done|simpl in *; lia].
      * destruct (Hok Hcur) as [Hg Hw]. split; [|by apply windows_extend].
        apply Forall_app in Hg as [Hg _]. apply Forall_app. split; [done|].
        constructor; [|constructor]. split; [by destruct current|lia].
    + rewrite E1, <- app_assoc. done.
Qed.

(** The groups hold the inputs in order, each within the maximum size and
    none closed early. *)
Lemma group_inputs_spec inputs :
  0 <= max_bytes config -> Forall (fun a => size a <= max_bytes config) inputs ->
  concat (group_inputs size config inputs) = inputs /\
  groups_ok (group_inputs size config inputs).
Proof. intros H0 Hl. unfold group_inputs. apply group_loop_spec; done. Qed.
End grouping.

(** ** The builder *)

Section builder.
Context `{Blake3}.

(** What the pushes into a builder have established. *)
Definition builder_ok (b : PackBuilder) : Prop :=
  Forall input_ok (pb_inputs b) /\ NoDup (map pi_encoded_hash (pb_inputs b)) /\
  Forall (fun i => len64 (pi_encoded_bytes i) <= max_bytes (pb_config b)) (pb_inputs b).

Lemma push_Ok b i b' :
  is_u64 (pi_raw_size i) ->
  push b i = Ok b' <->
  input_ok i /\ pi_encoded_hash i ∉ map pi_encoded_hash (pb_inputs b) /\
  len64 (pi_encoded_bytes i) <= max_bytes (pb_config b) /\
  b' = {| pb_config := pb_config b; pb_inputs := pb_inputs b ++ [i] |}.
Proof.
  intros Hu. unfold is_u64 in Hu. unfold push, input_ok. rewrite !pack_validate_hash_cases.
  destruct (is_lower_hex_hash (pi_encoded_hash i)); simpl; [|naive_solver].
  destruct (is_lower_hex_hash (pi_raw_hash i)); simpl; [|naive_solver].
  destruct (Z.ltb_spec MAX_DECLARED_CHUNK_BYTES (pi_raw_size i)); simpl; [naive_solver lia|].
  destruct (Z.ltb_spec MAX_DECLARED_CHUNK_BYTES (len64 (pi_encoded_bytes i))); [naive_solver lia|].
  destruct (String.eqb_spec (blake3_hex (pi_encoded_bytes i)) (pi_encoded_hash i)); simpl; [|naive_solver].
  assert (existsb (fun item => String.eqb (pi_encoded_hash item) (pi_encoded_hash i)) (pb_inputs b) = true
    <-> pi_encoded_hash i ∈ map pi_encoded_hash (pb_inputs b)) as Hex.
  { rewrite existsb_exists, list_elem_of_In, in_map_iff. setoid_rewrite String.eqb_eq. naive_solver. }
  destruct (existsb _ _); [naive_solver|].
  destruct (Z.ltb_spec (max_bytes (pb_config b)) (len64 (pi_encoded_bytes i))); [naive_solver lia|].
  split; [|naive_solver]. intros [= <-]. split_and!; try done; try lia. by intros ?%Hex.
Qed.

Lemma push_builder_ok b i b' :
  is_u64 (pi_raw_size i) -> builder_ok b -> push b i = Ok b' -> builder_ok b'.
Proof.
  intros Hu (H1 & H2 & H3) (Hi & Hn & Hm & ->)%push_Ok; [|done]. unfold builder_ok. simpl. split_and!.
  - apply Forall_app. by split; [|constructor].
  - rewrite map_app. apply NoDup_app. split_and!; [done| |apply NoDup_singleton].
    by intros x Hx ->%list_elem_of_singleton.
  - apply Forall_app. by split; [|constructor].
Qed.

Lemma push_all_ok inputs : forall b b',
  Forall (fun i => is_u64 (pi_raw_size i)) inputs -> builder_ok b ->
  try_fold push b inputs = Ok b' ->
  builder_ok b' /\ pb_config b' = pb_config b /\ pb_inputs b' = pb_inputs b ++ inputs.
Proof.
  induction inputs as [|i l IH]; intros b b' Hu Hb; simpl.
  { intros [= <-]. by rewrite app_nil_r. }
  apply Forall_cons in Hu as [Hi Hl]. intros (b1 & Hp & H1)%rbind_Ok.
  pose proof (push_builder_ok _ _ _ Hi Hb Hp) as Hb1.
  apply push_Ok in Hp as (_ & _ & _ & ->); [|done].
  apply IH in H1 as (? & -> & ->); [|done..]. simpl. by rewrite <- app_assoc.
Qed.

Lemma push_all_complete inputs : forall b,
  Forall (fun i => is_u64 (pi_raw_size i)) inputs -> Forall input_ok inputs ->
  NoDup (map pi_encoded_hash (pb_inputs b ++ inputs)) ->
  Forall (fun i => len64 (pi_encoded_bytes i) <= max_bytes (pb_config b)) inputs ->
  try_fold push b inputs = Ok {| pb_config := pb_config b; pb_inputs := pb_inputs b ++ inputs |}.
Proof.
  induction inputs as [|i l IH]; intros b Hu Hi Hn Hm; simpl.
  { rewrite app_nil_r. by destruct b. }
  apply Forall_cons in Hu as [Hui Hul], Hi as [Hii Hil], Hm as [Hmi Hml].
  rewrite (proj2 (push_Ok b i {| pb_config := pb_config b; pb_inputs := pb_inputs b ++ [i] |} Hui)).
  - simpl. rewrite IH; simpl; try done; by rewrite <- app_assoc.
  - split_and!; [done| |done|reflexivity]. rewrite map_app in Hn.
    apply NoDup_app in Hn as (_ & Hn & _). intros Hx. apply (Hn _ Hx). left.
Qed.

#[export] Instance by_encoded_hash_order : TotalPreorder by_encoded_hash.
Proof. apply (cmp_by_key pi_encoded_hash), str_compare_order. Qed.

(** Distinct hashes: the sorted inputs are strictly sorted. *)
Lemma sorted_inputs_strict inputs :
  NoDup (map pi_encoded_hash inputs) -> StronglySorted hash_order (sort_by by_encoded_hash inputs).
Proof.
  intros Hn. pose proof (sort_by_sorted by_encoded_hash inputs) as Hs.
  assert (NoDup (map pi_encoded_hash (sort_by by_encoded_hash inputs))) as Hn'.
  { eapply NoDup_Permutation_proper; [|exact Hn]. apply fmap_Permutation, sort_by_perm. }
  revert Hs Hn'. generalize (sort_by by_encoded_hash inputs). clear.
  induction 1 as [|x l Hl IH Hx]; simpl; [constructor|].
  rewrite NoDup_cons. intros [Hnin Hn]. constructor; [by apply IH|].
  rewrite Forall_forall in Hx |- *. intros y Hy. specialize (Hx y Hy).
  unfold cmp_le, by_encoded_hash, hash_order, str_lt in *.
  destruct (String.compare _ _) eqn:E; [|done..].
  apply String.compare_eq_iff in E. destruct Hnin. rewrite E. by apply list_elem_of_fmap_2.
Qed.

Lemma PackConfig_validate_Ok c :
  PackConfig_validate c = Ok tt <->
  min_bytes c <> 0 /\ min_bytes c <= target_bytes c <= max_bytes c /\ max_bytes c <= MAX_PACK_BYTES.
Proof.
  unfold PackConfig_validate. destruct (_ || _ || _ || _) eqn:E.
  - split; [done|]. rewrite !orb_true_iff, Z.eqb_eq, !Z.ltb_lt in E. lia.
  - breflect. split; [|done]. lia.
Qed.

(** The groups of a successful build: they hold the sorted inputs, each
    group checked, strictly sorted and within the size bounds. *)
Lemma build_packs_groups inputs config arts :
  Forall (fun i => is_u64 (pi_raw_size i)) inputs -> is_u64 (min_bytes config) ->
  build_packs inputs config = Ok arts ->
  exists groups,
    groups = group_inputs (fun i => len64 (pi_encoded_bytes i)) config (sort_by by_encoded_hash inputs) /\
    concat groups = sort_by by_encoded_hash inputs /\
    StronglySorted hash_order (sort_by by_encoded_hash inputs) /\
    groups_ok (fun i => len64 (pi_encoded_bytes i)) config groups /\
    Forall (fun g => Forall input_ok g /\ StronglySorted hash_order g) groups /\
    Forall2 (fun g a => build_artifact g = Ok a) groups arts.
Proof.
  intros Hu Hmin Hb. unfold is_u64 in Hmin. unfold build_packs, PackBuilder_new in Hb.
  apply rbind_Ok in Hb as (b0 & Hb0 & Hb). apply rbind_Ok in Hb0 as ([] & Hc & [= <-]).
  apply PackConfig_validate_Ok in Hc as (Hc1 & Hc2 & Hc3).
  apply rbind_Ok in Hb as (b & Hp & Hb). apply push_all_ok in Hp as ((H1 & H2 & H3) & Hcfg & Hin);
    [|done|split_and!; constructor]. simpl in *. unfold build in Hb. rewrite Hin, Hcfg in *.
  eexists. split; [done|]. apply try_map_Ok in Hb.
  destruct (group_inputs_spec (fun i => len64 (pi_encoded_bytes i)) config
    ltac:(intros; apply len64_nonneg) Hc3 (sort_by by_encoded_hash inputs)) as [E1 E2]; [lia| |].
  { rewrite Forall_forall in H3 |- *. intros x ?%elem_of_sort_by. by apply H3. }
  split_and!; [done|by apply sorted_inputs_strict|done..| |done]. apply Forall_and. split.
  - apply Forall_concat. rewrite E1. rewrite Forall_forall in H1 |- *. intros x ?%elem_of_sort_by. by apply H1.
  - apply StronglySorted_concat_inv. rewrite E1. by apply sorted_inputs_strict.
Qed.
End builder.

(** ** The chunks of a pack *)

Lemma layout_slice inputs i : forall off pre post,
  i ∈ inputs -> len64 pre = off ->
  exists e, e ∈ layout off inputs /\ pe_encoded_hash e = pi_encoded_hash i /\
    pe_raw_hash e = pi_raw_hash i /\ pe_raw_length e = pi_raw_size i /\
    pe_compression e = COMPRESSION_ZSTD /\
    get_range (pre ++ data_bytes inputs ++ post) (pe_offset e) (pe_offset e + pe_encoded_length e)
    = Some (pi_encoded_bytes i).
Proof.
  induction inputs as [|j l IH]; intros off pre post Hi Hp; [by apply elem_of_nil in Hi|].
  change (data_bytes (j :: l)) with (pi_encoded_bytes j ++ data_bytes l).
  apply elem_of_cons in Hi as [->|Hi].
  - eexists. split; [left|]. simpl. split_and!; [done..|]. rewrite <- app_assoc. apply get_range_mid; lia.
  - destruct (IH (off + len64 (pi_encoded_bytes j)) (pre ++ pi_encoded_bytes j) post Hi) as (e & He & ?&?&?&?&Hr).
    { rewrite len64_app. lia. }
    exists e. split; [by right|]. split_and!; [done..|]. by rewrite <- !app_assoc in *.
Qed.

Lemma read_encoded_Ok `{Blake3} r h e bs :
  entry r h = Ok e -> pe_offset e + pe_encoded_length e <= u64_max ->
  get_range (pr_bytes r) (pe_offset e) (pe_offset e + pe_encoded_length e) = Some bs ->
  blake3_hex bs = pe_encoded_hash e -> read_encoded r h = Ok bs.
Proof.
  intros He Hu Hr Hh. unfold read_encoded. rewrite He. simpl.
  rewrite (proj2 (checked_add_Some _ _ (pe_offset e + pe_encoded_length e))) by done. simpl.
  rewrite Hr. simpl. by rewrite Hh, String.eqb_refl.
Qed.

(** The artifact of the group that holds an input. *)
Lemma build_packs_artifact `{Blake3Laws} inputs config arts i :
  Forall (fun i => is_u64 (pi_raw_size i)) inputs -> is_u64 (min_bytes config) ->
  build_packs inputs config = Ok arts -> i ∈ inputs ->
  exists g a, a ∈ arts /\ i ∈ g /\ Forall input_ok g /\ StronglySorted hash_order g /\
    build_artifact g = Ok a.
Proof.
  intros Hu Hm Hb Hi. apply build_packs_groups in Hb as (gs & _ & Hc & _ & _ & Hg & Ha); [|done..].
  assert (i ∈ concat gs) as Hic by (rewrite Hc; by apply elem_of_sort_by).
  rewrite list_elem_of_In, in_concat in Hic. destruct Hic as (g & Hgin & Hig).
  rewrite <- list_elem_of_In in Hgin. rewrite <- list_elem_of_In in Hig.
  apply list_elem_of_lookup_1 in Hgin as [k Hk].
  destruct (Forall2_lookup_l _ _ _ _ _ Ha Hk) as (a & Hak & Hab).
  rewrite Forall_lookup in Hg. destruct (Hg _ _ Hk). exists g, a.
  split_and!; [by eapply list_elem_of_lookup_2|done..].
Qed.

Lemma layout_hashes off l : map pe_encoded_hash (layout off l) = map pi_encoded_hash l.
Proof. revert off. induction l as [|i l IH]; intros off; simpl; [done|]. by rewrite IH. Qed.

Lemma layout_sizes off l :
  sumZ pe_encoded_length (layout off l) = sumZ (fun i => len64 (pi_encoded_bytes i)) l.
Proof. revert off. induction l as [|i l IH]; intros off; simpl; [done|]. by rewrite IH. Qed.

Lemma StronglySorted_hashes l :
  StronglySorted hash_order l -> StronglySorted str_lt (map pi_encoded_hash l).
Proof.
  induction 1 as [|x l Hl IH Hx]; simpl; constructor; [done|]. by rewrite Forall_map.
Qed.

Lemma Forall2_windows {A B} (R : A -> B -> Prop) l k a b :
  Forall2 R l k -> (a, b) ∈ windows2 k -> exists x y, (x, y) ∈ windows2 l /\ R x a /\ R y b.
Proof.
  induction 1 as [|x a' l k Hxa Hlk IH]; [by intros ?%elem_of_nil|].
  destruct Hlk as [|y b' l k Hyb Hlk]; [by intros ?%elem_of_nil|].
  simpl. intros [[= -> ->]|Hin]%elem_of_cons.
  - exists x, y. split; [left|done].
  - destruct (IH Hin) as (x' & y' & ? & ?). exists x', y'. split; [by right|done].
Qed.

(** Each artifact has the layout of its group. *)
Lemma artifacts_layout `{Blake3Laws} gs arts :
  Forall (fun g => Forall input_ok g /\ StronglySorted hash_order g) gs ->
  Forall2 (fun g a => build_artifact g = Ok a) gs arts ->
  Forall2 (fun g a => pa_entries a = layout HEADER_SIZE g) gs arts.
Proof.
  intros Hg. induction 1 as [|g a gs arts Hga _ IH]; constructor.
  - apply Forall_cons in Hg as [[Hi _] _]. by apply build_artifact_Ok in Hga as [-> _].
  - apply IH. by apply Forall_cons in Hg as [_ ?].
Qed.

(** ** Properties *)

(** C1. Pack round trip: every chunk given to a successful [build_packs] lies
    in one of its packs; that pack parses, its index is the one the builder
    reported, its bytes carry the reported pack hash, and looking the chunk up
    in it returns exactly the chunk's bytes; when Zstandard decompresses them
    to data of the declared size and digest, [read_raw] returns that data. *)
Theorem pack_roundtrip `{Blake3Laws} `{Zstd} inputs config arts i :
  Forall (fun i => is_u64 (pi_raw_size i)) inputs -> is_u64 (min_bytes config) ->
  build_packs inputs config = Ok arts -> i ∈ inputs ->
  exists a r, a ∈ arts /\ parse (pa_bytes a) = Ok r /\ pr_entries r = pa_entries a /\
    verify_pack_hash r (pa_pack_hash a) = Ok tt /\
    read_encoded r (pi_encoded_hash i) = Ok (pi_encoded_bytes i) /\
    (forall raw, zstd_decompress (pi_encoded_bytes i) (pi_raw_size i) = Ok raw ->
       len64 raw = pi_raw_size i -> blake3_hex raw = pi_raw_hash i ->
       read_raw r (pi_encoded_hash i) = Ok raw).
Proof.
  intros Hu Hm Hb Hi. destruct (build_packs_artifact _ _ _ _ Hu Hm Hb Hi) as (g & a & Ha & Hig & Hok & Hs & Hba).
  apply build_artifact_Ok in Hba as [-> Hf]; [|done]. pose proof (parse_pack_bytes g Hok Hs Hf) as Hp.
  eexists. eexists. split; [exact Ha|]. simpl. split; [exact Hp|]. split; [done|].
  split. { unfold verify_pack_hash. simpl. rewrite pack_validate_hash_cases.
    unfold blake3_hex at 1. rewrite to_hex_lower by apply blake3_length. simpl. by rewrite String.eqb_refl. }
  apply parse_sound in Hp as (_ & _ & Hlen & Hmax & Hin & Hso & _). simpl in *.
  rewrite Forall_forall in Hok. destruct (Hok _ Hig) as (Hh & _ & _ & _ & Hbl).
  destruct (layout_slice g i HEADER_SIZE (header_bytes (len64 g) (HEADER_SIZE + len64 (data_bytes g)) (len64 g * ENTRY_SIZE))
    (index_bytes (layout HEADER_SIZE g) ++ footer_bytes (len64 g) (HEADER_SIZE + len64 (data_bytes g)) (len64 g * ENTRY_SIZE) (index_bytes (layout HEADER_SIZE g))) Hig)
    as (e & He & Eh & Erh & Erl & Ec & Er); [apply len64_header_bytes|].
  match goal with |- read_encoded ?r' _ = _ /\ _ => set (r := r') end.
  assert (entry r (pi_encoded_hash i) = Ok e) as Hent by by apply entry_finds.
  assert (read_encoded r (pi_encoded_hash i) = Ok (pi_encoded_bytes i)) as Hre.
  { apply (read_encoded_Ok r _ e); [done| |exact Er|congruence].
    rewrite Forall_forall in Hin. destruct (Hin _ He) as (_ & _ & _ & Hend).
    unfold HEADER_SIZE, FOOTER_SIZE, ENTRY_SIZE, MAX_PACK_BYTES, u64_max in *.
    pose proof (len64_nonneg (layout 64 g)). lia. }
  split; [done|]. intros raw Hz Hl Hr. unfold read_raw. rewrite Hent, Hre. cbn [rbind].
  rewrite Ec, Erl, Hz. simpl. rewrite Hl, Z.eqb_refl. simpl. by rewrite Hr, Erh, String.eqb_refl.
Qed.

(** A stand-in digest for the witnesses: the first 32 bytes, padded. *)
Definition toy_digest : Blake3 := fun bs => take 32 (bs ++ replicate 32 Byte.x00).

Definition toy_laws : @Blake3Laws toy_digest.
Proof. intros bs. unfold blake3, toy_digest. rewrite length_take, length_app, length_replicate. lia. Qed.

Definition toy_zstd : Zstd := fun bs _ => Ok bs.

Definition toy_input (s : string) : PackInput :=
  let bs := bytes_of_string s in
  {| pi_encoded_hash := to_hex (toy_digest bs); pi_raw_hash := to_hex (toy_digest bs);
     pi_raw_size := len64 bs; pi_encoded_bytes := bs |}.

Definition toy_config : PackConfig := {| target_bytes := 12; min_bytes := 1; max_bytes := 100 |}.

Definition toy_inputs : list PackInput := [toy_input "world"; toy_input "hello"; toy_input "again!"].

Definition toy_arts : list PackArtifact :=
  match @build_packs toy_digest toy_inputs toy_config with Ok arts => arts | Err _ => [] end.

Theorem pack_roundtrip_witness :
  exists a r, a ∈ toy_arts /\ @parse toy_digest (pa_bytes a) = Ok r /\ pr_entries r = pa_entries a /\
    @verify_pack_hash toy_digest r (pa_pack_hash a) = Ok tt /\
    @read_encoded toy_digest r (pi_encoded_hash (toy_input "hello")) = Ok (bytes_of_string "hello") /\
    (forall raw, @zstd_decompress toy_zstd (bytes_of_string "hello") 5 = Ok raw ->
       len64 raw = 5 -> @blake3_hex toy_digest raw = pi_raw_hash (toy_input "hello") ->
       @read_raw toy_digest toy_zstd r (pi_encoded_hash (toy_input "hello")) = Ok raw).
Proof.
  apply (@pack_roundtrip toy_digest toy_laws toy_zstd toy_inputs toy_config toy_arts (toy_input "hello")).
  - unfold is_u64, u64_max. repeat constructor; vm_compute; discriminate.
  - unfold is_u64, u64_max. vm_compute. split; discriminate.
  - vm_compute. reflexivity.
  - right. left.
Defined.

(** C5. How the builder partitions its inputs: the entries of the packs, read
    in order, are exactly the inputs sorted by encoded hash, each once; no pack
    is empty or holds more than [max_bytes] of data, and a pack is only closed
    when its successor's first chunk would take it past the maximum, or past
    the target once the minimum is reached. *)
Theorem build_packs_partition `{Blake3Laws} inputs config arts :
  Forall (fun i => is_u64 (pi_raw_size i)) inputs -> is_u64 (min_bytes config) ->
  build_packs inputs config = Ok arts ->
  map pe_encoded_hash (concat (map pa_entries arts))
    = map pi_encoded_hash (sort_by by_encoded_hash inputs) /\
  StronglySorted str_lt (map pe_encoded_hash (concat (map pa_entries arts))) /\
  Forall (fun a => pa_entries a <> [] /\ sumZ pe_encoded_length (pa_entries a) <= max_bytes config) arts /\
  (forall a b, (a, b) ∈ windows2 arts -> exists e es, pa_entries b = e :: es /\
     let data := sumZ pe_encoded_length (pa_entries a) in
     (max_bytes config < data + pe_encoded_length e \/
      (min_bytes config <= data /\ target_bytes config < data + pe_encoded_length e))).
Proof.
  intros Hu Hm Hb. apply build_packs_groups in Hb as (gs & _ & Hc & Hso & [Hok Hw] & Hg & Ha); [|done..].
  pose proof (artifacts_layout _ _ Hg Ha) as He.
  assert (map pe_encoded_hash (concat (map pa_entries arts)) = map pi_encoded_hash (concat gs)) as Hmap.
  { clear -He. induction He as [|g a gs arts Ha _ IH]; [done|]. simpl.
    by rewrite !map_app, IH, Ha, layout_hashes. }
  rewrite Hmap, Hc. split_and!; [done|by apply StronglySorted_hashes| |].
  - apply Forall_lookup. intros k a Hk. destruct (Forall2_lookup_r _ _ _ _ _ He Hk) as (g & Hgk & ->).
    rewrite Forall_lookup in Hok. destruct (Hok _ _ Hgk) as [Hne Hsz]. rewrite layout_sizes. split; [|done].
    by destruct g.
  - intros a b Hab. destruct (Forall2_windows _ _ _ _ _ He Hab) as (g & h & Hgh & -> & ->).
    destruct (Hw _ _ Hgh) as (x & h' & -> & Hcl). rewrite layout_sizes. simpl. eauto.
Qed.

Theorem build_packs_partition_witness :
  map pe_encoded_hash (concat (map pa_entries toy_arts))
  = map pi_encoded_hash (sort_by by_encoded_hash toy_inputs) /\ length toy_arts = 2%nat.
Proof.
  split; [|vm_compute; reflexivity].
  apply (@build_packs_partition toy_digest toy_laws toy_inputs toy_config toy_arts).
  - unfold is_u64, u64_max. repeat constructor; vm_compute; discriminate.
  - unfold is_u64, u64_max. vm_compute. split; discriminate.
  - vm_compute. reflexivity.
Defined.

(** C6. Packing is deterministic: the order in which chunks are pushed does
    not change the packs, byte for byte. *)
Theorem build_packs_order_independent `{Blake3Laws} inputs inputs' config arts :
  Forall (fun i => is_u64 (pi_raw_size i)) inputs -> is_u64 (min_bytes config) ->
  inputs ≡ₚ inputs' ->
  build_packs inputs config = Ok arts -> build_packs inputs' config = Ok arts.
Proof.
  intros Hu Hm Hp Hb. unfold build_packs, PackBuilder_new in *.
  apply rbind_Ok in Hb as (b0 & Hb0 & Hb). apply rbind_Ok in Hb0 as ([] & Hc & [= <-]). rewrite Hc. simpl.
  apply rbind_Ok in Hb as (b & Hpush & Hb).
  apply push_all_ok in Hpush as ((H1 & H2 & H3) & Hcfg & Hin); [|done|split_and!; constructor].
  simpl in *. rewrite Hin, Hcfg in *. rewrite push_all_complete; simpl.
  - unfold build in *. rewrite Hin, Hcfg in Hb. simpl in *.
    rewrite <- (sort_by_perm_eq by_encoded_hash inputs inputs'); [done| |done].
    intros x y Hx Hy Hxy%String.compare_eq_iff. by eapply NoDup_map_inj.
  - by rewrite <- Hp.
  - by rewrite <- Hp.
  - by rewrite <- (fmap_Permutation pi_encoded_hash _ _ Hp).
  - by rewrite <- Hp.
Qed.

Theorem build_packs_order_independent_witness :
  @build_packs toy_digest (rev toy_inputs) toy_config = Ok toy_arts.
Proof.
  apply (@build_packs_order_independent toy_digest toy_laws toy_inputs (rev toy_inputs) toy_config toy_arts).
  - unfold is_u64, u64_max. repeat constructor; vm_compute; discriminate.
  - unfold is_u64, u64_max. vm_compute. split; discriminate.
  - apply Permutation_rev.
  - vm_compute. reflexivity.
Defined.

(** C7. Packing succeeds: chunks with distinct, correct digests and declared
    sizes within the limits, under a valid configuration whose maximum leaves
    room for the header, the index and the footer, are always packed. *)
Theorem build_packs_total `{Blake3Laws} inputs config :
  Forall input_ok inputs -> NoDup (map pi_encoded_hash inputs) ->
  Forall (fun i => len64 (pi_encoded_bytes i) <= max_bytes config) inputs ->
  0 < min_bytes config <= target_bytes config -> target_bytes config <= max_bytes config ->
  HEADER_SIZE + max_bytes config + len64 inputs * ENTRY_SIZE + FOOTER_SIZE <= MAX_PACK_BYTES ->
  exists arts, build_packs inputs config = Ok arts.
Proof.
  intros Hi Hn Hs Hmin Htgt Hroom.
  pose proof (len64_nonneg inputs). unfold HEADER_SIZE, ENTRY_SIZE, FOOTER_SIZE in Hroom.
  assert (max_bytes config <= MAX_PACK_BYTES) as Hmax by lia.
  unfold build_packs, PackBuilder_new. rewrite (proj2 (PackConfig_validate_Ok config)) by lia. simpl.
  rewrite push_all_complete; simpl; [|eapply Forall_impl; [exact Hi|]|done..].
  2: { intros x (_&_&?&_). unfold is_u64, u64_max, MAX_DECLARED_CHUNK_BYTES in *. lia. }
  unfold build. simpl.
  destruct (group_inputs_spec (fun i => len64 (pi_encoded_bytes i)) config
    ltac:(intros; apply len64_nonneg) Hmax (sort_by by_encoded_hash inputs)) as [E1 [E2 _]]; [lia| |].
  { rewrite Forall_forall in Hs |- *. intros x ?%elem_of_sort_by. by apply Hs. }
  set (gs := group_inputs _ _ _) in *.
  assert (Forall (fun g => Forall input_ok g /\ len64 g <= len64 inputs) gs) as Hgs.
  { apply Forall_and. split.
    - apply Forall_concat. rewrite E1. rewrite Forall_forall in Hi |- *. intros x ?%elem_of_sort_by. by apply Hi.
    - apply Forall_forall. intros g Hg. apply list_elem_of_split in Hg as (l1 & l2 & Eg).
      apply (f_equal length) in E1. rewrite Eg, concat_app, length_app in E1. simpl in E1.
      rewrite length_app, (Permutation_length (sort_by_perm _ _)) in E1. unfold len64. lia. }
  clear E1. clearbody gs. induction gs as [|g gs IH]; simpl; [eauto|].
  apply Forall_cons in E2 as [[_ Hg] E2], Hgs as [[Hgi Hgl] Hgs].
  rewrite build_artifact_spec; [|done|].
  - destruct (IH E2 Hgs) as [arts ->]. simpl. eauto.
  - rewrite len64_data_bytes. unfold HEADER_SIZE, ENTRY_SIZE, FOOTER_SIZE. lia.
Qed.

Theorem build_packs_total_witness :
  exists arts, @build_packs toy_digest toy_inputs toy_config = Ok arts.
Proof.
  apply (@build_packs_total toy_digest toy_laws toy_inputs toy_config).
  - unfold input_ok. repeat (constructor; [split_and!; vm_compute; (reflexivity || discriminate)|]). constructor.
  - apply (bool_decide_unpack _). vm_compute. exact I.
  - repeat constructor; vm_compute; discriminate.
  - vm_compute. split; [reflexivity|discriminate].
  - vm_compute. discriminate.
  - vm_compute. discriminate.
Defined.

(** C3. What [PackReader::parse] accepts is well formed, whoever wrote it: the
    index sits exactly between the data and the footer and the pack is no
    longer than the format allows; every entry has valid digests and lies
    wholly inside the data region; the entries are strictly sorted by hash and
    no two data ranges overlap. *)
Theorem parse_accepts_wellformed `{Blake3} bytes r :
  parse bytes = Ok r ->
  pr_bytes r = bytes /\ HEADER_SIZE <= pr_index_offset r /\
  len64 bytes = pr_index_offset r + len64 (pr_entries r) * ENTRY_SIZE + FOOTER_SIZE /\
  len64 bytes <= MAX_PACK_BYTES /\
  Forall (fun e => hashes_ok e /\ entry_in HEADER_SIZE (pr_index_offset r) e) (pr_entries r) /\
  StronglySorted entry_before (pr_entries r) /\
  (forall a b, a ∈ pr_entries r -> b ∈ pr_entries r -> a <> b ->
     pe_offset a + pe_encoded_length a <= pe_offset b \/
     pe_offset b + pe_encoded_length b <= pe_offset a).
Proof.
  intros (?&?&?&?&Hin&?&Hd)%parse_sound. split_and!; try done.
  intros a b Ha Hb Hne. destruct (Hd a b Ha Hb Hne) as [E|E]; unfold ends_before in E; [left|right]; lia.
Qed.

Definition toy_pack : list byte := match toy_arts with a :: _ => pa_bytes a | [] => [] end.

Theorem parse_accepts_wellformed_witness :
  exists r, @parse toy_digest toy_pack = Ok r /\ StronglySorted entry_before (pr_entries r).
Proof.
  eexists. split; [vm_compute; reflexivity|].
  apply (@parse_accepts_wellformed toy_digest toy_pack). vm_compute. reflexivity.
Defined.

(** C4. Reading from a parsed pack never runs out of bounds: looking up a
    valid hash either finds the one entry that has it, and then the result is
    the bytes of its range when their digest is the hash and
    [ChunkHashMismatch] otherwise, or no entry has it and the result is
    [ChunkNotFound]. *)
Theorem read_encoded_cases `{Blake3} bytes r h :
  parse bytes = Ok r -> is_lower_hex_hash h = true ->
  (exists e bs, e ∈ pr_entries r /\ pe_encoded_hash e = h /\
     get_range bytes (pe_offset e) (pe_offset e + pe_encoded_length e) = Some bs /\
     read_encoded r h = if String.eqb (blake3_hex bs) h then Ok bs
                        else Err (ChunkHashMismatch h (blake3_hex bs))) \/
  ((forall e, e ∈ pr_entries r -> pe_encoded_hash e <> h) /\
   read_encoded r h = Err (ChunkNotFound h)).
Proof.
  intros (<-&H1&H2&H3&Hin&Hs&_)%parse_sound Hh.
  destruct (decide (Exists (fun e => pe_encoded_hash e = h) (pr_entries r))) as [Hex|Hex].
  - apply Exists_exists in Hex as (e & He & Eh). rewrite Forall_forall in Hin.
    destruct (Hin _ He) as (_ & Hlo & Hlen & Hhi). unfold HEADER_SIZE, FOOTER_SIZE, ENTRY_SIZE, MAX_PACK_BYTES in *.
    pose proof (len64_nonneg (pr_entries r)).
    destruct (get_range (pr_bytes r) (pe_offset e) (pe_offset e + pe_encoded_length e)) as [bs|] eqn:Er;
      [|apply get_range_None in Er; lia].
    left. exists e, bs. split_and!; [done..|]. unfold read_encoded.
    rewrite (entry_finds r h e) by done. simpl.
    rewrite (proj2 (checked_add_Some _ _ (pe_offset e + pe_encoded_length e))) by (unfold u64_max; lia). simpl.
    rewrite Er. simpl. rewrite Eh. by destruct (String.eqb _ h).
  - right. assert (forall e, e ∈ pr_entries r -> pe_encoded_hash e <> h) as Hno.
    { intros e He Eh. apply Hex, Exists_exists. eauto. }
    split; [done|]. unfold read_encoded. destruct (entry r h) as [e|err] eqn:E.
    + apply entry_sound in E as (He & Eh & _). by destruct (Hno _ He).
    + by apply entry_err in E as ->.
Qed.

Definition example_absent : string := to_hex (replicate 32 Byte.xab).

Theorem read_encoded_cases_witness :
  exists r, @parse toy_digest toy_pack = Ok r /\
  ((exists e bs, e ∈ pr_entries r /\ pe_encoded_hash e = example_absent /\
     get_range toy_pack (pe_offset e) (pe_offset e + pe_encoded_length e) = Some bs /\
     @read_encoded toy_digest r example_absent
     = if String.eqb (@blake3_hex toy_digest bs) example_absent then Ok bs
       else Err (ChunkHashMismatch example_absent (@blake3_hex toy_digest bs))) \/
  ((forall e, e ∈ pr_entries r -> pe_encoded_hash e <> example_absent) /\
   @read_encoded toy_digest r example_absent = Err (ChunkNotFound example_absent))).
Proof.
  eexists. split; [vm_compute; reflexivity|].
  apply (@read_encoded_cases toy_digest toy_pack); vm_compute; reflexivity.
Defined.
