(* ===== verification/Storage.v ===== *)
(** * Storage classes, errors and policy ([storage/src/tiering.rs],
    [storage/src/lib.rs])

    The vocabulary shared by the storage components: the error type, the
    storage classes, and the replication policy with its validation and its
    parsing from the environment. *)
From stdpp Require Import base gmap strings list pretty.
From Stdlib Require Import ZArith Lia Ascii.
From S2P Require Import Prelude Text Bytes.
Local Open Scope Z_scope.

(** ** Errors *)

(** [StorageError]; the payload of [Io] and [Json] is the text of the error. *)
Inductive StorageError : Type :=
| InvalidHash
| Configuration (message : string)
| Io (message : string)
| Json (message : string)
| HashMismatch (expected actual : string)
| Provider (message : string)
| RateLimiterClosed
| InjectedFailure
| NeedsCapacity (required_bytes available_bytes : Z)
| Authentication (message : string)
| NetworkUnavailable (message : string)
| Unavailable (message : string)
| PoolUnavailable.

(** The [Display] of a [StorageError]. *)
Definition error_to_string (e : StorageError) : string :=
  match e with
  | InvalidHash => "invalid object hash"
  | Configuration m => "storage configuration error: " +:+ m
  | Io m => "io error: " +:+ m
  | Json m => "json error: " +:+ m
  | HashMismatch expected actual => "object hash mismatch: expected " +:+ expected +:+ ", got " +:+ actual
  | Provider m => "storage provider error: " +:+ m
  | RateLimiterClosed => "storage rate limiter closed"
  | InjectedFailure => "deterministic storage failure injection"
  | NeedsCapacity required available =>
      "storage capacity exhausted: required " +:+ fmt_u required +:+ " bytes, available "
        +:+ fmt_u available +:+ " bytes"
  | Authentication m => "storage account authentication failed: " +:+ m
  | NetworkUnavailable m => "MEGA network unavailable: " +:+ m
  | Unavailable m => "storage account unavailable: " +:+ m
  | PoolUnavailable => "storage pool is unavailable"
  end%string.

(** ** Hashes *)

Definition validate_hash (value : string) : result unit StorageError :=
  if is_lower_hex_hash value then Ok tt else Err InvalidHash.

Definition verify_encoded_bytes `{Blake3} (encoded_hash : string) (bytes : list byte)
  : result unit StorageError :=
  let actual := blake3_hex bytes in
  if negb (String.eqb actual encoded_hash) then Err (HashMismatch encoded_hash actual) else Ok tt.

(** [verify_pack_bytes], with the same body. *)
Definition verify_pack_bytes `{Blake3} (pack_hash : string) (bytes : list byte) : result unit StorageError :=
  let actual := blake3_hex bytes in
  if negb (String.eqb actual pack_hash) then Err (HashMismatch pack_hash actual) else Ok tt.

(** ** Environment *)

(** [std::env::var]: [None] when the variable is unset or not Unicode. *)
Definition Env : Type := string -> option string.

(** [str::parse] to an unsigned integer at most [max]: an optional [+], then
    at least one digit; the error is the text of [ParseIntError].  Digits are
    read from the left and the first failure is reported. *)
Fixpoint parse_digits (max acc : Z) (l : list ascii) : result Z string :=
  match l with
  | [] => Ok acc
  | c :: l' =>
      if negb (is_ascii_digit c) then Err "invalid digit found in string"%string
      else let acc' := 10 * acc + (code c - 48) in
           if max <? acc' then Err "number too large to fit in target type"%string
           else parse_digits max acc' l'
  end.

Definition parse_uint (max : Z) (s : string) : result Z string :=
  match chars s with
  | [] => Err "cannot parse integer from empty string"%string
  | [c] => parse_digits max 0 [c]
  | c :: l => if char_eqb c "+" then parse_digits max 0 l else parse_digits max 0 (c :: l)
  end.

(** [str::parse::<bool>]. *)
Definition parse_bool (s : string) : result bool string :=
  if String.eqb s "true" then Ok true
  else if String.eqb s "false" then Ok false
  else Err "provided string was not `true` or `false`"%string.

(** [{s:?}]: quoted, with the escapes of ASCII text. *)
Definition debug_char (c : ascii) : list ascii :=
  if (code c =? 34) || (code c =? 92) then ["\"%char; c]
  else if code c =? 10 then ["\"; "n"]%char
  else if code c =? 13 then ["\"; "r"]%char
  else if code c =? 9 then ["\"; "t"]%char
  else if code c =? 0 then ["\"; "0"]%char
  else [c].

Definition debug_str (s : string) : string :=
  of_chars ([ascii_of_code 34] ++ flat_map debug_char (chars s) ++ [ascii_of_code 34]).

(** ** Storage classes *)

(** [StorageClass], with [StorageTier] as its alias in the source. *)
Inductive StorageClass : Type := Hot | Cold | Archive.

#[export] Instance StorageClass_eq_dec : EqDecision StorageClass.
Proof. solve_decision. Defined.

#[export] Instance StorageClass_countable : Countable StorageClass.
Proof.
  refine (inj_countable' (fun c => match c with Hot => 0 | Cold => 1 | Archive => 2 end)
            (fun n => match n with 0 => Hot | 1 => Cold | _ => Archive end) _).
  by intros [].
Defined.

(** [StorageClass::as_str]. *)
Definition class_as_str (c : StorageClass) : string :=
  match c with Hot => "HOT" | Cold => "COLD" | Archive => "ARCHIVE" end.

(** [StorageClass::all]. *)
Definition class_all : list StorageClass := [Hot; Cold; Archive].

(** The derived order of [StorageClass]. *)
Definition class_rank (c : StorageClass) : Z := match c with Hot => 0 | Cold => 1 | Archive => 2 end.

Definition class_cmp (a b : StorageClass) : comparison := class_rank a ?= class_rank b.

(** [StorageClass::from_str]. *)
Definition class_from_str (value : string) : result StorageClass StorageError :=
  let other := to_ascii_uppercase (trim value) in
  if String.eqb other "HOT" then Ok Hot
  else if String.eqb other "COLD" then Ok Cold
  else if String.eqb other "ARCHIVE" then Ok Archive
  else Err (Configuration ("unknown storage class " +:+ debug_str other
              +:+ "; expected HOT, COLD, or ARCHIVE")%string).

Inductive RestoreMode : Type := OnDemand | Proactive.

(** [RestoreMode::from_str]. *)
Definition restore_mode_from_str (value : string) : result RestoreMode StorageError :=
  let other := to_ascii_uppercase (trim value) in
  if String.eqb other "ON_DEMAND" || String.eqb other "ON-DEMAND" then Ok OnDemand
  else if String.eqb other "PROACTIVE" then Ok Proactive
  else Err (Configuration ("unknown restore mode " +:+ debug_str other
              +:+ "; expected ON_DEMAND or PROACTIVE")%string).

(** ** Policy *)

Record StoragePolicy : Type := {
  min_verified_hot_replicas : Z;
  min_verified_cold_replicas : Z;
  min_verified_archive_replicas : Z;
  preferred_hot_replicas : Z;
  preferred_cold_replicas : Z;
  preferred_archive_replicas : Z;
  min_hot_failure_domains : Z;
  min_cold_failure_domains : Z;
  min_archive_failure_domains : Z;
  cold_backup_required : bool;
  restore_mode : RestoreMode
}.

(** [StoragePolicy::default]. *)
Definition StoragePolicy_default : StoragePolicy := {|
  min_verified_hot_replicas := 1;
  min_verified_cold_replicas := 0;
  min_verified_archive_replicas := 0;
  preferred_hot_replicas := 1;
  preferred_cold_replicas := 0;
  preferred_archive_replicas := 0;
  min_hot_failure_domains := 1;
  min_cold_failure_domains := 0;
  min_archive_failure_domains := 0;
  cold_backup_required := false;
  restore_mode := OnDemand
|}.

(** [StoragePolicy::staging]. *)
Definition StoragePolicy_staging : StoragePolicy := {|
  min_verified_hot_replicas := 1;
  min_verified_cold_replicas := 1;
  min_verified_archive_replicas := 0;
  preferred_hot_replicas := 1;
  preferred_cold_replicas := 1;
  preferred_archive_replicas := 0;
  min_hot_failure_domains := 1;
  min_cold_failure_domains := 1;
  min_archive_failure_domains := 0;
  cold_backup_required := true;
  restore_mode := Proactive
|}.

(** [StoragePolicy::validate]. *)
Definition StoragePolicy_validate (p : StoragePolicy) : result unit StorageError :=
  if min_verified_hot_replicas p =? 0
  then Err (Configuration "at least one verified hot replica is required")
  else if (preferred_hot_replicas p <? min_verified_hot_replicas p)
          || (preferred_cold_replicas p <? min_verified_cold_replicas p)
          || (preferred_archive_replicas p <? min_verified_archive_replicas p)
  then Err (Configuration "preferred replica counts cannot be below minimum counts")
  else if cold_backup_required p && (min_verified_cold_replicas p =? 0)
  then Err (Configuration "cold backup required must have at least one cold replica")
  else for_each (fun '(class, replicas, domains) =>
         if replicas <? domains
         then Err (Configuration (class_as_str class +:+ " failure-domain requirement "
                +:+ fmt_u domains +:+ " exceeds replica requirement " +:+ fmt_u replicas)%string)
         else Ok tt)
         [(Hot, min_verified_hot_replicas p, min_hot_failure_domains p);
          (Cold, min_verified_cold_replicas p, min_cold_failure_domains p);
          (Archive, min_verified_archive_replicas p, min_archive_failure_domains p)].

(** The closures [parse_u32] and [parse_bool] of [StoragePolicy::from_env]. *)
Definition env_u32 (env : Env) (name : string) (dflt : Z) : result Z StorageError :=
  map_err (fun error => Configuration (name +:+ " must be an unsigned integer: " +:+ error)%string)
    (parse_uint u32_max (default (fmt_u dflt) (env name))).

Definition env_bool (env : Env) (name : string) (dflt : bool) : result bool StorageError :=
  match env name with
  | Some value => map_err (fun error => Configuration (name +:+ " must be true or false: " +:+ error)%string)
                    (parse_bool value)
  | None => Ok dflt
  end.

(** [StoragePolicy::from_env]. *)
Definition StoragePolicy_from_env (env : Env) : result StoragePolicy StorageError :=
  let? hot := env_u32 env "LAUNCHER_STORAGE_MIN_HOT_REPLICAS" 1 in
  let? cold := env_u32 env "LAUNCHER_STORAGE_MIN_COLD_REPLICAS" 0 in
  let? archive := env_u32 env "LAUNCHER_STORAGE_MIN_ARCHIVE_REPLICAS" 0 in
  let? pref_hot := env_u32 env "LAUNCHER_STORAGE_PREFERRED_HOT_REPLICAS" 1 in
  let? pref_cold := env_u32 env "LAUNCHER_STORAGE_PREFERRED_COLD_REPLICAS" 0 in
  let? pref_archive := env_u32 env "LAUNCHER_STORAGE_PREFERRED_ARCHIVE_REPLICAS" 0 in
  let? dom_hot := env_u32 env "LAUNCHER_STORAGE_MIN_HOT_FAILURE_DOMAINS" 1 in
  let? dom_cold := env_u32 env "LAUNCHER_STORAGE_MIN_COLD_FAILURE_DOMAINS" 0 in
  let? dom_archive := env_u32 env "LAUNCHER_STORAGE_MIN_ARCHIVE_FAILURE_DOMAINS" 0 in
  let? backup := env_bool env "LAUNCHER_STORAGE_COLD_BACKUP_REQUIRED" false in
  let? mode := restore_mode_from_str
      (default "ON_DEMAND"%string (env "LAUNCHER_STORAGE_RESTORE_MODE"%string)) in
  let policy := {|
    min_verified_hot_replicas := hot;
    min_verified_cold_replicas := cold;
    min_verified_archive_replicas := archive;
    preferred_hot_replicas := pref_hot;
    preferred_cold_replicas := pref_cold;
    preferred_archive_replicas := pref_archive;
    min_hot_failure_domains := dom_hot;
    min_cold_failure_domains := dom_cold;
    min_archive_failure_domains := dom_archive;
    cold_backup_required := backup;
    restore_mode := mode |} in
  let? _ := StoragePolicy_validate policy in
  Ok policy.

(** [StoragePolicy::required_replicas]. *)
Definition required_replicas (p : StoragePolicy) (tier : StorageClass) : Z :=
  match tier with
  | Hot => min_verified_hot_replicas p
  | Cold => Z.max (min_verified_cold_replicas p) (if cold_backup_required p then 1 else 0)
  | Archive => min_verified_archive_replicas p
  end.

(** [StoragePolicy::preferred_replicas]. *)
Definition preferred_replicas (p : StoragePolicy) (tier : StorageClass) : Z :=
  match tier with
  | Hot => preferred_hot_replicas p
  | Cold => Z.max (preferred_cold_replicas p) (if cold_backup_required p then 1 else 0)
  | Archive => preferred_archive_replicas p
  end.

(** [StoragePolicy::required_failure_domains]. *)
Definition required_failure_domains (p : StoragePolicy) (class : StorageClass) : Z :=
  match class with
  | Hot => min_hot_failure_domains p
  | Cold => min_cold_failure_domains p
  | Archive => min_archive_failure_domains p
  end.

(** ** Specification *)

(** The conditions on the counts of a valid policy. *)
Definition policy_ok (p : StoragePolicy) : Prop :=
  1 <= min_verified_hot_replicas p /\
  min_verified_hot_replicas p <= preferred_hot_replicas p /\
  min_verified_cold_replicas p <= preferred_cold_replicas p /\
  min_verified_archive_replicas p <= preferred_archive_replicas p /\
  (cold_backup_required p = true -> 1 <= min_verified_cold_replicas p) /\
  min_hot_failure_domains p <= min_verified_hot_replicas p /\
  min_cold_failure_domains p <= min_verified_cold_replicas p /\
  min_archive_failure_domains p <= min_verified_archive_replicas p.

Definition policy_typed (p : StoragePolicy) : Prop :=
  Forall is_u32 [min_verified_hot_replicas p; min_verified_cold_replicas p;
    min_verified_archive_replicas p; preferred_hot_replicas p; preferred_cold_replicas p;
    preferred_archive_replicas p; min_hot_failure_domains p; min_cold_failure_domains p;
    min_archive_failure_domains p].

(** ** Lemmas *)

Lemma class_cmp_order : TotalPreorder class_cmp.
Proof. apply (cmp_by_key class_rank), Z_compare_order. Qed.

Lemma class_all_complete c : c ∈ class_all.
Proof. destruct c; unfold class_all; set_solver. Qed.

Lemma StoragePolicy_validate_Ok p :
  policy_typed p -> StoragePolicy_validate p = Ok tt <-> policy_ok p.
Proof.
  unfold policy_typed. rewrite !Forall_cons. unfold is_u32. intros Ht. decompose [and] Ht. clear Ht.
  unfold StoragePolicy_validate, policy_ok. cbn [for_each class_as_str].
  destruct (Z.eqb_spec (min_verified_hot_replicas p) 0); [split; [done|lia]|].
  destruct (_ || _ || _) eqn:E.
  { split; [done|]. rewrite !orb_true_iff, !Z.ltb_lt in E. lia. }
  breflect.
  destruct (cold_backup_required p && _) eqn:Eb.
  { split; [done|]. breflect. intros Hp. decompose [and] Hp. intuition lia. }
  assert (cold_backup_required p = true -> 1 <= min_verified_cold_replicas p).
  { intros Hc. rewrite Hc in Eb. simpl in Eb. breflect. lia. }
  destruct (Z.ltb_spec (min_verified_hot_replicas p) (min_hot_failure_domains p)); simpl; [split; [done|lia]|].
  destruct (Z.ltb_spec (min_verified_cold_replicas p) (min_cold_failure_domains p)); simpl; [split; [done|lia]|].
  destruct (Z.ltb_spec (min_verified_archive_replicas p) (min_archive_failure_domains p)); simpl; [split; [done|lia]|].
  split; [|done]. intros _. split_and!; done || lia.
Qed.

(** The derived counts of a valid policy are consistent in every class. *)
Lemma policy_ok_classes p c :
  policy_ok p -> required_replicas p c <= preferred_replicas p c /\
                 required_failure_domains p c <= required_replicas p c.
Proof. intros (?&?&?&?&?&?&?&?). destruct c; simpl; destruct (cold_backup_required p); lia. Qed.

Lemma parse_digits_range max acc l z :
  0 <= acc <= max -> parse_digits max acc l = Ok z -> 0 <= z <= max.
Proof.
  revert acc. induction l as [|c l IH]; intros acc Ha; simpl; [by intros [= <-]|].
  destruct (is_ascii_digit c) eqn:Ed; simpl; [|done].
  destruct (max <? _) eqn:E; [done|]. apply IH. unfold is_ascii_digit in Ed. breflect. lia.
Qed.

Lemma parse_uint_range max s z : 0 <= max -> parse_uint max s = Ok z -> 0 <= z <= max.
Proof.
  intros Hm. unfold parse_uint. destruct (chars s) as [|c [|d l]]; [done| |];
    [|destruct (char_eqb c "+")]; apply parse_digits_range; lia.
Qed.

Lemma env_u32_range env name d z : env_u32 env name d = Ok z -> is_u32 z.
Proof.
  unfold env_u32. destruct (parse_uint _ _) eqn:E; simpl; [|done]. intros [= <-].
  apply parse_uint_range in E; [done|unfold u32_max; lia].
Qed.

(** ** Properties *)

(** C15. A policy read from the environment is usable: its counts are [u32]s,
    at least one verified hot replica is required, the preferred counts cover
    the required ones, a required cold backup needs a verified cold replica,
    and no class asks for more failure domains than replicas. *)
Theorem policy_from_env_ok env p :
  StoragePolicy_from_env env = Ok p ->
  policy_typed p /\ policy_ok p /\
  (forall c, required_replicas p c <= preferred_replicas p c /\
             required_failure_domains p c <= required_replicas p c).
Proof.
  unfold StoragePolicy_from_env. intros H.
  do 9 (apply rbind_Ok in H as (? & ?%env_u32_range & H)).
  apply rbind_Ok in H as (b & _ & H). apply rbind_Ok in H as (m & _ & H).
  apply rbind_Ok in H as ([] & Hv & [= <-]).
  match type of Hv with StoragePolicy_validate ?q = _ => assert (policy_typed q) as Ht end.
  { unfold policy_typed. simpl. repeat (constructor; [assumption|]). constructor. }
  apply StoragePolicy_validate_Ok in Hv; [|done].
  split_and!; [done..|]. intros c. by apply policy_ok_classes.
Qed.

Theorem policy_from_env_ok_witness : policy_ok StoragePolicy_default.
Proof. apply (policy_from_env_ok (fun _ => None)). vm_compute. reflexivity. Defined.
