(* ===== verification/Placement.v ===== *)
(** * Replica placement and reconciliation ([storage/src/tiering.rs],
    [storage/src/reconcile.rs])

    [StoragePlacementEngine] decides where the missing replicas of an object
    go; [StorageCapacityManager] picks a pool with room; and
    [PhysicalPackReconciler] grades the replicas that exist.  The [u32]
    counters wrap, as in a release build. *)
From stdpp Require Import base gmap strings list pretty sets.
From Stdlib Require Import ZArith Lia Sorting.Sorted.
From S2P Require Import Prelude Text Storage.
Local Open Scope Z_scope.

(** ** Data *)

Inductive StoragePoolStatus : Type :=
| PoolReady | PoolDegraded | PoolNeedsCapacity | PoolStatusUnavailable | PoolDisabled.

#[export] Instance StoragePoolStatus_eq_dec : EqDecision StoragePoolStatus.
Proof. solve_decision. Defined.

Inductive ProvisioningMode : Type := ModeDisabled | ModeManual | ModeAutomatic.

Record PlacementProvider : Type := {
  pp_provider_id : string;
  pp_tier : StorageClass;
  pp_healthy : bool;
  pp_capacity_available_bytes : option Z
}.

Record StoragePoolCandidate : Type := {
  pool_id : string;
  provider_id : string;
  storage_class : StorageClass;
  provider_type : string;
  priority : Z;
  failure_domain : string;
  enabled : bool;
  status : StoragePoolStatus;
  healthy : bool;
  capacity_available_bytes : option Z
}.

Record ExistingStorageReplica : Type := {
  er_provider_id : string;
  er_pool_id : string;
  er_storage_class : StorageClass;
  er_failure_domain : string
}.

Record StoragePlacementAction : Type := {
  pa_provider_id : string;
  pa_tier : StorageClass;
  pa_pool_id : string;
  pa_failure_domain : string;
  pa_priority : Z;
  pa_reason : string
}.

(** [StoragePlacementPlan]; the per-class counters are functions of the
    class. *)
Record StoragePlacementPlan : Type := {
  actions : list StoragePlacementAction;
  existing_replicas_of : StorageClass -> Z;
  existing_domains_of : StorageClass -> Z;
  projected_replicas_of : StorageClass -> Z;
  projected_domains_of : StorageClass -> Z;
  required_replicas_of : StorageClass -> Z;
  required_domains_of : StorageClass -> Z;
  policy_satisfied : bool;
  explanation : string
}.

(** ** Placement *)

(** [as u32] and [+= 1] on a [u32]. *)
Definition wrap32 (z : Z) : Z := z mod 2 ^ 32.

Abbreviation domain_map := (gmap StorageClass (gset string)).

Definition domains_in (m : domain_map) (c : StorageClass) : gset string := default ∅ (m !! c).

Definition domain_count (s : gset string) : Z := wrap32 (Z.of_nat (size s)).

(** The loop that counts the existing replicas and their failure domains. *)
Definition count_existing (existing : list ExistingStorageReplica)
  : gmap StorageClass Z * domain_map :=
  fold_left (fun '(counts, domains) r =>
    let c := er_storage_class r in
    (<[c := wrap32 (default 0 (counts !! c) + 1)]> counts,
     <[c := {[er_failure_domain r]} ∪ domains_in domains c]> domains))
    existing (∅, ∅).

Definition domain_seen (m : domain_map) (c : StoragePoolCandidate) : bool :=
  bool_decide (failure_domain c ∈ domains_in m (storage_class c)).

(** The comparison [candidates.sort_by] is called with. *)
Definition candidate_cmp (m : domain_map) (left right : StoragePoolCandidate) : comparison :=
  then_with (then_with (then_with
    (class_cmp (storage_class left) (storage_class right))
    (then_with (bool_cmp (domain_seen m left) (domain_seen m right))
       (priority left ?= priority right)))
    (String.compare (pool_id left) (pool_id right)))
    (String.compare (provider_id left) (provider_id right)).

(** The status test of the loop. *)
Definition status_blocks (s : StoragePoolStatus) : bool :=
  match s with
  | PoolDisabled | PoolStatusUnavailable | PoolNeedsCapacity => true
  | _ => false
  end.

(** The state of the loop over the candidates of one class. *)
Record class_state : Type := {
  cs_actions : list StoragePlacementAction;
  cs_projected : Z;
  cs_projected_domains : Z;
  cs_domain_sets : domain_map;
  cs_selected : gset string
}.

Definition target_met (desired desired_domains : Z) (st : class_state) : bool :=
  (desired <=? cs_projected st) && (desired_domains <=? cs_projected_domains st).

(** The [continue] condition of the loop. *)
Definition skip_candidate (desired desired_domains encoded_size : Z) (existing : gset string)
  (st : class_state) (candidate : StoragePoolCandidate) : bool :=
  target_met desired desired_domains st
  || negb (enabled candidate)
  || negb (healthy candidate)
  || status_blocks (status candidate)
  || bool_decide (provider_id candidate ∈ existing)
  || bool_decide (provider_id candidate ∈ cs_selected st)
  || match capacity_available_bytes candidate with
     | Some available => available <? encoded_size
     | None => false
     end.

(** The rest of the loop body: the action is pushed and the counters move. *)
Definition take_candidate (class : StorageClass) (st : class_state)
  (candidate : StoragePoolCandidate) : class_state := {|
  cs_actions := cs_actions st ++ [{|
    pa_provider_id := provider_id candidate;
    pa_tier := class;
    pa_pool_id := pool_id candidate;
    pa_failure_domain := failure_domain candidate;
    pa_priority := priority candidate;
    pa_reason := ("satisfy " +:+ class_as_str class +:+ " replica policy in pool "
      +:+ pool_id candidate +:+ " (priority " +:+ pretty (priority candidate) +:+ ")")%string |}];
  cs_projected := wrap32 (cs_projected st + 1);
  cs_projected_domains := wrap32 (cs_projected_domains st +
    (if bool_decide (failure_domain candidate ∈ domains_in (cs_domain_sets st) class) then 0 else 1));
  cs_domain_sets := <[class := {[failure_domain candidate]} ∪ domains_in (cs_domain_sets st) class]>
                      (cs_domain_sets st);
  cs_selected := {[provider_id candidate]} ∪ cs_selected st
|}.

(** The loop over the candidates of one class. *)
Fixpoint place_candidates (class : StorageClass) (desired desired_domains encoded_size : Z)
  (existing : gset string) (candidates : list StoragePoolCandidate) (st : class_state) : class_state :=
  match candidates with
  | [] => st
  | candidate :: candidates' =>
      if skip_candidate desired desired_domains encoded_size existing st candidate
      then place_candidates class desired desired_domains encoded_size existing candidates' st
      else
        let st := take_candidate class st candidate in
        if target_met desired desired_domains st then st
        else place_candidates class desired desired_domains encoded_size existing candidates' st
  end.

(** One iteration of the loop over the classes; the state is [actions] and
    [domain_sets]. *)
Definition place_class (policy : StoragePolicy) (encoded_size : Z) (existing : gset string)
  (counts : gmap StorageClass Z) (candidates : list StoragePoolCandidate)
  (state : list StoragePlacementAction * domain_map) (class : StorageClass)
  : list StoragePlacementAction * domain_map :=
  let '(actions, domain_sets) := state in
  let st := place_candidates class (preferred_replicas policy class)
    (required_failure_domains policy class) encoded_size existing
    (filter (fun c => storage_class c = class) candidates)
    {| cs_actions := actions;
       cs_projected := default 0 (counts !! class);
       cs_projected_domains := domain_count (domains_in domain_sets class);
       cs_domain_sets := domain_sets;
       cs_selected := existing |} in
  (cs_actions st, cs_domain_sets st).

(** The distinct failure domains of the replicas of a class, with those of the
    planned actions. *)
Definition replica_domains (existing : list ExistingStorageReplica) (class : StorageClass)
  : gset string :=
  list_to_set (map er_failure_domain (filter (fun r => er_storage_class r = class) existing)).

Definition planned_domains (planned : list StoragePlacementAction) (class : StorageClass)
  : gset string :=
  list_to_set (map pa_failure_domain (filter (fun a => pa_tier a = class) planned)).

(** [StoragePlacementEngine::plan_with_pools]. *)
Definition plan_with_pools (policy : StoragePolicy) (encoded_size : Z)
  (existing : list ExistingStorageReplica) (pools : list StoragePoolCandidate)
  : StoragePlacementPlan :=
  let existing_providers : gset string := list_to_set (map er_provider_id existing) in
  let '(replica_counts, domain_sets) := count_existing existing in
  let candidates := sort_by (candidate_cmp domain_sets) pools in
  let '(planned, _) := fold_left
    (place_class policy encoded_size existing_providers replica_counts candidates)
    class_all ([], domain_sets) in
  let existing_for := fun class => default 0 (replica_counts !! class) in
  let projected := fun class =>
    wrap32 (existing_for class
            + wrap32 (Z.of_nat (length (filter (fun a => pa_tier a = class) planned)))) in
  let projected_domains := fun class =>
    domain_count (replica_domains existing class ∪ planned_domains planned class) in
  let required := required_replicas policy in
  let required_domains := required_failure_domains policy in
  let class_satisfied := fun class =>
    (required class <=? projected class) && (required_domains class <=? projected_domains class) in
  let satisfied := forallb class_satisfied class_all in
  {| actions := planned;
     existing_replicas_of := existing_for;
     existing_domains_of := fun class => domain_count (replica_domains existing class);
     projected_replicas_of := projected;
     projected_domains_of := projected_domains;
     required_replicas_of := required;
     required_domains_of := required_domains;
     policy_satisfied := satisfied;
     explanation :=
       if satisfied then "storage policy satisfied"%string
       else join "; " (map (fun class =>
              (class_as_str class +:+ " " +:+ fmt_u (projected class) +:+ "/" +:+ fmt_u (required class)
               +:+ " replicas and " +:+ fmt_u (projected_domains class) +:+ "/"
               +:+ fmt_u (required_domains class) +:+ " failure domains")%string)
              (filter (fun class => class_satisfied class = false) class_all)) |}.

(** [StoragePlacementEngine::plan]: one pool per provider. *)
Definition provider_candidate (p : PlacementProvider) : StoragePoolCandidate := {|
  pool_id := pp_provider_id p;
  provider_id := pp_provider_id p;
  storage_class := pp_tier p;
  provider_type := pp_provider_id p;
  priority := 100;
  failure_domain := pp_provider_id p;
  enabled := true;
  status := if pp_healthy p then PoolReady else PoolStatusUnavailable;
  healthy := pp_healthy p;
  capacity_available_bytes := pp_capacity_available_bytes p
|}.

Definition plan (policy : StoragePolicy) (encoded_size : Z) (existing_provider_ids : list string)
  (providers : list PlacementProvider) : StoragePlacementPlan :=
  let candidates := map provider_candidate providers in
  let existing := map (fun c => {|
      er_provider_id := provider_id c; er_pool_id := pool_id c;
      er_storage_class := storage_class c; er_failure_domain := failure_domain c |})
    (omap (fun id => list_find (fun c => provider_id c = id) candidates ≫= fun r => Some r.2)
      existing_provider_ids) in
  plan_with_pools policy encoded_size existing candidates.

(** ** Capacity pools *)

Record StoragePool : Type := {
  sp_id : string;
  sp_storage_class : StorageClass;
  sp_provider_type : string;
  sp_priority : Z;
  sp_failure_domain : string;
  sp_enabled : bool;
  sp_status : StoragePoolStatus;
  sp_provisioning_mode : ProvisioningMode
}.

(** [StoragePool::for_provider]. *)
Definition for_provider (id : string) (class : StorageClass) (ptype domain : string) : StoragePool := {|
  sp_id := id;
  sp_storage_class := class;
  sp_provider_type := ptype;
  sp_priority := 100;
  sp_failure_domain := domain;
  sp_enabled := true;
  sp_status := PoolReady;
  sp_provisioning_mode :=
    if String.eqb (to_ascii_lowercase ptype) "mega" then ModeManual else ModeDisabled
|}.

Record CapacityPoolSnapshot : Type := {
  cp_pool : StoragePool;
  cp_available_bytes : Z;
  cp_reserved_bytes : Z;
  cp_healthy : bool
}.

Definition pool_usable (required_bytes : Z) (p : CapacityPoolSnapshot) : bool :=
  sp_enabled (cp_pool p) && cp_healthy p
  && match sp_status (cp_pool p) with PoolReady | PoolDegraded => true | _ => false end
  && (required_bytes <=? cp_available_bytes p).

Definition pool_cmp (left right : CapacityPoolSnapshot) : comparison :=
  then_with (sp_priority (cp_pool left) ?= sp_priority (cp_pool right))
            (String.compare (sp_id (cp_pool left)) (sp_id (cp_pool right))).

(** [StorageCapacityManager::select_pool]. *)
Definition select_pool (required_bytes : Z) (pools : list CapacityPoolSnapshot)
  : result string StorageError :=
  let candidates := sort_by pool_cmp (filter (fun p => pool_usable required_bytes p = true) pools) in
  match candidates with
  | p :: _ => Ok (sp_id (cp_pool p))
  | [] => Err (NeedsCapacity required_bytes (foldr Z.max 0 (map cp_available_bytes pools)))
  end.

(** ** Reconciliation *)

Inductive PhysicalPackHealth : Type := Healthy | UnderReplicated | Degraded | Lost.

Record PackReplicaObservation : Type := {
  ob_provider : string;
  ob_pool_id : string;
  ob_failure_domain : string;
  ob_storage_class : StorageClass;
  ob_verified : bool;
  ob_readable : bool
}.

(** [PhysicalPackReconciliation]; the per-class counters are functions of the
    class. *)
Record PhysicalPackReconciliation : Type := {
  rc_pack_hash : string;
  rc_health : PhysicalPackHealth;
  rc_verified_replicas : StorageClass -> Z;
  rc_verified_failure_domains : StorageClass -> Z;
  rc_repair_classes : list StorageClass;
  rc_scrub_required : bool
}.

(** [PhysicalPackReconciler::evaluate]. *)
Definition evaluate (pack_hash : string) (observations : list PackReplicaObservation)
  (policy : StoragePolicy) : PhysicalPackReconciliation :=
  let verified := filter (fun o => ob_verified o = true) observations in
  let count := fun class =>
    wrap32 (Z.of_nat (length (filter (fun o => ob_storage_class o = class) verified))) in
  let domains := fun class =>
    domain_count (list_to_set (map ob_failure_domain
      (filter (fun o => ob_storage_class o = class) verified))) in
  let repair_classes := filter (fun class =>
    (count class <? required_replicas policy class)
    || (domains class <? required_failure_domains policy class) = true) class_all in
  let any_verified := negb (bool_decide (verified = [])) in
  let scrub_required := existsb (fun o => ob_verified o && negb (ob_readable o)) observations in
  let health :=
    if negb any_verified then Lost
    else if negb (bool_decide (repair_classes = [])) then UnderReplicated
    else if scrub_required then Degraded
    else Healthy in
  {| rc_pack_hash := pack_hash; rc_health := health; rc_verified_replicas := count;
     rc_verified_failure_domains := domains; rc_repair_classes := repair_classes;
     rc_scrub_required := scrub_required |}.

(** ** The loop over the candidates of a class *)

(** The candidates the loop may take: enabled, healthy, in a working pool with
    room for the object. *)
Definition eligible (encoded_size : Z) (c : StoragePoolCandidate) : Prop :=
  enabled c = true /\ healthy c = true /\ status_blocks (status c) = false /\
  (forall available, capacity_available_bytes c = Some available -> encoded_size <= available).

(** The action that takes a candidate. *)
Definition action_of (class : StorageClass) (c : StoragePoolCandidate) : StoragePlacementAction := {|
  pa_provider_id := provider_id c; pa_tier := class; pa_pool_id := pool_id c;
  pa_failure_domain := failure_domain c; pa_priority := priority c;
  pa_reason := ("satisfy " +:+ class_as_str class +:+ " replica policy in pool "
      +:+ pool_id c +:+ " (priority " +:+ pretty (priority c) +:+ ")")%string |}.

Definition domains_of (l : list StoragePoolCandidate) : gset string := list_to_set (map failure_domain l).
Definition providers_of (l : list StoragePoolCandidate) : gset string := list_to_set (map provider_id l).

(** What the loop promises about the candidates [picked] out of [candidates]
    when it starts from [n0] replicas in the domains [d0]. *)
Record chosen (desired desired_domains encoded_size n0 : Z) (d0 existing selected : gset string)
    (candidates picked : list StoragePoolCandidate) : Prop := {
  ch_sublist : picked `sublist_of` candidates;
  ch_eligible : Forall (eligible encoded_size) picked;
  ch_fresh : Forall (fun c => provider_id c ∉ existing ∪ selected) picked;
  ch_nodup : NoDup (map provider_id picked);
  ch_complete :
    (desired <= n0 + Z.of_nat (length picked) /\
     desired_domains <= Z.of_nat (size (d0 ∪ domains_of picked))) \/
    (forall c, c ∈ candidates -> eligible encoded_size c ->
       provider_id c ∈ existing ∪ selected ∪ providers_of picked);
  ch_minimal : forall front last, picked = front ++ [last] ->
    n0 + Z.of_nat (length front) < desired \/
    Z.of_nat (size (d0 ∪ domains_of front)) < desired_domains
}.

Lemma wrap32_id z : 0 <= z < 2 ^ 32 -> wrap32 z = z.
Proof. intros. unfold wrap32. by rewrite Z.mod_small. Qed.

Lemma skip_candidate_false desired dd size existing st c :
  skip_candidate desired dd size existing st c = false ->
  target_met desired dd st = false /\ eligible size c /\ provider_id c ∉ existing /\
  provider_id c ∉ cs_selected st.
Proof.
  unfold skip_candidate, eligible. intros H. breflect. split_and!; try done.
  intros a Ha. rewrite Ha in *. breflect. lia.
Qed.

Lemma skip_candidate_true desired dd size existing st c :
  skip_candidate desired dd size existing st c = true -> eligible size c ->
  target_met desired dd st = true \/ provider_id c ∈ existing ∪ cs_selected st.
Proof.
  unfold skip_candidate, eligible. intros H (He & Hh & Hs & Hc). rewrite He, Hh, Hs in H. simpl in H.
  rewrite !orb_false_r, !orb_true_iff, !bool_decide_eq_true in H.
  destruct H as [[[H|H]|H]|H]; [by left|right; set_solver..|].
  destruct (capacity_available_bytes c); [|done]. specialize (Hc _ eq_refl). breflect. lia.
Qed.

(** Once the target is met the loop takes nothing more. *)
Lemma place_candidates_met class desired dd size existing l st :
  target_met desired dd st = true -> place_candidates class desired dd size existing l st = st.
Proof.
  intros H. induction l as [|c l IH]; [done|]. simpl. unfold skip_candidate. rewrite H. by simpl.
Qed.

(** The state of the loop after it took the candidates [picked]. *)
Definition after_picks (class : StorageClass) (picked : list StoragePoolCandidate)
    (st st' : class_state) : Prop :=
  cs_actions st' = cs_actions st ++ map (action_of class) picked /\
  (forall c, c <> class -> cs_domain_sets st' !! c = cs_domain_sets st !! c) /\
  domains_in (cs_domain_sets st') class = domains_in (cs_domain_sets st) class ∪ domains_of picked.

Lemma domains_in_insert m c s : domains_in (<[c := s]> m) c = s.
Proof. unfold domains_in. by rewrite lookup_insert_eq. Qed.

Lemma domain_step (s : gset string) d :
  Z.of_nat (size ({[d]} ∪ s)) = Z.of_nat (size s) + (if bool_decide (d ∈ s) then 0 else 1).
Proof.
  case_bool_decide as Hd.
  - replace ({[d]} ∪ s) with s by set_solver. lia.
  - rewrite size_union by set_solver. rewrite size_singleton. lia.
Qed.

Lemma take_candidate_after class st c :
  after_picks class [c] st (take_candidate class st c).
Proof.
  split_and!; [done| |].
  - intros c' Hne. simpl. by rewrite lookup_insert_ne.
  - simpl. rewrite domains_in_insert. unfold domains_of. simpl. set_solver.
Qed.

Lemma after_picks_trans class l k s1 s2 s3 :
  after_picks class l s1 s2 -> after_picks class k s2 s3 -> after_picks class (l ++ k) s1 s3.
Proof.
  unfold after_picks, domains_of. intros (A1 & B1 & D1) (A2 & B2 & D2). split_and!.
  - by rewrite A2, A1, map_app, app_assoc.
  - intros c Hc. by rewrite B2, B1.
  - rewrite D2, D1, map_app, list_to_set_app_L. set_solver.
Qed.

(** The counters of the loop are the true counts while they fit. *)
Definition counters_exact (class : StorageClass) (budget : Z) (st : class_state) : Prop :=
  0 <= cs_projected st /\ cs_projected st + budget < 2 ^ 32 /\
  cs_projected_domains st = Z.of_nat (size (domains_in (cs_domain_sets st) class)) /\
  cs_projected_domains st + budget < 2 ^ 32.

Lemma take_candidate_counters class budget st c :
  0 <= budget -> counters_exact class (budget + 1) st ->
  counters_exact class budget (take_candidate class st c) /\
  cs_projected (take_candidate class st c) = cs_projected st + 1.
Proof.
  unfold counters_exact. intros Hb (H1 & H2 & H3 & H4). simpl.
  pose proof (domain_step (domains_in (cs_domain_sets st) class) (failure_domain c)) as E.
  rewrite domains_in_insert, E, <- H3.
  assert (0 <= cs_projected_domains st) by lia.
  rewrite !wrap32_id by (case_bool_decide; lia). case_bool_decide; lia.
Qed.

Lemma target_met_exact class desired dd budget st :
  counters_exact class budget st ->
  target_met desired dd st = true <->
  desired <= cs_projected st /\ dd <= Z.of_nat (size (domains_in (cs_domain_sets st) class)).
Proof. intros (_ & _ & <- & _). unfold target_met. by rewrite andb_true_iff, !Z.leb_le. Qed.

Lemma chosen_nil desired dd size n0 d0 existing selected l :
  (desired <= n0 /\ dd <= Z.of_nat (base.size d0)) \/
  (forall c, c ∈ l -> eligible size c -> provider_id c ∈ existing ∪ selected) ->
  chosen desired dd size n0 d0 existing selected l [].
Proof.
  intros H. split; [apply sublist_nil_l|constructor..| |].
  - destruct H as [[? ?]|H]; [left|right].
    + unfold domains_of. simpl. rewrite union_empty_r_L. lia.
    + unfold providers_of. simpl. intros c Hc He. specialize (H c Hc He). set_solver.
  - by intros [] ?.
Qed.

Lemma chosen_skip desired dd size n0 d0 existing selected l picked c :
  (eligible size c -> provider_id c ∈ existing ∪ selected) ->
  chosen desired dd size n0 d0 existing selected l picked ->
  chosen desired dd size n0 d0 existing selected (c :: l) picked.
Proof.
  intros Hc []. split; try done; [by apply sublist_cons|].
  destruct ch_complete0 as [?|H]; [by left|right]. intros c' [->|Hin]%elem_of_cons He.
  - specialize (Hc He). set_solver.
  - by apply H.
Qed.

Lemma domains_of_cons d0 c l :
  d0 ∪ domains_of (c :: l) = {[failure_domain c]} ∪ d0 ∪ domains_of l.
Proof. unfold domains_of. simpl. set_solver. Qed.

Lemma chosen_take desired dd size n0 d0 existing selected l picked c :
  eligible size c -> provider_id c ∉ existing ∪ selected ->
  n0 < desired \/ Z.of_nat (base.size d0) < dd ->
  chosen desired dd size (n0 + 1) ({[failure_domain c]} ∪ d0) existing ({[provider_id c]} ∪ selected) l picked ->
  chosen desired dd size n0 d0 existing selected (c :: l) (c :: picked).
Proof.
  intros He Hf Hopen []. unfold providers_of in *. split.
  - by apply sublist_skip.
  - by constructor.
  - constructor; [done|]. eapply Forall_impl; [exact ch_fresh0|]. set_solver.
  - simpl. constructor; [|done]. rewrite list_elem_of_fmap. intros (c' & Hc' & Hin).
    rewrite Forall_forall in ch_fresh0. specialize (ch_fresh0 c' Hin). rewrite <- Hc' in ch_fresh0. set_solver.
  - destruct ch_complete0 as [[H1 H2]|H]; [left|right].
    + simpl length. rewrite domains_of_cons. split; [lia|done].
    + intros c' [->|Hin]%elem_of_cons He'; simpl; [set_solver|].
      specialize (H c' Hin He'). set_solver.
  - intros [|c' front] last Heq; simpl in Heq.
    { unfold domains_of. simpl. rewrite union_empty_r_L, Z.add_0_r. done. }
    injection Heq as <- Heq. destruct (ch_minimal0 front last Heq) as [H|H]; [left; simpl length; lia|right].
    by rewrite domains_of_cons.
Qed.

(** The loop takes the first eligible candidates with fresh providers, until
    the target is met or the candidates run out. *)
Lemma place_candidates_chosen class desired dd size existing l st :
  counters_exact class (Z.of_nat (length l)) st ->
  exists picked,
    after_picks class picked st (place_candidates class desired dd size existing l st) /\
    chosen desired dd size (cs_projected st) (domains_in (cs_domain_sets st) class)
      existing (cs_selected st) l picked.
Proof.
  revert st. induction l as [|c l IH]; intros st Hc; simpl place_candidates.
  { exists []. split; [by unfold after_picks, domains_of; simpl; rewrite app_nil_r, union_empty_r_L|].
    apply chosen_nil. right. by intros ? ?%elem_of_nil. }
  assert (Hnil : after_picks class [] st st)
    by (by unfold after_picks, domains_of; simpl; rewrite app_nil_r, union_empty_r_L).
  assert (Hc' : counters_exact class (Z.of_nat (length l)) st)
    by (unfold counters_exact in *; simpl length in Hc; lia).
  destruct (target_met desired dd st) eqn:Hmet.
  { exists []. unfold skip_candidate. rewrite Hmet. simpl. rewrite place_candidates_met by done.
    split; [done|]. apply chosen_nil. left. by apply (target_met_exact class _ _ _ _ Hc') in Hmet. }
  destruct (skip_candidate desired dd size existing st c) eqn:Hs.
  - destruct (IH st Hc') as (picked & Ha & Hch). exists picked. split; [done|].
    apply chosen_skip; [|done]. intros He.
    destruct (skip_candidate_true _ _ _ _ _ _ Hs He) as [?|?]; [congruence|done].
  - apply skip_candidate_false in Hs as (_ & He & Hf1 & Hf2).
    assert (forall s, (if target_met desired dd s then s
        else place_candidates class desired dd size existing l s)
      = place_candidates class desired dd size existing l s) as ->.
    { intros s. destruct (target_met desired dd s) eqn:E; [|done]. by rewrite place_candidates_met. }
    replace (Z.of_nat (length (c :: l))) with (Z.of_nat (length l) + 1) in Hc by (simpl length; lia).
    apply (take_candidate_counters class (Z.of_nat (length l)) st c) in Hc as [Hc2 Hn]; [|lia].
    destruct (IH _ Hc2) as (picked & Ha & Hch). exists (c :: picked). split.
    { eapply (after_picks_trans class [c]); [apply take_candidate_after|exact Ha]. }
    apply chosen_take; [done|set_solver| |].
    + destruct (decide (desired <= cs_projected st /\
        dd <= Z.of_nat (base.size (domains_in (cs_domain_sets st) class)))) as [Hd|Hd]; [|lia].
      apply (target_met_exact class _ _ _ _ Hc') in Hd. congruence.
    + rewrite Hn in Hch. simpl in Hch. by rewrite domains_in_insert in Hch.
Qed.

(** ** The whole plan *)

Definition replicas_in (existing : list ExistingStorageReplica) (class : StorageClass) : Z :=
  Z.of_nat (length (filter (fun r => er_storage_class r = class) existing)).

Definition actions_in (p : StoragePlacementPlan) (class : StorageClass) : Z :=
  Z.of_nat (length (filter (fun a => pa_tier a = class) (actions p))).

Lemma filter_snoc {A} (P : A -> Prop) `{!forall x, Decision (P x)} l x :
  filter P (l ++ [x]) = if decide (P x) then filter P l ++ [x] else filter P l.
Proof. rewrite filter_app, filter_cons, filter_nil. destruct (decide (P x)); [done|apply app_nil_r]. Qed.

Lemma count_existing_exact existing counts domains :
  Z.of_nat (length existing) < 2 ^ 32 -> count_existing existing = (counts, domains) ->
  forall class, default 0 (counts !! class) = replicas_in existing class /\
                domains_in domains class = replica_domains existing class.
Proof.
  revert counts domains. induction existing as [|r l IH] using rev_ind; intros counts domains Hlen.
  { intros [= <- <-] class. done. }
  rewrite length_app in Hlen. simpl in Hlen. unfold count_existing. rewrite fold_left_app.
  fold (count_existing l). destruct (count_existing l) as [counts0 domains0]. intros [= <- <-] class.
  destruct (IH counts0 domains0 ltac:(lia) eq_refl class) as [Hn Hd].
  unfold replicas_in, replica_domains in *. rewrite filter_snoc.
  destruct (decide (er_storage_class r = class)) as [->|Hne].
  - rewrite lookup_insert_eq, domains_in_insert, Hd, length_app, map_app, list_to_set_app_L, Hn. simpl.
    split; [|set_solver].
    pose proof (length_filter (fun r0 => er_storage_class r0 = class) l).
    rewrite wrap32_id by lia. lia.
  - unfold domains_in in *. by rewrite !lookup_insert_ne.
Qed.

Lemma wrap32_replicas existing class :
  Z.of_nat (length existing) < 2 ^ 32 ->
  0 <= replicas_in existing class <= Z.of_nat (length existing).
Proof.
  intros. unfold replicas_in.
  pose proof (length_filter (fun r => er_storage_class r = class) existing). lia.
Qed.

Lemma size_list_to_set_le (l : list string) : (size (list_to_set l : gset string) <= length l)%nat.
Proof.
  induction l as [|x l IH]; [done|]. rewrite list_to_set_cons.
  pose proof (size_union_alt {[x]} (list_to_set l : gset string)) as E. rewrite E, size_singleton. simpl.
  pose proof (subseteq_size (list_to_set l ∖ {[x]} : gset string) (list_to_set l)).
  enough (size (list_to_set l ∖ {[x]} : gset string) <= size (list_to_set l : gset string))%nat by lia.
  auto with set_solver.
Qed.

Lemma replica_domains_size existing class :
  Z.of_nat (size (replica_domains existing class)) <= replicas_in existing class.
Proof.
  unfold replica_domains, replicas_in.
  pose proof (size_list_to_set_le (map er_failure_domain
    (filter (fun r => er_storage_class r = class) existing))) as H.
  rewrite length_map in H. lia.
Qed.

(** One iteration over the classes. *)
Lemma place_class_chosen policy size existing counts candidates acts ds class :
  0 <= default 0 (counts !! class) ->
  default 0 (counts !! class) + Z.of_nat (length candidates) < 2 ^ 32 ->
  Z.of_nat (base.size (domains_in ds class)) <= default 0 (counts !! class) ->
  exists picked ds',
    place_class policy size existing counts candidates (acts, ds) class
      = (acts ++ map (action_of class) picked, ds') /\
    (forall c, c <> class -> domains_in ds' c = domains_in ds c) /\
    chosen (preferred_replicas policy class) (required_failure_domains policy class) size
      (default 0 (counts !! class)) (domains_in ds class) existing existing
      (filter (fun c => storage_class c = class) candidates) picked.
Proof.
  intros H0 Hn Hd. unfold place_class.
  pose proof (length_filter (fun c => storage_class c = class) candidates) as Hf.
  match goal with |- context [place_candidates _ _ _ _ _ ?l ?st] =>
    destruct (place_candidates_chosen class (preferred_replicas policy class)
      (required_failure_domains policy class) size existing l st) as (picked & (Ha & Hk & _) & Hc) end.
  { unfold counters_exact, domain_count. simpl. rewrite wrap32_id by lia. lia. }
  simpl in *. eexists picked, _. split_and!; [by rewrite Ha| |done].
  intros c Hne. unfold domains_in. by rewrite Hk.
Qed.

Lemma place_classes_chosen policy size existing counts candidates classes acts ds :
  NoDup classes ->
  (forall class, 0 <= default 0 (counts !! class) /\
    default 0 (counts !! class) + Z.of_nat (length candidates) < 2 ^ 32) ->
  (forall class, class ∈ classes -> Z.of_nat (base.size (domains_in ds class)) <= default 0 (counts !! class)) ->
  exists (pick : StorageClass -> list StoragePoolCandidate) ds',
    fold_left (place_class policy size existing counts candidates) classes (acts, ds)
      = (acts ++ concat (map (fun c => map (action_of c) (pick c)) classes), ds') /\
    forall class, class ∈ classes ->
      chosen (preferred_replicas policy class) (required_failure_domains policy class) size
        (default 0 (counts !! class)) (domains_in ds class) existing existing
        (filter (fun c => storage_class c = class) candidates) (pick class).
Proof.
  intros Hnd Hn. revert acts ds. induction Hnd as [|class classes Hni Hnd IH]; intros acts ds Hd; cbn [fold_left].
  { exists (fun _ => []), ds. split; [by rewrite app_nil_r|]. by intros ? ?%elem_of_nil. }
  destruct (Hn class) as [H0 Hlen].
  destruct (place_class_chosen policy size existing counts candidates acts ds class H0 Hlen)
    as (picked & ds' & -> & Hds & Hch); [apply Hd; left|].
  destruct (IH (acts ++ map (action_of class) picked) ds') as (pick & ds'' & -> & Hpick).
  { intros c Hc. rewrite Hds by (by intros ->). apply Hd. by right. }
  exists (fun c => if decide (c = class) then picked else pick c), ds''. split.
  - f_equal. rewrite <- app_assoc. simpl. rewrite decide_True by done. do 3 f_equal.
    apply map_ext_in. intros c Hc%list_elem_of_In. rewrite decide_False; [done|]. by intros ->.
  - intros c Hc. destruct (decide (c = class)) as [->|Hne]; [done|].
    apply elem_of_cons in Hc as [->|Hc]; [done|]. rewrite <- (Hds c Hne). by apply Hpick.
Qed.

Definition existing_provider_ids (existing : list ExistingStorageReplica) : gset string :=
  list_to_set (map er_provider_id existing).

(** The plan, class by class. *)
Lemma plan_chosen policy size existing pools :
  Z.of_nat (length existing) + Z.of_nat (length pools) < 2 ^ 32 ->
  exists pick, actions (plan_with_pools policy size existing pools)
      = concat (map (fun c => map (action_of c) (pick c)) class_all) /\
    forall class, exists candidates, candidates ≡ₚ filter (fun c => storage_class c = class) pools /\
      chosen (preferred_replicas policy class) (required_failure_domains policy class) size
        (replicas_in existing class) (replica_domains existing class)
        (existing_provider_ids existing) (existing_provider_ids existing) candidates (pick class).
Proof.
  intros Hlen. unfold plan_with_pools. fold (existing_provider_ids existing).
  destruct (count_existing existing) as [counts domains] eqn:Hce.
  pose proof (count_existing_exact existing counts domains ltac:(lia) Hce) as Hex.
  pose proof (sort_by_perm (candidate_cmp domains) pools) as Hperm.
  destruct (place_classes_chosen policy size (existing_provider_ids existing) counts
    (sort_by (candidate_cmp domains) pools) class_all [] domains) as (pick & ds' & -> & Hpick).
  - apply (bool_decide_unpack _). by vm_compute.
  - intros class. destruct (Hex class) as [-> _]. rewrite Hperm.
    pose proof (wrap32_replicas existing class ltac:(lia)). lia.
  - intros class _. destruct (Hex class) as [-> ->]. apply replica_domains_size.
  - exists pick. split; [done|]. intros class. destruct (Hex class) as [Hn Hd].
    eexists. split; [|rewrite <- Hn, <- Hd; apply Hpick, class_all_complete].
    by rewrite Hperm.
Qed.

Lemma filter_actions_of (pick : StorageClass -> list StoragePoolCandidate) class classes :
  filter (fun a => pa_tier a = class) (concat (map (fun c => map (action_of c) (pick c)) classes))
  = concat (map (fun c => if decide (c = class) then map (action_of c) (pick c) else []) classes).
Proof.
  induction classes as [|c classes IH]; [done|]. simpl. rewrite filter_app, IH. f_equal.
  induction (pick c) as [|x l IHl]; simpl; [by destruct (decide _)|].
  rewrite filter_cons, IHl. simpl. by destruct (decide (c = class)).
Qed.

Lemma filter_actions_pick pick class :
  filter (fun a => pa_tier a = class) (concat (map (fun c => map (action_of c) (pick c)) class_all))
  = map (action_of class) (pick class).
Proof. rewrite filter_actions_of. by destruct class; simpl; rewrite ?app_nil_r. Qed.

Lemma actions_of_class pick a :
  a ∈ concat (map (fun c => map (action_of c) (pick c)) class_all) <->
  exists c, c ∈ pick (pa_tier a) /\ a = action_of (pa_tier a) c.
Proof.
  transitivity (a ∈ map (action_of (pa_tier a)) (pick (pa_tier a))).
  - rewrite <- filter_actions_pick. rewrite list_elem_of_filter. naive_solver.
  - rewrite list_elem_of_fmap. naive_solver.
Qed.

Lemma chosen_in desired dd size n0 d0 e s l k picked c class :
  k ≡ₚ filter (fun c => storage_class c = class) l ->
  chosen desired dd size n0 d0 e s k picked -> c ∈ picked ->
  c ∈ l /\ storage_class c = class /\ eligible size c /\ provider_id c ∉ e.
Proof.
  intros Hp [] Hc. assert (c ∈ k) as Hk by (by eapply elem_of_sublist).
  rewrite Hp, list_elem_of_filter in Hk. rewrite Forall_forall in ch_eligible0, ch_fresh0.
  specialize (ch_eligible0 c Hc). specialize (ch_fresh0 c Hc). set_solver.
Qed.

(** The projected counters of the plan. *)
Lemma plan_projected policy size existing pools class :
  Z.of_nat (length existing) + Z.of_nat (length (actions (plan_with_pools policy size existing pools))) < 2 ^ 32 ->
  let p := plan_with_pools policy size existing pools in
  projected_replicas_of p class = replicas_in existing class + actions_in p class /\
  projected_domains_of p class =
    Z.of_nat (base.size (replica_domains existing class ∪ planned_domains (actions p) class)) /\
  required_replicas_of p = required_replicas policy /\
  required_domains_of p = required_failure_domains policy /\
  (policy_satisfied p = true <-> forall class,
     required_replicas policy class <= projected_replicas_of p class /\
     required_failure_domains policy class <= projected_domains_of p class).
Proof.
  unfold plan_with_pools, actions_in. destruct (count_existing existing) as [counts domains] eqn:Hce.
  destruct (fold_left _ _ _) as [planned ds]. cbn zeta.
  cbn [actions projected_replicas_of projected_domains_of required_replicas_of required_domains_of
       policy_satisfied]. intros Hlen.
  pose proof (count_existing_exact existing counts domains ltac:(lia) Hce) as Hex.
  destruct (Hex class) as [-> _].
  pose proof (wrap32_replicas existing class ltac:(lia)).
  pose proof (length_filter (fun a => pa_tier a = class) planned).
  pose proof (replica_domains_size existing class).
  pose proof (size_list_to_set_le (map pa_failure_domain (filter (fun a => pa_tier a = class) planned))) as Hs.
  rewrite length_map in Hs. fold (planned_domains planned class) in Hs.
  pose proof (size_union_alt (replica_domains existing class) (planned_domains planned class)) as Hu.
  pose proof (subseteq_size (planned_domains planned class ∖ replica_domains existing class)
    (planned_domains planned class) ltac:(set_solver)).
  unfold domain_count. rewrite (wrap32_id (Z.of_nat (length (filter _ planned)))) by lia.
  rewrite (wrap32_id (replicas_in existing class + _)) by lia.
  rewrite (wrap32_id (Z.of_nat (base.size _))) by lia.
  split_and!; [done..|]. rewrite forallb_forall. split.
  - intros Hf c. specialize (Hf c). rewrite <- list_elem_of_In in Hf.
    specialize (Hf (class_all_complete c)). breflect. lia.
  - intros Hf c _. destruct (Hf c). apply andb_true_iff. rewrite !Z.leb_le. done.
Qed.

Lemma class_lengths (pools : list StoragePoolCandidate) :
  (length (filter (fun c => storage_class c = Hot) pools)
   + (length (filter (fun c => storage_class c = Cold) pools)
      + length (filter (fun c => storage_class c = Archive) pools)) = length pools)%nat.
Proof.
  induction pools as [|c pools IH]; [done|]. rewrite !filter_cons.
  destruct c as [? ? [] ? ? ? ? ? ? ?]; simpl; lia.
Qed.

Lemma plan_actions_bounded policy size existing pools :
  Z.of_nat (length existing) + Z.of_nat (length pools) < 2 ^ 32 ->
  (length (actions (plan_with_pools policy size existing pools)) <= length pools)%nat.
Proof.
  intros H. destruct (plan_chosen policy size existing pools H) as (pick & -> & Hpick).
  assert (Hl : forall class, (length (pick class) <= length (filter (fun c => storage_class c = class) pools))%nat).
  { intros class. destruct (Hpick class) as (k & <- & []). by apply sublist_length. }
  pose proof (class_lengths pools). pose proof (Hl Hot). pose proof (Hl Cold). pose proof (Hl Archive).
  simpl. rewrite app_nil_r, !length_app, !length_map. lia.
Qed.

Lemma action_of_providers class l :
  map pa_provider_id (map (action_of class) l) = map provider_id l.
Proof. by rewrite map_map. Qed.

Lemma planned_domains_pick pick class :
  planned_domains (concat (map (fun c => map (action_of c) (pick c)) class_all)) class
  = domains_of (pick class).
Proof. unfold planned_domains. by rewrite filter_actions_pick, map_map. Qed.

(** The replicas that exist once the actions of a plan ran. *)
Definition executed (planned : list StoragePlacementAction) : list ExistingStorageReplica :=
  map (fun a => {| er_provider_id := pa_provider_id a; er_pool_id := pa_pool_id a;
                   er_storage_class := pa_tier a; er_failure_domain := pa_failure_domain a |}) planned.

(** C10. A plan is safe: every action targets a pool of its class that is
    enabled, healthy, accepting data and large enough, at a provider that holds
    no replica yet; and one class never gets two replicas at one provider. *)
Theorem plan_actions_safe policy size existing pools :
  Z.of_nat (length existing) + Z.of_nat (length pools) < 2 ^ 32 ->
  let p := plan_with_pools policy size existing pools in
  (forall a, a ∈ actions p -> exists c, c ∈ pools /\ a = action_of (storage_class c) c /\
     eligible size c /\ provider_id c ∉ map er_provider_id existing) /\
  (forall class, NoDup (map pa_provider_id (filter (fun a => pa_tier a = class) (actions p)))).
Proof.
  intros H. destruct (plan_chosen policy size existing pools H) as (pick & E & Hpick). cbn zeta.
  rewrite E. split.
  - intros a (c & Hc & Ea)%actions_of_class. destruct (Hpick (pa_tier a)) as (k & Hk & Hch).
    destruct (chosen_in _ _ _ _ _ _ _ _ _ _ _ _ Hk Hch Hc) as (Hin & Hcl & He & Hf).
    exists c. rewrite Hcl. split_and!; [done..|].
    intros Hp. apply Hf. unfold existing_provider_ids. by apply elem_of_list_to_set.
  - intros class. rewrite filter_actions_pick, action_of_providers.
    by destruct (Hpick class) as (k & _ & []).
Qed.

(** C11. A plan is complete: when the projected replicas or failure domains of a
    class stay below what the policy asks for, every eligible pool of the class
    is at a provider that holds a replica already or gets one from the plan.  In
    particular a plan that reports the policy as not satisfied, under a policy
    that passed validation, has exhausted some class. *)
Theorem plan_complete policy size existing pools :
  policy_ok policy ->
  Z.of_nat (length existing) + Z.of_nat (length pools) < 2 ^ 32 ->
  let p := plan_with_pools policy size existing pools in
  let exhausted class := forall c, c ∈ pools -> storage_class c = class -> eligible size c ->
     provider_id c ∈ map er_provider_id existing \/
     exists a, a ∈ actions p /\ pa_tier a = class /\ pa_provider_id a = provider_id c in
  (forall class, projected_replicas_of p class < preferred_replicas policy class \/
                 projected_domains_of p class < required_failure_domains policy class -> exhausted class) /\
  (policy_satisfied p = true \/ exists class, exhausted class /\
     (projected_replicas_of p class < required_replicas policy class \/
      projected_domains_of p class < required_failure_domains policy class)).
Proof.
  intros Hok H. pose proof (plan_actions_bounded policy size existing pools H) as Hb.
  pose proof (plan_projected policy size existing pools) as Hproj.
  destruct (plan_chosen policy size existing pools H) as (pick & E & Hpick). cbn zeta in *.
  set (p := plan_with_pools policy size existing pools) in *.
  assert (Hlen : Z.of_nat (length existing) + Z.of_nat (length (actions p)) < 2 ^ 32) by lia.
  assert (Hex : forall class, projected_replicas_of p class < preferred_replicas policy class \/
      projected_domains_of p class < required_failure_domains policy class ->
      forall c, c ∈ pools -> storage_class c = class -> eligible size c ->
      provider_id c ∈ map er_provider_id existing \/
      exists a, a ∈ actions p /\ pa_tier a = class /\ pa_provider_id a = provider_id c).
  { intros class Hlow c Hc Hcl He. destruct (Hproj class Hlen) as (Hr & Hd & _).
    destruct (Hpick class) as (k & Hk & []).
    rewrite E, planned_domains_pick in Hd. unfold actions_in in Hr.
    rewrite E, filter_actions_pick, length_map in Hr.
    destruct ch_complete0 as [?|Hall]; [lia|].
    assert (c ∈ k) as Hck by (by rewrite Hk, list_elem_of_filter).
    specialize (Hall c Hck He). unfold existing_provider_ids, providers_of in Hall.
    rewrite !elem_of_union, !elem_of_list_to_set in Hall.
    destruct Hall as [[?|?]|Hin]; [by left..|right].
    apply list_elem_of_fmap in Hin as (c' & Ec & Hc'). exists (action_of class c').
    split_and!; [|done|done]. rewrite E. apply actions_of_class. by exists c'. }
  split; [exact Hex|]. destruct (policy_satisfied p) eqn:Hsat; [by left|right].
  assert (~ Forall (fun class =>
     required_replicas policy class <= projected_replicas_of p class /\
     required_failure_domains policy class <= projected_domains_of p class) class_all) as Hn.
  { rewrite Forall_forall. intros Hall. destruct (Hproj Hot Hlen) as (_ & _ & _ & _ & Hs).
    enough (false = true) by done. apply Hs. intros. apply Hall, class_all_complete. }
  apply not_Forall_Exists in Hn; [|apply _]. apply Exists_exists in Hn as (class & _ & Hc).
  destruct (policy_ok_classes policy class Hok) as [? _].
  unfold compose in Hc. exists class. split; [apply Hex; lia|lia].
Qed.

Lemma executed_providers planned :
  map er_provider_id (executed planned) = map pa_provider_id planned.
Proof. unfold executed. by rewrite map_map. Qed.

Lemma filter_executed planned class :
  filter (fun r => er_storage_class r = class) (executed planned)
  = executed (filter (fun a => pa_tier a = class) planned).
Proof.
  unfold executed. induction planned as [|a l IH]; [done|]. simpl map. rewrite !filter_cons, IH. simpl.
  by destruct (decide _).
Qed.

(** C12. Planning converges: once the actions of a plan ran, a new plan over the
    same pools has nothing left to do, whether or not the policy could be
    satisfied. *)
Theorem plan_converges policy size existing pools :
  let p := plan_with_pools policy size existing pools in
  Z.of_nat (length (existing ++ executed (actions p))) + Z.of_nat (length pools) < 2 ^ 32 ->
  actions (plan_with_pools policy size (existing ++ executed (actions p)) pools) = [].
Proof.
  cbn zeta. rewrite length_app. intros H.
  destruct (plan_chosen policy size existing pools ltac:(lia)) as (pick & E & Hpick).
  set (existing' := existing ++ executed (actions (plan_with_pools policy size existing pools))) in *.
  destruct (plan_chosen policy size existing' pools) as (pick' & -> & Hpick').
  { unfold existing'. rewrite length_app. lia. }
  assert (Hnil : forall class, pick' class = []).
  2: { unfold class_all. simpl. by rewrite !Hnil. }
  intros class. destruct (Hpick class) as (k & Hk & Hch). destruct (Hpick' class) as (k' & Hk' & Hch').
  assert (Hreps : replicas_in existing' class = replicas_in existing class + Z.of_nat (length (pick class))).
  { unfold replicas_in, existing'. rewrite filter_app, filter_executed, E, filter_actions_pick.
    unfold executed. rewrite length_app, !length_map. lia. }
  assert (Hdom : replica_domains existing' class = replica_domains existing class ∪ domains_of (pick class)).
  { unfold replica_domains, existing'.
    rewrite filter_app, filter_executed, E, filter_actions_pick, map_app, list_to_set_app_L.
    unfold executed. by rewrite !map_map. }
  destruct (pick' class) as [|c l] eqn:El using rev_ind; [done|exfalso]. clear IHl.
  destruct (ch_complete _ _ _ _ _ _ _ _ _ Hch) as [[? ?]|Hall].
  - destruct (ch_minimal _ _ _ _ _ _ _ _ _ Hch' l c eq_refl) as [Hm|Hm]; [lia|].
    pose proof (subseteq_size (replica_domains existing' class)
      (replica_domains existing' class ∪ domains_of l) ltac:(set_solver)). rewrite Hdom in *. lia.
  - destruct (chosen_in _ _ _ _ _ _ _ _ _ _ c _ Hk' Hch') as (Hin & Hcl & He & Hf); [set_solver|].
    apply Hf. unfold existing_provider_ids. apply elem_of_list_to_set. unfold existing'.
    rewrite map_app, executed_providers, elem_of_app.
    assert (c ∈ k) as Hck by (by rewrite Hk, list_elem_of_filter).
    specialize (Hall c Hck He). unfold existing_provider_ids, providers_of in Hall.
    rewrite !elem_of_union, !elem_of_list_to_set in Hall.
    destruct Hall as [[?|?]|Hp]; [by left..|right]. rewrite E. apply list_elem_of_fmap in Hp as (c' & -> & Hc').
    apply list_elem_of_fmap. exists (action_of class c'). split; [done|].
    apply actions_of_class. by exists c'.
Qed.

#[export] Instance candidate_cmp_order m : TotalPreorder (candidate_cmp m).
Proof.
  repeat apply then_with_order.
  - apply (cmp_by_key storage_class), class_cmp_order.
  - apply (cmp_by_key (domain_seen m)), bool_cmp_order.
  - apply (cmp_by_key priority), Z_compare_order.
  - apply (cmp_by_key pool_id), str_compare_order.
  - apply (cmp_by_key provider_id), str_compare_order.
Qed.

Definition candidate_key (c : StoragePoolCandidate) : StorageClass * string * string :=
  (storage_class c, pool_id c, provider_id c).

Lemma then_with_Eq a b : then_with a b = Eq <-> a = Eq /\ b = Eq.
Proof. destruct a; simpl; naive_solver. Qed.

Lemma candidate_cmp_Eq m c d : candidate_cmp m c d = Eq -> candidate_key c = candidate_key d.
Proof.
  unfold candidate_cmp, candidate_key. rewrite !then_with_Eq.
  intros [[[E _] ->%String.compare_eq_iff] ->%String.compare_eq_iff]. do 2 f_equal. by destruct (storage_class c), (storage_class d).
Qed.

(** C13. A plan does not depend on the order in which the pools are listed, when
    no two pools of a class share both their pool and their provider id. *)
Theorem plan_order_independent policy size existing pools pools' :
  NoDup (map candidate_key pools) -> pools ≡ₚ pools' ->
  plan_with_pools policy size existing pools = plan_with_pools policy size existing pools'.
Proof.
  intros Hnd Hp. unfold plan_with_pools. destruct (count_existing existing) as [counts ds].
  by rewrite (sort_by_perm_eq (candidate_cmp ds) pools pools')
    by (eauto using NoDup_map_inj, candidate_cmp_Eq).
Qed.

(** ** Capacity pools *)

#[export] Instance pool_cmp_order : TotalPreorder pool_cmp.
Proof.
  apply then_with_order.
  - apply (cmp_by_key (fun p => sp_priority (cp_pool p))), Z_compare_order.
  - apply (cmp_by_key (fun p => sp_id (cp_pool p))), str_compare_order.
Qed.

Lemma max_available_spec pools :
  let m := foldr Z.max 0 (map cp_available_bytes pools) in
  0 <= m /\ (forall p, p ∈ pools -> cp_available_bytes p <= m) /\
  (m = 0 \/ exists p, p ∈ pools /\ cp_available_bytes p = m).
Proof.
  cbn zeta. induction pools as [|p l IH]; simpl.
  { split_and!; [lia|by intros ? ?%elem_of_nil|by left]. }
  destruct IH as (H0 & Hle & Hmax). split_and!; [lia| |].
  - intros q [->|Hq]%elem_of_cons; [lia|]. specialize (Hle q Hq). lia.
  - destruct (Z.max_spec (cp_available_bytes p) (foldr Z.max 0 (map cp_available_bytes l))) as [[_ ->]|[_ ->]].
    + destruct Hmax as [->|(q & Hq & Hm)]; [by left|right]. exists q. split; [by right|done].
    + right. exists p. split; [left|done].
Qed.

(** The capacity manager picks the usable pool of the lowest priority and
    then the lowest id; when no pool is usable it says how much was asked for and
    the largest amount any pool has left. *)
Theorem select_pool_optimal required_bytes pools :
  match select_pool required_bytes pools with
  | Ok id => exists p, p ∈ pools /\ id = sp_id (cp_pool p) /\ pool_usable required_bytes p = true /\
      forall q, q ∈ pools -> pool_usable required_bytes q = true -> cmp_le pool_cmp p q
  | Err e => (forall p, p ∈ pools -> pool_usable required_bytes p = false) /\
      exists m, e = NeedsCapacity required_bytes m /\ 0 <= m /\
        (forall p, p ∈ pools -> cp_available_bytes p <= m) /\
        (m = 0 \/ exists p, p ∈ pools /\ cp_available_bytes p = m)
  end.
Proof.
  unfold select_pool.
  pose proof (sort_by_sorted pool_cmp (filter (fun p => pool_usable required_bytes p = true) pools)) as Hs.
  pose proof (sort_by_perm pool_cmp (filter (fun p => pool_usable required_bytes p = true) pools)) as Hp.
  destruct (sort_by _ _) as [|p l].
  - split.
    + intros p Hin. destruct (pool_usable required_bytes p) eqn:E; [|done].
      assert (p ∈ filter (fun p => pool_usable required_bytes p = true) pools) as H
        by (by apply list_elem_of_filter).
      rewrite <- Hp in H. by apply elem_of_nil in H.
    + eexists. split; [done|apply max_available_spec].
  - assert (Hin : forall q, q ∈ p :: l <-> pool_usable required_bytes q = true /\ q ∈ pools)
      by (intros q; by rewrite Hp, list_elem_of_filter).
    destruct (proj1 (Hin p) ltac:(left)) as [Hu Hpp]. exists p. split_and!; [done..|].
    intros q Hq Huq. apply StronglySorted_inv in Hs as [_ Hf].
    assert (q ∈ p :: l) as [->|Hql]%elem_of_cons by (by apply Hin).
    + unfold cmp_le. by rewrite (cmp_refl pool_cmp).
    + rewrite Forall_forall in Hf. by apply Hf.
Qed.

(** ** Reconciliation *)

Definition verified_in (observations : list PackReplicaObservation) (class : StorageClass)
  : list PackReplicaObservation :=
  filter (fun o => ob_verified o = true /\ ob_storage_class o = class) observations.

(** What the policy asks of the verified replicas of a class. *)
Definition class_met (policy : StoragePolicy) (observations : list PackReplicaObservation)
    (class : StorageClass) : Prop :=
  required_replicas policy class <= Z.of_nat (length (verified_in observations class)) /\
  required_failure_domains policy class <=
    Z.of_nat (size (list_to_set (map ob_failure_domain (verified_in observations class)) : gset string)).

Lemma verified_filter observations class :
  filter (fun o => ob_storage_class o = class) (filter (fun o => ob_verified o = true) observations)
  = verified_in observations class.
Proof.
  unfold verified_in. rewrite list_filter_filter. apply list_filter_iff. naive_solver.
Qed.

Lemma evaluate_repair pack_hash observations policy class :
  Z.of_nat (length observations) < 2 ^ 32 ->
  class ∈ rc_repair_classes (evaluate pack_hash observations policy) <->
  ~ class_met policy observations class.
Proof.
  intros H. unfold evaluate. cbn [rc_repair_classes]. rewrite list_elem_of_filter, verified_filter.
  pose proof (length_filter (fun o => ob_verified o = true /\ ob_storage_class o = class) observations) as Hl.
  fold (verified_in observations class) in Hl.
  pose proof (size_list_to_set_le (map ob_failure_domain (verified_in observations class))) as Hs.
  rewrite length_map in Hs. unfold class_met, domain_count.
  rewrite !wrap32_id by lia. rewrite orb_true_iff, !Z.ltb_lt.
  split; [lia|]. intros Hn. split; [lia|apply class_all_complete].
Qed.

#[export] Instance class_met_dec policy observations class :
  Decision (class_met policy observations class).
Proof. unfold class_met. apply _. Defined.

Lemma filter_nil_iff {A} (P : A -> Prop) `{!forall x, Decision (P x)} l :
  filter P l = [] <-> forall x, x ∈ l -> ~ P x.
Proof.
  split.
  - intros Hf x Hx Hp. by apply (filter_nil_not_elem_of P l x Hf).
  - intros Hf. induction l as [|x l IH]; [done|]. rewrite filter_cons, decide_False by (apply Hf; left).
    apply IH. intros y Hy. apply Hf. by right.
Qed.

(** C14. The health of a pack: it is lost when no replica is verified; under
    replicated when some verified replica exists and a class misses replicas or
    failure domains; degraded when every class is satisfied and a verified
    replica cannot be read; healthy otherwise.  The classes to repair are those
    that miss something. *)
Theorem pack_health_correct pack_hash observations policy :
  Z.of_nat (length observations) < 2 ^ 32 ->
  let r := evaluate pack_hash observations policy in
  let some_verified := exists o, o ∈ observations /\ ob_verified o = true in
  let unreadable := exists o, o ∈ observations /\ ob_verified o = true /\ ob_readable o = false in
  let all_met := forall class, class_met policy observations class in
  (forall class, class ∈ rc_repair_classes r <-> ~ class_met policy observations class) /\
  (rc_scrub_required r = true <-> unreadable) /\
  match rc_health r with
  | Lost => ~ some_verified
  | UnderReplicated => some_verified /\ exists class, ~ class_met policy observations class
  | Degraded => some_verified /\ all_met /\ unreadable
  | Healthy => some_verified /\ all_met /\ ~ unreadable
  end.
Proof.
  intros H. cbn zeta. pose proof (evaluate_repair pack_hash observations policy) as Hrep.
  assert (Hscrub : rc_scrub_required (evaluate pack_hash observations policy) = true <->
    exists o, o ∈ observations /\ ob_verified o = true /\ ob_readable o = false).
  { unfold evaluate. cbn [rc_scrub_required]. rewrite existsb_exists.
    setoid_rewrite andb_true_iff. setoid_rewrite negb_true_iff. by setoid_rewrite <- list_elem_of_In. }
  split_and!; [intros; by apply Hrep|done|].
  pose proof (filter_nil_iff (fun o => ob_verified o = true) observations) as Hnone.
  unfold evaluate in *. cbn [rc_health rc_repair_classes rc_scrub_required] in *.
  case_bool_decide as Hv; cbn [negb].
  { destruct Hnone as [Hnone _]. specialize (Hnone Hv). intros (o & Ho & Hov). by apply (Hnone o). }
  assert (Hsome : exists o, o ∈ observations /\ ob_verified o = true).
  { destruct (filter _ _) as [|o l] eqn:E in Hv; [done|]. exists o.
    assert (o ∈ o :: l) as Ho by left. rewrite <- E in Ho. by apply list_elem_of_filter in Ho as [??]. }
  destruct (filter _ class_all) as [|class l] eqn:Er in Hrep |- *; cbn [negb].
  - rewrite bool_decide_eq_true_2 by done. cbn [negb].
    assert (Hmet : forall class, class_met policy observations class).
    { intros class. apply dec_stable. rewrite <- Hrep by done. by intros ?%elem_of_nil. }
    destruct (existsb _ _); [by rewrite <- Hscrub|]. split_and!; [done..|]. by rewrite <- Hscrub.
  - split; [done|]. exists class. apply Hrep; [done|left].
Qed.

(** ** Concrete instances *)

Definition toy_pool (id : string) (class : StorageClass) (prio : Z) (domain : string) : StoragePoolCandidate := {|
  pool_id := id; provider_id := id; storage_class := class; provider_type := "local";
  priority := prio; failure_domain := domain; enabled := true; status := PoolReady; healthy := true;
  capacity_available_bytes := Some 1000 |}.

Definition toy_pools : list StoragePoolCandidate :=
  [toy_pool "b" Hot 10 "rack-1"; toy_pool "a" Hot 20 "rack-2"; toy_pool "c" Cold 5 "rack-1"].

Theorem plan_actions_safe_witness :
  map pa_pool_id (actions (plan_with_pools StoragePolicy_default 10 [] toy_pools)) <> [] /\
  forall class, NoDup (map pa_provider_id (filter (fun a => pa_tier a = class)
    (actions (plan_with_pools StoragePolicy_default 10 [] toy_pools)))).
Proof.
  split; [by vm_compute|].
  apply (plan_actions_safe StoragePolicy_default 10 [] toy_pools). by vm_compute.
Defined.

Theorem plan_complete_witness :
  policy_satisfied (plan_with_pools StoragePolicy_default 10 [] toy_pools) = true \/
  exists class,
    projected_replicas_of (plan_with_pools StoragePolicy_default 10 [] toy_pools) class
      < required_replicas StoragePolicy_default class \/
    projected_domains_of (plan_with_pools StoragePolicy_default 10 [] toy_pools) class
      < required_failure_domains StoragePolicy_default class.
Proof.
  destruct (plan_complete StoragePolicy_default 10 [] toy_pools) as [_ [H|(class & _ & H)]];
    [unfold policy_ok; simpl; lia|by vm_compute|by left|right; by exists class].
Defined.

Theorem plan_converges_witness :
  actions (plan_with_pools StoragePolicy_default 10
    (executed (actions (plan_with_pools StoragePolicy_default 10 [] toy_pools))) toy_pools) = [].
Proof. apply (plan_converges StoragePolicy_default 10 [] toy_pools). by vm_compute. Defined.

Theorem plan_order_independent_witness :
  plan_with_pools StoragePolicy_default 10 [] toy_pools
  = plan_with_pools StoragePolicy_default 10 [] (rev toy_pools).
Proof.
  apply plan_order_independent; [|apply Permutation_rev].
  apply (bool_decide_unpack _). by vm_compute.
Defined.

Theorem pack_health_correct_witness :
  rc_health (evaluate "pack" [] StoragePolicy_default) = Lost /\
  ~ exists o, o ∈ @nil PackReplicaObservation /\ ob_verified o = true.
Proof.
  split; [done|]. apply (pack_health_correct "pack" [] StoragePolicy_default). by vm_compute.
Defined.
