(* ===== verification/Effects.v ===== *)
(** * Effects shared by the stateful components

    A state and error monad for the handlers that update a store, what the
    host supplies (clock, randomness, identifiers, the outcome of I/O), and the
    unordered iteration of [std::collections::HashMap]. *)
From stdpp Require Import base gmap strings list fin_maps.
From Stdlib Require Import ZArith Lia.
From S2P Require Import Prelude Text Bytes.
Local Open Scope Z_scope.

(** ** The monad *)

(** A handler over a state [S]: the state it leaves, and its result.  The
    state survives an error, as an object behind [&mut self] does. *)
Definition stm (S E A : Type) : Type := S -> S * result A E.

Definition sret {S E A : Type} (a : A) : stm S E A := fun s => (s, Ok a).
Definition sfail {S E A : Type} (e : E) : stm S E A := fun s => (s, Err e).
Definition sbind {S E A B : Type} (m : stm S E A) (k : A -> stm S E B) : stm S E B :=
  fun s => match m s with
           | (s', Ok a) => k a s'
           | (s', Err e) => (s', Err e)
           end.

(** Runs [m] and hands its result, error included, to [k] (a [match] on the
    result of an awaited call). *)
Definition stry {S E F A B : Type} (m : stm S E A) (k : result A E -> stm S F B) : stm S F B :=
  fun s => let '(s', r) := m s in k r s'.

Definition sget {S E : Type} : stm S E S := fun s => (s, Ok s).
Definition slift {S E A : Type} (r : result A E) : stm S E A := fun s => (s, r).

Notation "'let!' x ':=' c 'in' k" := (sbind c (fun x => k))
  (at level 10, x pattern, c at level 100, k at level 200) : rust_scope.
Notation "'catch!' x ':=' c 'in' k" := (stry c (fun x => k))
  (at level 10, x pattern, c at level 100, k at level 200) : rust_scope.

(** Running an operation of a part of the state. *)
Definition on_fst {S T E A : Type} (m : stm S E A) : stm (S * T) E A :=
  fun st => let '(s', r) := m st.1 in ((s', st.2), r).
Definition on_snd {S T E A : Type} (m : stm T E A) : stm (S * T) E A :=
  fun st => let '(t', r) := m st.2 in ((st.1, t'), r).

(** Running a step whose outcome is known. *)
Lemma sbind_Ok {S E A B} (m : stm S E A) (k : A -> stm S E B) s s' a :
  m s = (s', Ok a) -> sbind m k s = k a s'.
Proof. unfold sbind. by intros ->. Qed.

Lemma sbind_Err {S E A B} (m : stm S E A) (k : A -> stm S E B) s s' e :
  m s = (s', Err e) -> sbind m k s = (s', Err e).
Proof. unfold sbind. by intros ->. Qed.

Lemma sbind_inv {S E A B} (m : stm S E A) (k : A -> stm S E B) s s' b :
  sbind m k s = (s', Ok b) -> exists s1 a, m s = (s1, Ok a) /\ k a s1 = (s', Ok b).
Proof. unfold sbind. destruct (m s) as [s1 [a|e]]; [|done]. intros E1. by exists s1, a. Qed.

(** ** Invariants *)

(** A handler keeps [I], whatever its result. *)
Definition preserves {S E A : Type} (I : S -> Prop) (m : stm S E A) : Prop :=
  forall s, I s -> I (m s).1.

Section preserves.
Context {S : Type} (I : S -> Prop).

Lemma preserves_sret {E A} (a : A) : preserves (E := E) I (sret a).
Proof. by intros s. Qed.

Lemma preserves_sfail {E A} (e : E) : preserves (A := A) I (sfail e).
Proof. by intros s. Qed.

Lemma preserves_sget {E} : preserves (E := E) I sget.
Proof. by intros s. Qed.

Lemma preserves_slift {E A} (r : result A E) : preserves I (slift r).
Proof. by intros s. Qed.

Lemma preserves_sbind {E A B} (m : stm S E A) (k : A -> stm S E B) :
  preserves I m -> (forall a, preserves I (k a)) -> preserves I (sbind m k).
Proof.
  intros Hm Hk s Hs. unfold sbind. specialize (Hm s Hs).
  destruct (m s) as [s' [a|e]]; simpl in *; [by apply Hk|done].
Qed.

Lemma preserves_bind_slift {E A B} (r : result A E) (k : A -> stm S E B) :
  (forall a, r = Ok a -> preserves I (k a)) -> preserves I (sbind (slift r) k).
Proof. intros Hk s Hs. unfold sbind, slift. destruct r as [a|e]; [by apply Hk|done]. Qed.

Lemma preserves_stry {E F A B} (m : stm S E A) (k : result A E -> stm S F B) :
  preserves I m -> (forall r, preserves I (k r)) -> preserves I (stry m k).
Proof.
  intros Hm Hk s Hs. unfold stry. specialize (Hm s Hs).
  destruct (m s) as [s' r]; simpl in *. by apply Hk.
Qed.
End preserves.

#[export] Hint Resolve preserves_sret preserves_sfail preserves_sget preserves_slift : launcher.

(** Proves that a handler keeps an invariant from the hints for the operations
    it calls. *)
Ltac preserve :=
  repeat first
    [ solve [eauto with launcher]
    | progress intros
    | apply preserves_sbind
    | apply preserves_stry
    | match goal with
      | |- preserves _ (match ?x with _ => _ end) => destruct x
      | |- preserves _ (if ?x then _ else _) => destruct x
      | |- preserves _ (let '_ := ?x in _) => destruct x
      end ].

(** ** The host *)

(** What the operating system answers to the n-th request of each kind: the
    time ([Utc::now], in nanoseconds), 16 random bytes ([OsRng::fill_bytes]), a
    fresh identifier ([Uuid::new_v4]), and the failure of a file operation. *)
Class Host : Type := {
  host_now : nat -> Z;
  host_random : nat -> list byte;
  host_uuid : nat -> Z;
  host_io : nat -> option string
}.

Record HostState : Type := {
  ticks : nat;
  draws : nat;
  uuids : nat;
  ios : nat;
  files : gmap string (list byte)
}.

Definition host_init : HostState := {| ticks := 0; draws := 0; uuids := 0; ios := 0; files := ∅ |}.

Section host.
Context `{Host}.

Definition now {E} : stm HostState E Z := fun h =>
  ({| ticks := S (ticks h); draws := draws h; uuids := uuids h; ios := ios h; files := files h |},
   Ok (host_now (ticks h))).

Definition random16 {E} : stm HostState E (list byte) := fun h =>
  ({| ticks := ticks h; draws := S (draws h); uuids := uuids h; ios := ios h; files := files h |},
   Ok (host_random (draws h))).

Definition new_uuid {E} : stm HostState E Z := fun h =>
  ({| ticks := ticks h; draws := draws h; uuids := S (uuids h); ios := ios h; files := files h |},
   Ok (host_uuid (uuids h))).

(** One file operation: the host's error, or the effect [f] on the files. *)
Definition file_op {A} (f : gmap string (list byte) -> gmap string (list byte) * result A string)
  : stm HostState string A := fun h =>
  let step fs := {| ticks := ticks h; draws := draws h; uuids := uuids h; ios := S (ios h); files := fs |} in
  match host_io (ios h) with
  | Some e => (step (files h), Err e)
  | None => let '(fs, r) := f (files h) in (step fs, r)
  end.
End host.

(** A host whose clock ticks once a request and whose operations succeed. *)
Definition counting_host : Host := {|
  host_now n := Z.of_nat n;
  host_random _ := [];
  host_uuid n := Z.of_nat n;
  host_io _ := None
|}.

(** ** Local files *)

(** [Path::join] with a relative name. *)
Definition path_join (root name : string) : string :=
  if is_empty root then name
  else if ends_with "/" root then (root +:+ name)%string
  else (root +:+ "/" +:+ name)%string.

Lemma path_join_inj r a b : path_join r a = path_join r b -> a = b.
Proof.
  unfold path_join. intros E. apply chars_inj. apply (f_equal chars) in E.
  destruct (is_empty r); [done|]. destruct (ends_with "/" r).
  - rewrite !chars_app in E. by apply app_inv_head in E.
  - rewrite !chars_app in E. do 2 apply app_inv_head in E. done.
Qed.

(** [tokio::fs::{write, read, remove_file, create_dir_all}]; directories are
    not kept, and the text of the error for a missing file is the model's. *)
Definition fs_write `{Host} (path : string) (bytes : list byte) : stm HostState string unit :=
  file_op (fun fs => (<[path := bytes]> fs, Ok tt)).
Definition fs_read `{Host} (path : string) : stm HostState string (list byte) :=
  file_op (fun fs => (fs, ok_or (fs !! path) "not found"%string)).
Definition fs_remove_file `{Host} (path : string) : stm HostState string unit :=
  file_op (fun fs => match fs !! path with
                     | Some _ => (delete path fs, Ok tt)
                     | None => (fs, Err "not found"%string)
                     end).
Definition fs_create_dir_all `{Host} (path : string) : stm HostState string unit :=
  file_op (fun fs => (fs, Ok tt)).

(** ** Hash maps *)

(** [HashMap::values]: every value once, in an order of the map's own. *)
Class HashOrder : Type := {
  hash_values {K V : Type} `{Countable K} : gmap K V -> list V;
  hash_values_perm {K V : Type} `{Countable K} (m : gmap K V) : hash_values m ≡ₚ (map_to_list m).*2
}.

(** The order of the map's own representation. *)
Definition key_order : HashOrder := {|
  hash_values K V _ _ m := (map_to_list m).*2;
  hash_values_perm K V _ _ m := reflexivity _
|}.

Lemma elem_of_hash_values `{HashOrder} {K V} `{Countable K} (m : gmap K V) v :
  v ∈ hash_values m <-> exists k, m !! k = Some v.
Proof.
  rewrite hash_values_perm, list_elem_of_fmap. split.
  - intros ([k v'] & -> & Hin). exists k. by apply elem_of_map_to_list.
  - intros [k Hk]. exists (k, v). split; [done|]. by apply elem_of_map_to_list.
Qed.

(** [Iterator::find]. *)
Definition find_first {A} (p : A -> bool) (l : list A) : option A :=
  head (filter (fun a => p a = true) l).

Lemma find_first_Some {A} (p : A -> bool) l a : find_first p l = Some a -> a ∈ l /\ p a = true.
Proof.
  unfold find_first. intros Hh. assert (a ∈ filter (fun a => p a = true) l) as Hin.
  { destruct (filter _ l); simplify_eq/=. left. }
  apply list_elem_of_filter in Hin. naive_solver.
Qed.

Lemma find_first_None {A} (p : A -> bool) l : find_first p l = None <-> forall a, a ∈ l -> p a = false.
Proof.
  unfold find_first. split.
  - intros Hh a Ha. destruct (p a) eqn:E; [|done].
    assert (a ∈ filter (fun a => p a = true) l) as Hin by (by apply list_elem_of_filter).
    destruct (filter _ l); [by apply elem_of_nil in Hin|done].
  - intros Hf. destruct (filter (fun a => p a = true) l) as [|a k] eqn:E; [done|].
    assert (a ∈ filter (fun a => p a = true) l) as Hin by (rewrite E; left).
    apply list_elem_of_filter in Hin as [Hp Hin]. by rewrite Hf in Hp.
Qed.

(** ** Sums over the values of a map *)

Definition map_total {K V : Type} `{Countable K} (f : V -> Z) (m : gmap K V) : Z :=
  sumZ f (map_to_list m).*2.

Section map_total.
Context {K V : Type} `{Countable K} (f : V -> Z).
Implicit Type m : gmap K V.

Lemma elem_of_values m v : v ∈ (map_to_list m).*2 -> exists k, m !! k = Some v.
Proof. intros ([k w] & -> & Hin)%list_elem_of_fmap. exists k. by apply elem_of_map_to_list. Qed.

Lemma map_total_empty : map_total f (∅ : gmap K V) = 0.
Proof. unfold map_total. by rewrite map_to_list_empty. Qed.

Lemma map_total_insert m k v : m !! k = None -> map_total f (<[k := v]> m) = f v + map_total f m.
Proof.
  intros Hk. unfold map_total. rewrite (sumZ_perm _ _ ((k, v) :: map_to_list m).*2); [done|].
  by apply fmap_Permutation, map_to_list_insert.
Qed.

Lemma map_total_replace m k v v' :
  m !! k = Some v -> map_total f (<[k := v']> m) = map_total f m - f v + f v'.
Proof.
  intros Hk. rewrite <- insert_delete_eq, map_total_insert by apply lookup_delete_eq.
  rewrite <- (insert_id m k v) at 2 by done.
  rewrite <- insert_delete_eq, map_total_insert by apply lookup_delete_eq. lia.
Qed.

Lemma map_total_fmap (g : V -> V) m : map_total f (g <$> m) = map_total (fun v => f (g v)) m.
Proof.
  unfold map_total. rewrite map_to_list_fmap.
  induction (map_to_list m) as [|[k r] l IH]; [done|]. simpl. f_equal. exact IH.
Qed.

Lemma map_total_nonneg m : (forall k v, m !! k = Some v -> 0 <= f v) -> 0 <= map_total f m.
Proof. intros Hf. apply sumZ_nonneg. intros v [k Hk]%elem_of_values. eauto. Qed.

Lemma map_total_mono (g : V -> Z) m :
  (forall k v, m !! k = Some v -> f v <= g v) -> map_total f m <= map_total g m.
Proof. intros Hf. apply sumZ_le. intros v [k Hk]%elem_of_values. eauto. Qed.

Lemma map_total_ext (g : V -> Z) m :
  (forall k v, m !! k = Some v -> f v = g v) -> map_total f m = map_total g m.
Proof. intros Hf. apply sumZ_ext. intros v [k Hk]%elem_of_values. eauto. Qed.

Lemma map_total_sub (g : V -> Z) m : map_total (fun v => f v - g v) m = map_total f m - map_total g m.
Proof. unfold map_total. induction ((map_to_list m).*2) as [|v l IH]; simpl; lia. Qed.

Lemma map_total_lookup m k v :
  (forall k v, m !! k = Some v -> 0 <= f v) -> m !! k = Some v -> f v <= map_total f m.
Proof.
  intros Hf Hk. pose proof (map_total_insert (delete k m) k v (lookup_delete_eq _ _)) as E.
  rewrite insert_delete_id in E by done. rewrite E.
  assert (0 <= map_total f (delete k m)); [|lia].
  apply map_total_nonneg. intros i w [_ Hi]%lookup_delete_Some. eauto.
Qed.
End map_total.

Lemma map_total_zero {K V : Type} `{Countable K} (m : gmap K V) : map_total (fun _ => 0) m = 0.
Proof. unfold map_total. induction ((map_to_list m).*2) as [|v l IH]; [done|]. exact IH. Qed.

Lemma hash_values_total `{HashOrder} {K V} `{Countable K} (f : V -> Z) (p : V -> bool) (m : gmap K V) :
  sumZ f (filter (fun v => p v = true) (hash_values m)) = map_total (fun v => if p v then f v else 0) m.
Proof. unfold map_total. by rewrite sumZ_filter, (sumZ_perm _ _ _ (hash_values_perm m)). Qed.
