(* ===== verification/Provisioning.v ===== *)
(** * The provisioning job ([provisioning/src/domain.rs], first half)

    The job record, its events, and the state machine [apply_event_at] that
    every change of a job goes through.  Times are nanoseconds since the epoch;
    an identifier is the 128-bit number of the UUID. *)
From stdpp Require Import base gmap strings list pretty.
From Stdlib Require Import ZArith Lia.
From S2P Require Import Prelude Text Bytes Storage Placement Effects.
Local Open Scope Z_scope.

(** ** Errors *)

Inductive ProvisioningError : Type :=
| PConfiguration (message : string)
| PNotFound
| PInvalidTransition (from event : string)
| PConflict (message : string)
| PSecurity (message : string)
| PMail (message : string)
| PProvider (message : string)
| PSecret (message : string).

#[export] Instance ProvisioningError_eq_dec : EqDecision ProvisioningError.
Proof. solve_decision. Defined.

(** ** Status *)

Inductive ProvisioningStatus : Type :=
| Created | Starting | RegistrationStarted | WaitingForEmail | EmailReceived
| WaitingForProvider | CandidateReady | Validating | Enrolling | Enrolled
| FailedRetryable | FailedPermanent | NeedsOperator | Cancelled.

#[export] Instance ProvisioningStatus_eq_dec : EqDecision ProvisioningStatus.
Proof. solve_decision. Defined.

Definition status_as_str (s : ProvisioningStatus) : string :=
  match s with
  | Created => "CREATED"
  | Starting => "STARTING"
  | RegistrationStarted => "REGISTRATION_STARTED"
  | WaitingForEmail => "WAITING_FOR_EMAIL"
  | EmailReceived => "EMAIL_RECEIVED"
  | WaitingForProvider => "WAITING_FOR_PROVIDER"
  | CandidateReady => "CANDIDATE_READY"
  | Validating => "VALIDATING"
  | Enrolling => "ENROLLING"
  | Enrolled => "ENROLLED"
  | FailedRetryable => "FAILED_RETRYABLE"
  | FailedPermanent => "FAILED_PERMANENT"
  | NeedsOperator => "NEEDS_OPERATOR"
  | Cancelled => "CANCELLED"
  end.

Definition status_all : list ProvisioningStatus :=
  [Created; Starting; RegistrationStarted; WaitingForEmail; EmailReceived; WaitingForProvider;
   CandidateReady; Validating; Enrolling; Enrolled; FailedRetryable; FailedPermanent;
   NeedsOperator; Cancelled].

(** [ProvisioningStatus::from_str]. *)
Definition status_from_str (value : string) : result ProvisioningStatus ProvisioningError :=
  let other := to_ascii_uppercase (trim value) in
  match list_find (fun s => String.eqb other (status_as_str s) = true) status_all with
  | Some (_, s) => Ok s
  | None => Err (PConfiguration ("unknown provisioning status " +:+ debug_str other)%string)
  end.

Definition is_terminal (s : ProvisioningStatus) : bool :=
  match s with Enrolled | FailedPermanent | Cancelled => true | _ => false end.

Definition is_active (s : ProvisioningStatus) : bool := negb (is_terminal s).

(** ** Data *)

Abbreviation DateTime := Z.
Abbreviation Uuid := Z.

(** A reference to a secret; [SecretRef_parse] is its only constructor in the
    source. *)
Record SecretRef : Type := { secret_ref : string }.

Record CapacityCandidate : Type := {
  cc_provider_type : string;
  external_account_id : string;
  cc_credential_reference : SecretRef;
  expected_capacity_bytes : Z;
  metadata : gmap string string
}.

Record ProvisionRequest : Type := {
  rq_provider_type : string;
  rq_pool_id : string;
  rq_requested_capacity_bytes : Z;
  rq_expires_at : DateTime;
  rq_idempotency_key : string
}.

Record ProvisioningJob : Type := {
  id : Uuid;
  provider_type : string;
  pool_id : string;
  requested_capacity_bytes : Z;
  status : ProvisioningStatus;
  attempt_count : Z;
  created_at : DateTime;
  updated_at : DateTime;
  started_at : option DateTime;
  completed_at : option DateTime;
  last_error_code : option string;
  last_error_summary : option string;
  inbound_email_token_hash : option string;
  inbound_email_address : option string;
  inbound_email_expires_at : option DateTime;
  candidate_reference : option string;
  credential_reference : option SecretRef;
  operator_action : option string;
  retry_after : option DateTime;
  expires_at : DateTime;
  idempotency_key : string
}.

(** Field updates. *)
Definition set_status s t j := {| id := id j; provider_type := provider_type j; pool_id := pool_id j;
  requested_capacity_bytes := requested_capacity_bytes j; status := s; attempt_count := attempt_count j;
  created_at := created_at j; updated_at := t; started_at := started_at j; completed_at := completed_at j;
  last_error_code := last_error_code j; last_error_summary := last_error_summary j;
  inbound_email_token_hash := inbound_email_token_hash j; inbound_email_address := inbound_email_address j;
  inbound_email_expires_at := inbound_email_expires_at j; candidate_reference := candidate_reference j;
  credential_reference := credential_reference j; operator_action := operator_action j;
  retry_after := retry_after j; expires_at := expires_at j; idempotency_key := idempotency_key j |}.
Definition set_attempt n st j := {| id := id j; provider_type := provider_type j; pool_id := pool_id j;
  requested_capacity_bytes := requested_capacity_bytes j; status := status j; attempt_count := n;
  created_at := created_at j; updated_at := updated_at j; started_at := st; completed_at := completed_at j;
  last_error_code := last_error_code j; last_error_summary := last_error_summary j;
  inbound_email_token_hash := inbound_email_token_hash j; inbound_email_address := inbound_email_address j;
  inbound_email_expires_at := inbound_email_expires_at j; candidate_reference := candidate_reference j;
  credential_reference := credential_reference j; operator_action := operator_action j;
  retry_after := retry_after j; expires_at := expires_at j; idempotency_key := idempotency_key j |}.
Definition set_email addr exp tok j := {| id := id j; provider_type := provider_type j; pool_id := pool_id j;
  requested_capacity_bytes := requested_capacity_bytes j; status := status j; attempt_count := attempt_count j;
  created_at := created_at j; updated_at := updated_at j; started_at := started_at j; completed_at := completed_at j;
  last_error_code := last_error_code j; last_error_summary := last_error_summary j;
  inbound_email_token_hash := tok; inbound_email_address := addr;
  inbound_email_expires_at := exp; candidate_reference := candidate_reference j;
  credential_reference := credential_reference j; operator_action := operator_action j;
  retry_after := retry_after j; expires_at := expires_at j; idempotency_key := idempotency_key j |}.
Definition set_candidate c act j := {| id := id j; provider_type := provider_type j; pool_id := pool_id j;
  requested_capacity_bytes := requested_capacity_bytes j; status := status j; attempt_count := attempt_count j;
  created_at := created_at j; updated_at := updated_at j; started_at := started_at j; completed_at := completed_at j;
  last_error_code := last_error_code j; last_error_summary := last_error_summary j;
  inbound_email_token_hash := inbound_email_token_hash j; inbound_email_address := inbound_email_address j;
  inbound_email_expires_at := inbound_email_expires_at j; candidate_reference := Some (external_account_id c);
  credential_reference := Some (cc_credential_reference c); operator_action := act;
  retry_after := retry_after j; expires_at := expires_at j; idempotency_key := idempotency_key j |}.
Definition set_completed t j := {| id := id j; provider_type := provider_type j; pool_id := pool_id j;
  requested_capacity_bytes := requested_capacity_bytes j; status := status j; attempt_count := attempt_count j;
  created_at := created_at j; updated_at := updated_at j; started_at := started_at j; completed_at := t;
  last_error_code := last_error_code j; last_error_summary := last_error_summary j;
  inbound_email_token_hash := inbound_email_token_hash j; inbound_email_address := inbound_email_address j;
  inbound_email_expires_at := inbound_email_expires_at j; candidate_reference := candidate_reference j;
  credential_reference := credential_reference j; operator_action := operator_action j;
  retry_after := retry_after j; expires_at := expires_at j; idempotency_key := idempotency_key j |}.
Definition set_error code summary act retry j := {| id := id j; provider_type := provider_type j; pool_id := pool_id j;
  requested_capacity_bytes := requested_capacity_bytes j; status := status j; attempt_count := attempt_count j;
  created_at := created_at j; updated_at := updated_at j; started_at := started_at j; completed_at := completed_at j;
  last_error_code := code; last_error_summary := summary;
  inbound_email_token_hash := inbound_email_token_hash j; inbound_email_address := inbound_email_address j;
  inbound_email_expires_at := inbound_email_expires_at j; candidate_reference := candidate_reference j;
  credential_reference := credential_reference j; operator_action := act;
  retry_after := retry; expires_at := expires_at j; idempotency_key := idempotency_key j |}.

Inductive ProvisioningEvent : Type :=
| EvStart
| EvRegistrationStarted (inbound_email_address : string) (inbound_email_expires_at : DateTime)
    (inbound_email_token_hash : string)
| EvAwaitingEmail
| EvEmailReceived (message_id : string)
| EvProviderReady
| EvCandidateReady (candidate : CapacityCandidate)
| EvValidationStarted
| EvValidationPassed
| EvEnrollmentStarted
| EvEnrolled
| EvVerificationCodeReceived (token : string)
| EvVerificationLinkReceived (reference : string)
| EvRetryableFailure (code summary : string) (retry_after : option DateTime)
| EvPermanentFailure (code summary : string)
| EvNeedsOperator (action summary : string)
| EvOperatorCompleted (candidate : CapacityCandidate)
| EvRetryTimer
| EvCancelled (summary : string)
| EvExpired.

(** [ProvisioningEvent::kind]. *)
Definition kind (e : ProvisioningEvent) : string :=
  match e with
  | EvStart => "START"
  | EvRegistrationStarted _ _ _ => "REGISTRATION_STARTED"
  | EvAwaitingEmail => "WAITING_FOR_EMAIL"
  | EvEmailReceived _ => "EMAIL_RECEIVED"
  | EvProviderReady => "PROVIDER_READY"
  | EvCandidateReady _ => "CANDIDATE_READY"
  | EvValidationStarted => "VALIDATING"
  | EvValidationPassed => "VALIDATION_PASSED"
  | EvEnrollmentStarted => "ENROLLING"
  | EvEnrolled => "ENROLLED"
  | EvVerificationCodeReceived _ => "VERIFICATION_CODE_RECEIVED"
  | EvVerificationLinkReceived _ => "VERIFICATION_LINK_RECEIVED"
  | EvRetryableFailure _ _ _ => "FAILED_RETRYABLE"
  | EvPermanentFailure _ _ => "FAILED_PERMANENT"
  | EvNeedsOperator _ _ => "NEEDS_OPERATOR"
  | EvOperatorCompleted _ => "OPERATOR_COMPLETED"
  | EvRetryTimer => "RETRY_TIMER"
  | EvCancelled _ => "CANCELLED"
  | EvExpired => "EXPIRED"
  end.

Record ProvisioningTransition : Type := {
  tr_from : ProvisioningStatus;
  tr_to : ProvisioningStatus;
  tr_event_type : string;
  tr_candidate : option CapacityCandidate;
  tr_safe_summary : string;
  tr_retry_after : option DateTime
}.

(** ** The job *)

(** [u32::saturating_add(1)]. *)
Definition next_attempt (n : Z) : Z := Z.min (n + 1) u32_max.

(** [ProvisioningJob::new]; the time and the identifier are the host's. *)
Definition job_new (request : ProvisionRequest) (now : DateTime) (uuid : Uuid) : ProvisioningJob := {|
  id := uuid;
  provider_type := rq_provider_type request;
  pool_id := rq_pool_id request;
  requested_capacity_bytes := rq_requested_capacity_bytes request;
  status := Created;
  attempt_count := 0;
  created_at := now;
  updated_at := now;
  started_at := None;
  completed_at := None;
  last_error_code := None;
  last_error_summary := None;
  inbound_email_token_hash := None;
  inbound_email_address := None;
  inbound_email_expires_at := None;
  candidate_reference := None;
  credential_reference := None;
  operator_action := None;
  retry_after := None;
  expires_at := rq_expires_at request;
  idempotency_key := rq_idempotency_key request |}.

Definition job_request (j : ProvisioningJob) : ProvisionRequest := {|
  rq_provider_type := provider_type j;
  rq_pool_id := pool_id j;
  rq_requested_capacity_bytes := requested_capacity_bytes j;
  rq_expires_at := expires_at j;
  rq_idempotency_key := idempotency_key j |}.

(** [ProvisioningJob::candidate]. *)
Definition job_candidate (j : ProvisioningJob) : result CapacityCandidate ProvisioningError :=
  let? account := ok_or (candidate_reference j) (PConflict "candidate reference is missing") in
  let? credential := ok_or (credential_reference j) (PConflict "credential reference is missing") in
  Ok {| cc_provider_type := provider_type j; external_account_id := account;
        cc_credential_reference := credential;
        expected_capacity_bytes := requested_capacity_bytes j; metadata := ∅ |}.

(** What an accepted event does: the status and the time are set, the
    transition is reported. *)
Definition accept (from : ProvisioningStatus) (event : ProvisioningEvent) (now : DateTime)
  (j : ProvisioningJob) (to : ProvisioningStatus) (summary : string)
  (candidate : option CapacityCandidate) (retry : option DateTime)
  : ProvisioningJob * result ProvisioningTransition ProvisioningError :=
  (set_status to now j,
   Ok {| tr_from := from; tr_to := to; tr_event_type := kind event; tr_candidate := candidate;
         tr_safe_summary := summary; tr_retry_after := retry |}).

(** The arms of [apply_event_at] for retries, failures, cancellation and
    expiry, and the final rejection. *)
Definition apply_failure_at (j : ProvisioningJob) (event : ProvisioningEvent) (now : DateTime)
  : ProvisioningJob * result ProvisioningTransition ProvisioningError :=
  let from := status j in
  let reject := (j, Err (PInvalidTransition (status_as_str from) (kind event))) in
  let accept := accept from event now in
  match event with
  | EvRetryTimer =>
      if bool_decide (from = FailedRetryable) then
        accept (set_error (last_error_code j) (last_error_summary j) (operator_action j) None
                  (set_attempt (next_attempt (attempt_count j)) (started_at j) j))
          Starting "retry timer fired"%string None None
      else reject
  | EvRetryableFailure code summary retry =>
      if is_active from && negb (bool_decide (from = Enrolled)) then
        accept (set_error (Some code) (Some summary) (operator_action j) retry j)
          FailedRetryable "retryable provisioning failure"%string None retry
      else reject
  | EvPermanentFailure code summary =>
      if is_active from && negb (bool_decide (from = Enrolled)) then
        accept (set_email (inbound_email_address j) (Some now) (inbound_email_token_hash j)
                  (set_error (Some code) (Some summary) (operator_action j) None j))
          FailedPermanent "permanent provisioning failure"%string None None
      else reject
  | EvNeedsOperator action summary =>
      if is_active from && negb (bool_decide (from = Enrolled)) then
        accept (set_error (last_error_code j) (Some summary) (Some action) (retry_after j) j)
          NeedsOperator "operator action required"%string None None
      else reject
  | EvCancelled summary =>
      if is_active from && negb (bool_decide (from = Enrolled)) then
        accept (set_email (inbound_email_address j) (Some now) (inbound_email_token_hash j)
                  (set_error (last_error_code j) (Some summary) (operator_action j) (retry_after j) j))
          Cancelled "provisioning job cancelled"%string None None
      else reject
  | EvExpired =>
      if is_active from && negb (is_terminal from) then
        accept (set_email (inbound_email_address j) (Some now) (inbound_email_token_hash j)
                  (set_error (Some "PROVISIONING_TIMEOUT"%string) (Some "provisioning job expired"%string)
                     (operator_action j) (retry_after j) j))
          FailedPermanent "provisioning job expired"%string None None
      else reject
  | _ => reject
  end.

(** [ProvisioningJob::apply_event_at]: the arms of the [match], in order; those
    of [apply_failure_at] come last.  The first component is the job behind
    [&mut self] when the function returns. *)
Definition apply_event_at (j : ProvisioningJob) (event : ProvisioningEvent) (now : DateTime)
  : ProvisioningJob * result ProvisioningTransition ProvisioningError :=
  let from := status j in
  let accept := accept from event now in
  match from, event with
  | Created, EvStart =>
      let started := match started_at j with Some t => Some t | None => Some now end in
      accept (set_attempt (next_attempt (attempt_count j)) started j)
        Starting "job started"%string None None
  | (Starting | RegistrationStarted), EvAwaitingEmail =>
      accept j WaitingForEmail "waiting for provider email"%string None None
  | Starting, EvRegistrationStarted address expires token =>
      accept (set_email (Some address) (Some expires) (Some token) j)
        RegistrationStarted "provider registration started"%string None None
  | WaitingForEmail, EvEmailReceived _ =>
      accept j EmailReceived "provisioning email accepted"%string None None
  | (EmailReceived | WaitingForEmail), EvProviderReady =>
      accept j WaitingForProvider "provider is ready"%string None None
  | (EmailReceived | WaitingForProvider), EvCandidateReady candidate =>
      accept (set_candidate candidate (operator_action j) j)
        CandidateReady "candidate capacity returned"%string (Some candidate) None
  | NeedsOperator, EvOperatorCompleted candidate =>
      accept (set_candidate candidate None j)
        CandidateReady "operator supplied a candidate reference"%string (Some candidate) None
  | CandidateReady, EvValidationStarted =>
      accept j Validating "server validation started"%string None None
  | Validating, EvValidationPassed =>
      accept j Enrolling "server validation passed"%string None None
  | Enrolling, EvEnrollmentStarted =>
      accept j Enrolling "storage enrollment started"%string None None
  | Enrolling, EvEnrolled =>
      accept (set_email (inbound_email_address j) (Some now) None (set_completed (Some now) j))
        Enrolled "capacity enrolled"%string None None
  | _, _ => apply_failure_at j event now
  end.

(** ** The transition table *)

(** Whether an event is accepted in a status. *)
Definition accepts (e : ProvisioningEvent) (s : ProvisioningStatus) : bool :=
  match e, s with
  | EvStart, Created => true
  | EvRegistrationStarted _ _ _, Starting => true
  | EvAwaitingEmail, (Starting | RegistrationStarted) => true
  | EvEmailReceived _, WaitingForEmail => true
  | EvProviderReady, (WaitingForEmail | EmailReceived) => true
  | EvCandidateReady _, (EmailReceived | WaitingForProvider) => true
  | EvOperatorCompleted _, NeedsOperator => true
  | EvValidationStarted, CandidateReady => true
  | EvValidationPassed, Validating => true
  | (EvEnrollmentStarted | EvEnrolled), Enrolling => true
  | EvRetryTimer, FailedRetryable => true
  | (EvRetryableFailure _ _ _ | EvPermanentFailure _ _ | EvNeedsOperator _ _ | EvCancelled _
     | EvExpired), (Enrolled | FailedPermanent | Cancelled) => false
  | (EvRetryableFailure _ _ _ | EvPermanentFailure _ _ | EvNeedsOperator _ _ | EvCancelled _
     | EvExpired), _ => true
  | _, _ => false
  end.

(** The status an accepted event leads to. *)
Definition target (e : ProvisioningEvent) : ProvisioningStatus :=
  match e with
  | EvStart | EvRetryTimer => Starting
  | EvRegistrationStarted _ _ _ => RegistrationStarted
  | EvAwaitingEmail => WaitingForEmail
  | EvEmailReceived _ => EmailReceived
  | EvProviderReady => WaitingForProvider
  | EvCandidateReady _ | EvOperatorCompleted _ => CandidateReady
  | EvValidationStarted => Validating
  | EvValidationPassed | EvEnrollmentStarted => Enrolling
  | EvEnrolled => Enrolled
  | EvRetryableFailure _ _ _ => FailedRetryable
  | EvPermanentFailure _ _ | EvExpired => FailedPermanent
  | EvNeedsOperator _ _ => NeedsOperator
  | EvCancelled _ => Cancelled
  | EvVerificationCodeReceived _ => Created
  | EvVerificationLinkReceived _ => Created
  end.

(** The candidate an event brings. *)
Definition event_candidate (e : ProvisioningEvent) : option CapacityCandidate :=
  match e with
  | EvCandidateReady c | EvOperatorCompleted c => Some c
  | _ => None
  end.

Definition same_identity (j j' : ProvisioningJob) : Prop :=
  id j' = id j /\ provider_type j' = provider_type j /\ pool_id j' = pool_id j /\
  requested_capacity_bytes j' = requested_capacity_bytes j /\ created_at j' = created_at j /\
  expires_at j' = expires_at j /\ idempotency_key j' = idempotency_key j.

(** Decides an application of the state machine: every status against every
    event. *)
Ltac machine j e :=
  unfold apply_event_at, apply_failure_at, accept; destruct (status j) eqn:?, e;
  cbn -[wrap32 next_attempt]; try done.

Lemma apply_event_at_accepted j e now :
  accepts e (status j) = true ->
  exists j' tr, apply_event_at j e now = (j', Ok tr) /\ status j' = target e /\ updated_at j' = now /\
    tr_from tr = status j /\ tr_to tr = target e /\ tr_candidate tr = event_candidate e /\
    same_identity j j'.
Proof.
   unfold same_identity.
  machine j e; intros _; eexists _, _; (split; [reflexivity|]); by split_and!.
Qed.

Lemma apply_event_at_rejected j e now :
  accepts e (status j) = false ->
  apply_event_at j e now = (j, Err (PInvalidTransition (status_as_str (status j)) (kind e))).
Proof. machine j e. Qed.

Lemma terminal_rejects s e : is_terminal s = true -> accepts e s = false.
Proof. by destruct s, e. Qed.

(** C25. The job state machine implements its transition table: an event is
    accepted exactly in the statuses the table lists, leads to the status it
    names at the time given, and leaves the identity of the job alone; a rejected
    event changes nothing and reports the status and the event.  A job that is
    enrolled, cancelled or permanently failed accepts no event any more. *)
Theorem job_machine_spec j e now :
  let '(j', r) := apply_event_at j e now in
  (accepts e (status j) = true -> exists tr, r = Ok tr /\ tr_from tr = status j /\ tr_to tr = status j' /\
     status j' = target e /\ updated_at j' = now /\ tr_candidate tr = event_candidate e /\
     same_identity j j') /\
  (accepts e (status j) = false -> j' = j /\
     r = Err (PInvalidTransition (status_as_str (status j)) (kind e))) /\
  (is_terminal (status j) = true -> accepts e (status j) = false).
Proof.
  pose proof (terminal_rejects (status j) e) as Hterm.
  destruct (accepts e (status j)) eqn:Hin.
  - destruct (apply_event_at_accepted j e now Hin) as (j' & tr & -> & ?&?&?&?&?&?).
    split_and!; [|done|done]. intros _. exists tr. split_and!; congruence.
  - by rewrite apply_event_at_rejected.
Qed.

(** ** The invariant of a job *)

Definition past_candidate (s : ProvisioningStatus) : bool :=
  match s with CandidateReady | Validating | Enrolling | Enrolled => true | _ => false end.

Record job_wf (j : ProvisioningJob) : Prop := {
  wf_attempts : 0 <= attempt_count j <= u32_max;
  wf_created : status j = Created -> attempt_count j = 0 /\ started_at j = None;
  wf_email : status j = RegistrationStarted ->
    is_Some (inbound_email_address j) /\ is_Some (inbound_email_token_hash j) /\
    is_Some (inbound_email_expires_at j);
  wf_candidate : past_candidate (status j) = true ->
    exists c, job_candidate j = Ok c /\ expected_capacity_bytes c = requested_capacity_bytes j;
  wf_failed : status j = FailedRetryable ->
    is_Some (last_error_code j) /\ is_Some (last_error_summary j);
  wf_operator : status j = NeedsOperator -> is_Some (operator_action j);
  wf_completed : status j <> Enrolled -> completed_at j = None;
  wf_enrolled : status j = Enrolled ->
    completed_at j = Some (updated_at j) /\ inbound_email_token_hash j = None;
  wf_terminal : is_terminal (status j) = true -> inbound_email_expires_at j = Some (updated_at j)
}.

Lemma job_new_wf request now uuid : job_wf (job_new request now uuid).
Proof. by split; simpl; try lia. Qed.

Lemma apply_event_at_wf j e now : job_wf j -> job_wf (apply_event_at j e now).1.
Proof.
  intros Hwf. destruct (accepts e (status j)) eqn:Hin.
  2: by rewrite apply_event_at_rejected.
  destruct Hwf as [Ha _ _ Hc _ _ Hcomp _ _]. revert Hin.
  machine j e; intros _; split; simpl; try done; try (by eauto); try (by apply Hcomp);
    try (unfold next_attempt, u32_max in *; lia); intros _; by apply Hc.
Qed.

Lemma apply_event_at_identity j e now :
  same_identity j (apply_event_at j e now).1 /\
  (is_active (status (apply_event_at j e now).1) = true -> is_active (status j) = true).
Proof.
  destruct (accepts e (status j)) eqn:Hin.
  - destruct (apply_event_at_accepted j e now Hin) as (j' & tr & -> & _ & _ & _ & _ & _ & Hid).
    split; [done|]. intros _. unfold is_active. destruct (is_terminal (status j)) eqn:Ht; [|done].
    by rewrite terminal_rejects in Hin.
  - by rewrite apply_event_at_rejected.
Qed.

(** Every job the machine produces is well formed: the attempt counter
    stays a [u32], a job past the candidate stage has the references
    [candidate] needs, failures carry their code and summary, only an enrolled
    job has a completion time, and a finished job's e-mail alias is expired. *)
Theorem job_invariant :
  (forall request now uuid, job_wf (job_new request now uuid)) /\
  (forall j e now, job_wf j -> job_wf (apply_event_at j e now).1).
Proof.
  split; [|intros j e now Hwf]; [apply job_new_wf|by apply apply_event_at_wf].
Qed.

(** ** Runs of a job *)

(** A sequence of accepted events, each at its time. *)
Fixpoint run_events (j : ProvisioningJob) (l : list (ProvisioningEvent * DateTime))
  : option ProvisioningJob :=
  match l with
  | [] => Some j
  | (e, now) :: l => match apply_event_at j e now with
                     | (j', Ok _) => run_events j' l
                     | (_, Err _) => None
                     end
  end.

Lemma run_events_app j l k :
  run_events j (l ++ k) = match run_events j l with Some j' => run_events j' k | None => None end.
Proof.
  revert j. induction l as [|[e t] l IH]; intros j; [done|]. simpl.
  destruct (apply_event_at j e t) as [j' [tr|err]]; [apply IH|done].
Qed.

(** The events that led to a status past the candidate stage end with the
    candidate and the steps after it. *)
Definition ends_with_validation (evs : list ProvisioningEvent) (j : ProvisioningJob) : Prop :=
  exists front ev c, event_candidate ev = Some c /\
    candidate_reference j = Some (external_account_id c) /\
    credential_reference j = Some (cc_credential_reference c) /\
    match status j with
    | CandidateReady => evs = front ++ [ev]
    | Validating => evs = front ++ [ev; EvValidationStarted]
    | Enrolling => exists n, evs = front ++ [ev; EvValidationStarted; EvValidationPassed]
                                   ++ replicate n EvEnrollmentStarted
    | _ => exists n, evs = front ++ [ev; EvValidationStarted; EvValidationPassed]
                          ++ replicate n EvEnrollmentStarted ++ [EvEnrolled]
    end.

Definition run_ok (evs : list ProvisioningEvent) (j : ProvisioningJob) : Prop :=
  past_candidate (status j) = true -> ends_with_validation evs j.

Lemma run_ok_step evs j e now j' tr :
  run_ok evs j -> apply_event_at j e now = (j', Ok tr) -> run_ok (evs ++ [e]) j'.
Proof.
  intros Hrun Happ. assert (Hin : accepts e (status j) = true).
  { destruct (accepts e (status j)) eqn:E; [done|]. by rewrite apply_event_at_rejected in Happ. }
  revert Hrun Hin Happ. unfold run_ok, ends_with_validation.
  machine j e; intros Hrun _ [= <- <-]; simpl; try done; intros _.
  all: try (by exists evs, (EvCandidateReady candidate), candidate).
  all: try (by exists evs, (EvOperatorCompleted candidate), candidate).
  all: destruct (Hrun eq_refl) as (front & ev & c & Hev & Hc & Hcr & Hn);
    exists front, ev, c; (split_and!; [done..|]).
  - by rewrite Hn, <- app_assoc.
  - exists 0%nat. by rewrite Hn, <- app_assoc.
  - destruct Hn as [n ->]. exists (S n). by rewrite replicate_S_end, <- !app_assoc.
  - destruct Hn as [n ->]. exists n. by rewrite <- !app_assoc.
Qed.

Lemma run_events_ok l : forall request now uuid j,
  run_events (job_new request now uuid) l = Some j -> run_ok (l.*1) j.
Proof.
  induction l as [|[e t] l IH] using rev_ind; intros request now uuid j.
  { intros [= <-]. done. }
  rewrite run_events_app. destruct (run_events _ l) as [j0|] eqn:E; [|done].
  simpl. destruct (apply_event_at j0 e t) as [j' [tr|err]] eqn:Ea; [|done]. intros [= <-].
  rewrite fmap_app. eapply run_ok_step; [by eapply IH|exact Ea].
Qed.

(** A job only becomes enrolled through the validation of the candidate it
    carries: the accepted events of any run from a new job to [Enrolled] end
    with the event that brought the candidate the job refers to, then
    validation started, validation passed, any number of enrollment starts and
    the enrollment, with nothing in between. *)
Theorem enrolled_requires_validation request now uuid l j :
  run_events (job_new request now uuid) l = Some j -> status j = Enrolled ->
  exists front ev c n, event_candidate ev = Some c /\
    candidate_reference j = Some (external_account_id c) /\
    credential_reference j = Some (cc_credential_reference c) /\
    l.*1 = front ++ [ev; EvValidationStarted; EvValidationPassed]
      ++ replicate n EvEnrollmentStarted ++ [EvEnrolled].
Proof.
  intros Hrun Hst. apply run_events_ok in Hrun. unfold run_ok, ends_with_validation in Hrun.
  rewrite Hst in Hrun. destruct (Hrun eq_refl) as (front & ev & c & ? & ? & ? & n & ?).
  by exists front, ev, c, n.
Qed.

(** ** Concrete instances *)

Definition toy_request : ProvisionRequest := {|
  rq_provider_type := "mega"; rq_pool_id := "mega-cold"; rq_requested_capacity_bytes := 1024;
  rq_expires_at := 3600; rq_idempotency_key := "key-1" |}.

Definition toy_candidate : CapacityCandidate := {|
  cc_provider_type := "mega"; external_account_id := "account-1";
  cc_credential_reference := {| secret_ref := "secret://file/00" |};
  expected_capacity_bytes := 2048; metadata := ∅ |}.

Definition toy_events : list (ProvisioningEvent * DateTime) :=
  [(EvStart, 1); (EvNeedsOperator "enroll" "operator", 2); (EvOperatorCompleted toy_candidate, 3);
   (EvValidationStarted, 4); (EvValidationPassed, 5); (EvEnrollmentStarted, 6); (EvEnrolled, 7)].

Theorem enrolled_requires_validation_witness :
  exists front ev c n, event_candidate ev = Some c /\ external_account_id c = "account-1"%string /\
    toy_events.*1 = front ++ [ev; EvValidationStarted; EvValidationPassed]
      ++ replicate n EvEnrollmentStarted ++ [EvEnrolled].
Proof.
  destruct (run_events (job_new toy_request 0 7) toy_events) as [j|] eqn:Hj; [|vm_compute in Hj; discriminate].
  assert (Hfinal : status j = Enrolled /\ candidate_reference j = Some "account-1"%string).
  { vm_compute in Hj. injection Hj as <-. split; reflexivity. }
  destruct (enrolled_requires_validation toy_request 0 7 toy_events j Hj (proj1 Hfinal))
    as (front & ev & c & n & Hc & Ha & _ & Hl).
  exists front, ev, c, n. split; [exact Hc|]. split; [|exact Hl].
  rewrite (proj2 Hfinal) in Ha. injection Ha as Ha. symmetry. exact Ha.
Defined.
