(* ===== verification/Secrets.v ===== *)
(** * Secret references and stores ([provisioning/src/secrets.rs])

    A secret is kept outside the job; the job only carries a reference.  The
    two stores implement one interface, whose laws are proved for both. *)
From stdpp Require Import base gmap strings list.
From Stdlib Require Import ZArith Lia Ascii.
From S2P Require Import Prelude Text Bytes Effects Provisioning.
Local Open Scope Z_scope.

(** ** References *)

(** [char::is_control] over UTF-8: U+0000..U+001F and U+007F..U+009F. *)
Fixpoint any_control (l : list ascii) : bool :=
  match l with
  | [] => false
  | c :: l' =>
      (code c <? 32) || (code c =? 127)
      || ((code c =? 194) && match l' with
                             | d :: _ => (128 <=? code d) && (code d <=? 159)
                             | [] => false
                             end)
      || any_control l'
  end.

(** [char::is_whitespace]. *)
Fixpoint any_whitespace (l : list ascii) : bool :=
  match l with
  | [] => false
  | _ :: l' => match strip_first white_space l with Some _ => true | None => any_whitespace l' end
  end.

Definition scheme : string := "secret://".

(** [SecretRef::parse]. *)
Definition SecretRef_parse (value : string) : result SecretRef ProvisioningError :=
  if negb (starts_with scheme value) || (str_len value <=? str_len scheme)
     || any_control (chars value) || any_whitespace (chars value)
  then Err (PSecret "secret references must use the secret:// scheme and contain no whitespace")
  else Ok {| secret_ref := value |}.

(** ** The interface of a store *)

(** The state of a store is kept beside the host's. *)
Class SecretStore (S : Type) : Type := {
  secret_put : list byte -> stm (HostState * S) ProvisioningError SecretRef;
  secret_resolve : SecretRef -> stm (HostState * S) ProvisioningError (list byte);
  secret_delete : SecretRef -> stm (HostState * S) ProvisioningError unit
}.

(** ** The memory store *)

Abbreviation MemorySecretStore := (gmap string (list byte)).

Section stores.
Context `{Host}.

Definition memory_put (material : list byte)
  : stm (HostState * MemorySecretStore) ProvisioningError SecretRef :=
  let! random := on_fst random16 in
  let! reference := slift (SecretRef_parse ("secret://memory/" +:+ to_hex random)%string) in
  fun '(h, values) => ((h, <[secret_ref reference := material]> values), Ok reference).

Definition memory_resolve (reference : SecretRef)
  : stm (HostState * MemorySecretStore) ProvisioningError (list byte) :=
  fun '(h, values) =>
    ((h, values), ok_or (values !! secret_ref reference) (PSecret "secret reference is unavailable")).

Definition memory_delete (reference : SecretRef)
  : stm (HostState * MemorySecretStore) ProvisioningError unit :=
  fun '(h, values) => ((h, delete (secret_ref reference) values), Ok tt).

#[export] Instance memory_secret_store : SecretStore MemorySecretStore := {|
  secret_put := memory_put; secret_resolve := memory_resolve; secret_delete := memory_delete |}.

(** ** The file store *)

(** [str::strip_prefix]. *)
Definition strip_prefix (p s : string) : option string :=
  if starts_with p s then Some (of_chars (drop (length (chars p)) (chars s))) else None.

Record FileSecretStore : Type := { root : string }.

(** [FileSecretStore::path_for]. *)
Definition path_for (store : FileSecretStore) (reference : SecretRef)
  : result string ProvisioningError :=
  let? name := ok_or (strip_prefix "secret://file/" (secret_ref reference))
    (PSecret "secret reference does not belong to this file store") in
  if is_empty name || contains_char "/"%char name || contains_char "\"%char name || contains_str ".." name
     || any_char (fun character => negb (is_ascii_hexdigit character)) name
  then Err (PSecret "invalid file secret reference")
  else Ok (path_join (root store) (name +:+ ".secret")%string).

(** A file operation of the store, with its error reworded. *)
Definition store_io {S A} (what : string -> ProvisioningError)
    (f : gmap string (list byte) -> gmap string (list byte) * result A string)
  : stm (HostState * S) ProvisioningError A :=
  fun '(h, s) => let '(h', r) := file_op f h in ((h', s), map_err what r).

(** Directories are not kept: creating one always succeeds unless the host
    says otherwise. *)
Definition file_put (store : FileSecretStore) (material : list byte)
  : stm (HostState * unit) ProvisioningError SecretRef :=
  let! _ := store_io (fun error => PSecret ("could not create secret store: " +:+ error)%string)
              (fun fs => (fs, Ok tt)) in
  let! random := on_fst random16 in
  let! reference := slift (SecretRef_parse ("secret://file/" +:+ to_hex random)%string) in
  let! path := slift (path_for store reference) in
  let! _ := store_io (fun error => PSecret ("could not write secret material: " +:+ error)%string)
              (fun fs => (<[path := material]> fs, Ok tt)) in
  sret reference.

Definition file_resolve (store : FileSecretStore) (reference : SecretRef)
  : stm (HostState * unit) ProvisioningError (list byte) :=
  let! path := slift (path_for store reference) in
  store_io (fun _ => PSecret "secret reference is unavailable")
    (fun fs => (fs, ok_or (fs !! path) "not found"%string)).

(** A missing file counts as deleted. *)
Definition file_delete (store : FileSecretStore) (reference : SecretRef)
  : stm (HostState * unit) ProvisioningError unit :=
  let! path := slift (path_for store reference) in
  store_io (fun error => PSecret ("could not delete secret material: " +:+ error)%string)
    (fun fs => (delete path fs, Ok tt)).

Definition file_secret_store (store : FileSecretStore) : SecretStore unit := {|
  secret_put := file_put store; secret_resolve := file_resolve store;
  secret_delete := file_delete store |}.
End stores.

(** ** Laws *)

(** What both stores promise to the provisioner: material that was put can be
    resolved until it is deleted, deleting makes a reference useless, and neither
    touches another reference.  [quiet h] says the file operations of the host
    succeed from [h] on; [fresh] that a reference is not in use. *)
Definition quiet `{Host} (h : HostState) : Prop := forall n, (ios h <= n)%nat -> host_io n = None.

Class SecretStoreLaws `{Host} {S : Type} (store : SecretStore S) : Prop := {
  put_resolve h s m h' s' r : quiet h ->
    secret_put m (h, s) = ((h', s'), Ok r) -> (secret_resolve r (h', s')).2 = Ok m;
  put_frame h s m h' s' r r' : quiet h -> r' <> r ->
    secret_put m (h, s) = ((h', s'), Ok r) ->
    (secret_resolve r' (h', s')).2 = (secret_resolve r' (h, s)).2;
  delete_resolve h s r h' s' : quiet h ->
    secret_delete r (h, s) = ((h', s'), Ok tt) -> is_ok (secret_resolve r (h', s')).2 = false;
  delete_frame h s r h' s' r' : quiet h -> r' <> r ->
    secret_delete r (h, s) = ((h', s'), Ok tt) ->
    (secret_resolve r' (h', s')).2 = (secret_resolve r' (h, s)).2
}.

Section memory.
Context `{Host}.

Lemma memory_store_laws_proof : SecretStoreLaws memory_secret_store.
Proof.
  split; simpl.
  - intros h s m h' s' r _. unfold memory_put, sbind, on_fst, slift, random16. simpl.
    destruct (SecretRef_parse _) as [ref|]; [|done]. intros [= <- <- <-]. simpl. by rewrite lookup_insert_eq.
  - intros h s m h' s' r r' _ Hne. unfold memory_put, sbind, on_fst, slift, random16. simpl.
    destruct (SecretRef_parse _) as [ref|]; [|done]. intros [= <- <- <-]. simpl.
    rewrite lookup_insert_ne; [done|]. destruct r', ref; simpl. congruence.
  - intros h s r h' s' _. intros [= <- <-]. simpl. by rewrite lookup_delete_eq.
  - intros h s r h' s' r' _ Hne. intros [= <- <-]. simpl. rewrite lookup_delete_ne; [done|].
    destruct r, r'; simpl. congruence.
Qed.
End memory.

(** ** Where the file store writes *)

Lemma char_of_app l k : of_chars (l ++ k) = (of_chars l +:+ of_chars k)%string.
Proof. unfold of_chars. induction l as [|c l IH]; simpl; [done|]. by rewrite IH. Qed.

Lemma prefix_chars p s : String.prefix p s = true -> chars s = chars p ++ drop (length (chars p)) (chars s).
Proof.
  revert s. induction p as [|c p IH]; intros s; [done|]. destruct s as [|d s]; [done|]. simpl.
  destruct (Ascii.ascii_dec c d) as [->|]; [|done]. intros E. f_equal. by apply IH.
Qed.

Lemma strip_prefix_Some p s t : strip_prefix p s = Some t <-> s = (p +:+ t)%string.
Proof.
  unfold strip_prefix, starts_with. split.
  - destruct (String.prefix p s) eqn:E; [|done]. intros [= <-].
    apply chars_inj. rewrite chars_app, chars_of_chars. by apply prefix_chars.
  - intros ->. assert (String.prefix p (p +:+ t) = true) as ->.
    { induction p as [|c p IH]; [by destruct t|]. simpl. by destruct (Ascii.ascii_dec c c). }
    rewrite chars_app, drop_app_length, of_chars_chars. done.
Qed.

Lemma contains_str_head c p s : contains_str (String c p) s = true -> c ∈ chars s.
Proof.
  unfold chars. induction s as [|d s IH]; simpl; [done|]. rewrite orb_true_iff. intros [Hp|Hc].
  - destruct (Ascii.ascii_dec c d) as [->|]; [left|done].
  - right. by apply IH.
Qed.

Lemma hex_name_accepted name :
  name <> ""%string -> Forall (fun c => is_ascii_hexdigit c = true) (chars name) ->
  is_empty name || contains_char "/"%char name || contains_char "\"%char name || contains_str ".." name
   || any_char (fun character => negb (is_ascii_hexdigit character)) name = false.
Proof.
  intros Hne Hhex. rewrite Forall_forall in Hhex.
  assert (Hnot : forall c, is_ascii_hexdigit c = false -> c ∉ chars name) by (intros c Hc Hin; by rewrite Hhex in Hc).
  rewrite !orb_false_iff, !contains_char_false, any_char_false. split_and!.
  - destruct (is_empty name) eqn:E; [by apply is_empty_true in E|done].
  - by apply Hnot.
  - by apply Hnot.
  - destruct (contains_str ".." name) eqn:E; [|done]. by apply contains_str_head, Hnot in E.
  - intros c Hc. by rewrite Hhex.
Qed.

Lemma path_for_Ok store reference path :
  path_for store reference = Ok path <->
  exists name, secret_ref reference = ("secret://file/" +:+ name)%string /\ name <> ""%string /\
    Forall (fun c => is_ascii_hexdigit c = true) (chars name) /\
    path = path_join (root store) (name +:+ ".secret")%string.
Proof.
  unfold path_for. rewrite rbind_Ok. setoid_rewrite ok_or_Ok. setoid_rewrite strip_prefix_Some. split.
  - intros (name & Hn & Hr). exists name. destruct (_ || _) eqn:E in Hr; [done|].
    injection Hr as <-. rewrite !orb_false_iff, any_char_false in E. destruct E as [[[[He _] _] _] Hhex].
    split_and!; [done| | |done].
    + intros ->. done.
    + apply Forall_forall. intros c Hc. specialize (Hhex c Hc). by apply negb_false_iff in Hhex.
  - intros (name & Hn & Hne & Hhex & ->). exists name. split; [done|]. by rewrite hex_name_accepted.
Qed.

(** C29. The file store never leaves its directory: a reference resolves to a
    file exactly when it is [secret://file/] followed by hexadecimal digits,
    the file is then directly below the root, and distinct references have
    distinct files. *)
Theorem secret_path_confined store reference path :
  (path_for store reference = Ok path <->
   exists name, secret_ref reference = ("secret://file/" +:+ name)%string /\ name <> ""%string /\
     Forall (fun c => is_ascii_hexdigit c = true) (chars name) /\
     path = path_join (root store) (name +:+ ".secret")%string) /\
  (path_for store reference = Ok path -> forall reference', path_for store reference' = Ok path ->
   reference' = reference).
Proof.
  split; [apply path_for_Ok|]. rewrite path_for_Ok. intros (n & Hn & _ & _ & ->) r'.
  rewrite path_for_Ok. intros (n' & Hn' & _ & _ & E%path_join_inj%append_inv_tail).
  destruct reference, r'; simpl in *. congruence.
Qed.

Theorem secret_path_confined_witness :
  path_for {| root := "/var/secrets" |} {| secret_ref := "secret://file/0a" |} = Ok "/var/secrets/0a.secret"%string /\
  forall reference', path_for {| root := "/var/secrets" |} reference' = Ok "/var/secrets/0a.secret"%string ->
    reference' = {| secret_ref := "secret://file/0a" |}.
Proof.
  destruct (secret_path_confined {| root := "/var/secrets" |} {| secret_ref := "secret://file/0a" |}
    "/var/secrets/0a.secret"%string) as [_ H]. split; [vm_compute; reflexivity|].
  apply H. vm_compute. reflexivity.
Defined.

Lemma path_for_inj store r r' p : path_for store r = Ok p -> path_for store r' = Ok p -> r' = r.
Proof.
  rewrite path_for_Ok. intros (n & Hn & _ & _ & ->).
  rewrite path_for_Ok. intros (n' & Hn' & _ & _ & E%path_join_inj%append_inv_tail).
  destruct r, r'; simpl in *. congruence.
Qed.

(** ** The file store keeps the laws *)

Section file.
Context `{Host} (store : FileSecretStore).
#[local] Arguments store_io : simpl never.

Definition after_io (h : HostState) (fs : gmap string (list byte)) : HostState :=
  {| ticks := ticks h; draws := draws h; uuids := uuids h; ios := Datatypes.S (ios h); files := fs |}.

Lemma store_io_quiet {S A} (what : string -> ProvisioningError) f h (s : S) :
  quiet h -> store_io (A := A) what f (h, s) =
    ((after_io h (f (files h)).1, s), map_err what (f (files h)).2) /\ quiet (after_io h (f (files h)).1).
Proof.
  intros Hq. unfold store_io, file_op. rewrite Hq by lia. destruct (f (files h)). split; [done|].
  intros n Hn. simpl in Hn. apply Hq. lia.
Qed.

Lemma file_resolve_quiet h r : quiet h ->
  (file_resolve store r (h, tt)).2 =
  (let? path := path_for store r in ok_or (files h !! path) (PSecret "secret reference is unavailable")).
Proof.
  intros Hq. unfold file_resolve, sbind, slift. destruct (path_for store r) as [p|]; [|done].
  rewrite (proj1 (store_io_quiet _ _ _ _ Hq)). simpl. by destruct (files h !! p).
Qed.

Lemma file_put_quiet h m h' r : quiet h -> file_put store m (h, tt) = ((h', tt), Ok r) ->
  quiet h' /\ exists p, path_for store r = Ok p /\ files h' = <[p := m]> (files h).
Proof.
  intros Hq. unfold file_put, sbind, sret.
  destruct (store_io_quiet (S := unit) (A := unit)
    (fun error => PSecret ("could not create secret store: " +:+ error)%string)
    (fun fs => (fs, Ok tt)) h tt Hq) as [-> Hq1]. simpl map_err.
  unfold on_fst, random16, slift. simpl. destruct (SecretRef_parse _) as [ref|]; [|done].
  destruct (path_for store ref) as [p|] eqn:Hp; [|done].
  match goal with |- context [store_io ?w ?f (?h1, tt)] =>
    assert (quiet h1) as Hq2 by (intros n Hn; apply Hq; simpl in Hn; lia);
    destruct (store_io_quiet w f h1 tt Hq2) as [-> Hq3] end.
  simpl. intros [= <- <-]. split; [exact Hq3|]. by exists p.
Qed.

Lemma file_delete_quiet h r h' : quiet h -> file_delete store r (h, tt) = ((h', tt), Ok tt) ->
  quiet h' /\ exists p, path_for store r = Ok p /\ files h' = delete p (files h).
Proof.
  intros Hq. unfold file_delete, sbind, slift. destruct (path_for store r) as [p|]; [|done].
  match goal with |- context [store_io ?w ?f (h, tt)] =>
    destruct (store_io_quiet w f h tt Hq) as [-> Hq3] end.
  simpl. intros [= <-]. split; [exact Hq3|]. by exists p.
Qed.
End file.

(** C30. Both secret stores keep the interface they promise: what was put can be
    resolved until it is deleted, a deleted reference resolves to nothing, and
    neither operation touches another reference. *)
Theorem secret_stores_lawful `{Host} store :
  SecretStoreLaws memory_secret_store /\ SecretStoreLaws (file_secret_store store).
Proof.
  split; [apply memory_store_laws_proof|]. split; simpl.
  - intros h [] m h' [] r Hq Hput. destruct (file_put_quiet store h m h' r Hq Hput) as (Hq' & p & Hp & Hf).
    rewrite file_resolve_quiet, Hp by done. simpl. by rewrite Hf, lookup_insert_eq.
  - intros h [] m h' [] r r' Hq Hne Hput.
    destruct (file_put_quiet store h m h' r Hq Hput) as (Hq' & p & Hp & Hf).
    rewrite !file_resolve_quiet by done. destruct (path_for store r') as [p'|] eqn:Hp'; [|done]. simpl.
    rewrite Hf, lookup_insert_ne; [done|]. intros ->. by apply Hne, (path_for_inj store _ _ p').
  - intros h [] r h' [] Hq Hdel. destruct (file_delete_quiet store h r h' Hq Hdel) as (Hq' & p & Hp & Hf).
    rewrite file_resolve_quiet, Hp by done. simpl. by rewrite Hf, lookup_delete_eq.
  - intros h [] r h' [] r' Hq Hne Hdel. destruct (file_delete_quiet store h r h' Hq Hdel) as (Hq' & p & Hp & Hf).
    rewrite !file_resolve_quiet by done. destruct (path_for store r') as [p'|] eqn:Hp'; [|done]. simpl.
    rewrite Hf, lookup_delete_ne; [done|]. intros ->. by apply Hne, (path_for_inj store _ _ p').
Qed.
