(* ===== verification/ProvStore.v ===== *)
(** * The provisioning store ([provisioning/src/domain.rs], second part)

    The interface [ProvisioningStore] and the in-memory store behind a mutex:
    every operation runs with the lock held, so an execution of the program is
    a sequence of these operations. *)
From stdpp Require Import base gmap strings list sets.
From Stdlib Require Import ZArith Lia.
From S2P Require Import Prelude Text Bytes Effects Provisioning.
Local Open Scope Z_scope.

(** ** The interface *)

Record ProvisioningMailRecord : Type := {
  message_id : string;
  body_sha256 : string;
  envelope_from : option string;
  envelope_to : string;
  from_header : option string;
  subject : option string;
  job_id : Uuid
}.

(** The operations of a store whose state is [S], kept beside the host's. *)
Class ProvisioningStore (S : Type) : Type := {
  create_or_get_job : ProvisionRequest -> stm (S * HostState) ProvisioningError ProvisioningJob;
  claim_start : Uuid -> stm (S * HostState) ProvisioningError (option ProvisioningJob);
  get_job : Uuid -> stm (S * HostState) ProvisioningError (option ProvisioningJob);
  apply_event : Uuid -> string -> ProvisioningEvent -> stm (S * HostState) ProvisioningError ProvisioningJob;
  find_active_job_by_email : string -> stm (S * HostState) ProvisioningError (option ProvisioningJob);
  claim_mail_nonce : string -> DateTime -> stm (S * HostState) ProvisioningError bool;
  record_mail : ProvisioningMailRecord -> stm (S * HostState) ProvisioningError bool;
  list_jobs : option ProvisioningStatus -> Z -> stm (S * HostState) ProvisioningError (list ProvisioningJob)
}.

(** ** The in-memory store *)

Record InMemoryProvisioningState : Type := {
  jobs : gmap Uuid ProvisioningJob;
  event_keys : gset (Uuid * string);
  mail_messages : gset string;
  mail_nonces : gmap string DateTime
}.

Definition empty_state : InMemoryProvisioningState := {|
  jobs := ∅; event_keys := ∅; mail_messages := ∅; mail_nonces := ∅ |}.

Definition with_jobs m st := {| jobs := m; event_keys := event_keys st;
  mail_messages := mail_messages st; mail_nonces := mail_nonces st |}.
Definition with_event_keys k st := {| jobs := jobs st; event_keys := k;
  mail_messages := mail_messages st; mail_nonces := mail_nonces st |}.
Definition with_mail_messages m st := {| jobs := jobs st; event_keys := event_keys st;
  mail_messages := m; mail_nonces := mail_nonces st |}.
Definition with_mail_nonces n st := {| jobs := jobs st; event_keys := event_keys st;
  mail_messages := mail_messages st; mail_nonces := n |}.

Section store.
Context `{Host} `{HashOrder}.

Abbreviation M := (stm (InMemoryProvisioningState * HostState) ProvisioningError).

Definition get_state : M InMemoryProvisioningState := fun s => (s, Ok s.1).
Definition put_state (st : InMemoryProvisioningState) : M unit := fun s => ((st, s.2), Ok tt).

(** The job a request is served by: the one with its idempotency key, or the
    active one of its provider and pool. *)
Definition serves (request : ProvisionRequest) (job : ProvisioningJob) : bool :=
  String.eqb (idempotency_key job) (rq_idempotency_key request)
  || (String.eqb (provider_type job) (rq_provider_type request)
      && String.eqb (pool_id job) (rq_pool_id request)
      && is_active (status job)).

Definition mem_create_or_get_job (request : ProvisionRequest) : M ProvisioningJob :=
  let! st := get_state in
  match find_first (serves request) (hash_values (jobs st)) with
  | Some existing => sret existing
  | None =>
      let! t := on_snd now in
      let! uuid := on_snd new_uuid in
      let job := job_new request t uuid in
      let! _ := put_state (with_jobs (<[id job := job]> (jobs st)) st) in
      sret job
  end.

(** [ProvisioningJob::apply_event] on the job under a key of the map: the job
    behind the mutable reference is written back whatever the result. *)
Definition apply_in_place (key : Uuid) (event : ProvisioningEvent) : M ProvisioningJob :=
  let! st := get_state in
  match jobs st !! key with
  | None => sfail PNotFound
  | Some job =>
      let! t := on_snd now in
      let '(job', r) := apply_event_at job event t in
      let! _ := put_state (with_jobs (<[key := job']> (jobs st)) st) in
      let! _ := slift r in
      sret job'
  end.

Definition mem_claim_start (key : Uuid) : M (option ProvisioningJob) :=
  let! st := get_state in
  match jobs st !! key with
  | None => sfail PNotFound
  | Some job =>
      if negb (bool_decide (status job = Created)) then sret None
      else
        let! updated := apply_in_place key EvStart in
        let! st := get_state in
        let! _ := put_state (with_event_keys ({[(key, "job-start"%string)]} ∪ event_keys st) st) in
        sret (Some updated)
  end.

Definition mem_get_job (key : Uuid) : M (option ProvisioningJob) :=
  let! st := get_state in sret (jobs st !! key).

Definition mem_apply_event (key : Uuid) (idempotency_key : string) (event : ProvisioningEvent)
  : M ProvisioningJob :=
  let! st := get_state in
  if bool_decide ((key, idempotency_key) ∈ event_keys st)
  then slift (ok_or (jobs st !! key) PNotFound)
  else
    let! updated := apply_in_place key event in
    let! st := get_state in
    let! _ := put_state (with_event_keys ({[(key, idempotency_key)]} ∪ event_keys st) st) in
    sret updated.

Definition receives (address : string) (t : DateTime) (job : ProvisioningJob) : bool :=
  is_active (status job)
  && bool_decide (inbound_email_address job = Some address)
  && match inbound_email_expires_at job with Some expires => t <? expires | None => false end.

Definition mem_find_active_job_by_email (address : string) : M (option ProvisioningJob) :=
  let! t := on_snd now in
  let! st := get_state in
  sret (find_first (receives address t) (hash_values (jobs st))).

Definition mem_claim_mail_nonce (nonce : string) (expires_at : DateTime) : M bool :=
  let! st := get_state in
  let! t := on_snd now in
  let kept := filter (fun '(_, expires) => t < expires) (mail_nonces st) in
  match kept !! nonce with
  | Some _ => let! _ := put_state (with_mail_nonces kept st) in sret false
  | None => let! _ := put_state (with_mail_nonces (<[nonce := expires_at]> kept) st) in sret true
  end.

Definition mem_record_mail (record : ProvisioningMailRecord) : M bool :=
  let! st := get_state in
  let! _ := put_state (with_mail_messages ({[message_id record]} ∪ mail_messages st) st) in
  sret (negb (bool_decide (message_id record ∈ mail_messages st))).

Definition mem_list_jobs (wanted : option ProvisioningStatus) (limit : Z) : M (list ProvisioningJob) :=
  let! st := get_state in
  let matching := filter (fun job => match wanted with
                                     | Some expected => bool_decide (status job = expected)
                                     | None => true
                                     end = true) (hash_values (jobs st)) in
  let sorted := sort_by (fun a b => created_at a ?= created_at b) matching in
  sret (take (Z.to_nat (Z.max 1 (Z.min limit 500))) sorted).

#[export] Instance in_memory_store : ProvisioningStore InMemoryProvisioningState := {|
  create_or_get_job := mem_create_or_get_job;
  claim_start := mem_claim_start;
  get_job := mem_get_job;
  apply_event := mem_apply_event;
  find_active_job_by_email := mem_find_active_job_by_email;
  claim_mail_nonce := mem_claim_mail_nonce;
  record_mail := mem_record_mail;
  list_jobs := mem_list_jobs
|}.
End store.

(** ** The invariant of the store *)

(** Identifiers are not repeated. *)
Class UuidUnique `{Host} : Prop := uuid_inj : Inj (=) (=) host_uuid.

(** Two requests never have two jobs at work for the same pool, and never two
    jobs under one idempotency key. *)
Record store_ok `{Host} (s : InMemoryProvisioningState * HostState) : Prop := {
  ok_jobs : forall i j, jobs s.1 !! i = Some j -> id j = i /\ job_wf j;
  ok_keys : forall i i' j j', jobs s.1 !! i = Some j -> jobs s.1 !! i' = Some j' ->
    idempotency_key j = idempotency_key j' -> i = i';
  ok_active : forall i i' j j', jobs s.1 !! i = Some j -> jobs s.1 !! i' = Some j' ->
    provider_type j = provider_type j' -> pool_id j = pool_id j' ->
    is_active (status j) = true -> is_active (status j') = true -> i = i';
  ok_fresh : forall n, (uuids s.2 <= n)%nat -> jobs s.1 !! host_uuid n = None;
  ok_events : forall i k, (i, k) ∈ event_keys s.1 -> is_Some (jobs s.1 !! i)
}.

Section invariant.
Context `{Host} `{HashOrder} `{!UuidUnique}.

Lemma serves_None st request :
  find_first (serves request) (hash_values (jobs st)) = None ->
  forall i j, jobs st !! i = Some j -> serves request j = false.
Proof.
  rewrite find_first_None. intros Hf i j Hj. apply Hf, elem_of_hash_values. by exists i.
Qed.

(** Only the jobs and the identifiers drawn matter to the invariant. *)
Lemma store_ok_ext s s' :
  jobs s'.1 = jobs s.1 -> event_keys s'.1 = event_keys s.1 -> (uuids s.2 <= uuids s'.2)%nat ->
  store_ok s -> store_ok s'.
Proof.
  intros Ej Ek Hu []. split; rewrite ?Ej, ?Ek; [done..| |done]. intros n Hn. apply ok_fresh0. lia.
Qed.

Lemma now_ok s : store_ok s -> store_ok (on_snd (E := ProvisioningError) now s).1.
Proof. by apply store_ok_ext. Qed.

Lemma create_ok request : preserves store_ok (mem_create_or_get_job request).
Proof.
  intros s Hs. unfold mem_create_or_get_job, sbind, get_state. simpl.
  destruct (find_first _ _) as [j|] eqn:Hf; [done|]. simpl. destruct Hs as [Hj Hk Ha Hfr Hev].
  pose proof (serves_None _ _ Hf) as Hserve. set (uuid := host_uuid _). split; simpl.
  - intros i j. rewrite lookup_insert_Some. intros [[<- <-]|[_ Hi]]; [|by apply Hj].
    split; [done|]. apply job_new_wf.
  - intros i i' j j'. rewrite !lookup_insert_Some.
    intros [[<- <-]|[? Hi]] [[<- <-]|[? Hi']] E; [done| | |by eapply Hk].
    + specialize (Hserve _ _ Hi'). unfold serves in Hserve. simpl in E. rewrite E, String.eqb_refl in Hserve. done.
    + specialize (Hserve _ _ Hi). unfold serves in Hserve. simpl in E. rewrite E, String.eqb_refl in Hserve. done.
  - intros i i' j j'. rewrite !lookup_insert_Some.
    intros [[<- <-]|[? Hi]] [[<- <-]|[? Hi']] E1 E2 A1 A2; [done| | |by eapply Ha].
    + specialize (Hserve _ _ Hi'). unfold serves in Hserve. simpl in E1, E2.
      rewrite E1, E2, !String.eqb_refl, A2 in Hserve. by rewrite orb_true_r in Hserve.
    + specialize (Hserve _ _ Hi). unfold serves in Hserve. simpl in E1, E2.
      rewrite E1, E2, !String.eqb_refl, A1 in Hserve. by rewrite orb_true_r in Hserve.
  - intros n Hn. rewrite lookup_insert_ne; [apply Hfr; lia|]. unfold uuid. intros E%uuid_inj. lia.
  - intros i k Hin. apply lookup_insert_is_Some'. right. by eapply Hev.
Qed.

Lemma update_job_ok s key job job' :
  jobs s.1 !! key = Some job -> same_identity job job' -> job_wf job' ->
  (is_active (status job') = true -> is_active (status job) = true) ->
  store_ok s -> store_ok (with_jobs (<[key := job']> (jobs s.1)) s.1, s.2).
Proof.
  intros Hkey (Hid & Hp & Hpool & _ & _ & _ & Hik) Hwf Hact [Hj Hk Ha Hfr Hev].
  assert (Hold : forall i j, <[key := job']> (jobs s.1) !! i = Some j -> exists j0, jobs s.1 !! i = Some j0 /\
    provider_type j = provider_type j0 /\ pool_id j = pool_id j0 /\ idempotency_key j = idempotency_key j0 /\
    (is_active (status j) = true -> is_active (status j0) = true)).
  { intros i j. rewrite lookup_insert_Some. intros [[<- <-]|[_ Hi]]; [by exists job|by exists j]. }
  split; simpl.
  - intros i j. rewrite lookup_insert_Some. intros [[<- <-]|[_ Hi]]; [|by apply Hj].
    destruct (Hj _ _ Hkey) as [<- _]. done.
  - intros i i' j j' (j0 & Hi & _ & _ & E & _)%Hold (j0' & Hi' & _ & _ & E' & _)%Hold ?.
    eapply Hk; [exact Hi|exact Hi'|congruence].
  - intros i i' j j' (j0 & Hi & E1 & E2 & _ & A)%Hold (j0' & Hi' & E1' & E2' & _ & A')%Hold ????.
    eapply Ha; [exact Hi|exact Hi'|congruence|congruence|auto|auto].
  - intros n Hn. specialize (Hfr n Hn). rewrite lookup_insert_ne; [done|]. intros ->. by rewrite Hkey in Hfr.
  - intros i k Hin. apply lookup_insert_is_Some'. right. by eapply Hev.
Qed.

Lemma apply_in_place_ok key event : preserves store_ok (apply_in_place key event).
Proof.
  intros s Hs. unfold apply_in_place, sbind, get_state. simpl.
  destruct (jobs s.1 !! key) as [job|] eqn:Hkey; [|done]. simpl.
  pose proof (apply_event_at_wf job event (host_now (ticks s.2)) (proj2 (ok_jobs _ Hs _ _ Hkey))) as Hwf.
  destruct (apply_event_at_identity job event (host_now (ticks s.2))) as [Hid Hact].
  destruct (apply_event_at job event _) as [job' r]. simpl in *.
  pose proof (update_job_ok _ _ _ _ Hkey Hid Hwf Hact Hs) as Hok.
  destruct r; simpl; (eapply store_ok_ext; [| | |exact Hok]; simpl; [done|done|lia]).
Qed.

Lemma apply_in_place_key key event s s' j :
  apply_in_place key event s = (s', Ok j) -> jobs s'.1 !! key = Some j.
Proof.
  unfold apply_in_place, sbind, get_state. simpl. destruct (jobs s.1 !! key) as [job|]; [|done]. simpl.
  destruct (apply_event_at job event _) as [job' [r|r]]; [|done]. intros [= <- <-]. simpl.
  by rewrite lookup_insert_eq.
Qed.

Lemma store_ok_keys i k s : is_Some (jobs s.1 !! i) ->
  store_ok s -> store_ok (with_event_keys ({[(i, k)]} ∪ event_keys s.1) s.1, s.2).
Proof.
  intros Hi []. split; try done. simpl. intros i' k' [[= -> ->]%elem_of_singleton|Hin]%elem_of_union; [done|].
  by eapply ok_events0.
Qed.

Lemma apply_event_ok key k event : preserves store_ok (mem_apply_event key k event).
Proof.
  intros s Hs. unfold mem_apply_event, sbind, get_state. simpl. case_bool_decide; [done|].
  pose proof (apply_in_place_ok key event s Hs) as Hok.
  destruct (apply_in_place key event s) as [s' [j|e]] eqn:E; [|done].
  apply store_ok_keys; [|done]. exists j. by eapply apply_in_place_key.
Qed.

Lemma claim_start_ok key : preserves store_ok (mem_claim_start key).
Proof.
  intros s Hs. unfold mem_claim_start, sbind, get_state. simpl.
  destruct (jobs s.1 !! key) as [job|]; [|done]. destruct (negb _); [done|].
  pose proof (apply_in_place_ok key EvStart s Hs) as Hok.
  destruct (apply_in_place key EvStart s) as [s' [j|e]] eqn:E; [|done].
  apply store_ok_keys; [|done]. exists j. by eapply apply_in_place_key.
Qed.

Lemma nonce_ok nonce expires : preserves store_ok (mem_claim_mail_nonce nonce expires).
Proof.
  intros s. unfold mem_claim_mail_nonce, sbind, get_state. simpl.
  destruct (filter _ _ !! nonce); by apply store_ok_ext.
Qed.

Lemma find_email_ok address : preserves store_ok (mem_find_active_job_by_email address).
Proof. intros s. by apply store_ok_ext. Qed.

(** The operations of the store, in any order and number. *)
Inductive store_step : InMemoryProvisioningState * HostState -> InMemoryProvisioningState * HostState -> Prop :=
| step_create request s : store_step s (create_or_get_job request s).1
| step_claim_start key s : store_step s (claim_start key s).1
| step_get key s : store_step s (get_job key s).1
| step_apply key k event s : store_step s (apply_event key k event s).1
| step_find address s : store_step s (find_active_job_by_email address s).1
| step_nonce nonce expires s : store_step s (claim_mail_nonce nonce expires s).1
| step_mail record s : store_step s (record_mail record s).1
| step_list wanted limit s : store_step s (list_jobs wanted limit s).1.

Lemma store_step_ok s s' : store_step s s' -> store_ok s -> store_ok s'.
Proof.
  destruct 1.
  - apply create_ok.
  - apply claim_start_ok.
  - done.
  - apply apply_event_ok.
  - apply find_email_ok.
  - apply nonce_ok.
  - by apply store_ok_ext.
  - done.
Qed.

Lemma store_init_ok h : store_ok (empty_state, h).
Proof. split; simpl; intros; by simplify_map_eq. Qed.
End invariant.

(** ** What the store promises *)

Section promises.
Context `{Host} `{HashOrder}.

(** Whatever sequence of operations runs on a store, two active jobs never
    serve the same provider and pool, an idempotency key names one job, and every
    stored job is well formed and kept under its own identifier. *)
Theorem store_one_active_job `{!UuidUnique} h s :
  rtc store_step (empty_state, h) s ->
  (forall i j, jobs s.1 !! i = Some j -> id j = i /\ job_wf j) /\
  (forall i i' j j', jobs s.1 !! i = Some j -> jobs s.1 !! i' = Some j' ->
     idempotency_key j = idempotency_key j' \/
     (provider_type j = provider_type j' /\ pool_id j = pool_id j' /\
      is_active (status j) = true /\ is_active (status j') = true) -> i = i').
Proof.
  intros Hr. assert (Hok : store_ok s).
  { assert (store_ok (empty_state, h)) as Hinit by apply store_init_ok.
    revert Hinit. induction Hr as [|x y z Hxy _ IH]; [done|]. intros Hx. apply IH. by eapply store_step_ok. }
  destruct Hok. split; [done|]. intros i i' j j' Hi Hi' [E|(E1 & E2 & A1 & A2)]; eauto.
Qed.

(** Creating a job is idempotent: repeating a request returns the same job
    and changes nothing, not even the clock. *)
Theorem create_or_get_idempotent `{!UuidUnique} request s s' j :
  store_ok s -> mem_create_or_get_job request s = (s', Ok j) ->
  serves request j = true /\ jobs s'.1 !! id j = Some j /\
  mem_create_or_get_job request s' = (s', Ok j).
Proof.
  intros Hs. unfold mem_create_or_get_job, sbind, get_state. simpl.
  destruct (find_first _ _) as [j0|] eqn:Hf.
  - intros [= <- <-]. rewrite Hf. apply find_first_Some in Hf as [Hin Hsv].
    apply elem_of_hash_values in Hin as [i Hi]. split_and!; [done| |done].
    by rewrite (proj1 (ok_jobs _ Hs _ _ Hi)).
  - pose proof (serves_None _ _ Hf) as Hno. simpl. set (job := job_new _ _ _). intros [= <- <-]. simpl.
    assert (Hself : serves request job = true) by (unfold serves; simpl; by rewrite String.eqb_refl).
    split_and!; [done|by rewrite lookup_insert_eq|].
    destruct (find_first (serves request) (hash_values (<[_:=job]> _))) as [j1|] eqn:Hf1.
    + apply find_first_Some in Hf1 as [[i Hi]%elem_of_hash_values Hsv].
      rewrite lookup_insert_Some in Hi. destruct Hi as [[_ <-]|[_ Hi]]; [done|]. by rewrite (Hno _ _ Hi) in Hsv.
    + exfalso. rewrite find_first_None in Hf1. specialize (Hf1 job). rewrite Hself in Hf1.
      discriminate Hf1. apply elem_of_hash_values. exists (host_uuid (uuids s.2)). by rewrite lookup_insert_eq.
Qed.

(** An event is applied at most once per idempotency key: after a
    successful application, the same key with any event returns the job as it
    is and changes nothing.  A rejected event leaves the job and the keys alone,
    so that it can be tried again. *)
Theorem apply_event_once key k event s s' r :
  mem_apply_event key k event s = (s', r) ->
  match r with
  | Ok j => jobs s'.1 !! key = Some j /\
      forall event', mem_apply_event key k event' s' = (s', Ok j)
  | Err e => jobs s'.1 = jobs s.1 /\ event_keys s'.1 = event_keys s.1
  end.
Proof.
  unfold mem_apply_event, sbind, get_state, apply_in_place, slift. simpl.
  case_bool_decide as Hseen.
  - destruct (jobs s.1 !! key) as [j|] eqn:Hj; simpl; intros [= <- <-]; [|done].
    split; [done|]. intros event'. rewrite bool_decide_eq_true_2 by done. by rewrite Hj.
  - unfold sbind. simpl. destruct (jobs s.1 !! key) as [job|] eqn:Hj; [|by intros [= <- <-]]. simpl.
    destruct (accepts event (status job)) eqn:Hacc.
    + destruct (apply_event_at_accepted job event (host_now (ticks s.2)) Hacc) as (job' & tr & -> & _).
      simpl. intros [= <- <-]. simpl. rewrite lookup_insert_eq. split; [done|]. intros event'.
      rewrite bool_decide_eq_true_2 by set_solver. done.
    + rewrite (apply_event_at_rejected job event) by done. simpl. intros [= <- <-]. simpl.
      split; [|done]. by apply insert_id.
Qed.

(** The e-mail lookup returns an active job whose alias is the address and
    has not expired, and finds one whenever there is one. *)
Theorem find_by_email_correct address s s' r :
  mem_find_active_job_by_email address s = (s', r) ->
  let t := host_now (ticks s.2) in
  s'.1 = s.1 /\ exists found, r = Ok found /\
  match found with
  | Some j => (exists i, jobs s.1 !! i = Some j) /\ is_active (status j) = true /\
      inbound_email_address j = Some address /\ exists e, inbound_email_expires_at j = Some e /\ t < e
  | None => forall i j e, jobs s.1 !! i = Some j -> is_active (status j) = true ->
      inbound_email_address j = Some address -> inbound_email_expires_at j = Some e -> e <= t
  end.
Proof.
  cbn zeta. unfold mem_find_active_job_by_email, sbind, get_state. simpl. intros [= <- <-].
  split; [done|]. eexists. split; [done|]. destruct (find_first _ _) as [j|] eqn:Hf.
  - apply find_first_Some in Hf as [Hin Hr]. apply elem_of_hash_values in Hin as [i Hi].
    unfold receives in Hr. breflect. split_and!; [by exists i|done..|].
    destruct (inbound_email_expires_at j) as [e|]; [|done]. exists e. breflect. done.
  - rewrite find_first_None in Hf. intros i j e Hi Ha Hadr He.
    assert (receives address (host_now (ticks s.2)) j = false) as Hr
      by (apply Hf, elem_of_hash_values; by exists i).
    unfold receives in Hr. rewrite Ha, Hadr, He, bool_decide_eq_true_2 in Hr by done. simpl in Hr.
    breflect. done.
Qed.

(** A batch of nonce claims, in order. *)
Fixpoint claim_all (claims : list (string * DateTime)) (s : InMemoryProvisioningState * HostState)
  : InMemoryProvisioningState * HostState :=
  match claims with
  | [] => s
  | (nonce, expires) :: claims => claim_all claims (claim_mail_nonce nonce expires s).1
  end.

Lemma claim_step nonce expires s :
  let s' := (claim_mail_nonce nonce expires s).1 in
  ticks s'.2 = Datatypes.S (ticks s.2) /\
  forall nonce' e, mail_nonces s.1 !! nonce' = Some e -> host_now (ticks s.2) < e ->
    mail_nonces s'.1 !! nonce' = Some e.
Proof.
  simpl. unfold mem_claim_mail_nonce, sbind, get_state. simpl. set (t := host_now (ticks s.2)).
  assert (Hkeep : forall n e, mail_nonces s.1 !! n = Some e -> t < e ->
    filter (fun '(_, expires) => t < expires) (mail_nonces s.1) !! n = Some e)
    by (intros n e Hn He; by apply map_lookup_filter_Some).
  destruct (filter _ (mail_nonces s.1) !! nonce) as [e0|] eqn:Hf; simpl; (split; [done|]); intros n e Hn He.
  - by apply Hkeep.
  - rewrite lookup_insert_ne; [by apply Hkeep|]. intros <-. by rewrite (Hkeep _ _ Hn He) in Hf.
Qed.

Lemma claim_true nonce expires s s' :
  mem_claim_mail_nonce nonce expires s = (s', Ok true) -> mail_nonces s'.1 !! nonce = Some expires.
Proof.
  unfold mem_claim_mail_nonce, sbind, get_state. simpl.
  destruct (filter _ _ !! nonce); [done|]. intros [= <-]. simpl. by rewrite lookup_insert_eq.
Qed.

Lemma claim_again nonce expires e s :
  mail_nonces s.1 !! nonce = Some e -> host_now (ticks s.2) < e ->
  exists n, mem_claim_mail_nonce nonce expires s = ((with_mail_nonces n s.1, (now (E := ProvisioningError) s.2).1), Ok false).
Proof.
  intros Hn He. unfold mem_claim_mail_nonce, sbind, get_state. simpl.
  assert (filter (fun '(_, expires) => host_now (ticks s.2) < expires) (mail_nonces s.1) !! nonce = Some e) as ->
    by by apply map_lookup_filter_Some.
  simpl. eauto.
Qed.

(** A mail nonce is accepted once: after it was claimed, whatever other
    claims follow, claiming it again fails until the clock reaches its expiry. *)
Theorem nonce_single_use nonce expires s s' claims :
  mem_claim_mail_nonce nonce expires s = (s', Ok true) ->
  (forall n, (n <= length claims)%nat -> host_now (ticks s'.2 + n) < expires) ->
  forall expires', (mem_claim_mail_nonce nonce expires' (claim_all claims s')).2 = Ok false.
Proof.
  intros Hin%claim_true Hclock. revert s' Hin Hclock. induction claims as [|[n e] claims IH]; intros s' Hin Hclock expires'.
  - destruct (claim_again nonce expires' expires s') as [n Hn]; [done| |cbn [claim_all]; by rewrite Hn].
    specialize (Hclock 0%nat). rewrite Nat.add_0_r in Hclock. auto.
  - cbn [claim_all]. destruct (claim_step n e s') as [Ht Hkeep]. apply IH.
    + apply Hkeep; [done|]. specialize (Hclock 0%nat). rewrite Nat.add_0_r in Hclock. apply Hclock. lia.
    + intros m Hm. rewrite Ht. specialize (Hclock (Datatypes.S m)). rewrite Nat.add_succ_comm.
      apply Hclock. simpl. lia.
Qed.
End promises.

(** ** Concrete instances *)

(** A host whose clock ticks once per reading and whose files never fail. *)
Definition toy_host : Host := {|
  host_now n := Z.of_nat n;
  host_random n := to_le 16 (Z.of_nat n);
  host_uuid n := Z.of_nat n;
  host_io _ := None |}.

Lemma toy_uuid_unique : @UuidUnique toy_host.
Proof. intros n m E. simpl in E. lia. Qed.

Definition toy_created : InMemoryProvisioningState * HostState :=
  (@create_or_get_job _ (@in_memory_store toy_host key_order) toy_request (empty_state, host_init)).1.

Theorem store_one_active_job_witness :
  is_Some (jobs toy_created.1 !! 0) /\
  forall i j, jobs toy_created.1 !! i = Some j -> id j = i /\ job_wf j.
Proof.
  split; [eexists; reflexivity|].
  destruct (@store_one_active_job toy_host key_order toy_uuid_unique host_init toy_created) as [Hw _];
    [|exact Hw].
  apply rtc_once. apply step_create.
Defined.

Theorem create_or_get_idempotent_witness :
  exists j, @create_or_get_job _ (@in_memory_store toy_host key_order) toy_request toy_created
    = (toy_created, Ok j) /\ serves toy_request j = true.
Proof.
  eexists. destruct (@create_or_get_idempotent toy_host key_order toy_uuid_unique toy_request
    (empty_state, host_init) toy_created (job_new toy_request 0 0)) as (Hs & _ & Hc);
    [apply store_init_ok|reflexivity|]. split; [exact Hc|exact Hs].
Defined.

Theorem apply_event_once_witness :
  exists s' j, @apply_event _ (@in_memory_store toy_host key_order) 0 "job-start" EvStart toy_created = (s', Ok j) /\
    jobs s'.1 !! 0 = Some j.
Proof.
  destruct (@apply_event _ (@in_memory_store toy_host key_order) 0 "job-start" EvStart toy_created)
    as [s' [j|e]] eqn:E; [|vm_compute in E; discriminate].
  exists s', j. split; [reflexivity|].
  apply (@apply_event_once toy_host 0 "job-start" EvStart toy_created s' (Ok j) E).
Defined.

Theorem find_by_email_correct_witness :
  exists s' r, @find_active_job_by_email _ (@in_memory_store toy_host key_order) "p@example" toy_created = (s', r) /\
    s'.1 = toy_created.1.
Proof.
  destruct (@find_active_job_by_email _ (@in_memory_store toy_host key_order) "p@example" toy_created)
    as [s' r] eqn:E.
  exists s', r. split; [reflexivity|].
  destruct (@find_by_email_correct toy_host key_order "p@example" toy_created s' r E) as [Hs _]. exact Hs.
Defined.

Theorem nonce_single_use_witness :
  exists s', @claim_mail_nonce _ (@in_memory_store toy_host key_order) "n1" 100 toy_created = (s', Ok true) /\
    (@claim_mail_nonce _ (@in_memory_store toy_host key_order) "n1" 200
       (@claim_all toy_host key_order [("n2"%string, 5)] s')).2 = Ok false.
Proof.
  destruct (@claim_mail_nonce _ (@in_memory_store toy_host key_order) "n1" 100 toy_created) as [s' r] eqn:E.
  assert (Hr : r = Ok true) by (apply (f_equal snd) in E; vm_compute in E; symmetry; exact E).
  assert (Ht : ticks s'.2 = 2%nat)
    by (apply (f_equal fst), (f_equal snd), (f_equal ticks) in E; vm_compute in E; symmetry; exact E).
  subst r. exists s'. split; [reflexivity|].
  apply (@nonce_single_use toy_host key_order "n1" 100 toy_created s' [("n2"%string, 5)] E).
  intros n Hn. rewrite Ht. simpl in *. lia.
Defined.
