(* ===== verification/ProvManager.v ===== *)
(** * The provisioning manager ([provisioning/src/domain.rs], third part)

    [ProvisioningManager] drives a job: it asks the provider's provisioner to
    start, waits for mail, validates the candidate and enrolls it, recording
    every step as an event of the store.  Provisioners, validators and enrollers
    are trait objects: records of operations over the host and a state [X] of
    their own.  SHA-256 is a parameter. *)
From stdpp Require Import base gmap strings list pretty sets.
From Stdlib Require Import ZArith Lia Ascii.
From S2P Require Import Prelude Text Bytes Packs Storage Placement Effects Provisioning Secrets ProvStore.
Local Open Scope Z_scope.

(** ** Data *)

(** SHA-256 (the sha2 crate). *)
Class Sha256 : Type := sha256 : list byte -> list byte.

Inductive ProvisioningEmailEvent : Type :=
| VerificationCodeReceived (token : string)
| VerificationLinkReceived (reference : string)
| MailProviderReady.

Record ProvisionerCapabilities : Type := {
  cap_provider_type : string;
  pool_types_supported : list string;
  mode : ProvisioningMode;
  automatic : bool;
  requires_email : bool;
  requires_operator : bool;
  supports_capacity_query : bool;
  supports_reauthentication : bool
}.

Inductive ProvisionerResult : Type :=
| RsWaitingForEmail
| RsWaitingForProvider
| RsCandidateReady (candidate : CapacityCandidate)
| RsNeedsOperator (action : string)
| RsRetryableFailure (code summary : string) (retry_after : option DateTime)
| RsPermanentFailure (code summary : string).

Record ValidatedCapacity : Type := {
  vc_candidate : CapacityCandidate;
  observed_capacity_bytes : Z
}.

(** ** Traits *)

(** What a provider's code may do: use the host and its own state. *)
Abbreviation ext_op X := (stm (HostState * X) ProvisioningError).

Record CapacityProvisioner (X : Type) : Type := {
  capabilities : ProvisionerCapabilities;
  start : ProvisionRequest -> ext_op X ProvisionerResult;
  continue_job : ProvisioningJob -> ProvisioningEmailEvent -> ext_op X ProvisionerResult
}.
Arguments capabilities {X}.
Arguments start {X}.
Arguments continue_job {X}.

Definition CapacityCandidateValidator (X : Type) : Type :=
  CapacityCandidate -> Z -> ext_op X ValidatedCapacity.

Definition CapacityCandidateEnroller (X : Type) : Type :=
  string -> ValidatedCapacity -> ext_op X unit.

Record ProvisionerBinding (X : Type) : Type := {
  provisioner : CapacityProvisioner X;
  validator : option (CapacityCandidateValidator X);
  enroller : option (CapacityCandidateEnroller X)
}.
Arguments provisioner {X}.
Arguments validator {X}.
Arguments enroller {X}.

Abbreviation ProvisionerRegistry X := (gmap string (ProvisionerBinding X)).

Definition register {X} (provider_type : string) (p : CapacityProvisioner X)
  (registry : ProvisionerRegistry X) : ProvisionerRegistry X :=
  <[provider_type := {| provisioner := p; validator := None; enroller := None |}]> registry.

Definition register_with_validation {X} (provider_type : string) (p : CapacityProvisioner X)
  (v : CapacityCandidateValidator X) (e : CapacityCandidateEnroller X)
  (registry : ProvisionerRegistry X) : ProvisionerRegistry X :=
  <[provider_type := {| provisioner := p; validator := Some v; enroller := Some e |}]> registry.

Definition registry_capabilities `{HashOrder} {X} (registry : ProvisionerRegistry X)
  : list ProvisionerCapabilities :=
  sort_by (fun a b => String.compare (cap_provider_type a) (cap_provider_type b))
    (map (fun binding => capabilities (provisioner binding)) (hash_values registry)).

(** ** E-mail aliases and codes *)

Record EmailAlias : Type := { local_part : string; address : string; alias_expires_at : DateTime }.

Section alias.
Context `{Host}.

Definition generate_email_alias (domain : string) (ttl : Z) : stm HostState ProvisioningError EmailAlias :=
  let domain := to_ascii_lowercase (trim domain) in
  if is_empty domain || contains_char "@"%char domain || any_whitespace (chars domain)
  then sfail (PConfiguration "invalid provisioning email domain")
  else
    let! random := random16 in
    let local := ("p-" +:+ to_hex random)%string in
    let! t := now in
    sret {| local_part := local; address := (local +:+ "@" +:+ domain)%string; alias_expires_at := t + ttl |}.
End alias.

Definition hash_token `{Sha256} (value : list byte) : string := to_hex (sha256 value).

Definition code_char (c : ascii) : bool :=
  is_ascii_uppercase c || is_ascii_digit c || char_eqb c "_"%char || char_eqb c "-"%char.

(** [safe_provider_code]. *)
Definition safe_provider_code (value fallback : string) : string :=
  let value := trim value in
  if negb (is_empty value) && (str_len value <=? 64) && all_chars code_char value
  then value else fallback.

(** ** The manager *)

Record ProvisioningManager (X : Type) : Type := {
  registry : ProvisionerRegistry X;
  email_domain : string;
  alias_ttl : Z
}.
Arguments registry {X}.
Arguments email_domain {X}.
Arguments alias_ttl {X}.

(** [Duration::minutes] and [Duration::hours]. *)
Definition minutes (n : Z) : Z := n * 60 * 10 ^ 9.
Definition hours (n : Z) : Z := minutes (60 * n).

Definition manager_new {X} (r : ProvisionerRegistry X) : ProvisioningManager X := {|
  registry := r; email_domain := "vaultnode.pp.ua"; alias_ttl := hours 1 |}.

Definition with_email_config {X} (m : ProvisioningManager X) (domain : string) (ttl : Z)
  : ProvisioningManager X := {| registry := registry m; email_domain := domain; alias_ttl := ttl |}.

Definition with_validator {X} (m : ProvisioningManager X) (provider_type : string)
  (v : CapacityCandidateValidator X) (e : CapacityCandidateEnroller X) : ProvisioningManager X := {|
  registry := match registry m !! provider_type with
              | Some binding => <[provider_type := {| provisioner := provisioner binding;
                                    validator := Some v; enroller := Some e |}]> (registry m)
              | None => registry m
              end;
  email_domain := email_domain m; alias_ttl := alias_ttl m |}.

Section manager.
Context `{Host} `{Sha256} {S X : Type} `{ProvisioningStore S} (manager : ProvisioningManager X).

(** The world of the manager: the store, the host and the providers' state. *)
Abbreviation M := (stm ((S * HostState) * X) ProvisioningError).

Definition on_store {A} (m : stm (S * HostState) ProvisioningError A) : M A := on_fst m.
Definition on_host {A} (m : stm HostState ProvisioningError A) : M A := on_fst (on_snd m).
Definition on_ext {A} (m : ext_op X A) : M A := fun '((s, h), x) =>
  let '((h', x'), r) := m (h, x) in (((s, h'), x'), r).

Definition store_event (key : Uuid) (idempotency_key : string) (event : ProvisioningEvent)
  : M ProvisioningJob := on_store (apply_event key idempotency_key event).

(** [get_job(id).await?.ok_or(NotFound)?]. *)
Definition require_job (key : Uuid) : M ProvisioningJob :=
  let! found := on_store (get_job key) in slift (ok_or found PNotFound).

(** A retryable failure five minutes from now. *)
Definition fail_retryable (key : Uuid) (idempotency_key code summary : string) : M ProvisioningJob :=
  let! t := on_host now in
  store_event key idempotency_key (EvRetryableFailure code summary (Some (t + minutes 5))).

Definition numbered (prefix : string) (attempt : Z) : string := (prefix +:+ fmt_u attempt)%string.

Definition validate_and_enroll (job : ProvisioningJob) : M ProvisioningJob :=
  let! binding := slift (ok_or (registry manager !! provider_type job)
    (PConfiguration ("no provisioner for " +:+ provider_type job)%string)) in
  let! v := slift (ok_or (validator binding)
    (PConfiguration ("no authoritative validator is configured for " +:+ provider_type job)%string)) in
  let! e := slift (ok_or (enroller binding)
    (PConfiguration ("no authoritative enroller is configured for " +:+ provider_type job)%string)) in
  let attempt := attempt_count job in
  let! job := store_event (id job) (numbered "validation-started-" attempt) EvValidationStarted in
  let! candidate := slift (job_candidate job) in
  catch! checked := on_ext (v candidate (requested_capacity_bytes job)) in
  match checked with
  | Err _ => fail_retryable (id job) (numbered "validation-failed-" attempt)
               "VALIDATION_FAILED" "capacity candidate validation failed"
  | Ok validated =>
      let! job := store_event (id job) (numbered "validation-passed-" attempt) EvValidationPassed in
      let! job := store_event (id job) (numbered "enrollment-started-" attempt) EvEnrollmentStarted in
      catch! enrolled := on_ext (e (pool_id job) validated) in
      match enrolled with
      | Err _ => fail_retryable (id job) (numbered "enrollment-failed-" attempt)
                   "ENROLLMENT_FAILED" "capacity candidate enrollment failed"
      | Ok _ => store_event (id job) (numbered "enrolled-" attempt) EvEnrolled
      end
  end.

Definition apply_result (job : ProvisioningJob) (result : ProvisionerResult) : M ProvisioningJob :=
  match result with
  | RsWaitingForEmail => sret job
  | RsWaitingForProvider =>
      store_event (id job) (numbered "provider-ready-" (attempt_count job)) EvProviderReady
  | RsCandidateReady candidate =>
      let! job := store_event (id job) (numbered "candidate-ready-" (attempt_count job))
        (EvCandidateReady candidate) in
      validate_and_enroll job
  | RsNeedsOperator action =>
      store_event (id job) "needs-operator"
        (EvNeedsOperator action "operator action is required before validation")
  | RsRetryableFailure code _ retry_after =>
      store_event (id job) "provisioner-failed-retryable"
        (EvRetryableFailure (safe_provider_code code "PROVIDER_RETRYABLE_FAILURE")
           "provider reported a retryable failure" retry_after)
  | RsPermanentFailure code _ =>
      store_event (id job) "provisioner-failed-permanent"
        (EvPermanentFailure (safe_provider_code code "PROVIDER_PERMANENT_FAILURE")
           "provider reported a permanent failure")
  end.

Definition not_configured : ProvisioningEvent :=
  EvPermanentFailure "PROVISIONER_NOT_CONFIGURED" "no provisioner is configured for this provider".

Definition start_job (job : ProvisioningJob) : M ProvisioningJob :=
  match registry manager !! provider_type job with
  | None => store_event (id job) "missing-provisioner" not_configured
  | Some binding =>
      catch! started := on_ext (start (provisioner binding) (job_request job)) in
      match started with
      | Err _ => fail_retryable (id job) (numbered "provisioner-start-failed-" (attempt_count job))
                   "PROVISIONER_START_FAILED" "provider start failed"
      | Ok RsWaitingForEmail =>
          let! alias := on_host (generate_email_alias (email_domain manager) (alias_ttl manager)) in
          let token_hash := hash_token (bytes_of_string (local_part alias)) in
          let! job := store_event (id job) (numbered "registration-started-" (attempt_count job))
            (EvRegistrationStarted (address alias) (alias_expires_at alias) token_hash) in
          store_event (id job) (numbered "waiting-for-email-" (attempt_count job)) EvAwaitingEmail
      | Ok RsWaitingForProvider =>
          store_event (id job) (numbered "waiting-for-provider-" (attempt_count job)) EvProviderReady
      | Ok result => apply_result job result
      end
  end.

Definition ensure_capacity (request : ProvisionRequest) : M ProvisioningJob :=
  let! job := on_store (create_or_get_job request) in
  if negb (bool_decide (status job = Created)) then sret job
  else
    let! claimed := on_store (claim_start (id job)) in
    match claimed with
    | Some job => start_job job
    | None => require_job (id job)
    end.

Definition retry_job (key : Uuid) : M ProvisioningJob :=
  let! job := require_job key in
  if negb (bool_decide (status job = FailedRetryable))
  then sfail (PConflict "only retryable provisioning jobs can be retried")
  else
    let! job := store_event (id job) (numbered "operator-retry-" (next_attempt (attempt_count job))) EvRetryTimer in
    start_job job.

Definition cancel_job (key : Uuid) (summary : string) : M ProvisioningJob :=
  let! job := require_job key in
  if is_terminal (status job) then sret job
  else store_event key "operator-cancel" (EvCancelled summary).

Definition expire_job (key : Uuid) : M ProvisioningJob :=
  let! job := require_job key in
  if is_terminal (status job) then sret job
  else store_event key "provisioning-expiry" EvExpired.

Definition complete_manual (key : Uuid) (candidate : CapacityCandidate) : M ProvisioningJob :=
  let! job := require_job key in
  if negb (bool_decide (status job = NeedsOperator))
  then sfail (PConflict "only jobs waiting for an operator can be completed manually")
  else
    let! job := store_event (id job) "operator-complete" (EvOperatorCompleted candidate) in
    validate_and_enroll job.

Definition handle_email_with_record_status (record : ProvisioningMailRecord)
  (event : ProvisioningEmailEvent) : M (ProvisioningJob * bool) :=
  let! job := require_job (job_id record) in
  if is_terminal (status job) then sret (job, false)
  else
    let! accepted := on_store (record_mail record) in
    if negb accepted then sret (job, true)
    else
      let! job := (if bool_decide (status job = WaitingForEmail)
                   then store_event (job_id record) ("mail-received-" +:+ message_id record)%string
                          (EvEmailReceived (message_id record))
                   else sret job) in
      match registry manager !! provider_type job with
      | None =>
          let! job := store_event (id job) "missing-email-provisioner" not_configured in
          sret (job, false)
      | Some binding =>
          catch! continued := on_ext (continue_job (provisioner binding) job event) in
          match continued with
          | Err _ =>
              let! job := fail_retryable (id job) "provisioner-email-failed"
                "PROVIDER_EMAIL_PROCESSING_FAILED" "provider email processing failed" in
              sret (job, false)
          | Ok result => let! job := apply_result job result in sret (job, false)
          end
      end.

Definition handle_email_with_record (record : ProvisioningMailRecord) (event : ProvisioningEmailEvent)
  : M ProvisioningJob :=
  let! (job, _) := handle_email_with_record_status record event in sret job.

Definition handle_email (key : Uuid) (message : string) (event : ProvisioningEmailEvent)
  : M ProvisioningJob :=
  let! job := require_job key in
  handle_email_with_record {|
    message_id := message; body_sha256 := "legacy-wrapper"; envelope_from := None;
    envelope_to := default ""%string (inbound_email_address job);
    from_header := None; subject := None; job_id := key |} event.
End manager.

(** ** The provisioners of the crate *)

(** [Uuid::simple]: 32 hexadecimal digits. *)
Definition uuid_simple (uuid : Uuid) : string := to_hex (rev (to_le 16 uuid)).

Section provisioners.
Context `{Host} `{Blake3} {X : Type} `{SecretStore X}.

Definition fake_capabilities : ProvisionerCapabilities := {|
  cap_provider_type := "fake"; pool_types_supported := ["COLD"%string]; mode := ModeAutomatic;
  automatic := true; requires_email := true; requires_operator := false;
  supports_capacity_query := true; supports_reauthentication := true |}.

Definition fake_continue (job : ProvisioningJob) (event : ProvisioningEmailEvent)
  : ext_op X ProvisionerResult :=
  match event with
  | VerificationLinkReceived _ | MailProviderReady =>
      sret (RsPermanentFailure "UNSUPPORTED_VERIFICATION_EVENT"
              "fake provisioner expected a verification code")
  | VerificationCodeReceived token =>
      if negb (String.eqb token "fake-token") then
        sret (RsPermanentFailure "INVALID_VERIFICATION"
                "provider verification did not match the expected fake event")
      else
        let! reference := secret_put (bytes_of_string "fake-session") in
        sret (RsCandidateReady {|
          cc_provider_type := provider_type job;
          external_account_id := ("fake-account-" +:+ uuid_simple (id job))%string;
          cc_credential_reference := reference;
          expected_capacity_bytes := Z.max (requested_capacity_bytes job) 1024;
          metadata := {["source"%string := "fake"%string]} |})
  end.

(** [FakeAutomaticProvisioner]. *)
Definition FakeAutomaticProvisioner : CapacityProvisioner X := {|
  capabilities := fake_capabilities;
  start := fun _ => sret RsWaitingForEmail;
  continue_job := fake_continue |}.

(** [FakeCandidateValidator::validate]. *)
Definition FakeCandidateValidator : CapacityCandidateValidator X :=
  fun candidate requested_capacity_bytes =>
    let! _ := secret_resolve (cc_credential_reference candidate) in
    if expected_capacity_bytes candidate <? requested_capacity_bytes
    then sfail (PProvider "fake capacity is too small")
    else
      let smoke := bytes_of_string "fake-random-smoke" in
      let digest := blake3 smoke in
      if negb (bytes_eqb (blake3 smoke) digest)
      then sfail (PProvider "fake BLAKE3 smoke verification failed")
      else sret {| vc_candidate := candidate;
                   observed_capacity_bytes := expected_capacity_bytes candidate |}.

(** [FakeCandidateEnroller::enroll]. *)
Definition FakeCandidateEnroller : CapacityCandidateEnroller X := fun _ _ => sret tt.

Definition register_fake (provider_type : string) (r : ProvisionerRegistry X) : ProvisionerRegistry X :=
  register_with_validation provider_type FakeAutomaticProvisioner FakeCandidateValidator
    FakeCandidateEnroller r.

(** [ManualMegaProvisioner]. *)
Definition manual_action : string := "enroll a MEGA account with launcher-admin storage accounts add, validate it, then run provisioning complete-manual".

Definition manual_mega_provisioner : CapacityProvisioner X := {|
  capabilities := {|
    cap_provider_type := "mega"; pool_types_supported := ["COLD"%string]; mode := ModeManual;
    automatic := false; requires_email := false; requires_operator := true;
    supports_capacity_query := true; supports_reauthentication := true |};
  start := fun _ => sret (RsNeedsOperator manual_action);
  continue_job := fun _ _ => sret (RsPermanentFailure "EMAIL_NOT_SUPPORTED"
    "manual MEGA provisioning does not accept email events") |}.
End provisioners.

(** ** The manager keeps the store's invariants *)

(** What the manager relies on: the store's operations keep the invariant, and
    so does a host that moves on (time passes, random bytes are drawn). *)
Class StoreInvariant `{Host} {S : Type} `{ProvisioningStore S} (I : S * HostState -> Prop) : Prop := {
  inv_create request : preserves I (create_or_get_job request);
  inv_claim_start key : preserves I (claim_start key);
  inv_get key : preserves I (get_job key);
  inv_apply key k event : preserves I (apply_event key k event);
  inv_mail record : preserves I (record_mail record);
  inv_host s h h' : (uuids h <= uuids h')%nat -> I (s, h) -> I (s, h')
}.

(** A provider's code may use the host, but not take identifiers back. *)
Definition advances {X A} (m : ext_op X A) : Prop :=
  forall h x, (uuids h <= uuids (m (h, x)).1.1)%nat.

Definition binding_advances {X} (b : ProvisionerBinding X) : Prop :=
  (forall request, advances (start (provisioner b) request)) /\
  (forall job event, advances (continue_job (provisioner b) job event)) /\
  (forall v, validator b = Some v -> forall c n, advances (v c n)) /\
  (forall e, enroller b = Some e -> forall pool c, advances (e pool c)).

Section invariants.
Context `{Host} `{Sha256} {S X : Type} `{ProvisioningStore S} (manager : ProvisioningManager X).
Context (I : S * HostState -> Prop) `{!StoreInvariant I}.
Hypothesis bindings_advance : forall t b, registry manager !! t = Some b -> binding_advances b.

Definition lifted (w : (S * HostState) * X) : Prop := I w.1.

Lemma lift_store {A} (m : stm (S * HostState) ProvisioningError A) :
  preserves I m -> preserves lifted (on_store (X := X) m).
Proof.
  intros Hm [s x] Hs. unfold on_store, on_fst, lifted. simpl. specialize (Hm s Hs).
  destruct (m s); done.
Qed.

Lemma lift_ext {A} (m : ext_op X A) : advances m -> preserves lifted (on_ext (S := S) m).
Proof.
  intros Hm [[s h] x] Hs. unfold on_ext, lifted in *. simpl in *. specialize (Hm h x).
  destruct (m (h, x)) as [[h' x'] r]. simpl in *. by eapply inv_host.
Qed.

Lemma lift_now : preserves lifted (on_host (S := S) (X := X) now).
Proof. intros [[s h] x] Hs. unfold lifted in *. simpl in *. by eapply inv_host; [|exact Hs]. Qed.

Lemma lift_alias domain ttl :
  preserves lifted (on_host (S := S) (X := X) (generate_email_alias domain ttl)).
Proof.
  intros [[s h] x] Hs. unfold lifted, on_host, on_fst, on_snd, generate_email_alias in *. simpl in *.
  destruct (_ || _); [done|]. simpl. by eapply inv_host; [|exact Hs].
Qed.

Lemma event_kept key k event : preserves lifted (store_event (X := X) key k event).
Proof. apply lift_store, inv_apply. Qed.

Lemma require_kept key : preserves lifted (require_job (X := X) key).
Proof.
  apply preserves_sbind; [apply lift_store, inv_get|]. intros. apply preserves_slift.
Qed.

Lemma fail_kept key k code summary : preserves lifted (fail_retryable (X := X) key k code summary).
Proof. apply preserves_sbind; [apply lift_now|]. intros. apply event_kept. Qed.

#[local] Hint Resolve event_kept require_kept fail_kept lift_now lift_alias lift_ext : launcher.

Lemma validate_kept job : preserves lifted (validate_and_enroll manager job).
Proof.
  unfold validate_and_enroll. intros w Hw. unfold sbind at 1. unfold slift at 1.
  destruct (registry manager !! provider_type job) as [b|] eqn:Hb; [|done]. simpl.
  destruct (bindings_advance _ _ Hb) as (_ & _ & Hv & He).
  unfold sbind at 1. unfold slift at 1. destruct (validator b) as [v|]; [|done]. simpl.
  unfold sbind at 1. unfold slift at 1. destruct (enroller b) as [e|]; [|done]. simpl.
  specialize (Hv v eq_refl). specialize (He e eq_refl). revert w Hw.
  match goal with |- forall w, lifted w -> lifted (?m w).1 => change (preserves lifted m) end.
  preserve.
Qed.
#[local] Hint Resolve validate_kept : launcher.

Lemma apply_result_kept job r : preserves lifted (apply_result manager job r).
Proof. destruct r; simpl; preserve. Qed.
#[local] Hint Resolve apply_result_kept : launcher.

Lemma start_job_kept job : preserves lifted (start_job manager job).
Proof.
  unfold start_job. destruct (registry manager !! provider_type job) as [b|] eqn:Hb; [|preserve].
  destruct (bindings_advance _ _ Hb) as (Hs & _). preserve.
Qed.
#[local] Hint Resolve start_job_kept : launcher.

(** The requests the manager serves. *)
Inductive manager_step : (S * HostState) * X -> (S * HostState) * X -> Prop :=
| step_ensure request w : manager_step w (ensure_capacity manager request w).1
| step_retry key w : manager_step w (retry_job manager key w).1
| step_cancel key summary w : manager_step w (cancel_job key summary w).1
| step_expire key w : manager_step w (expire_job key w).1
| step_complete key candidate w : manager_step w (complete_manual manager key candidate w).1
| step_email key message event w : manager_step w (handle_email manager key message event w).1.

Lemma ensure_kept request : preserves lifted (ensure_capacity manager request).
Proof.
  unfold ensure_capacity. apply preserves_sbind; [apply lift_store, inv_create|]. intros job.
  destruct (negb _); [preserve|]. apply preserves_sbind; [apply lift_store, inv_claim_start|]. preserve.
Qed.

Lemma retry_kept key : preserves lifted (retry_job manager key).
Proof. unfold retry_job. preserve. Qed.

Lemma complete_kept key candidate : preserves lifted (complete_manual manager key candidate).
Proof. unfold complete_manual. preserve. Qed.

Lemma record_status_kept record event : preserves lifted (handle_email_with_record_status manager record event).
Proof.
  unfold handle_email_with_record_status.
  apply preserves_sbind; [apply require_kept|]. intros job'. destruct (is_terminal _); [preserve|].
  apply preserves_sbind; [apply lift_store, inv_mail|]. intros accepted. destruct (negb _); [preserve|].
  apply preserves_sbind; [preserve|]. intros j.
  destruct (registry manager !! provider_type j) as [b|] eqn:Hb; [|preserve].
  destruct (bindings_advance _ _ Hb) as (_ & Hc & _). apply preserves_stry; preserve.
Qed.

Lemma email_kept key message event : preserves lifted (handle_email manager key message event).
Proof.
  unfold handle_email, handle_email_with_record.
  apply preserves_sbind; [apply require_kept|]. intros job. apply preserves_sbind; [|preserve].
  apply record_status_kept.
Qed.

Lemma manager_step_kept w w' : manager_step w w' -> lifted w -> lifted w'.
Proof.
  destruct 1.
  - apply ensure_kept.
  - apply retry_kept.
  - match goal with |- lifted w -> lifted (?m w).1 => enough (preserves lifted m) by eauto end. unfold cancel_job. preserve.
  - match goal with |- lifted w -> lifted (?m w).1 => enough (preserves lifted m) by eauto end. unfold expire_job. preserve.
  - apply complete_kept.
  - apply email_kept.
Qed.
End invariants.

(** The in-memory store with its invariant. *)
#[export] Instance store_ok_invariant `{Host} `{HashOrder} `{!UuidUnique} :
  StoreInvariant (S := InMemoryProvisioningState) store_ok.
Proof.
  split.
  - apply create_ok.
  - apply claim_start_ok.
  - by intros key s.
  - apply apply_event_ok.
  - intros record s. by apply store_ok_ext.
  - intros s h h' Hu. by apply store_ok_ext.
Qed.

Lemma fake_binding_advances `{Host} `{Blake3} (b : ProvisionerBinding MemorySecretStore) t :
  register_fake t ∅ !! t = Some b -> binding_advances b.
Proof.
  unfold register_fake, register_with_validation. rewrite lookup_insert_eq. intros [= <-]. split_and!; simpl.
  - by intros request h x.
  - intros job event h x. destruct event; simpl; [|done|done].
    unfold sbind, slift. destruct (negb _); [done|]. cbn -[SecretRef_parse].
    unfold memory_put, sbind, slift, on_fst. cbn -[SecretRef_parse].
    by destruct (SecretRef_parse _).
  - intros v [= <-] c n h x. unfold FakeCandidateValidator, sbind. simpl.
    destruct (ok_or _ _); [|done]. destruct (_ <? _); [done|]. by destruct (negb _).
  - by intros e [= <-] pool c h x.
Qed.

(** C24. No sequence of requests to the manager, over any providers that draw
    fresh identifiers only, ever lets two active jobs serve one provider and
    pool, or one idempotency key name two jobs, in the in-memory store. *)
Theorem manager_one_active_job `{Host} `{HashOrder} `{Sha256} `{!UuidUnique} {X}
    (manager : ProvisioningManager X) h x w :
  (forall t b, registry manager !! t = Some b -> binding_advances b) ->
  rtc (manager_step (S := InMemoryProvisioningState) manager) ((empty_state, h), x) w ->
  forall i i' j j', jobs w.1.1 !! i = Some j -> jobs w.1.1 !! i' = Some j' ->
     idempotency_key j = idempotency_key j' \/
     (provider_type j = provider_type j' /\ pool_id j = pool_id j' /\
      is_active (status j) = true /\ is_active (status j') = true) -> i = i'.
Proof.
  intros Hadv Hr. assert (Hok : lifted (X := X) store_ok w).
  { assert (lifted (X := X) store_ok ((empty_state, h), x)) as Hinit by apply store_init_ok.
    revert Hinit. induction Hr as [|a b c Hab _ IH]; [done|]. intros Ha. apply IH.
    eapply (manager_step_kept manager store_ok); [exact Hadv|exact Hab|exact Ha]. }
  destruct Hok. intros i i' j j' Hi Hi' [E|(E1 & E2 & A1 & A2)]; eauto.
Qed.

(** ** Concrete instances *)

Definition toy_sha : Sha256 := fun bs => bs.
Definition toy_blake : Blake3 := fun bs => bs.
Definition toy_store : ProvisioningStore InMemoryProvisioningState := @in_memory_store toy_host key_order.

(** The fake provider over the memory secret store. *)
Definition toy_registry : ProvisionerRegistry MemorySecretStore :=
  @register_fake toy_blake _ (@memory_secret_store toy_host) "fake" ∅.

Definition toy_manager : ProvisioningManager MemorySecretStore := {|
  registry := toy_registry; email_domain := "example.org"; alias_ttl := hours 1 |}.

Definition fake_request : ProvisionRequest := {|
  rq_provider_type := "fake"; rq_pool_id := "fake-cold"; rq_requested_capacity_bytes := 1024;
  rq_expires_at := 3600; rq_idempotency_key := "key-1" |}.

Definition toy_world : (InMemoryProvisioningState * HostState) * MemorySecretStore :=
  ((empty_state, host_init), ∅).

Theorem manager_one_active_job_witness :
  is_Some (jobs (@ensure_capacity toy_host toy_sha _ _ toy_store toy_manager fake_request toy_world).1.1.1 !! 0) /\
  forall i i' j j',
    jobs (@ensure_capacity toy_host toy_sha _ _ toy_store toy_manager fake_request toy_world).1.1.1 !! i = Some j ->
    jobs (@ensure_capacity toy_host toy_sha _ _ toy_store toy_manager fake_request toy_world).1.1.1 !! i' = Some j' ->
    idempotency_key j = idempotency_key j' -> i = i'.
Proof.
  split; [apply (bool_decide_unpack _); vm_compute; exact I|]. intros i i' j j' Hi Hi' E.
  apply (@manager_one_active_job toy_host key_order toy_sha toy_uuid_unique _ toy_manager host_init ∅
    (@ensure_capacity toy_host toy_sha _ _ toy_store toy_manager fake_request toy_world).1)
    with (j := j) (j' := j'); [|apply rtc_once, step_ensure|exact Hi|exact Hi'|left; exact E].
  intros t b Hb. simpl in Hb. unfold toy_registry, register_fake, register_with_validation in Hb.
  rewrite lookup_insert_Some in Hb. destruct Hb as [[<- <-]|[_ Hb]]; [|by rewrite lookup_empty in Hb].
  apply (@fake_binding_advances toy_host toy_blake _ "fake"). apply lookup_insert_eq.
Defined.
