(* ===== verification/ProvFlow.v ===== *)
(** * What the provisioning manager does with a job

    Step lemmas for one job of the in-memory store, the automatic flow of the
    fake provider end to end, the outcomes of validation, and two ways a job
    gets stuck. *)
From stdpp Require Import base gmap strings list pretty sets.
From Stdlib Require Import ZArith Lia Ascii.
From S2P Require Import Prelude Text Bytes Packs Storage Placement Effects Provisioning Secrets ProvStore ProvManager.
Local Open Scope Z_scope.

(** ** What happens to one job *)

(** Proves that a key is unused: it differs from the keys added since. *)
Ltac unused := rewrite ?not_elem_of_union, ?not_elem_of_singleton; split_and?; [try done..|auto with set_solver].

Section one_job.
Context `{Host} `{HashOrder} `{Sha256} {X : Type} (manager : ProvisioningManager X).

Abbreviation World := ((InMemoryProvisioningState * HostState) * X)%type.

(** The store holds the job [j] under [i], and [K] are its used event keys. *)
Definition at_job (w : World) (i : Uuid) (j : ProvisioningJob) (K : gset string) : Prop :=
  jobs w.1.1 !! i = Some j /\ forall k, (i, k) ∈ event_keys w.1.1 <-> k ∈ K.

(** An accepted event under a fresh key is applied to the job. *)
Lemma event_runs w i j K k e :
  at_job w i j K -> k ∉ K -> accepts e (status j) = true ->
  exists w', store_event i k e w = (w', Ok (apply_event_at j e (host_now (ticks w.1.2))).1) /\
    at_job w' i (apply_event_at j e (host_now (ticks w.1.2))).1 ({[k]} ∪ K) /\ w'.2 = w.2 /\
    mail_messages w'.1.1 = mail_messages w.1.1.
Proof.
  destruct w as [[st h] x]. intros [Hj HK] Hk Hacc. simpl in *.
  unfold store_event, on_store, on_fst. simpl.
  unfold mem_apply_event, sbind, get_state. simpl. rewrite bool_decide_eq_false_2 by (by rewrite HK).
  unfold apply_in_place, sbind, get_state. simpl. rewrite Hj. simpl.
  destruct (apply_event_at_accepted j e (host_now (ticks h)) Hacc) as (j' & tr & -> & _). simpl.
  eexists. split; [done|]. split_and!; [|done|done]. split; simpl; [by rewrite lookup_insert_eq|].
  intros k'. rewrite !elem_of_union, !elem_of_singleton, HK. naive_solver.
Qed.

(** What the steps of a flow need to know of the job after an event. *)
Definition counts_attempt (e : ProvisioningEvent) : bool :=
  match e with EvStart | EvRetryTimer => true | _ => false end.

Lemma event_steps w i j K k e :
  at_job w i j K -> k ∉ K -> accepts e (status j) = true ->
  exists w' j', store_event i k e w = (w', Ok j') /\ at_job w' i j' ({[k]} ∪ K) /\
    status j' = target e /\ same_identity j j' /\
    (event_candidate e = None -> job_candidate j' = job_candidate j) /\
    attempt_count j' = (if counts_attempt e then next_attempt (attempt_count j) else attempt_count j) /\
    w'.2 = w.2 /\ mail_messages w'.1.1 = mail_messages w.1.1 /\ (job_wf j -> job_wf j') /\
    (forall c, event_candidate e = Some c -> candidate_reference j' = Some (external_account_id c) /\
       credential_reference j' = Some (cc_credential_reference c)).
Proof.
  intros Hw Hk Hacc. destruct (event_runs w i j K k e Hw Hk Hacc) as (w' & Hrun & Hw' & Hx & Hm).
  eexists w', _. split; [exact Hrun|]. split; [exact Hw'|]. clear Hrun Hw' Hw.
  destruct (apply_event_at_accepted j e (host_now (ticks w.1.2)) Hacc) as (j' & tr & E & Hst & _ & _ & _ & _ & Hid).
  revert E Hacc. generalize (host_now (ticks w.1.2)). intros t E Hacc.
  split; [by rewrite E|]. split; [by rewrite E|]. clear E Hid Hst. split; [|split; [|split; [done|split; [done|split]]]].
  - revert Hacc. unfold job_candidate. machine j e.
  - revert Hacc. machine j e.
  - apply apply_event_at_wf.
  - intros c. revert Hacc. machine j e; intros _ [= <-]; done.
Qed.

(** Under a used key nothing happens. *)
Lemma event_seen w i j K k e :
  at_job w i j K -> k ∈ K -> store_event i k e w = (w, Ok j).
Proof.
  destruct w as [[st h] x]. intros [Hj HK] Hk. simpl in *.
  unfold store_event, on_store, on_fst. simpl. unfold mem_apply_event, sbind, get_state, slift. simpl.
  rewrite bool_decide_eq_true_2 by (by apply HK). by rewrite Hj.
Qed.

(** An event the status rejects fails. *)
Lemma event_rejected w i j K k e :
  at_job w i j K -> k ∉ K -> accepts e (status j) = false ->
  exists w', store_event i k e w = (w', Err (PInvalidTransition (status_as_str (status j)) (kind e))) /\
    at_job w' i j K.
Proof.
  destruct w as [[st h] x]. intros [Hj HK] Hk Hacc. simpl in *.
  unfold store_event, on_store, on_fst. simpl.
  unfold mem_apply_event, sbind, get_state. simpl. rewrite bool_decide_eq_false_2 by (by rewrite HK).
  unfold apply_in_place, sbind, get_state. simpl. rewrite Hj. simpl.
  rewrite apply_event_at_rejected by done. simpl. eexists. split; [done|]. split; [|done]. simpl.
  by rewrite lookup_insert_eq.
Qed.

Lemma ext_runs {A} (m : ext_op X A) w w' r i j K :
  on_ext (S := InMemoryProvisioningState) m w = (w', r) -> at_job w i j K ->
  at_job w' i j K /\ m (w.1.2, w.2) = ((w'.1.2, w'.2), r) /\ w'.1.1 = w.1.1.
Proof.
  destruct w as [[st h] x]. unfold on_ext. simpl. destruct (m (h, x)) as [[h' x'] r'].
  by intros [= <- <-].
Qed.

Lemma now_runs w i j K : at_job w i j K ->
  exists w', on_host (S := InMemoryProvisioningState) (X := X) now w = (w', Ok (host_now (ticks w.1.2))) /\
    at_job w' i j K /\ w'.2 = w.2.
Proof. destruct w as [[st h] x]. intros Hw. eexists. split; [done|]. done. Qed.

Lemma require_runs w i j K : at_job w i j K ->
  require_job (S := InMemoryProvisioningState) i w = (w, Ok j).
Proof.
  destruct w as [[st h] x]. intros [Hj _]. simpl in *. unfold require_job, on_store, on_fst, sbind, slift. simpl.
  unfold mem_get_job, sbind, get_state. simpl. by rewrite Hj.
Qed.


Lemma fail_retryable_runs w i j K k code summary :
  at_job w i j K -> k ∉ K -> is_active (status j) = true ->
  exists w' j', fail_retryable i k code summary w = (w', Ok j') /\ at_job w' i j' ({[k]} ∪ K) /\
    status j' = FailedRetryable /\ last_error_code j' = Some code /\ attempt_count j' = attempt_count j /\
    id j' = id j.
Proof.
  intros Hw Hk Hact. unfold fail_retryable. destruct (now_runs _ _ _ _ Hw) as (w1 & E & Hw1 & _).
  rewrite (sbind_Ok _ _ _ _ _ E). set (e := EvRetryableFailure _ _ _).
  assert (Hacc : accepts e (status j) = true) by (by destruct (status j)).
  destruct (event_runs w1 i j K k e Hw1 Hk Hacc) as (w2 & -> & Hw2 & _).
  eexists _, _. split; [done|]. split; [exact Hw2|].
  revert Hacc. unfold e, apply_event_at, apply_failure_at, accept. by destruct (status j).
Qed.

(** The event keys [validate_and_enroll] uses in an attempt. *)
Definition attempt_keys (n : Z) : list string :=
  [numbered "validation-started-" n; numbered "validation-failed-" n; numbered "validation-passed-" n;
   numbered "enrollment-started-" n; numbered "enrollment-failed-" n; numbered "enrolled-" n].

(** The second half of [validate_and_enroll]: the candidate is valid. *)
Definition enroll_validated (attempt : Z) (key : Uuid) (e : CapacityCandidateEnroller X)
    (validated : ValidatedCapacity)
  : stm World ProvisioningError ProvisioningJob :=
  let! job := store_event key (numbered "validation-passed-" attempt) EvValidationPassed in
  let! job := store_event (id job) (numbered "enrollment-started-" attempt) EvEnrollmentStarted in
  catch! enrolled := on_ext (e (pool_id job) validated) in
  match enrolled with
  | Err _ => fail_retryable (id job) (numbered "enrollment-failed-" attempt)
               "ENROLLMENT_FAILED" "capacity candidate enrollment failed"
  | Ok _ => store_event (id job) (numbered "enrolled-" attempt) EvEnrolled
  end.

Lemma enroll_runs w j K attempt e capacity :
  at_job w (id j) j K -> status j = Validating ->
  Forall (fun k => k ∉ K) [numbered "validation-passed-" attempt; numbered "enrollment-started-" attempt;
    numbered "enrollment-failed-" attempt; numbered "enrolled-" attempt] ->
  exists w' j', enroll_validated attempt (id j) e capacity w = (w', Ok j') /\ jobs w'.1.1 !! id j = Some j' /\
    id j' = id j /\
    ((status j' = Enrolled /\ exists h s, e (pool_id j) capacity (h, w.2) = (s, Ok tt)) \/
     (status j' = FailedRetryable /\ last_error_code j' = Some "ENROLLMENT_FAILED"%string /\
        exists h s err, e (pool_id j) capacity (h, w.2) = (s, Err err))).
Proof.
  intros Hw Hst Hk. rewrite !Forall_cons in Hk. destruct Hk as (K3 & K4 & K5 & K6 & _).
  unfold enroll_validated.
  destruct (event_steps _ _ _ _ _ EvValidationPassed Hw K3)
    as (w1 & j1 & E1 & Hw1 & Hst1 & (Hid1 & _ & Hp1 & _) & _ & _ & Hx1 & _); [by rewrite Hst|].
  rewrite (sbind_Ok _ _ _ _ _ E1), Hid1.
  destruct (event_steps _ _ _ _ (numbered "enrollment-started-" attempt) EvEnrollmentStarted Hw1)
    as (w2 & j2 & E2 & Hw2 & Hst2 & (Hid2 & _ & Hp2 & _) & _ & _ & Hx2 & _); [unused|by rewrite Hst1|].
  rewrite (sbind_Ok _ _ _ _ _ E2), Hid2, Hid1, Hp2, Hp1. unfold stry.
  destruct (on_ext (e (pool_id j) capacity) w2) as [w3 [[]|err]] eqn:E3;
    destruct (ext_runs _ _ _ _ _ _ _ E3 Hw2) as (Hw3 & He & _); rewrite Hx2, Hx1 in He.
  - destruct (event_steps _ _ _ _ (numbered "enrolled-" attempt) EvEnrolled Hw3)
      as (w4 & j4 & -> & Hw4 & Hst4 & (Hid4 & _) & _); [unused|by rewrite Hst2|].
    exists w4, j4. split_and!; [done|apply Hw4|congruence|]. left. split; [done|by eauto].
  - destruct (fail_retryable_runs w3 (id j) j2 _ (numbered "enrollment-failed-" attempt)
      "ENROLLMENT_FAILED" "capacity candidate enrollment failed" Hw3)
      as (w4 & j4 & -> & Hw4 & Hst4 & Herr & _ & Hid4); [unused|by rewrite Hst2|].
    exists w4, j4. split_and!; [done|apply Hw4|congruence|]. right. split_and!; [done|done|by eauto].
Qed.

Lemma validate_runs w j K b v e :
  at_job w (id j) j K -> status j = CandidateReady -> job_wf j ->
  registry manager !! provider_type j = Some b -> validator b = Some v -> enroller b = Some e ->
  (forall k, k ∈ attempt_keys (attempt_count j) -> k ∉ K) ->
  exists w' j' c, validate_and_enroll manager j w = (w', Ok j') /\ job_candidate j = Ok c /\
    (jobs w'.1.1 !! id j = Some j' /\ id j' = id j) /\
    exists h s checked, v c (requested_capacity_bytes j) (h, w.2) = (s, checked) /\
    match checked with
    | Err _ => status j' = FailedRetryable /\ last_error_code j' = Some "VALIDATION_FAILED"%string
    | Ok capacity => exists h' s' enrolled, e (pool_id j) capacity (h', s.2) = (s', enrolled) /\
        match enrolled with
        | Err _ => status j' = FailedRetryable /\ last_error_code j' = Some "ENROLLMENT_FAILED"%string
        | Ok _ => status j' = Enrolled
        end
    end.
Proof.
  intros Hw Hst Hwf Hb Hv He Hkeys.
  destruct (wf_candidate _ Hwf) as (c & Hc & _); [by rewrite Hst|].
  assert (Hk : Forall (fun k => k ∉ K) (attempt_keys (attempt_count j))) by (by apply Forall_forall).
  unfold attempt_keys in Hk. rewrite !Forall_cons in Hk. destruct Hk as (K1 & K2 & K3 & K4 & K5 & K6 & _).
  unfold validate_and_enroll.
  rewrite (sbind_Ok _ _ w w b) by (unfold slift; by rewrite Hb).
  rewrite (sbind_Ok _ _ w w v) by (unfold slift; by rewrite Hv).
  rewrite (sbind_Ok _ _ w w e) by (unfold slift; by rewrite He).
  destruct (event_steps _ _ _ _ _ EvValidationStarted Hw K1)
    as (w1 & j1 & E1 & Hw1 & Hst1 & (Hid1 & _ & Hp1 & Hcap1 & _) & Hc1 & _ & Hx1 & _); [by rewrite Hst|].
  rewrite (sbind_Ok _ _ _ _ _ E1).
  rewrite (sbind_Ok _ _ w1 w1 c) by (unfold slift; by rewrite Hc1, Hc). rewrite Hcap1. unfold stry at 1.
  destruct (on_ext (v c (requested_capacity_bytes j)) w1) as [w2 [capacity|err]] eqn:E2;
    destruct (ext_runs _ _ _ _ _ _ _ E2 Hw1) as (Hw2 & Hvc & _);
    rewrite <- Hid1 in *; rewrite Hx1 in Hvc.
  - fold (enroll_validated (attempt_count j) (id j1) e capacity).
    destruct (enroll_runs w2 j1 _ (attempt_count j) e capacity Hw2 Hst1) as (w3 & j3 & -> & Hw3 & Hid3 & Hres).
    { repeat constructor; unused. }
    exists w3, j3, c. split; [done|]. split; [done|]. split; [split; congruence|]. eexists _, _, _. split; [exact Hvc|].
    simpl. rewrite <- Hp1. destruct Hres as [(? & h & s & Hrun)|(? & ? & h & s & err & Hrun)];
      eexists h, s, _; (split; [exact Hrun|done]).
  - destruct (fail_retryable_runs w2 (id j1) j1 _ (numbered "validation-failed-" (attempt_count j))
      "VALIDATION_FAILED" "capacity candidate validation failed" Hw2)
      as (w3 & j3 & -> & Hw3 & Hst3 & Herr & _ & Hid3); [unused|by rewrite Hst1|].
    exists w3, j3, c. split; [done|]. split; [done|]. split; [split; [apply Hw3|congruence]|]. eexists _, _, _.
    split; [exact Hvc|]. by simpl.
Qed.
End one_job.

(** ** The automatic flow *)

Section flow.
Context `{Host} `{HashOrder} `{Sha256} `{!UuidUnique} {X : Type} (manager : ProvisioningManager X).

Abbreviation World := ((InMemoryProvisioningState * HostState) * X)%type.

Lemma create_runs (w : World) request :
  store_ok w.1 -> (forall i j, jobs w.1.1 !! i = Some j -> serves request j = false) ->
  exists w' j, on_store (create_or_get_job request) w = (w', Ok j) /\ at_job w' (id j) j ∅ /\
    status j = Created /\ attempt_count j = 0 /\ job_request j = request /\ w'.2 = w.2 /\
    mail_messages w'.1.1 = mail_messages w.1.1 /\ job_wf j.
Proof.
  destruct w as [[st h] x]. simpl. intros Hok Hno. unfold on_store, on_fst. simpl.
  unfold mem_create_or_get_job, sbind, get_state. simpl.
  assert (find_first (serves request) (hash_values (jobs st)) = None) as ->.
  { apply find_first_None. intros j [i Hi]%elem_of_hash_values. by eapply Hno. }
  simpl. eexists _, _. split; [done|]. split.
  2: { split; [done|]. split; [done|]. split; [by destruct request|]. split; [done|]. split; [done|].
       apply job_new_wf. }
  split; simpl; [by rewrite lookup_insert_eq|]. intros k. split; [|set_solver]. intros Hin.
  apply (ok_events _ Hok) in Hin as [j' Hj']. simpl in Hj'.
  pose proof (ok_fresh _ Hok (uuids h) (Nat.le_refl _)) as Hf. simpl in Hf. congruence.
Qed.

Lemma claim_runs (w : World) i j K :
  at_job w i j K -> status j = Created ->
  exists w' j', on_store (claim_start i) w = (w', Ok (Some j')) /\
    at_job w' i j' ({["job-start"%string]} ∪ K) /\ status j' = Starting /\ same_identity j j' /\
    attempt_count j' = next_attempt (attempt_count j) /\ w'.2 = w.2 /\
    mail_messages w'.1.1 = mail_messages w.1.1 /\ (job_wf j -> job_wf j').
Proof.
  destruct w as [[st h] x]. intros [Hj HK] Hst. simpl in *. unfold on_store, on_fst. simpl.
  unfold mem_claim_start, sbind, get_state. simpl. rewrite Hj, Hst. rewrite bool_decide_eq_true_2 by done.
  simpl. unfold apply_in_place, sbind, get_state. simpl. rewrite Hj. simpl.
  pose proof (apply_event_at_wf j EvStart (host_now (ticks h))) as Hwf.
  unfold apply_event_at in *. rewrite Hst in *. simpl in *. eexists _, _. split; [done|]. split; [|by split_and!].
  split; simpl; [by rewrite lookup_insert_eq|]. intros k.
  rewrite !elem_of_union, !elem_of_singleton, HK. naive_solver.
Qed.

Definition alias_domain_ok (domain : string) : bool :=
  let domain := to_ascii_lowercase (trim domain) in
  negb (is_empty domain || contains_char "@"%char domain || any_whitespace (chars domain)).

Lemma alias_runs (w : World) i j K domain ttl :
  at_job w i j K -> alias_domain_ok domain = true ->
  exists w' alias, on_host (generate_email_alias domain ttl) w = (w', Ok alias) /\ at_job w' i j K /\
    w'.2 = w.2 /\ w'.1.1 = w.1.1.
Proof.
  destruct w as [[st h] x]. unfold alias_domain_ok. intros Hw Hd%negb_true_iff.
  unfold on_host, on_fst, on_snd, generate_email_alias. simpl. rewrite Hd. simpl. by eexists _, _.
Qed.

Lemma stry_run {S0 E F A B} (m : stm S0 E A) (k : result A E -> stm S0 F B) s s' r :
  m s = (s', r) -> stry m k s = k r s'.
Proof. unfold stry. by intros ->. Qed.

Lemma ext_sret {A} (a : A) (w : World) : on_ext (S := InMemoryProvisioningState) (sret a) w = (w, Ok a).
Proof. by destruct w as [[s h] x]. Qed.

(** Starting a provisioner that waits for mail. *)
Lemma start_email_runs (w : World) j K b :
  at_job w (id j) j K -> status j = Starting -> registry manager !! provider_type j = Some b ->
  start (provisioner b) (job_request j) = sret RsWaitingForEmail ->
  alias_domain_ok (email_domain manager) = true ->
  numbered "registration-started-" (attempt_count j) ∉ K ->
  numbered "waiting-for-email-" (attempt_count j) ∉ K ->
  exists w' j', start_job manager j w = (w', Ok j') /\
    at_job w' (id j) j' ({[numbered "waiting-for-email-" (attempt_count j)]}
      ∪ ({[numbered "registration-started-" (attempt_count j)]} ∪ K)) /\
    status j' = WaitingForEmail /\ same_identity j j' /\ attempt_count j' = attempt_count j /\ w'.2 = w.2 /\
    mail_messages w'.1.1 = mail_messages w.1.1 /\ (job_wf j -> job_wf j').
Proof.
  intros Hw Hst Hb Hs Hd K1 K2. unfold start_job. rewrite Hb, Hs.
  rewrite (stry_run _ _ _ _ _ (ext_sret RsWaitingForEmail w)).
  destruct (alias_runs w (id j) j K (email_domain manager) (alias_ttl manager) Hw Hd)
    as (w1 & alias & E1 & Hw1 & Hx1 & Hs1).
  rewrite (sbind_Ok _ _ _ _ _ E1).
  destruct (event_steps _ _ _ _ (numbered "registration-started-" (attempt_count j))
    (EvRegistrationStarted (address alias) (alias_expires_at alias)
       (hash_token (bytes_of_string (local_part alias)))) Hw1 K1)
    as (w2 & j2 & E2 & Hw2 & Hst2 & Hid2 & _ & Ha2 & Hx2 & Hm2 & Hwf2 & _); [by rewrite Hst|].
  rewrite (sbind_Ok _ _ _ _ _ E2). simpl in Ha2.
  destruct Hid2 as (Hid2 & Hrest). rewrite Hid2, Ha2.
  destruct (event_steps _ _ _ _ (numbered "waiting-for-email-" (attempt_count j)) EvAwaitingEmail Hw2)
    as (w3 & j3 & -> & Hw3 & Hst3 & Hid3 & _ & Ha3 & Hx3 & Hm3 & Hwf3 & _); [unused|by rewrite Hst2|].
  simpl in Ha3. exists w3, j3. split; [done|]. split; [done|]. split; [done|]. split.
  { unfold same_identity in *. naive_solver congruence. }
  split_and!; [congruence..|auto].
Qed.

Lemma mail_runs (w : World) i j K record :
  at_job w i j K -> message_id record ∉ mail_messages w.1.1 ->
  exists w', on_store (record_mail record) w = (w', Ok true) /\ at_job w' i j K /\ w'.2 = w.2.
Proof.
  destruct w as [[st h] x]. intros Hw Hm. simpl in *. unfold on_store, on_fst. simpl.
  unfold mem_record_mail, sbind, get_state. simpl. rewrite bool_decide_eq_false_2 by done. by eexists.
Qed.

(** Mail that brings a candidate takes the job to its validation. *)
Lemma email_candidate_runs (w : World) j K b record event (Q : X -> CapacityCandidate -> Prop) :
  at_job w (id j) j K -> job_id record = id j -> job_wf j -> status j = WaitingForEmail ->
  message_id record ∉ mail_messages w.1.1 ->
  registry manager !! provider_type j = Some b ->
  (forall j' h, same_identity j j' -> exists h' x' candidate, Q x' candidate /\
     continue_job (provisioner b) j' event (h, w.2) = ((h', x'), Ok (RsCandidateReady candidate))) ->
  ("mail-received-" +:+ message_id record)%string ∉ K ->
  numbered "candidate-ready-" (attempt_count j) ∉ K ->
  exists w1 j1, handle_email_with_record_status manager record event w
      = (let! job := validate_and_enroll manager j1 in sret (job, false)) w1 /\
    at_job w1 (id j) j1 ({[numbered "candidate-ready-" (attempt_count j)]}
      ∪ ({[("mail-received-" +:+ message_id record)%string]} ∪ K)) /\
    status j1 = CandidateReady /\ same_identity j j1 /\ attempt_count j1 = attempt_count j /\ job_wf j1 /\
    exists candidate, Q w1.2 candidate /\ candidate_reference j1 = Some (external_account_id candidate) /\
      credential_reference j1 = Some (cc_credential_reference candidate).
Proof.
  intros Hw Hrid Hwf Hst Hmsg Hb Hcont K1 K2. unfold handle_email_with_record_status. rewrite Hrid.
  rewrite (sbind_Ok _ _ _ _ _ (require_runs w (id j) j K Hw)), Hst. cbn [is_terminal].
  destruct (mail_runs w (id j) j K record Hw Hmsg) as (w1 & E1 & Hw1 & Hx1).
  rewrite (sbind_Ok _ _ _ _ _ E1). cbn [negb]. rewrite bool_decide_eq_true_2 by done.
  destruct (event_steps _ _ _ _ _ (EvEmailReceived (message_id record)) Hw1 K1)
    as (w2 & j2 & E2 & Hw2 & Hst2 & Hid2 & _ & Ha2 & Hx2 & _ & Hwf2 & _); [by rewrite Hst|].
  rewrite (sbind_Ok _ _ _ _ _ E2). pose proof Hid2 as (Hi2 & Hp2 & _). rewrite Hp2, Hb.
  destruct (on_ext (S := InMemoryProvisioningState) (continue_job (provisioner b) j2 event) w2)
    as [w3 r] eqn:E3.
  destruct (ext_runs _ _ _ _ _ _ _ E3 Hw2) as (Hw3 & Hc & _). rewrite Hx2, Hx1 in Hc.
  destruct (Hcont j2 (w2.1.2) Hid2) as (h' & x' & candidate & HQ & Hc'). rewrite Hc' in Hc.
  injection Hc as _ Hx3 <-.
  rewrite (stry_run _ _ _ _ _ E3). cbn [apply_result]. simpl in Ha2. rewrite Hi2, Ha2.
  destruct (event_steps _ _ _ _ (numbered "candidate-ready-" (attempt_count j)) (EvCandidateReady candidate) Hw3)
    as (w4 & j4 & E4 & Hw4 & Hst4 & Hid4 & _ & Ha4 & Hx4 & _ & Hwf4 & Href); [unused|by rewrite Hst2|].
  exists w4, j4. split.
  { unfold sbind at 1 2 3. by rewrite E4. }
  destruct (Href candidate eq_refl). simpl in Ha4. unfold same_identity in *.
  split; [done|]. split; [done|]. split; [naive_solver congruence|]. split; [congruence|].
  split; [by auto|]. exists candidate. by rewrite Hx4, <- Hx3.
Qed.
End flow.

(** ** The fake provider, end to end *)

(** Printable ASCII has neither control nor white-space characters. *)
Lemma printable_clean l :
  Forall (fun c => 32 < code c < 127) l -> any_control l = false /\ any_whitespace l = false.
Proof.
  induction 1 as [|c l Hc _ [IH1 IH2]]; [done|]. split.
  - simpl. rewrite IH1, orb_false_r, !orb_false_iff, andb_false_iff. split_and!.
    + apply Z.ltb_ge. lia.
    + apply Z.eqb_neq. lia.
    + left. apply Z.eqb_neq. lia.
  - simpl. rewrite IH2. cbn [white_space app map strip_first strip_prefix_codes].
    repeat match goal with |- context [code c =? ?z] =>
      rewrite (proj2 (Z.eqb_neq (code c) z)) by lia end. done.
Qed.

Lemma to_hex_printable bs : Forall (fun c => 32 < code c < 127) (chars (to_hex bs)).
Proof.
  apply Forall_forall. intros c Hc%to_hex_chars.
  unfold is_lower_hex, is_ascii_hexdigit, is_ascii_digit in Hc. breflect.
  rewrite !orb_true_iff, !andb_true_iff, !Z.leb_le in *. lia.
Qed.

Lemma memory_reference_ok bs :
  SecretRef_parse ("secret://memory/" +:+ to_hex bs)%string
  = Ok {| secret_ref := ("secret://memory/" +:+ to_hex bs)%string |}.
Proof.
  unfold SecretRef_parse. destruct (printable_clean (chars ("secret://memory/" +:+ to_hex bs)%string)) as [-> ->].
  { rewrite chars_app. apply Forall_app. split; [|apply to_hex_printable].
    apply (bool_decide_unpack _). by vm_compute. }
  assert (starts_with scheme ("secret://memory/" +:+ to_hex bs)%string = true) as ->.
  { unfold starts_with, scheme. simpl. by destruct (to_hex bs). }
  assert (str_len ("secret://memory/" +:+ to_hex bs)%string <=? str_len scheme = false) as ->; [|done].
  apply Z.leb_gt. unfold str_len. rewrite <- !length_chars, chars_app, length_app. simpl. lia.
Qed.

Section fake.
Context `{Host} `{HashOrder} `{Sha256} `{Blake3} `{!UuidUnique}.
Abbreviation World := ((InMemoryProvisioningState * HostState) * MemorySecretStore)%type.

(** The provisioner answers the expected token with a candidate whose secret it
    has just stored. *)
Lemma fake_continue_runs (j : ProvisioningJob) h (x : MemorySecretStore) :
  exists h' x' candidate, is_Some (x' !! secret_ref (cc_credential_reference candidate)) /\
    continue_job FakeAutomaticProvisioner j (VerificationCodeReceived "fake-token") (h, x)
    = ((h', x'), Ok (RsCandidateReady candidate)).
Proof.
  cbn -[SecretRef_parse]. unfold sbind at 1. cbn -[SecretRef_parse].
  unfold memory_put, sbind, on_fst, slift, random16. cbn -[SecretRef_parse]. rewrite memory_reference_ok. cbn.
  eexists _, _, _. split; [|reflexivity]. simpl. rewrite lookup_insert_eq. by eexists.
Qed.

Lemma fake_validate_runs c n h (x : MemorySecretStore) :
  is_Some (x !! secret_ref (cc_credential_reference c)) -> n <= expected_capacity_bytes c ->
  exists capacity, FakeCandidateValidator c n (h, x) = ((h, x), Ok capacity).
Proof.
  intros [m Hm] Hn. unfold FakeCandidateValidator, sbind. simpl. rewrite Hm. simpl.
  rewrite (proj2 (Z.ltb_ge _ _) Hn). unfold bytes_eqb. rewrite bool_decide_eq_true_2 by done. by eexists.
Qed.

Definition fake_binding : ProvisionerBinding MemorySecretStore := {|
  provisioner := FakeAutomaticProvisioner; validator := Some FakeCandidateValidator;
  enroller := Some FakeCandidateEnroller |}.

(** Validation and enrollment of a fake candidate whose secret is stored. *)
Lemma fake_enroll_runs manager (w : World) j K c :
  at_job w (id j) j K -> status j = CandidateReady -> job_wf j ->
  registry manager !! provider_type j = Some fake_binding ->
  is_Some (w.2 !! secret_ref (cc_credential_reference c)) ->
  credential_reference j = Some (cc_credential_reference c) ->
  (forall k, k ∈ attempt_keys (attempt_count j) -> k ∉ K) ->
  exists w' j', validate_and_enroll manager j w = (w', Ok j') /\ jobs w'.1.1 !! id j = Some j' /\
    id j' = id j /\ status j' = Enrolled.
Proof.
  intros Hw Hst Hwf Hb Hsec Hcred Hkeys.
  destruct (validate_runs manager w j K _ _ _ Hw Hst Hwf Hb eq_refl eq_refl Hkeys)
    as (w' & j' & c' & Hrun & Hc' & (Hj' & Hid') & h & s & checked & Hv & Hres).
  exists w', j'. split; [done|]. split; [done|]. split; [done|].
  unfold job_candidate in Hc'. apply rbind_Ok in Hc' as (a & _ & Hc').
  apply rbind_Ok in Hc' as (r & Hr & [= <-]). rewrite Hcred in Hr. injection Hr as <-.
  destruct (fake_validate_runs {| cc_provider_type := provider_type j; external_account_id := a;
    cc_credential_reference := cc_credential_reference c;
    expected_capacity_bytes := requested_capacity_bytes j; metadata := ∅ |}
    (requested_capacity_bytes j) h w.2 Hsec (Z.le_refl _)) as [capacity Hok].
  rewrite Hok in Hv. injection Hv as <- <-. by destruct Hres as (h' & s' & enrolled & [= <- <-] & Hst').
Qed.

(** C23. The automatic flow works end to end: over any store in good order in
    which nothing serves the request yet, asking the manager for capacity of the
    fake provider starts a job that waits for mail, and the verification mail,
    when it has not been seen, enrolls the job. *)
Theorem fake_flow_enrolls (base : ProvisionerRegistry MemorySecretStore) domain ttl request record (w : World) :
  let manager := {| registry := register_fake "fake" base; email_domain := domain; alias_ttl := ttl |} in
  store_ok w.1 -> (forall i j, jobs w.1.1 !! i = Some j -> serves request j = false) ->
  rq_provider_type request = "fake"%string -> alias_domain_ok domain = true ->
  message_id record ∉ mail_messages w.1.1 ->
  exists w1 j1, ensure_capacity manager request w = (w1, Ok j1) /\ status j1 = WaitingForEmail /\
    job_request j1 = request /\
    (job_id record = id j1 -> exists w2 j2,
       handle_email_with_record_status manager record (VerificationCodeReceived "fake-token") w1
         = (w2, Ok (j2, false)) /\
       jobs w2.1.1 !! id j1 = Some j2 /\ status j2 = Enrolled).
Proof.
  intros manager Hok Hno Hp Hd Hmsg.
  assert (Hb : registry manager !! "fake"%string = Some fake_binding) by apply lookup_insert_eq.
  destruct (create_runs w request Hok Hno) as (wa & ja & Ea & Hwa & Hsta & Hna & Hreq & Hxa & Hma & Hwfa).
  destruct (claim_runs wa (id ja) ja ∅ Hwa Hsta)
    as (wb & jb & Eb & Hwb & Hstb & Hidb & Hnb & Hxb & Hmb & Hwfb).
  assert (Hpb : provider_type jb = "fake"%string) by (rewrite <- Hp, <- Hreq; apply Hidb).
  assert (Hnum : attempt_count jb = 1) by (by rewrite Hnb, Hna).
  pose proof Hidb as (Hib & _). rewrite <- Hib in Hwb. rewrite <- Hpb in Hb.
  destruct (start_email_runs manager wb jb _ _ Hwb Hstb Hb)
    as (wc & jc & Ec & Hwc & Hstc & Hidc & Hnc & Hxc & Hmc & Hwfc); [done|done|by unused|by unused|].
  exists wc, jc. split; [|split; [done|split]].
  - unfold ensure_capacity. rewrite (sbind_Ok _ _ _ _ _ Ea), Hsta, bool_decide_eq_true_2 by done.
    cbn [negb]. by rewrite (sbind_Ok _ _ _ _ _ Eb).
  - rewrite <- Hreq. unfold job_request, same_identity in *. destruct_and!. congruence.
  - intros Hrid. pose proof Hidc as (Hic & Hpc & _). rewrite <- Hic in Hwc. rewrite <- Hpc in Hb.
    destruct (email_candidate_runs manager wc jc _ fake_binding record (VerificationCodeReceived "fake-token")
      (fun x c => is_Some (x !! secret_ref (cc_credential_reference c))) Hwc Hrid)
      as (wd & jd & Ed & Hwd & Hstd & Hidd & Hnd & Hwfd & c & HQ & _ & Hcred); [auto|done|congruence|exact Hb| | | |].
    { intros j' h _. apply fake_continue_runs. }
    { by unused. }
    { by unused. }
    pose proof Hidd as (Hdd & Hpd & _). rewrite <- Hdd in Hwd. rewrite <- Hpd in Hb.
    destruct (fake_enroll_runs manager wd jd _ c Hwd Hstd Hwfd Hb HQ Hcred) as (we & je & Ee & Hje & _ & Hste).
    { unfold attempt_keys. intros k. rewrite !elem_of_cons, elem_of_nil.
      intros Hk. destruct_or! Hk; subst k; by unused. }
    exists we, je. rewrite Ed, (sbind_Ok _ _ _ _ _ Ee). split; [done|]. split; [congruence|done].
Qed.
End fake.

(** ** Outcomes of a job *)

Section outcomes.
Context `{Host} `{HashOrder} `{Sha256} {X : Type} (manager : ProvisioningManager X).
Abbreviation World := ((InMemoryProvisioningState * HostState) * X)%type.

(** The event keys of a job. *)
Definition keys_of (w : World) (i : Uuid) : gset string :=
  set_map snd (filter (fun p : Uuid * string => p.1 = i) (event_keys w.1.1)).

Lemma at_job_here w i j : jobs w.1.1 !! i = Some j -> at_job w i j (keys_of w i).
Proof.
  intros Hj. split; [done|]. intros k. unfold keys_of. rewrite elem_of_map. split.
  - intros Hin. exists (i, k). split; [done|]. by apply elem_of_filter.
  - by intros ([i' k'] & -> & [<- Hin]%elem_of_filter).
Qed.

(** C26. Validation decides: a job at [CandidateReady] whose keys for the
    attempt are unused runs through exactly one call of the validator, on the
    candidate it carries, and one of the enroller when that succeeds; it ends
    enrolled when both succeed and retryable, with the code of the step that
    failed, otherwise. *)
Theorem validation_decides w j b v e :
  jobs w.1.1 !! id j = Some j -> status j = CandidateReady -> job_wf j ->
  registry manager !! provider_type j = Some b -> validator b = Some v -> enroller b = Some e ->
  (forall k, k ∈ attempt_keys (attempt_count j) -> k ∉ keys_of w (id j)) ->
  exists w' j' c, validate_and_enroll manager j w = (w', Ok j') /\ job_candidate j = Ok c /\
    jobs w'.1.1 !! id j = Some j' /\
    exists h s checked, v c (requested_capacity_bytes j) (h, w.2) = (s, checked) /\
    match checked with
    | Err _ => status j' = FailedRetryable /\ last_error_code j' = Some "VALIDATION_FAILED"%string
    | Ok capacity => exists h' s' enrolled, e (pool_id j) capacity (h', s.2) = (s', enrolled) /\
        match enrolled with
        | Err _ => status j' = FailedRetryable /\ last_error_code j' = Some "ENROLLMENT_FAILED"%string
        | Ok _ => status j' = Enrolled
        end
    end.
Proof.
  intros Hj Hst Hwf Hb Hv He Hkeys.
  destruct (validate_runs manager w j _ b v e (at_job_here w (id j) j Hj) Hst Hwf Hb Hv He Hkeys)
    as (w' & j' & c & Hrun & Hc & (Hj' & _) & Hres). exists w', j', c. done.
Qed.

(** C27. A defect of the retry of a job that waits for an operator: the key
    [needs-operator] carries no attempt number, so when a job that already
    needed an operator failed and is retried, the answer of a manual
    provisioner is dropped; the job stays [STARTING], where neither the operator
    nor another retry can move it. *)
Theorem manual_retry_stuck w j b action candidate :
  jobs w.1.1 !! id j = Some j -> status j = FailedRetryable ->
  registry manager !! provider_type j = Some b ->
  (forall request, start (provisioner b) request = sret (RsNeedsOperator action)) ->
  "needs-operator"%string ∈ keys_of w (id j) ->
  numbered "operator-retry-" (next_attempt (attempt_count j)) ∉ keys_of w (id j) ->
  exists w' j', retry_job manager (id j) w = (w', Ok j') /\
    jobs w'.1.1 !! id j = Some j' /\ status j' = Starting /\
    (complete_manual manager (id j) candidate w').2
      = Err (PConflict "only jobs waiting for an operator can be completed manually") /\
    (retry_job manager (id j) w').2 = Err (PConflict "only retryable provisioning jobs can be retried").
Proof.
  intros Hj%at_job_here Hst Hb Hstart Hseen Hfresh. unfold retry_job at 1.
  rewrite (sbind_Ok _ _ _ _ _ (require_runs _ _ _ _ Hj)), Hst, bool_decide_eq_true_2 by done. cbn [negb].
  destruct (event_steps _ _ _ _ _ EvRetryTimer Hj Hfresh)
    as (w1 & j1 & E1 & Hw1 & Hst1 & (Hid1 & Hp1 & _) & _); [by rewrite Hst|].
  rewrite (sbind_Ok _ _ _ _ _ E1). unfold start_job. rewrite Hp1, Hb, Hstart.
  rewrite (stry_run _ _ _ _ _ (ext_sret (RsNeedsOperator action) w1)). cbn [apply_result]. rewrite Hid1.
  rewrite (event_seen w1 (id j) j1 _ "needs-operator" _ Hw1) by set_solver.
  exists w1, j1. split_and!; [done|apply Hw1|done| |].
  - unfold complete_manual. by rewrite (sbind_Ok _ _ _ _ _ (require_runs _ _ _ _ Hw1)), Hst1.
  - unfold retry_job. by rewrite (sbind_Ok _ _ _ _ _ (require_runs _ _ _ _ Hw1)), Hst1.
Qed.

(** C28. A provisioner that answers [start] with a candidate, or that waits for
    the provider, cannot make progress: no event leads from [STARTING] there, so
    the manager reports an invalid transition and the job stays [STARTING]. *)
Theorem immediate_candidate_rejected w j b result :
  jobs w.1.1 !! id j = Some j -> status j = Starting ->
  registry manager !! provider_type j = Some b ->
  (result = RsWaitingForProvider \/ exists c, result = RsCandidateReady c) ->
  (forall request, start (provisioner b) request = sret result) ->
  numbered "waiting-for-provider-" (attempt_count j) ∉ keys_of w (id j) ->
  numbered "candidate-ready-" (attempt_count j) ∉ keys_of w (id j) ->
  exists w' event, start_job manager j w = (w', Err (PInvalidTransition "STARTING" event)) /\
    jobs w'.1.1 !! id j = Some j.
Proof.
  intros Hj%at_job_here Hst Hb Hres Hstart K1 K2. unfold start_job. rewrite Hb, Hstart.
  rewrite (stry_run _ _ _ _ _ (ext_sret result w)). destruct Hres as [->|[c ->]].
  - destruct (event_rejected w (id j) j _ _ EvProviderReady Hj K1) as (w' & -> & Hw'); [by rewrite Hst|].
    eexists w', _. split; [by rewrite Hst|apply Hw'].
  - cbn [apply_result].
    destruct (event_rejected w (id j) j _ _ (EvCandidateReady c) Hj K2) as (w' & E & Hw'); [by rewrite Hst|].
    eexists w', _. unfold sbind. rewrite E. split; [by rewrite Hst|apply Hw'].
Qed.
End outcomes.

(** ** Concrete instances *)

Definition toy_mail (key : Uuid) : ProvisioningMailRecord := {|
  message_id := "message-1"; body_sha256 := ""; envelope_from := None; envelope_to := "p@example.org";
  from_header := None; subject := None; job_id := key |}.

Theorem fake_flow_enrolls_witness :
  exists w1 j1, @ensure_capacity toy_host toy_sha _ _ toy_store toy_manager fake_request toy_world = (w1, Ok j1) /\
    status j1 = WaitingForEmail /\
    (id j1 = 0 -> exists w2 j2, @handle_email_with_record_status toy_host _ _ toy_store toy_manager
        (toy_mail 0) (VerificationCodeReceived "fake-token") w1 = (w2, Ok (j2, false)) /\ status j2 = Enrolled).
Proof.
  destruct (@fake_flow_enrolls toy_host key_order toy_sha toy_blake toy_uuid_unique ∅ "example.org" (hours 1) fake_request
    (toy_mail 0) toy_world) as (w1 & j1 & Hrun & Hst & _ & Hmail).
  - apply store_init_ok.
  - intros i j Hj. simpl in Hj. by rewrite lookup_empty in Hj.
  - reflexivity.
  - vm_compute. reflexivity.
  - simpl. set_solver.
  - exists w1, j1. split; [exact Hrun|]. split; [exact Hst|]. intros Hid.
    destruct (Hmail (eq_sym Hid)) as (w2 & j2 & H2 & _ & H3). exists w2, j2. split; [exact H2|exact H3].
Defined.

(** A MEGA registry whose validator rejects every candidate. *)
Definition reject_all : CapacityCandidateValidator unit := fun _ _ => sfail (PProvider "rejected").

Definition mega_manager (p : CapacityProvisioner unit) : ProvisioningManager unit :=
  manager_new (register_with_validation "mega" p reject_all (fun _ _ => sret tt) ∅).

Definition mega_world : (InMemoryProvisioningState * HostState) * unit := ((empty_state, host_init), tt).

Definition run_world {E A} (m : stm ((InMemoryProvisioningState * HostState) * unit) E A) w := (m w).1.

(** The operator completed the job, the validator rejected the candidate. *)
Definition rejected_world : (InMemoryProvisioningState * HostState) * unit :=
  let m := mega_manager manual_mega_provisioner in
  let w := run_world (@ensure_capacity toy_host toy_sha _ _ toy_store m toy_request) mega_world in
  run_world (@complete_manual toy_host _ _ toy_store m 0 toy_candidate) w.

Theorem manual_retry_stuck_witness :
  exists w' j', @retry_job toy_host toy_sha _ _ toy_store (mega_manager manual_mega_provisioner) 0 rejected_world
      = (w', Ok j') /\ status j' = Starting /\
    (@retry_job toy_host toy_sha _ _ toy_store (mega_manager manual_mega_provisioner) 0 w').2
      = Err (PConflict "only retryable provisioning jobs can be retried").
Proof.
  destruct (jobs rejected_world.1.1 !! 0) as [j|] eqn:Hj; [|vm_compute in Hj; discriminate].
  assert (Hfacts : status j = FailedRetryable /\ id j = 0 /\ provider_type j = "mega"%string /\ attempt_count j = 1).
  { vm_compute in Hj. injection Hj as <-. repeat split; reflexivity. }
  destruct Hfacts as (Hst & Hid & Hp & Hn). rewrite <- Hid in Hj.
  destruct (@manual_retry_stuck toy_host key_order toy_sha _ (mega_manager manual_mega_provisioner)
    rejected_world j {| provisioner := manual_mega_provisioner; validator := Some reject_all;
      enroller := Some (fun _ _ => sret tt) |} manual_action toy_candidate Hj Hst)
    as (w' & j' & Hrun & _ & Hst' & _ & Hretry).
  - rewrite Hp. apply lookup_insert_eq.
  - intros request. reflexivity.
  - rewrite Hid. apply (bool_decide_unpack _). vm_compute. exact I.
  - rewrite Hid, Hn. apply (bool_decide_unpack _). vm_compute. exact I.
  - rewrite Hid in *. exists w', j'. split; [exact Hrun|]. split; [exact Hst'|exact Hretry].
Defined.

(** The operator just supplied a candidate. *)
Definition completed_world : (InMemoryProvisioningState * HostState) * unit :=
  let w := run_world (@ensure_capacity toy_host toy_sha _ _ toy_store
    (mega_manager manual_mega_provisioner) toy_request) mega_world in
  run_world (@store_event _ _ toy_store 0 "operator-complete" (EvOperatorCompleted toy_candidate)) w.

Lemma completed_world_ok : store_ok (H := toy_host) completed_world.1.
Proof.
  unfold completed_world, run_world.
  apply (@event_kept toy_host InMemoryProvisioningState unit toy_store store_ok
    (@store_ok_invariant toy_host key_order toy_uuid_unique)).
  apply (@ensure_kept toy_host toy_sha InMemoryProvisioningState unit toy_store
    (mega_manager manual_mega_provisioner) store_ok (@store_ok_invariant toy_host key_order toy_uuid_unique)).
  - intros t b Hb. simpl in Hb. unfold register_with_validation in Hb. rewrite lookup_insert_Some in Hb.
    destruct Hb as [[<- <-]|[_ Hb]]; [|by rewrite lookup_empty in Hb].
    split; [by intros request h x|]. split; [by intros job event h x|]. split.
    + intros v [= <-] c n h x. done.
    + intros e [= <-] pool c h x. done.
  - apply store_init_ok.
Qed.

Theorem validation_decides_witness :
  exists w' j', status j' = FailedRetryable /\ last_error_code j' = Some "VALIDATION_FAILED"%string /\
    exists j, jobs completed_world.1.1 !! 0 = Some j /\
      @validate_and_enroll toy_host _ _ toy_store (mega_manager manual_mega_provisioner) j completed_world
        = (w', Ok j').
Proof.
  destruct (jobs completed_world.1.1 !! 0) as [j|] eqn:Hj; [|vm_compute in Hj; discriminate].
  assert (Hfacts : status j = CandidateReady /\ id j = 0 /\ provider_type j = "mega"%string /\ attempt_count j = 1).
  { vm_compute in Hj. injection Hj as <-. repeat split; reflexivity. }
  destruct Hfacts as (Hst & Hid & Hp & Hn).
  pose proof (proj2 (ok_jobs _ completed_world_ok _ _ Hj)) as Hwf. pose proof Hj as Hj0. rewrite <- Hid in Hj.
  destruct (@validation_decides toy_host key_order unit (mega_manager manual_mega_provisioner)
    completed_world j {| provisioner := manual_mega_provisioner; validator := Some reject_all;
      enroller := Some (fun _ _ => sret tt) |} reject_all (fun _ _ => sret tt) Hj Hst Hwf)
    as (w' & j' & c & Hrun & _ & _ & h & s & checked & Hv & Hres).
  - rewrite Hp. apply lookup_insert_eq.
  - reflexivity.
  - reflexivity.
  - rewrite Hid, Hn. intros k Hk. revert k Hk. apply Forall_forall. apply (bool_decide_unpack _).
    vm_compute. exact I.
  - unfold reject_all, sfail in Hv. injection Hv as _ <-. destruct Hres as [Hs Hc].
    exists w', j'. split; [exact Hs|]. split; [exact Hc|]. exists j. split; [reflexivity|exact Hrun].
Defined.

(** A provisioner that has a candidate at once. *)
Definition immediate_provisioner : CapacityProvisioner unit := {|
  capabilities := capabilities (X := unit) manual_mega_provisioner;
  start := fun _ => sret (RsCandidateReady toy_candidate);
  continue_job := fun _ _ => sret RsWaitingForEmail |}.

Definition claimed_world : (InMemoryProvisioningState * HostState) * unit :=
  ((@claim_start _ toy_store 0 toy_created).1, tt).

Theorem immediate_candidate_rejected_witness :
  exists j w' event, jobs claimed_world.1.1 !! 0 = Some j /\
    @start_job toy_host toy_sha _ _ toy_store (mega_manager immediate_provisioner) j claimed_world
      = (w', Err (PInvalidTransition "STARTING" event)).
Proof.
  destruct (jobs claimed_world.1.1 !! 0) as [j|] eqn:Hj; [|vm_compute in Hj; discriminate].
  assert (Hfacts : status j = Starting /\ id j = 0 /\ provider_type j = "mega"%string /\ attempt_count j = 1).
  { vm_compute in Hj. injection Hj as <-. repeat split; reflexivity. }
  destruct Hfacts as (Hst & Hid & Hp & Hn). pose proof Hj as Hj0. rewrite <- Hid in Hj.
  destruct (@immediate_candidate_rejected toy_host key_order toy_sha unit (mega_manager immediate_provisioner)
    claimed_world j {| provisioner := immediate_provisioner; validator := Some reject_all;
      enroller := Some (fun _ _ => sret tt) |} (RsCandidateReady toy_candidate) Hj Hst)
    as (w' & event & Hrun & _).
  - rewrite Hp. apply lookup_insert_eq.
  - right. exists toy_candidate. reflexivity.
  - intros request. reflexivity.
  - rewrite Hid, Hn. apply (bool_decide_unpack _). vm_compute. exact I.
  - rewrite Hid, Hn. apply (bool_decide_unpack _). vm_compute. exact I.
  - exists j, w', event. split; [reflexivity|exact Hrun].
Defined.
