(* ===== verification/Email.v ===== *)
(** * Inbound mail ([provisioning/src/email.rs])

    The signature the mail relay puts on a message, the MIME reader, and the
    parsers that turn a message into an event of the provisioning machine.
    HMAC-SHA-256, base64 and the range of dates are third-party code and
    parameters. *)
From stdpp Require Import base gmap strings list pretty.
From Stdlib Require Import ZArith Lia Ascii.
From coqutil Require Import Byte.
From S2P Require Import Prelude Text Bytes Strings Storage Provisioning ProvManager.
Local Open Scope Z_scope.

(** ** Parameters *)

(** [HmacSha256::new_from_slice] followed by [update] and [finalize]: the tag,
    or nothing for a key it refuses; [verify_slice] compares with it. *)
Class HmacSha256 : Type := hmac_sha256 : list byte -> list byte -> option (list byte).

(** [STANDARD.encode] and [STANDARD.decode]. *)
Class Base64 : Type := {
  b64_encode : list byte -> string;
  b64_decode : list byte -> option (list byte)
}.

Class Base64Laws `{Base64} : Prop :=
  b64_roundtrip bs : b64_decode (bytes_of_string (b64_encode bs)) = Some bs.

(** ** The signature *)

Record EmailIngestHeaders : Type := {
  eh_timestamp : Z;
  eh_nonce : string;
  signature : string;
  eh_envelope_from : option string;
  eh_envelope_to : string
}.

Record EmailIngestVerification : Type := {
  ev_timestamp : Z;
  ev_nonce : string;
  ev_body_sha256 : string;
  ev_envelope_from : option string;
  ev_envelope_to : string
}.

Definition newline : string := String (ascii_of_code 10) EmptyString.

Definition canonical_email_payload (timestamp : Z) (nonce body_sha256 : string)
  (envelope_from : option string) (envelope_to : string) : string :=
  (pretty timestamp +:+ newline +:+ nonce +:+ newline +:+ body_sha256 +:+ newline
     +:+ default "" envelope_from +:+ newline +:+ envelope_to)%string.

Definition sha256_hex `{Sha256} (body : list byte) : string := to_hex (sha256 body).

Definition compute_email_hmac `{Sha256} `{HmacSha256} `{Base64} (secret : list byte) (timestamp : Z)
  (nonce : string) (envelope_from : option string) (envelope_to : string) (body : list byte)
  : result string ProvisioningError :=
  if bool_decide (secret = []) then Err (PConfiguration "email HMAC secret is empty")
  else
    let canonical := canonical_email_payload timestamp nonce (sha256_hex body) envelope_from envelope_to in
    let? tag := ok_or (hmac_sha256 secret (bytes_of_string canonical)) (PConfiguration "invalid HMAC secret") in
    Ok (b64_encode tag).

(** [DateTime::from_timestamp], in nanoseconds; times and durations are whole
    nanoseconds and [num_seconds] truncates. *)
Definition num_seconds (nanoseconds : Z) : Z := Z.quot nanoseconds (10 ^ 9).

Definition verify_email_ingest `{Sha256} `{HmacSha256} `{Base64} (from_timestamp : Z -> option Z)
  (headers : EmailIngestHeaders) (secret body : list byte) (now allowed_clock_skew : Z)
  : result EmailIngestVerification ProvisioningError :=
  if is_empty (trim (eh_nonce headers)) || is_empty (trim (eh_envelope_to headers))
  then Err (PSecurity "missing mail nonce or recipient")
  else
    let? timestamp := ok_or (from_timestamp (eh_timestamp headers)) (PSecurity "invalid mail timestamp") in
    let age := Z.abs (num_seconds (now - timestamp)) in
    if Z.max (num_seconds allowed_clock_skew) 0 <? age
    then Err (PSecurity "mail signature timestamp is outside the allowed skew")
    else
      let body_sha256 := sha256_hex body in
      let canonical := canonical_email_payload (eh_timestamp headers) (eh_nonce headers) body_sha256
                         (eh_envelope_from headers) (eh_envelope_to headers) in
      let? tag := ok_or (hmac_sha256 secret (bytes_of_string canonical)) (PConfiguration "invalid HMAC secret") in
      let? supplied := ok_or (b64_decode (bytes_of_string (signature headers)))
                         (PSecurity "mail signature is not valid base64") in
      if negb (bytes_eqb supplied tag) then Err (PSecurity "mail signature mismatch")
      else Ok {| ev_timestamp := eh_timestamp headers; ev_nonce := eh_nonce headers;
                 ev_body_sha256 := body_sha256; ev_envelope_from := eh_envelope_from headers;
                 ev_envelope_to := eh_envelope_to headers |}.

(** [str::parse::<i64>]. *)
Definition parse_i64 (s : string) : option Z :=
  match chars s with
  | c :: l =>
      if char_eqb c "-" then
        match l with
        | [] => None
        | _ => match parse_digits (2 ^ 63) 0 l with Ok z => Some (- z) | Err _ => None end
        end
      else match parse_uint (2 ^ 63 - 1) s with Ok z => Some z | Err _ => None end
  | [] => None
  end.

(** [EmailIngestHeaders::from_str]. *)
Definition EmailIngestHeaders_from_str (value : string) : result EmailIngestHeaders ProvisioningError :=
  let fields : gmap string string := fold_left (fun fields item =>
    match split_once "=" item with
    | Some (key, value) => <[to_ascii_lowercase (trim key) := trim value]> fields
    | None => fields
    end) (split_on ";"%char value) ∅ in
  let? timestamp := ok_or (fields !! "timestamp"%string) (PSecurity "missing timestamp") in
  let? timestamp := ok_or (parse_i64 timestamp) (PSecurity "invalid timestamp") in
  let? nonce := ok_or (fields !! "nonce"%string) (PSecurity "missing nonce") in
  let? signature := ok_or (fields !! "signature"%string) (PSecurity "missing signature") in
  let? to := ok_or (fields !! "to"%string) (PSecurity "missing recipient") in
  Ok {| eh_timestamp := timestamp; eh_nonce := nonce; signature := signature;
        eh_envelope_from := fields !! "from"%string; eh_envelope_to := to |}.

(** ** Messages *)

Record ParsedMail : Type := {
  pm_message_id : option string;
  from : option string;
  to : list string;
  pm_subject : option string;
  date : option string;
  text_plain : option string;
  text_html : option string;
  headers : gmap string string
}.

Definition set_text_plain (t : option string) (m : ParsedMail) : ParsedMail := {|
  pm_message_id := pm_message_id m; from := from m; to := to m; pm_subject := pm_subject m; date := date m;
  text_plain := t; text_html := text_html m; headers := headers m |}.
Definition set_text_html (t : option string) (m : ParsedMail) : ParsedMail := {|
  pm_message_id := pm_message_id m; from := from m; to := to m; pm_subject := pm_subject m; date := date m;
  text_plain := text_plain m; text_html := t; headers := headers m |}.

(** [windows(n).position(== p)], and the slices around the match. *)
Fixpoint find_bytes (p l : list byte) : option (list byte * list byte) :=
  if bytes_prefix p l then Some ([], drop (length p) l)
  else match l with
       | [] => None
       | b :: l' => match find_bytes p l' with
                    | Some (before, after) => Some (b :: before, after)
                    | None => None
                    end
       end.

Definition CR : byte := Byte.x0d.
Definition LF : byte := Byte.x0a.

Definition split_headers_body (raw : list byte) : option (list byte * list byte) :=
  match find_bytes [CR; LF; CR; LF] raw with
  | Some r => Some r
  | None => find_bytes [LF; LF] raw
  end.

(** The loop of [parse_headers]: the headers read, and the one that may still
    continue. *)
Definition header_line (st : gmap string string * option (string * string)) (line : string)
  : result (gmap string string * option (string * string)) ProvisioningError :=
  let '(values, current) := st in
  if starts_with " " line || starts_with (String (ascii_of_code 9) EmptyString) line then
    Ok (values, match current with
                | Some (name, value) => Some (name, (value +:+ " " +:+ trim line)%string)
                | None => None
                end)
  else
    let values := match current with
                  | Some (name, value) => <[name := trim value]> values
                  | None => values
                  end in
    let? nv := ok_or (split_once ":" line) (PMail "malformed MIME header") in
    let name := to_ascii_lowercase (trim nv.1) in
    if is_empty name then Err (PMail "MIME header name is empty")
    else Ok (values, Some (name, trim nv.2)).

Definition parse_headers (raw : list byte) : result (gmap string string) ProvisioningError :=
  let? st := try_fold header_line (∅, None) (lines (from_utf8_lossy raw)) in
  Ok (match st.2 with
      | Some (name, value) => <[name := trim value]> st.1
      | None => st.1
      end).

Definition is_line_end (c : ascii) : bool := (code c =? 13) || (code c =? 10).

Fixpoint take_parts (segments : list string) : list (list byte) :=
  match segments with
  | [] => []
  | segment :: segments =>
      if starts_with "--" segment then []
      else
        let segment := trim_end_set is_line_end (trim_start_set is_line_end segment) in
        if is_empty segment then take_parts segments else bytes_of_string segment :: take_parts segments
  end.

Definition split_multipart (body : list byte) (boundary : string) : list (list byte) :=
  take_parts (tail (split_str ("--" +:+ boundary)%string (from_utf8_lossy body))).

Definition hex_value (value : byte) : result Z ProvisioningError :=
  let z := byte.unsigned value in
  if (48 <=? z) && (z <=? 57) then Ok (z - 48)
  else if (97 <=? z) && (z <=? 102) then Ok (z - 97 + 10)
  else if (65 <=? z) && (z <=? 70) then Ok (z - 65 + 10)
  else Err (PMail "invalid quoted-printable escape").

(** [decode_quoted_printable] from an index on: the rest of the body. *)
Fixpoint decode_quoted_printable (body : list byte) : result (list byte) ProvisioningError :=
  match body with
  | [] => Ok []
  | b :: rest =>
      if byte.unsigned b =? 61 then
        match rest with
        | x :: rest1 =>
            match rest1 with
            | y :: rest2 =>
                if (byte.unsigned x =? 13) && (byte.unsigned y =? 10) then decode_quoted_printable rest2
                else if byte.unsigned x =? 10 then decode_quoted_printable rest1
                else
                  let? high := hex_value x in
                  let? low := hex_value y in
                  let? out := decode_quoted_printable rest2 in
                  Ok (byte.of_Z (Z.lor (Z.shiftl high 4) low) :: out)
            | [] =>
                if byte.unsigned x =? 10 then decode_quoted_printable rest1
                else Err (PMail "truncated quoted-printable body")
            end
        | [] => Err (PMail "truncated quoted-printable body")
        end
      else let? out := decode_quoted_printable rest in Ok (b :: out)
  end.

(** [u8::is_ascii_whitespace]. *)
Definition is_ascii_whitespace (b : byte) : bool :=
  let z := byte.unsigned b in (z =? 32) || (z =? 9) || (z =? 10) || (z =? 12) || (z =? 13).

Definition decode_transfer_encoding `{Base64} (body : list byte) (encoding : option string)
  : result (list byte) ProvisioningError :=
  let encoding := to_ascii_lowercase (trim (default "" encoding)) in
  if String.eqb encoding "base64" then
    ok_or (b64_decode (filter (fun b => is_ascii_whitespace b = false) body))
      (PMail "invalid base64 MIME body")
  else if String.eqb encoding "quoted-printable" then decode_quoted_printable body
  else Ok body.

Definition quote_char : ascii := ascii_of_code 34.

(** The first parameter with the name that the [find_map] meets. *)
Definition parameter (content_type name : string) : option string :=
  head (omap (fun part =>
    match split_once "=" (trim part) with
    | Some (key, value) =>
        if eq_ignore_ascii_case (trim key) name then Some (trim_set (char_eqb quote_char) (trim value)) else None
    | None => None
    end) (tail (split_on ";"%char content_type))).

Definition extract_address (part : string) : option string :=
  let part := trim part in
  let inner := match rsplit_once "<"%char part with
               | Some (_, rest) => match split_once ">" rest with Some (email, _) => Some email | None => None end
               | None => None
               end in
  let address := to_ascii_lowercase (trim (default part inner)) in
  if negb (is_empty address) && contains_char "@"%char address then Some address else None.

Definition extract_addresses (value : string) : list string :=
  omap extract_address (split_on ","%char value).

Definition decode_header_base64 `{Base64} (value : string) : option (list byte) :=
  let padding := (4 - str_len value mod 4) mod 4 in
  b64_decode (bytes_of_string (value +:+ of_chars (replicate (Z.to_nat padding) "="%char))%string).

(** One encoded word, between [=?] and [?=]. *)
Definition decode_word `{Base64} (encoded : string) : option string :=
  match splitn3 "?"%char encoded with
  | (_, Some encoding, Some data) =>
      if eq_ignore_ascii_case encoding "b" then option_map from_utf8_lossy (decode_header_base64 data)
      else if eq_ignore_ascii_case encoding "q" then
        match decode_quoted_printable (bytes_of_string (replace_char "_" " " data)) with
        | Ok bytes => Some (from_utf8_lossy bytes)
        | Err _ => None
        end
      else None
  | _ => None
  end.

(** The loop of [decode_header_value]; each turn consumes four characters at
    least, so the length of the text is enough fuel. *)
Fixpoint decode_header_loop `{Base64} (fuel : nat) (output remaining : string) : string :=
  match fuel with
  | O => trim (output +:+ remaining)
  | S fuel' =>
      match split_once "=?" remaining with
      | None => trim (output +:+ remaining)
      | Some (before, after) =>
          match split_once "?=" after with
          | None => (output +:+ before +:+ "=?" +:+ after)%string
          | Some (encoded, rest) =>
              let word := default ("=?" +:+ encoded +:+ "?=")%string (decode_word encoded) in
              decode_header_loop fuel' (output +:+ before +:+ word)%string rest
          end
      end
  end.
Definition decode_header_value `{Base64} (value : string) : string :=
  decode_header_loop (S (String.length value)) EmptyString value.

Definition append_text (existing : option string) (text : string) : option string :=
  Some (match existing with
        | Some existing => (existing +:+ newline +:+ text)%string
        | None => text
        end).

(** A part that is not multipart. *)
Definition parse_leaf `{Base64} (content_type : string) (hs : gmap string string) (body : list byte)
  (parsed : ParsedMail) : result ParsedMail ProvisioningError :=
  if negb (starts_with "text/plain" content_type) && negb (starts_with "text/html" content_type) then Ok parsed
  else
    let? decoded := decode_transfer_encoding body (hs !! "content-transfer-encoding"%string) in
    let text := trim (from_utf8_lossy decoded) in
    if is_empty text then Ok parsed
    else if starts_with "text/html" content_type
    then Ok (set_text_html (append_text (text_html parsed) text) parsed)
    else Ok (set_text_plain (append_text (text_plain parsed) text) parsed).

(** The media type of a part, lowercased as the source does before it reads
    the parameters. *)
Definition content_type_of (hs : gmap string string) : string :=
  match hs !! "content-type"%string with Some value => to_ascii_lowercase value | None => "text/plain" end.

(** [parse_part] at depth [13 - levels]. *)
Fixpoint parse_part `{Base64} (levels : nat) (hs : gmap string string) (body : list byte) (parsed : ParsedMail)
  : result ParsedMail ProvisioningError :=
  match levels with
  | O => Err (PMail "MIME nesting is too deep")
  | S levels' =>
      let content_type := content_type_of hs in
      if starts_with "multipart/" content_type then
        let? boundary := ok_or (parameter content_type "boundary") (PMail "multipart message has no boundary") in
        try_fold (fun parsed part =>
          match split_headers_body part with
          | None => Ok parsed
          | Some (part_headers, part_body) =>
              let? part_headers := parse_headers part_headers in
              parse_part levels' part_headers part_body parsed
          end) parsed (split_multipart body boundary)
      else parse_leaf content_type hs body parsed
  end.

Definition parse_mime `{Base64} (raw : list byte) (max_bytes : Z) : result ParsedMail ProvisioningError :=
  if (0 <? max_bytes) && (max_bytes <? len64 raw)
  then Err (PMail ("inbound message exceeds configured limit of " +:+ fmt_u max_bytes +:+ " bytes")%string)
  else
    let? split := ok_or (split_headers_body raw) (PMail "MIME message has no header/body separator") in
    let '(header_bytes, body_bytes) := split in
    let? hs := parse_headers header_bytes in
    parse_part 13 hs body_bytes {|
      pm_message_id := option_map trim (hs !! "message-id"%string);
      from := option_map decode_header_value (hs !! "from"%string);
      to := match hs !! "to"%string with Some value => extract_addresses value | None => [] end;
      pm_subject := option_map decode_header_value (hs !! "subject"%string);
      date := hs !! "date"%string;
      text_plain := None; text_html := None; headers := hs |}.

(** ** Parsers *)

Record ProvisioningEmailParser : Type := {
  parser_provider_type : string;
  matches_mail : ParsedMail -> bool;
  parse_mail : ParsedMail -> result ProvisioningEmailEvent ProvisioningError
}.

Abbreviation ParserRegistry := (gmap string ProvisioningEmailParser).

Definition register_parser (parser : ProvisioningEmailParser) (registry : ParserRegistry) : ParserRegistry :=
  <[parser_provider_type parser := parser]> registry.

(** [ProvisioningEmailParserRegistry::parse]. *)
Definition registry_parse (registry : ParserRegistry) (provider_type : string) (mail : ParsedMail)
  : result ProvisioningEmailEvent ProvisioningError :=
  let? parser := ok_or (registry !! provider_type)
    (PMail ("no email parser registered for " +:+ provider_type)%string) in
  if negb (matches_mail parser mail) then Err (PMail "email does not match the provider parser")
  else parse_mail parser mail.

Definition token_marker : string := "FAKE-PROVISION-TOKEN:".

Definition FakeProvisioningEmailParser : ProvisioningEmailParser := {|
  parser_provider_type := "fake";
  matches_mail mail :=
    match pm_subject mail with
    | Some subject => contains_str "fake verification" (to_ascii_lowercase subject)
    | None => false
    end
    || match text_plain mail with Some body => contains_str token_marker body | None => false end;
  parse_mail mail :=
    let body := default ""%string (text_plain mail) in
    let token := match split_once token_marker body with
                 | Some (_, value) => Some (trim (default ""%string (head (lines value))))
                 | None => None
                 end in
    match token with
    | Some token => if is_empty token then Err (PMail "fake verification token is missing")
                    else Ok (VerificationCodeReceived token)
    | None => Err (PMail "fake verification token is missing")
    end
|}.

Definition MegaProvisioningEmailParser : ProvisioningEmailParser := {|
  parser_provider_type := "mega";
  matches_mail _ := false;
  parse_mail _ := Err (PMail "MEGA email automation is intentionally not implemented")
|}.
