(* ===== verification/EmailProps.v ===== *)
(** * What the mail signature covers, and what the MIME reader recovers *)
From stdpp Require Import base gmap strings list pretty.
From Stdlib Require Import ZArith Lia Ascii.
From coqutil Require Import Byte.
From S2P Require Import Prelude Text Bytes Strings Storage Provisioning ProvManager Email.
Local Open Scope Z_scope.

(** ** Lines *)

Lemma line_app_inj {A} (c : A) a b x y :
  c ∉ a -> c ∉ b -> a ++ c :: x = b ++ c :: y -> a = b /\ x = y.
Proof.
  revert b. induction a as [|d a IH]; intros [|e b] Ha Hb E; simpl in E; injection E; [done|..].
  - intros _ ->. destruct Hb. left.
  - intros _ ->. destruct Ha. left.
  - rewrite not_elem_of_cons in Ha, Hb. intros E' ->.
    destruct (IH b (proj2 Ha) (proj2 Hb) E') as [-> ->]. done.
Qed.

Lemma pretty_N_go_chars n : forall s c, c ∈ chars (pretty_N_go n s) -> is_ascii_digit c = true \/ c ∈ chars s.
Proof.
  induction (N.lt_wf_0 n) as [n _ IH]. intros s c.
  assert (n = 0 \/ 0 < n)%N as [->|Hn] by lia; [rewrite pretty_N_go_0; by right|].
  rewrite pretty_N_go_step by done. intros Hc. apply IH in Hc; [|apply N.div_lt; lia].
  destruct Hc as [Hc|Hc]; [by left|]. simpl in Hc. apply elem_of_cons in Hc as [->|Hc]; [left|by right].
  assert (n `mod` 10 < 10)%N by (apply N.mod_lt; lia). unfold pretty_N_char.
  by repeat case_match.
Qed.

Lemma pretty_Z_chars (z : Z) c : c ∈ chars (pretty z) -> is_ascii_digit c = true \/ c = "-"%char.
Proof.
  assert (forall n : N, c ∈ chars (pretty n) -> is_ascii_digit c = true) as HN.
  { intros n. unfold pretty, pretty_N. destruct (decide (n = 0)%N).
    - intros ->%list_elem_of_singleton. done.
    - intros [?|?%elem_of_nil]%pretty_N_go_chars; done. }
  unfold pretty at 1, pretty_Z. destruct z as [|p|p].
  - intros ->%list_elem_of_singleton. by left.
  - intros H. left. by apply (HN (N.pos p)).
  - intros H. simpl in H. apply elem_of_cons in H as [->|H]; [by right|left]. by apply (HN (N.pos p)).
Qed.

Definition no_newline (s : string) : Prop := ascii_of_code 10 ∉ chars s.

Lemma pretty_no_newline (z : Z) : no_newline (pretty z).
Proof. intros [H|H]%pretty_Z_chars; vm_compute in H; done. Qed.

Lemma to_hex_no_newline bs : no_newline (to_hex bs).
Proof. intros H%to_hex_chars. by vm_compute in H. Qed.

(** What is signed determines its parts: the timestamp and the hash never hold
    a line feed, the nonce and the sender must not, the recipient comes last. *)
Lemma canonical_inj t1 t2 n1 n2 d1 d2 f1 f2 r1 r2 :
  no_newline n1 -> no_newline n2 -> no_newline (default "" f1) -> no_newline (default "" f2) ->
  canonical_email_payload t1 n1 (to_hex d1) f1 r1 = canonical_email_payload t2 n2 (to_hex d2) f2 r2 ->
  t1 = t2 /\ n1 = n2 /\ d1 = d2 /\ default ""%string f1 = default ""%string f2 /\ r1 = r2.
Proof.
  intros Hn1 Hn2 Hf1 Hf2 E%(f_equal chars). unfold canonical_email_payload in E.
  rewrite !chars_app in E. change (chars newline) with [ascii_of_code 10] in E. simpl in E.
  apply line_app_inj in E as [Et%chars_inj E]; [|apply pretty_no_newline..].
  apply line_app_inj in E as [En%chars_inj E]; [|done..].
  apply line_app_inj in E as [Ed%chars_inj E]; [|apply to_hex_no_newline..].
  apply line_app_inj in E as [Ef%chars_inj Er%chars_inj]; [|done..].
  apply (inj pretty) in Et. apply to_hex_inj in Ed. done.
Qed.

Lemma bytes_of_string_inj s t : bytes_of_string s = bytes_of_string t -> s = t.
Proof.
  unfold bytes_of_string. intros E. rewrite <- (String.string_of_list_byte_of_string s), <- (String.string_of_list_byte_of_string t).
  by rewrite E.
Qed.

Lemma bytes_of_string_of_bytes l : bytes_of_string (string_of_bytes l) = l.
Proof. apply String.list_byte_of_string_of_list_byte. Qed.

(** ** The signature *)

Section signature.
Context `{Sha256} `{HmacSha256} `{Base64} (from_timestamp : Z -> option Z).

Definition signed_payload (h : EmailIngestHeaders) (body : list byte) : list byte :=
  bytes_of_string (canonical_email_payload (eh_timestamp h) (eh_nonce h) (sha256_hex body)
                     (eh_envelope_from h) (eh_envelope_to h)).

(** The age of a signature, in whole seconds, is within the allowed skew. *)
Definition fresh (now skew timestamp : Z) : Prop :=
  Z.abs (num_seconds (now - timestamp)) <= Z.max (num_seconds skew) 0.

Lemma bytes_eqb_true a b : bytes_eqb a b = true <-> a = b.
Proof. apply bool_decide_eq_true. Qed.

Lemma verify_inv h secret body now skew v :
  verify_email_ingest from_timestamp h secret body now skew = Ok v <->
  (is_empty (trim (eh_nonce h)) = false /\ is_empty (trim (eh_envelope_to h)) = false) /\
  (exists timestamp, from_timestamp (eh_timestamp h) = Some timestamp /\ fresh now skew timestamp) /\
  (exists tag, hmac_sha256 secret (signed_payload h body) = Some tag /\
               b64_decode (bytes_of_string (signature h)) = Some tag) /\
  v = {| ev_timestamp := eh_timestamp h; ev_nonce := eh_nonce h; ev_body_sha256 := sha256_hex body;
         ev_envelope_from := eh_envelope_from h; ev_envelope_to := eh_envelope_to h |}.
Proof.
  unfold verify_email_ingest, signed_payload, fresh.
  destruct (is_empty (trim (eh_nonce h))) eqn:En; simpl; [split; [done|intros ([? ?] & _); done]|].
  destruct (is_empty (trim (eh_envelope_to h))) eqn:Et; simpl; [split; [done|intros ([? ?] & _); done]|].
  destruct (from_timestamp _) as [t|] eqn:Eft; simpl; [|split; [done|naive_solver]].
  destruct (Z.ltb_spec (Z.max (num_seconds skew) 0) (Z.abs (num_seconds (now - t)))).
  { split; [done|]. intros (_ & (t' & [= <-] & ?) & _). lia. }
  destruct (hmac_sha256 _ _) as [tag|] eqn:Eh; simpl; [|split; [done|naive_solver]].
  destruct (b64_decode _) as [supplied|] eqn:Eb; simpl; [|split; [done|naive_solver]].
  destruct (bytes_eqb supplied tag) eqn:Ee; simpl.
  - apply bytes_eqb_true in Ee as ->. split; [|naive_solver]. intros [= <-]. eauto 10.
  - split; [done|]. intros (_ & _ & (tag' & E1 & E2) & _). simplify_eq.
    by rewrite (proj2 (bytes_eqb_true tag' tag')) in Ee.
Qed.

(** A mail the relay signed with the secret is accepted, for as long as the
    signature is fresh, and what is reported is what was signed. *)
Theorem signed_mail_verifies `{!Base64Laws} secret (h : EmailIngestHeaders) body now skew timestamp :
  compute_email_hmac secret (eh_timestamp h) (eh_nonce h) (eh_envelope_from h) (eh_envelope_to h) body
    = Ok (signature h) ->
  is_empty (trim (eh_nonce h)) = false -> is_empty (trim (eh_envelope_to h)) = false ->
  from_timestamp (eh_timestamp h) = Some timestamp -> fresh now skew timestamp ->
  verify_email_ingest from_timestamp h secret body now skew =
    Ok {| ev_timestamp := eh_timestamp h; ev_nonce := eh_nonce h; ev_body_sha256 := sha256_hex body;
          ev_envelope_from := eh_envelope_from h; ev_envelope_to := eh_envelope_to h |}.
Proof.
  unfold compute_email_hmac. case_bool_decide; [done|]. intros Hs ????.
  destruct (hmac_sha256 _ _) as [tag|] eqn:Et; simpl in Hs; [|done]. injection Hs as Hs.
  apply (proj2 (verify_inv h secret body now skew _)). split; [done|]. split; [eauto|]. split; [|done]. exists tag.
  split; [exact Et|]. rewrite <- Hs. apply b64_roundtrip.
Qed.

(** C19. A signature vouches for one mail: two requests accepted under the same
    signature agree on the timestamp, the nonce, the hash of the body, the
    sender and the recipient, or they exhibit two texts with the same tag. *)
Theorem mail_signature_covers secret h1 h2 body1 body2 now1 now2 skew1 skew2 v1 v2 :
  verify_email_ingest from_timestamp h1 secret body1 now1 skew1 = Ok v1 ->
  verify_email_ingest from_timestamp h2 secret body2 now2 skew2 = Ok v2 ->
  signature h1 = signature h2 ->
  no_newline (eh_nonce h1) -> no_newline (eh_nonce h2) ->
  no_newline (default "" (eh_envelope_from h1)) -> no_newline (default "" (eh_envelope_from h2)) ->
  (ev_timestamp v1 = ev_timestamp v2 /\ ev_nonce v1 = ev_nonce v2 /\
   ev_body_sha256 v1 = ev_body_sha256 v2 /\ sha256 body1 = sha256 body2 /\
   default ""%string (ev_envelope_from v1) = default ""%string (ev_envelope_from v2) /\
   ev_envelope_to v1 = ev_envelope_to v2) \/
  exists m1 m2, m1 <> m2 /\ hmac_sha256 secret m1 = hmac_sha256 secret m2 /\ is_Some (hmac_sha256 secret m1).
Proof.
  intros (_ & _ & (t1 & Ht1 & Hs1) & ->)%verify_inv (_ & _ & (t2 & Ht2 & Hs2) & ->)%verify_inv Hsig ????.
  rewrite Hsig, Hs2 in Hs1. simplify_eq.
  destruct (decide (signed_payload h1 body1 = signed_payload h2 body2)) as [E|Hne].
  - left. apply bytes_of_string_inj in E. apply canonical_inj in E as (? & ? & E & ? & ?); [|done..].
    unfold sha256_hex. simpl. by rewrite E.
  - right. exists (signed_payload h1 body1), (signed_payload h2 body2). rewrite Ht1, Ht2. eauto.
Qed.

End signature.

Definition toy_hmac : HmacSha256 := fun key message => Some (key ++ message).
Definition toy_b64 : Base64 := {| b64_encode := string_of_bytes; b64_decode bs := Some bs |}.
Lemma toy_b64_laws : Base64Laws (H := toy_b64).
Proof. intros bs. simpl. by rewrite bytes_of_string_of_bytes. Qed.

(** A message and the signature of it under the toy functions. *)
Definition toy_body : list byte := bytes_of_string "raw message".
Definition toy_headers : EmailIngestHeaders := {|
  eh_timestamp := 1700000000; eh_nonce := "nonce-1";
  signature := match @compute_email_hmac toy_sha toy_hmac toy_b64 (bytes_of_string "shared-secret") 1700000000
                       "nonce-1" (Some "sender@example.test") "p@example.test" toy_body with
               | Ok s => s
               | Err _ => ""
               end;
  eh_envelope_from := Some "sender@example.test"; eh_envelope_to := "p@example.test" |}.
Definition toy_from_timestamp (t : Z) : option Z := Some (t * 10 ^ 9).

Theorem signed_mail_verifies_witness :
  is_ok (@verify_email_ingest toy_sha toy_hmac toy_b64 toy_from_timestamp toy_headers
           (bytes_of_string "shared-secret") toy_body (1700000300 * 10 ^ 9) (minutes 5)) = true.
Proof.
  rewrite (@signed_mail_verifies toy_sha toy_hmac toy_b64 toy_from_timestamp toy_b64_laws
             (bytes_of_string "shared-secret") toy_headers toy_body (1700000300 * 10 ^ 9) (minutes 5)
             (1700000000 * 10 ^ 9)); [reflexivity|vm_compute; reflexivity..|].
  unfold fresh. vm_compute. congruence.
Defined.

Definition toy_verification : EmailIngestVerification := {|
  ev_timestamp := 1700000000; ev_nonce := "nonce-1"; ev_body_sha256 := @sha256_hex toy_sha toy_body;
  ev_envelope_from := Some "sender@example.test"; ev_envelope_to := "p@example.test" |}.

Theorem mail_signature_covers_witness :
  @verify_email_ingest toy_sha toy_hmac toy_b64 toy_from_timestamp toy_headers
    (bytes_of_string "shared-secret") toy_body (1700000100 * 10 ^ 9) (minutes 5) = Ok toy_verification /\
  (@sha256 toy_sha toy_body = toy_body \/ exists m1 m2 : list byte, m1 <> m2).
Proof.
  split; [vm_compute; reflexivity|].
  destruct (@mail_signature_covers toy_sha toy_hmac toy_b64 toy_from_timestamp (bytes_of_string "shared-secret")
           toy_headers toy_headers toy_body toy_body (1700000100 * 10 ^ 9) (1700000200 * 10 ^ 9)
           (minutes 5) (minutes 5) toy_verification toy_verification) as [(_ & _ & _ & H & _)|(m1 & m2 & H & _)];
    [vm_compute; reflexivity..| | | | | |].
  1-4: intros Hc; vm_compute in Hc;
       repeat (apply elem_of_cons in Hc as [Hc|Hc]; [discriminate Hc|]); by apply elem_of_nil in Hc.
  - left. exact H.
  - right. eauto.
Defined.

(** ** Quoted-printable *)

Definition EQUALS : byte := Byte.x3d.

(** The byte is the hexadecimal digit of the value, in either case. *)
Definition hex_byte (x : byte) (h : Z) : Prop :=
  0 <= h < 16 /\ char_lower (ascii_of_code (byte.unsigned x)) = hex_digit h.

(** The grammar: the text and the bytes it stands for. *)
Inductive quoted_printable : list byte -> list byte -> Prop :=
| qp_end : quoted_printable [] []
| qp_literal b text bs : b <> EQUALS -> quoted_printable text bs -> quoted_printable (b :: text) (b :: bs)
| qp_escape x y h l b text bs : hex_byte x h -> hex_byte y l -> byte.unsigned b = 16 * h + l ->
    quoted_printable text bs -> quoted_printable (EQUALS :: x :: y :: text) (b :: bs)
| qp_soft_crlf text bs : quoted_printable text bs -> quoted_printable (EQUALS :: CR :: LF :: text) bs
| qp_soft_lf text bs : quoted_printable text bs -> quoted_printable (EQUALS :: LF :: text) bs.

Lemma hex_value_digit x :
  hex_digit_value (char_lower (ascii_of_code (byte.unsigned x))) =
  match hex_value x with Ok h => Some h | Err _ => None end.
Proof. destruct x; vm_compute; reflexivity. Qed.

Lemma hex_value_spec x h : hex_value x = Ok h <-> hex_byte x h.
Proof.
  unfold hex_byte. pose proof (hex_value_digit x) as Hx. split.
  - intros E. rewrite E in Hx. apply hex_digit_value_Some in Hx as [? ?]. done.
  - intros [Hh E]. rewrite E, hex_digit_value_digit in Hx by done.
    destruct (hex_value x); simpl in Hx; congruence.
Qed.

Lemma hex_value_range x h : hex_value x = Ok h -> 0 <= h < 16.
Proof. intros [? _]%hex_value_spec. done. Qed.

Lemma byte_eqb_iff (b : byte) z c : byte.unsigned c = z -> (byte.unsigned b =? z) = true <-> b = c.
Proof. intros <-. rewrite Z.eqb_eq. split; [apply byte.unsigned_inj|by intros ->]. Qed.

Lemma hex_byte_not x h c : hex_value c = Err (PMail "invalid quoted-printable escape") -> hex_byte x h -> x <> c.
Proof. intros Hc Hx%hex_value_spec ->. congruence. Qed.

Lemma decode_escape_runs x y h l b text : hex_byte x h -> hex_byte y l -> byte.unsigned b = 16 * h + l ->
  decode_quoted_printable (EQUALS :: x :: y :: text) =
  (let? out := decode_quoted_printable text in Ok (b :: out)).
Proof.
  intros Hx Hy Hb. pose proof (hex_byte_not x h CR eq_refl Hx) as Hcr.
  pose proof (hex_byte_not x h LF eq_refl Hx) as Hlf.
  cbn [decode_quoted_printable]. change (byte.unsigned EQUALS =? 61) with true. cbn iota.
  destruct (byte.unsigned x =? 13) eqn:E1; [by apply (byte_eqb_iff x 13 CR) in E1|].
  destruct (byte.unsigned x =? 10) eqn:E2; [by apply (byte_eqb_iff x 10 LF) in E2|].
  cbn [andb]. rewrite (proj2 (hex_value_spec x h) Hx), (proj2 (hex_value_spec y l) Hy). cbn [rbind].
  destruct Hx as [Hx _], Hy as [Hy _].
  replace (byte.of_Z (Z.lor (Z.shiftl h 4) l)) with b; [done|].
  apply byte.unsigned_inj. rewrite nibbles_unsigned; done.
Qed.

Lemma decode_soft_crlf text : decode_quoted_printable (EQUALS :: CR :: LF :: text) = decode_quoted_printable text.
Proof. reflexivity. Qed.

Lemma decode_soft_lf text : decode_quoted_printable (EQUALS :: LF :: text) = decode_quoted_printable text.
Proof. by destruct text. Qed.

Lemma decode_literal b text : b <> EQUALS ->
  decode_quoted_printable (b :: text) = (let? out := decode_quoted_printable text in Ok (b :: out)).
Proof.
  intros Hb. cbn [decode_quoted_printable].
  destruct (byte.unsigned b =? 61) eqn:E; [by apply (byte_eqb_iff b 61 EQUALS) in E|done].
Qed.

Lemma quoted_printable_runs text bs : quoted_printable text bs -> decode_quoted_printable text = Ok bs.
Proof.
  induction 1 as [|b text bs Hb _ IH|x y h l b text bs Hx Hy Hb _ IH|text bs _ IH|text bs _ IH].
  - done.
  - by rewrite decode_literal, IH.
  - by rewrite (decode_escape_runs x y h l b), IH.
  - by rewrite decode_soft_crlf.
  - by rewrite decode_soft_lf.
Qed.

Lemma quoted_printable_sound n : forall text bs, (length text <= n)%nat ->
  decode_quoted_printable text = Ok bs -> quoted_printable text bs.
Proof.
  induction n as [|n IH]; intros [|b text] bs Hn; simpl in Hn; try lia; try (intros [= <-]; constructor).
  destruct (byte_eq_dec b EQUALS) as [->|Hb].
  2: { rewrite decode_literal by done. destruct (decode_quoted_printable text) eqn:E; simpl; [|done].
       intros [= <-]. constructor; [done|]. apply IH; [lia|done]. }
  destruct text as [|x text]; [done|].
  destruct (byte_eq_dec x LF) as [->|Hlf].
  { rewrite decode_soft_lf. intros E. constructor. apply IH; [simpl in Hn; lia|done]. }
  assert (byte.unsigned x =? 10 = false) as E10 by (by apply not_true_iff_false; rewrite (byte_eqb_iff x 10 LF)).
  destruct text as [|y text].
  { cbn [decode_quoted_printable]. rewrite E10. done. }
  destruct ((byte.unsigned x =? 13) && (byte.unsigned y =? 10)) eqn:Ecrlf.
  { apply andb_true_iff in Ecrlf as [E1 E2]. apply (byte_eqb_iff x 13 CR) in E1 as ->; [|done].
    apply (byte_eqb_iff y 10 LF) in E2 as ->; [|done]. rewrite decode_soft_crlf. intros E. constructor.
    apply IH; [simpl in Hn; lia|done]. }
  cbn [decode_quoted_printable]. rewrite Ecrlf, E10. cbn iota.
  change (byte.unsigned EQUALS =? 61) with true. cbn iota.
  destruct (hex_value x) as [h|] eqn:Eh; cbn [rbind]; [|done].
  destruct (hex_value y) as [l|] eqn:El; cbn [rbind]; [|done].
  destruct (decode_quoted_printable text) as [out|] eqn:E; cbn [rbind]; [|done]. intros [= <-].
  pose proof (hex_value_range x h Eh). pose proof (hex_value_range y l El).
  apply (qp_escape x y h l); [by apply hex_value_spec..|by apply nibbles_unsigned|].
  apply IH; [simpl in Hn; lia|done].
Qed.

(** C20. The quoted-printable decoder accepts exactly the texts of the grammar
    (literals, escapes in either case, soft line breaks) and returns the bytes
    they stand for. *)
Theorem quoted_printable_exact text bs :
  decode_quoted_printable text = Ok bs <-> quoted_printable text bs.
Proof. split; [by apply (quoted_printable_sound (length text))|apply quoted_printable_runs]. Qed.

(** ** Encoded words *)

Lemma find_sub_length p l before after : find_sub p l = Some (before, after) ->
  (length l = length before + length p + length after)%nat.
Proof.
  assert (forall p l rest, strip_chars p l = Some rest -> length l = (length p + length rest)%nat) as Hs.
  { clear. induction p as [|a p IH]; intros [|c l] rest; simpl; try (intros [= <-]; done); try done.
    destruct (char_eqb a c); [|done]. intros ?%IH. lia. }
  revert before. induction l as [|c l IH]; intros before; cbn [find_sub].
  - destruct (strip_chars p []) eqn:E; [|done]. intros [= <- <-]. apply Hs in E. simpl in *. lia.
  - destruct (strip_chars p (c :: l)) eqn:E; [intros [= <- <-]; by apply Hs in E|].
    destruct (find_sub p l) as [[b a]|]; [|done]. intros [= <- <-]. simpl. rewrite (IH b eq_refl). lia.
Qed.

Lemma split_once_length p s a b : split_once p s = Some (a, b) ->
  (String.length s = String.length a + String.length p + String.length b)%nat.
Proof.
  unfold split_once. destruct (find_sub _ _) as [[x y]|] eqn:E; [|done]. intros [= <- <-].
  apply find_sub_length in E. rewrite <- !length_chars, !chars_of_chars. done.
Qed.

(** More fuel than the length of the text does not change what the decoder of
    header values returns. *)
Lemma decode_header_fuel `{Base64} fuel : forall extra output remaining, (String.length remaining < fuel)%nat ->
  decode_header_loop (fuel + extra) output remaining = decode_header_loop fuel output remaining.
Proof.
  induction fuel as [|fuel IH]; intros extra output remaining Hf; [lia|].
  cbn [decode_header_loop Nat.add].
  destruct (split_once "=?" remaining) as [[before after]|] eqn:E1; [|done].
  destruct (split_once "?=" after) as [[encoded rest]|] eqn:E2; [|done].
  apply split_once_length in E1, E2. simpl in E1, E2. apply IH. lia.
Qed.

(** ** Boundaries *)

Lemma plain_boundary_parameter b : all_chars is_ascii_alphanumeric b = true ->
  parameter ("multipart/alternative; boundary=" +:+ b) "boundary" = Some b.
Proof.
  intros Hb. pose proof (alphanumeric_plain b Hb) as Hp.
  assert (forall c, is_ascii_alphanumeric c = false -> Forall (fun d => char_eqb c d = false) (chars b)) as Hno.
  { intros c Hc. apply Forall_forall. intros d Hd. apply all_chars_spec with (c := d) in Hb; [|done].
    apply not_true_iff_false. intros ->%char_eqb_eq. congruence. }
  assert (Forall plain_char (chars ("boundary=" +:+ b))) as Hpb.
  { rewrite chars_app. apply Forall_app. split; [|done]. repeat constructor; done. }
  unfold parameter. change ("multipart/alternative; boundary=" +:+ b)%string
    with ("multipart/alternative" +:+ String ";" (" boundary=" +:+ b))%string.
  rewrite split_on_app by (by apply contains_char_false).
  rewrite split_on_none.
  2: { rewrite chars_app, not_elem_of_app. split; [by apply contains_char_false|]. intros Hc.
       specialize (Hno ";"%char eq_refl). rewrite Forall_forall in Hno. apply Hno in Hc. done. }
  cbn [tail omap list_omap]. change (" boundary=" +:+ b)%string with (String " " ("boundary=" +:+ b)).
  rewrite trim_space_plain by done.
  replace (split_once "=" ("boundary=" +:+ b)) with (Some ("boundary"%string, b)).
  2: { unfold split_once. simpl. by rewrite of_chars_chars. }
  change (eq_ignore_ascii_case (trim "boundary") "boundary") with true. cbn iota.
  rewrite trim_plain, trim_set_none; [done| |done]. by apply (Hno quote_char).
Qed.

(** C21. The reader lowercases the content type before it reads the boundary out
    of it: a multipart body whose boundary holds a capital letter is searched
    for a boundary that does not occur, and every part is silently dropped. *)
Theorem mixed_case_boundary_drops_parts `{Base64} levels hs body parsed b :
  all_chars is_ascii_alphanumeric b = true ->
  hs !! "content-type"%string = Some ("multipart/alternative; boundary=" +:+ b)%string ->
  contains_str ("--" +:+ to_ascii_lowercase b)%string (from_utf8_lossy body) = false ->
  parse_part (S levels) hs body parsed = Ok parsed.
Proof.
  intros Hb Hct Hno. cbn [parse_part]. unfold content_type_of. rewrite Hct, lowercase_app.
  change (to_ascii_lowercase "multipart/alternative; boundary=") with "multipart/alternative; boundary="%string.
  change (starts_with "multipart/" ("multipart/alternative; boundary=" +:+ to_ascii_lowercase b)%string) with
    (starts_with EmptyString ("alternative; boundary=" +:+ to_ascii_lowercase b)%string).
  change (starts_with EmptyString _) with true. cbn iota.
  rewrite plain_boundary_parameter by by apply lowercase_alphanumeric. cbn [rbind ok_or].
  unfold split_multipart. rewrite split_str_none by done. done.
Qed.

Definition crlf_lines (ls : list string) : list byte :=
  flat_map (fun l => bytes_of_string l ++ [CR; LF]) ls.

(** The same mail, with the boundary in small and in mixed case. *)
Definition boundary_mail (b : string) : list byte := crlf_lines
  ["From: a@example.test"; "Content-Type: multipart/alternative; boundary=" +:+ b; "";
   "--" +:+ b; "Content-Type: text/plain"; ""; "FAKE-PROVISION-TOKEN: t1"; "--" +:+ b +:+ "--"]%string.

Definition boundary_headers (b : string) : gmap string string :=
  {[ "content-type"%string := ("multipart/alternative; boundary=" +:+ b)%string ]}.

Definition boundary_body (b : string) : list byte := crlf_lines
  ["--" +:+ b; "Content-Type: text/plain"; ""; "FAKE-PROVISION-TOKEN: t1"; "--" +:+ b +:+ "--"]%string.

Definition no_mail : ParsedMail := {|
  pm_message_id := None; from := None; to := []; pm_subject := None; date := None;
  text_plain := None; text_html := None; headers := ∅ |}.

Theorem mixed_case_boundary_drops_parts_witness :
  @parse_part toy_b64 13 (boundary_headers "aBc") (boundary_body "aBc") no_mail = Ok no_mail /\
  @parse_part toy_b64 13 (boundary_headers "abc") (boundary_body "abc") no_mail =
    Ok (set_text_plain (Some "FAKE-PROVISION-TOKEN: t1"%string) no_mail).
Proof.
  split; [|vm_compute; reflexivity].
  apply (@mixed_case_boundary_drops_parts toy_b64 12 (boundary_headers "aBc") (boundary_body "aBc") no_mail "aBc");
    vm_compute; reflexivity.
Defined.

(** A message end to end: folded headers, an encoded subject, quoted-printable
    text. *)
Example parse_mime_ex :
  match @parse_mime toy_b64 (crlf_lines
    ["Message-ID: <fixture@example.test>"; "From: Sender"; " <sender@example.test>";
     "To: p@example.test, Other <OTHER@example.test>"; "Subject: =?UTF-8?Q?Fake_verification?=";
     "Content-Type: multipart/alternative; boundary=abc"; "";
     "--abc"; "Content-Type: text/plain"; "Content-Transfer-Encoding: quoted-printable"; "";
     "FAKE-PROVISION-TOKEN: fake-="; "token"; "--abc--"]%string) 4096 with
  | Ok m => (pm_message_id m, from m, to m, pm_subject m, text_plain m)
            = (Some "<fixture@example.test>", Some "Sender <sender@example.test>",
               ["p@example.test"; "other@example.test"], Some "Fake verification",
               Some "FAKE-PROVISION-TOKEN: fake-token")%string /\
            registry_parse (register_parser FakeProvisioningEmailParser ∅) "fake" m
            = Ok (VerificationCodeReceived "fake-token")
  | Err _ => False
  end.
Proof. vm_compute. split; reflexivity. Qed.
