(* ===== verification/MailIngest.v ===== *)
(** * The mail endpoint of the API ([api/src/main.rs], [email_events])

    The handler that authenticates a mail of the relay, claims its nonce, reads
    the message and hands the event to the provisioning manager.  The request
    is what axum presents of it; the database is a provisioning store. *)
From stdpp Require Import base gmap strings list.
From Stdlib Require Import ZArith Lia Ascii.
From S2P Require Import Prelude Text Bytes Strings Effects Storage Provisioning Secrets ProvStore ProvManager Email EmailProps.
Local Open Scope Z_scope.

(** ** Responses *)

Record ApiResponseError : Type := {
  status_code : Z;
  error_code : string;
  error_message : string;
  retry_after_seconds : option Z
}.

Definition api_not_found (resource : string) : ApiResponseError := {|
  status_code := 404; error_code := "not_found"; error_message := (resource +:+ " was not found")%string;
  retry_after_seconds := None |}.
Definition api_bad_request (m : string) : ApiResponseError := {|
  status_code := 400; error_code := "bad_request"; error_message := m; retry_after_seconds := None |}.
Definition api_temporary (c m : string) (retry : Z) : ApiResponseError := {|
  status_code := 503; error_code := c; error_message := m; retry_after_seconds := Some retry |}.
Definition api_payload_too_large : ApiResponseError := {|
  status_code := 413; error_code := "payload_too_large";
  error_message := "request body exceeds the configured limit"; retry_after_seconds := None |}.
Definition api_mail_authentication_failed : ApiResponseError := {|
  status_code := 401; error_code := "mail_authentication_failed";
  error_message := "mail event authentication failed"; retry_after_seconds := None |}.
Definition api_internal (m : string) : ApiResponseError := {|
  status_code := 500; error_code := "internal_error"; error_message := m; retry_after_seconds := None |}.

Definition map_provisioning_error (error : ProvisioningError) (fallback : string) : ApiResponseError :=
  match error with
  | PConfiguration _ | PConflict _ => api_bad_request fallback
  | PSecurity _ => api_mail_authentication_failed
  | PNotFound => api_not_found "provisioning job"
  | PMail _ => api_bad_request "invalid provisioning email"
  | PProvider _ | PSecret _ => api_temporary "provisioning_unavailable" fallback 15
  | PInvalidTransition _ _ => api_internal fallback
  end.

Record EmailEventResponse : Type := { accepted : bool; duplicate : bool; response_job_id : option Uuid }.

Definition refused (dup : bool) : EmailEventResponse := {|
  accepted := false; duplicate := dup; response_job_id := None |}.

(** ** The handler *)

(** The part of [AppState] the handler reads; the database is the store. *)
Record MailState (X : Type) : Type := {
  provisioning_enabled : bool;
  database_present : bool;
  provisioning_email_hmac_secret : option (list byte);
  provisioning_email_max_bytes : Z;
  provisioning_email_clock_skew_seconds : Z;
  provisioning : option (ProvisioningManager X)
}.
Arguments provisioning_enabled {X}.
Arguments database_present {X}.
Arguments provisioning_email_hmac_secret {X}.
Arguments provisioning_email_max_bytes {X}.
Arguments provisioning_email_clock_skew_seconds {X}.
Arguments provisioning {X}.

(** A request: the headers whose value is visible ASCII, and the body unless
    reading it fails. *)
Record MailRequest : Type := { request_header : string -> option string; request_body : option (list byte) }.

(** [to_bytes(body, limit)]. *)
Definition to_bytes (body : option (list byte)) (limit : Z) : option (list byte) :=
  match body with
  | Some bytes => if limit <? len64 bytes then None else Some bytes
  | None => None
  end.

Definition wrong_content_type (content_type : option string) : bool :=
  match content_type with
  | Some content_type => negb (match head (split_on ";"%char content_type) with
                               | Some value => eq_ignore_ascii_case (trim value) "message/rfc822"
                               | None => false
                               end)
  | None => false
  end.

(** The headers of the signature, [header(...)] of the handler. *)
Definition ingest_headers_of (header : string -> option string) : result EmailIngestHeaders ApiResponseError :=
  let? timestamp := ok_or (match header "x-mail-timestamp"%string with
                           | Some value => parse_i64 value
                           | None => None
                           end) api_mail_authentication_failed in
  let? nonce := ok_or (header "x-mail-nonce"%string) api_mail_authentication_failed in
  let? signature := ok_or (header "x-mail-signature"%string) api_mail_authentication_failed in
  let? envelope_to := ok_or (header "x-envelope-to"%string) api_mail_authentication_failed in
  let envelope_from := match header "x-envelope-from"%string with
                       | Some value => if is_empty (trim value) then None else Some value
                       | None => None
                       end in
  Ok {| eh_timestamp := timestamp; eh_nonce := nonce; Email.signature := signature;
        eh_envelope_from := envelope_from; eh_envelope_to := to_ascii_lowercase (trim envelope_to) |}.

(** [Duration::seconds]. *)
Definition seconds (n : Z) : Z := n * 10 ^ 9.

Section handler.
Context `{Host} `{Sha256} `{HmacSha256} `{Base64} {S X : Type} `{ProvisioningStore S}.
Context (from_timestamp : Z -> option Z) (state : MailState X).

Abbreviation M := (stm ((S * HostState) * X) ApiResponseError).

(** [map_err] on an operation. *)
Definition or_fail {A} (m : stm ((S * HostState) * X) ProvisioningError A) (f : ProvisioningError -> ApiResponseError)
  : M A := stry m (fun r => slift (map_err f r)).

Definition parsers : ParserRegistry :=
  register_parser MegaProvisioningEmailParser (register_parser FakeProvisioningEmailParser ∅).

(** From the parsed message on. *)
Definition deliver_mail (headers : EmailIngestHeaders) (verification : EmailIngestVerification)
  (body : list byte) (parsed : ParsedMail) : M EmailEventResponse :=
  let! found := or_fail (on_fst (find_active_job_by_email (eh_envelope_to headers)))
    (fun _ => api_internal "could not find provisioning email alias") in
  match found with
  | None => sret (refused false)
  | Some job =>
      let message_id := match pm_message_id parsed with
                        | Some value => if is_empty (trim value) then None else Some value
                        | None => None
                        end in
      let message_id := default ("<" +:+ sha256_hex body +:+ "@internal>")%string message_id in
      match registry_parse parsers (provider_type job) parsed with
      | Err _ => sret (refused false)
      | Ok event =>
          match provisioning state with
          | None => sfail (api_temporary "provisioning_unavailable" "provisioning is not available" 15)
          | Some manager =>
              let! (updated, dup) := or_fail (handle_email_with_record_status manager {|
                  message_id := message_id; body_sha256 := ev_body_sha256 verification;
                  envelope_from := eh_envelope_from headers; envelope_to := eh_envelope_to headers;
                  from_header := from parsed; subject := pm_subject parsed; job_id := id job |} event)
                (fun error => map_provisioning_error error "could not process provisioning email") in
              sret {| accepted := true; duplicate := dup; response_job_id := Some (id updated) |}
          end
      end
  end.

(** From the headers and the body on. *)
Definition ingest_mail (secret : list byte) (headers : EmailIngestHeaders) (body : list byte)
  : M EmailEventResponse :=
  let skew := seconds (provisioning_email_clock_skew_seconds state) in
  let! t := on_fst (on_snd now) in
  let! verification := slift (map_err (fun _ => api_mail_authentication_failed)
    (verify_email_ingest from_timestamp headers secret body t skew)) in
  let! signed_at := slift (ok_or (from_timestamp (ev_timestamp verification)) api_mail_authentication_failed) in
  let! claimed := or_fail (on_fst (claim_mail_nonce (ev_nonce verification) (signed_at + skew)))
    (fun _ => api_internal "could not record mail nonce") in
  if negb claimed then sret (refused true)
  else
    let! parsed := slift (map_err (fun _ => api_bad_request "invalid MIME message")
      (parse_mime body (provisioning_email_max_bytes state))) in
    deliver_mail headers verification body parsed.

Definition email_events (request : MailRequest) : M EmailEventResponse :=
  if negb (provisioning_enabled state)
  then sfail (api_temporary "provisioning_disabled" "provisioning email ingest is disabled" 60)
  else if negb (database_present state)
  then sfail (api_temporary "database_unavailable" "provisioning database is unavailable" 15)
  else
    match provisioning_email_hmac_secret state with
    | None => sfail (api_temporary "email_ingest_unconfigured" "provisioning email ingest is not configured" 60)
    | Some secret =>
        if wrong_content_type (request_header request "content-type")
        then sfail (api_bad_request "content type must be message/rfc822")
        else
          match to_bytes (request_body request) (saturating_add (provisioning_email_max_bytes state) 1) with
          | None => sfail api_payload_too_large
          | Some body =>
              if provisioning_email_max_bytes state <? len64 body then sfail api_payload_too_large
              else
                let! headers := slift (ingest_headers_of (request_header request)) in
                ingest_mail secret headers body
          end
    end.
End handler.
