(* ===== verification/MailIngestProps.v ===== *)
(** * What the mail endpoint promises: authentication and replays *)
From stdpp Require Import base gmap strings list sets.
From Stdlib Require Import ZArith Lia Ascii.
From S2P Require Import Prelude Text Bytes Strings Effects Storage Provisioning Secrets ProvStore ProvManager Email EmailProps MailIngest.
Local Open Scope Z_scope.

(** ** Authentication *)

Section authentication.
Context `{Host} `{Sha256} `{HmacSha256} `{Base64} {S X : Type} `{ProvisioningStore S}.
Context (from_timestamp : Z -> option Z) (state : MailState X).

Abbreviation World := ((S * HostState) * X)%type.

(** The request carries a fresh signature of its headers and body under the
    configured secret. *)
Definition authenticated (t : Z) (request : MailRequest) : Prop :=
  exists secret headers body timestamp tag,
    provisioning_email_hmac_secret state = Some secret /\
    ingest_headers_of (request_header request) = Ok headers /\
    request_body request = Some body /\
    from_timestamp (eh_timestamp headers) = Some timestamp /\
    fresh t (seconds (provisioning_email_clock_skew_seconds state)) timestamp /\
    hmac_sha256 secret (signed_payload headers body) = Some tag /\
    b64_decode (bytes_of_string (Email.signature headers)) = Some tag.

(** Only the clock moved. *)
Definition untouched (w w' : World) : Prop := w'.1.1 = w.1.1 /\ w'.2 = w.2.

(** Every way through the handler: it stops before the signature is checked, it
    rejects the signature, or it goes on with an authenticated mail. *)
Lemma email_events_cases request (w : World) :
  (exists e, email_events from_timestamp state request w = (w, Err e)) \/
  exists secret headers body,
    provisioning_email_hmac_secret state = Some secret /\
    ingest_headers_of (request_header request) = Ok headers /\
    request_body request = Some body /\
    email_events from_timestamp state request w = ingest_mail from_timestamp state secret headers body w.
Proof.
  unfold email_events.
  destruct (negb (provisioning_enabled state)); [left; by eexists|].
  destruct (negb (database_present state)); [left; by eexists|].
  destruct (provisioning_email_hmac_secret state) as [secret|]; [|left; by eexists].
  destruct (wrong_content_type _); [left; by eexists|].
  unfold to_bytes. destruct (request_body request) as [body|]; [|left; by eexists].
  destruct (_ <? len64 body); [left; by eexists|]. destruct (_ <? len64 body); [left; by eexists|].
  unfold sbind, slift. destruct (ingest_headers_of _) as [headers|e]; [right|left; by eexists].
  exists secret, headers, body. done.
Qed.

Lemma ingest_rejects secret headers body s h (x : X) :
  (forall v, verify_email_ingest from_timestamp headers secret body (host_now (ticks h))
     (seconds (provisioning_email_clock_skew_seconds state)) <> Ok v) ->
  exists h', ingest_mail from_timestamp state secret headers body ((s, h), x)
    = (((s, h'), x), Err api_mail_authentication_failed).
Proof.
  intros Hv. eexists. unfold ingest_mail, sbind, slift. cbn.
  destruct (verify_email_ingest _ _ _ _ _ _) as [v|e]; [by destruct (Hv v)|done].
Qed.

(** C17. Nothing the endpoint does is done for an unauthenticated request: if it
    answers without an error, or changes the store or the state of a provider,
    the request was signed with the configured secret, over its timestamp,
    nonce, sender, recipient and the hash of its body, within the clock skew. *)
Theorem mail_event_authenticated request (w : World) :
  ~ authenticated (host_now (ticks w.1.2)) request ->
  untouched w (email_events from_timestamp state request w).1 /\
  is_ok (email_events from_timestamp state request w).2 = false.
Proof.
  intros Hno. destruct (email_events_cases request w) as [[e ->]|(secret & headers & body & Es & Eh & Eb & ->)].
  { done. }
  destruct w as [[s h] x].
  destruct (ingest_rejects secret headers body s h x) as [h' ->]; [|done].
  intros v Hv. apply verify_inv in Hv as (_ & (t & Ht & Hf) & (tag & Htag & Hb) & _).
  apply Hno. exists secret, headers, body, t, tag. done.
Qed.

(** An authenticated mail with a fresh nonce goes on to the parser. *)
Lemma ingest_runs secret headers body v t s h s' h' c (x : X) :
  verify_email_ingest from_timestamp headers secret body (host_now (ticks h))
    (seconds (provisioning_email_clock_skew_seconds state)) = Ok v ->
  from_timestamp (eh_timestamp headers) = Some t ->
  claim_mail_nonce (eh_nonce headers) (t + seconds (provisioning_email_clock_skew_seconds state))
    (s, (now (E := ProvisioningError) h).1) = ((s', h'), Ok c) ->
  ingest_mail from_timestamp state secret headers body ((s, h), x) =
  if negb c then (((s', h'), x), Ok (refused true))
  else sbind (slift (map_err (fun _ => api_bad_request "invalid MIME message")
               (parse_mime body (provisioning_email_max_bytes state))))
         (deliver_mail state headers v body) ((s', h'), x).
Proof.
  intros Hv Ht Hc. unfold now in Hc. cbn [fst] in Hc. pose proof Hv as Hv'. apply verify_inv in Hv' as (_ & _ & _ & Ev).
  unfold ingest_mail. cbv zeta. erewrite sbind_Ok by reflexivity. cbn [fst snd].
  rewrite Hv. erewrite sbind_Ok by reflexivity. cbv beta.
  rewrite Ev at 1. cbn [ev_timestamp]. rewrite Ht. erewrite sbind_Ok by reflexivity.
  erewrite sbind_Ok; [|unfold or_fail, stry, on_fst; cbn [fst snd]; rewrite Ev; cbn [ev_nonce];
    rewrite Hc; reflexivity].
  by destruct c.
Qed.
End authentication.

(** ** Replays *)

Section replay.
Context `{Host} `{HashOrder} `{Sha256} `{HmacSha256} `{Base64} {X : Type}.
Context (from_timestamp : Z -> option Z) (state : MailState X) (nonce : string) (expires : Z).

Abbreviation World := ((InMemoryProvisioningState * HostState) * X)%type.

(** The nonce is on record. *)
Definition claimed (s : InMemoryProvisioningState * HostState) : Prop := mail_nonces s.1 !! nonce = Some expires.

Lemma in_place_nonces key event s : mail_nonces (apply_in_place key event s).1.1 = mail_nonces s.1.
Proof.
  unfold apply_in_place, sbind, get_state. cbn -[apply_event_at].
  destruct (jobs s.1 !! key) as [job|]; cbn -[apply_event_at]; [|done].
  destruct (apply_event_at job event (host_now (ticks s.2))) as [job' r]. by destruct r.
Qed.

(** The store's operations on jobs, events and messages do not forget it. *)
#[local] Instance claimed_invariant : StoreInvariant (S := InMemoryProvisioningState) claimed.
Proof.
  split; unfold claimed.
  - intros request s Hs. cbn. unfold mem_create_or_get_job, sbind, get_state. cbn.
    by destruct (find_first _ _).
  - intros key s Hs. cbn -[apply_in_place]. unfold mem_claim_start, sbind, get_state. cbn -[apply_in_place].
    destruct (jobs s.1 !! key) as [job|]; cbn -[apply_in_place]; [|done]. destruct (negb _); [done|].
    pose proof (in_place_nonces key EvStart s) as Hn.
    destruct (apply_in_place key EvStart s) as [s' [j|e]]; cbn in *; by rewrite Hn.
  - by intros key s Hs.
  - intros key k event s Hs. cbn -[apply_in_place]. unfold mem_apply_event, sbind, get_state. cbn -[apply_in_place].
    destruct (bool_decide _); [done|]. pose proof (in_place_nonces key event s) as Hn.
    destruct (apply_in_place key event s) as [s' [j|e]]; cbn in *; by rewrite Hn.
  - by intros record s Hs.
  - by intros s h h' _ Hs.
Qed.

Hypothesis clock : forall k, host_now k < expires.

Lemma claim_kept n e : preserves claimed (mem_claim_mail_nonce n e).
Proof. intros s Hs. destruct (claim_step n e s) as [_ Hk]. by apply Hk. Qed.

Lemma or_fail_kept {A} (I : World -> Prop) (m : stm World ProvisioningError A) f :
  preserves I m -> preserves I (or_fail (S := InMemoryProvisioningState) m f).
Proof. intros Hm. apply preserves_stry; [done|]. intros. apply preserves_slift. Qed.

Hypothesis bindings_advance : forall m t b,
  provisioning state = Some m -> registry m !! t = Some b -> binding_advances b.

Lemma lift_fst {A} (m : stm (InMemoryProvisioningState * HostState) ProvisioningError A) :
  preserves claimed m -> preserves (lifted (X := X) claimed) (on_fst (T := X) m).
Proof. apply lift_store. Qed.

(** Neither does the rest of the endpoint, whatever the mail. *)
Lemma deliver_kept headers v body parsed : preserves (lifted (X := X) claimed)
  (deliver_mail (S := InMemoryProvisioningState) state headers v body parsed).
Proof.
  unfold deliver_mail.
  apply preserves_sbind; [apply or_fail_kept, lift_fst; by intros s|]. intros [job|]; [|apply preserves_sret].
  destruct (registry_parse _ _ _); [|apply preserves_sret].
  destruct (provisioning state) as [m|] eqn:Em; [|apply preserves_sfail].
  apply preserves_sbind; [|intros []; apply preserves_sret]. apply or_fail_kept.
  eapply record_status_kept; [apply claimed_invariant|]. intros ty b. by apply bindings_advance.
Qed.

Lemma email_events_kept request :
  preserves (lifted (X := X) claimed) (email_events (S := InMemoryProvisioningState) from_timestamp state request).
Proof.
  assert (preserves (lifted (X := X) claimed) (on_fst (T := X) (on_snd (S := InMemoryProvisioningState)
    (now (E := ApiResponseError))))) as Hnow by (intros [[s h] x]; done).
  unfold email_events. repeat (case_match; try apply preserves_sfail).
  apply preserves_sbind; [apply preserves_slift|]. intros headers.
  unfold ingest_mail. cbv zeta. apply preserves_sbind; [done|]. intros t.
  apply preserves_sbind; [apply preserves_slift|]. intros v.
  apply preserves_sbind; [apply preserves_slift|]. intros signed_at.
  apply preserves_sbind; [apply or_fail_kept, lift_fst, claim_kept|]. intros c.
  destruct (negb c); [apply preserves_sret|].
  apply preserves_sbind; [apply preserves_slift|]. intros parsed. apply deliver_kept.
Qed.

(** The requests the API serves on provisioning jobs. *)
Inductive api_step : World -> World -> Prop :=
| api_mail request w : api_step w (email_events from_timestamp state request w).1
| api_manager m w w' : provisioning state = Some m -> manager_step m w w' -> api_step w w'.

Lemma api_steps_kept w w' : rtc api_step w w' -> lifted claimed w -> lifted claimed w'.
Proof.
  induction 1 as [|w w1 w2 Hs _ IH]; [done|]. intros Hw. apply IH. destruct Hs as [request w|m w w1 Em Hs].
  - by apply email_events_kept.
  - eapply manager_step_kept; [apply claimed_invariant|intros t b; by apply (bindings_advance m)|exact Hs|exact Hw].
Qed.

Definition skew : Z := seconds (provisioning_email_clock_skew_seconds state).

(** An answer other than a refused replay comes after a claim. *)
Lemma answered_claims request (w w1 : World) r headers t :
  email_events from_timestamp state request w = (w1, Ok r) -> r <> refused true ->
  ingest_headers_of (request_header request) = Ok headers -> from_timestamp (eh_timestamp headers) = Some t ->
  eh_nonce headers = nonce -> t + skew = expires -> lifted claimed w1.
Proof.
  intros Hrun Hr Hh Ht Hn He.
  destruct (email_events_cases from_timestamp state request w) as [[e E]|(secret & hs & body & _ & Eh & _ & E)];
    rewrite E in Hrun; [done|].
  rewrite Hh in Eh. injection Eh as <-. destruct w as [[s h] x].
  destruct (verify_email_ingest from_timestamp headers secret body (host_now (ticks h)) skew) as [v|e] eqn:Ev.
  2: { destruct (ingest_rejects from_timestamp state secret headers body s h x) as [h' E']; [|by rewrite E' in Hrun].
       intros v Hv. unfold skew in Ev. congruence. }
  destruct (mem_claim_mail_nonce nonce expires (s, (now (E := ProvisioningError) h).1)) as [[s' h'] [c|e]] eqn:Ec.
  2: { revert Ec. unfold mem_claim_mail_nonce, sbind, get_state. cbn. by destruct (filter _ _ !! nonce). }
  rewrite <- Hn, <- He in Ec. unfold skew in Ec.
  rewrite (ingest_runs (H3 := in_memory_store) from_timestamp state secret headers body v t s h s' h' c x Ev Ht Ec) in Hrun.
  destruct c; cbn [negb] in Hrun; [|by simplify_eq].
  apply claim_true in Ec. rewrite Hn in Ec. fold skew in Ec. rewrite He in Ec.
  assert (preserves (lifted (X := X) claimed) (sbind (slift (map_err (fun _ => api_bad_request "invalid MIME message")
     (parse_mime body (provisioning_email_max_bytes state)))) (deliver_mail state headers v body))) as Hp
    by (apply preserves_sbind; [apply preserves_slift|intros; apply deliver_kept]).
  specialize (Hp ((s', h'), x) Ec). by rewrite Hrun in Hp.
Qed.

(** The store but for the nonces. *)
Definition same_jobs (w w' : World) : Prop :=
  jobs w'.1.1 = jobs w.1.1 /\ event_keys w'.1.1 = event_keys w.1.1 /\
  mail_messages w'.1.1 = mail_messages w.1.1 /\ w'.2 = w.2.

End replay.
