(* ===== verification/MailFlow.v ===== *)
(** * Mail to the fake provider, end to end, and the end of a nonce *)
From stdpp Require Import base gmap strings list sets.
From Stdlib Require Import ZArith Lia Ascii.
From S2P Require Import Prelude Text Bytes Strings Effects Storage Provisioning Secrets ProvStore ProvManager ProvFlow Email EmailProps MailIngest MailIngestProps.
Local Open Scope Z_scope.

Section flow.
Context `{Host} `{HashOrder} `{Sha256} `{Blake3} `{HmacSha256} `{Base64} `{!UuidUnique}.
Context (from_timestamp : Z -> option Z) (state : MailState MemorySecretStore).

Abbreviation World := ((InMemoryProvisioningState * HostState) * MemorySecretStore)%type.

(** A nonce not on record is claimed; only the nonces and the clock change. *)
Lemma claim_fresh nonce expires (s : InMemoryProvisioningState * HostState) :
  mail_nonces s.1 !! nonce = None ->
  exists n, mem_claim_mail_nonce nonce expires s
    = ((with_mail_nonces n s.1, (now (E := ProvisioningError) s.2).1), Ok true) /\ n !! nonce = Some expires.
Proof.
  intros Hn. unfold mem_claim_mail_nonce, sbind, get_state. simpl.
  assert (filter (fun '(_, expires) => host_now (ticks s.2) < expires) (mail_nonces s.1) !! nonce = None) as ->.
  { apply map_lookup_filter_None. by left. }
  simpl. eexists. split; [done|]. apply lookup_insert_eq.
Qed.

(** The job an address belongs to is found. *)
Lemma find_email_runs address j (s : InMemoryProvisioningState * HostState) :
  jobs s.1 !! id j = Some j -> receives address (host_now (ticks s.2)) j = true ->
  (forall i j', jobs s.1 !! i = Some j' -> inbound_email_address j' = Some address -> j' = j) ->
  mem_find_active_job_by_email address s = ((s.1, (now (E := ProvisioningError) s.2).1), Ok (Some j)).
Proof.
  intros Hj Hr Huniq. unfold mem_find_active_job_by_email, sbind, get_state. simpl.
  assert (find_first (receives address (host_now (ticks s.2))) (hash_values (jobs s.1)) = Some j) as ->; [|done].
  destruct (find_first _ _) as [j'|] eqn:Ef.
  - apply find_first_Some in Ef as [Hin Hrec]. apply elem_of_hash_values in Hin as [i Hi]. f_equal.
    apply (Huniq i j' Hi). unfold receives in Hrec. breflect. done.
  - rewrite find_first_None in Ef. specialize (Ef j). rewrite elem_of_hash_values in Ef.
    rewrite Hr in Ef. discriminate Ef. eauto.
Qed.

(** What the handler hands to the manager of a parsed mail. *)
Definition record_of (headers : EmailIngestHeaders) (body : list byte) (parsed : ParsedMail) (key : Uuid)
  : ProvisioningMailRecord := {|
  message_id := default ("<" +:+ sha256_hex body +:+ "@internal>")%string
    (match pm_message_id parsed with
     | Some value => if is_empty (trim value) then None else Some value
     | None => None
     end);
  body_sha256 := sha256_hex body; envelope_from := eh_envelope_from headers;
  envelope_to := eh_envelope_to headers; from_header := from parsed; subject := pm_subject parsed;
  job_id := key |}.


End flow.

(** ** Concrete instances *)

(** A host whose clock stays below a microsecond. *)
Definition mail_host : Host := {|
  host_now n := Z.min (Z.of_nat n) 1000;
  host_random n := to_le 16 (Z.of_nat n);
  host_uuid n := Z.of_nat n;
  host_io _ := None |}.

Lemma mail_uuid_unique : @UuidUnique mail_host.
Proof. intros n m E. simpl in E. lia. Qed.

Definition mail_manager : ProvisioningManager MemorySecretStore := {|
  registry := @register_fake toy_blake _ (@memory_secret_store mail_host) "fake" ∅;
  email_domain := "example.org"; alias_ttl := hours 1 |}.

Definition mail_store : ProvisioningStore InMemoryProvisioningState := @in_memory_store mail_host key_order.

(** The job that waits for its mail. *)
Definition waiting_world : (InMemoryProvisioningState * HostState) * MemorySecretStore :=
  Eval vm_compute in (@ensure_capacity mail_host toy_sha _ _ mail_store mail_manager fake_request toy_world).1.
Definition waiting_job : option ProvisioningJob := Eval vm_compute in jobs waiting_world.1.1 !! 0.
Definition waiting_address : string := Eval vm_compute in
  default ""%string (match waiting_job with Some j => inbound_email_address j | None => None end).

Definition mail_state : MailState MemorySecretStore := {|
  provisioning_enabled := true; database_present := true;
  provisioning_email_hmac_secret := Some (bytes_of_string "shared-secret");
  provisioning_email_max_bytes := 4096; provisioning_email_clock_skew_seconds := 300;
  provisioning := Some mail_manager |}.

Definition token_mail : list byte := Eval vm_compute in crlf_lines
  ["Message-ID: <fixture@example.test>"; "Subject: Fake verification"; "";
   "FAKE-PROVISION-TOKEN: fake-token"]%string.

Definition mail_headers : EmailIngestHeaders := {|
  eh_timestamp := 0; eh_nonce := "nonce-1";
  Email.signature := match @compute_email_hmac toy_sha toy_hmac toy_b64 (bytes_of_string "shared-secret") 0
                       "nonce-1" None waiting_address token_mail with
               | Ok s => s
               | Err _ => ""
               end;
  eh_envelope_from := None; eh_envelope_to := waiting_address |}.

Definition mail_request : MailRequest := {|
  request_header name :=
    if String.eqb name "content-type" then Some "message/rfc822"%string
    else if String.eqb name "x-mail-timestamp" then Some "0"%string
    else if String.eqb name "x-mail-nonce" then Some "nonce-1"%string
    else if String.eqb name "x-mail-signature" then Some (Email.signature mail_headers)
    else if String.eqb name "x-envelope-to" then Some waiting_address
    else None;
  request_body := Some token_mail |}.

Definition serve (request : MailRequest) (w : (InMemoryProvisioningState * HostState) * MemorySecretStore) :=
  @email_events mail_host toy_sha toy_hmac toy_b64 _ _ mail_store toy_from_timestamp mail_state request w.

(** The first delivery enrolls the job; the second is refused. *)
Example mail_served_twice :
  (serve mail_request waiting_world).2 = Ok {| accepted := true; duplicate := false; response_job_id := Some 0 |} /\
  (serve mail_request (serve mail_request waiting_world).1).2 = Ok (refused true).
Proof. vm_compute. split; reflexivity. Qed.

Definition forged_request : MailRequest := {|
  request_header name := if String.eqb name "x-mail-signature" then None else request_header mail_request name;
  request_body := Some token_mail |}.

Theorem mail_event_authenticated_witness :
  untouched waiting_world (serve forged_request waiting_world).1 /\
  is_ok (serve forged_request waiting_world).2 = false.
Proof.
  apply (@mail_event_authenticated mail_host toy_sha toy_hmac toy_b64 _ _ mail_store toy_from_timestamp mail_state
    forged_request waiting_world).
  intros (secret & headers & body & t & tag & _ & Hh & _). vm_compute in Hh. discriminate Hh.
Defined.

Lemma mail_bindings_advance m t b :
  provisioning mail_state = Some m -> registry m !! t = Some b -> binding_advances b.
Proof.
  intros [= <-] Hb. simpl in Hb. unfold register_fake, register_with_validation in Hb.
  rewrite lookup_insert_Some in Hb. destruct Hb as [[<- <-]|[_ Hb]]; [|by rewrite lookup_empty in Hb].
  apply (@fake_binding_advances mail_host toy_blake _ "fake"). apply lookup_insert_eq.
Qed.


Definition waiting : ProvisioningJob := Eval vm_compute in
  match waiting_job with Some j => j | None => job_new fake_request 0 0 end.
Definition token_parsed : ParsedMail := Eval vm_compute in
  match parse_mime (H := toy_b64) token_mail 4096 with Ok m => m | Err _ => no_mail end.

Lemma waiting_wf : job_wf waiting.
Proof. split; simpl; try done. Qed.

Lemma waiting_jobs : jobs waiting_world.1.1 = {[0 := waiting]}.
Proof. reflexivity. Qed.


(** The clock half a second after the expiry of the nonce. *)
Definition late_host : Host := {|
  host_now _ := 300 * 10 ^ 9 + 5 * 10 ^ 8; host_random n := to_le 16 (Z.of_nat n);
  host_uuid n := Z.of_nat n; host_io _ := None |}.

(** The store after the mail was served. *)
Definition served_state : InMemoryProvisioningState := with_mail_nonces {[ "nonce-1"%string := 300 * 10 ^ 9 ]} empty_state.

