(* ===== verification/Reservations.v ===== *)
(** * Capacity reservations ([storage/src/tiering.rs])

    The accounts of the cold pools, the reservations held against them, the
    interface [CapacityReservationStore] the pools use, and its in-memory
    implementation behind a mutex: every operation runs with the lock held. *)
From stdpp Require Import base gmap strings list fin_maps sets pretty.
From Stdlib Require Import ZArith Lia.
From S2P Require Import Prelude Text Storage Effects.
Local Open Scope Z_scope.

(** ** Data *)

Inductive StorageAccountStatus : Type :=
| AcActive | AcNearFull | AcFull | AcUnavailable | AcAuthFailed | AcDisabled | AcNeedsReauth.

#[export] Instance StorageAccountStatus_eq_dec : EqDecision StorageAccountStatus.
Proof. solve_decision. Defined.

(** [StorageAccountStatus::as_str]. *)
Definition account_status_as_str (status : StorageAccountStatus) : string :=
  match status with
  | AcActive => "ACTIVE"
  | AcNearFull => "NEAR_FULL"
  | AcFull => "FULL"
  | AcUnavailable => "UNAVAILABLE"
  | AcAuthFailed => "AUTH_FAILED"
  | AcDisabled => "DISABLED"
  | AcNeedsReauth => "NEEDS_REAUTH"
  end.

Definition can_allocate (status : StorageAccountStatus) : bool :=
  match status with AcActive | AcNearFull => true | _ => false end.

Abbreviation DateTime := Z (only parsing).
Abbreviation Duration := Z (only parsing).

Record StorageAccountSnapshot : Type := {
  account_id : string;
  provider_id : string;
  pool_id : string;
  failure_domain : string;
  tier : StorageClass;
  account_status : StorageAccountStatus;
  capacity_bytes : Z;
  used_bytes : Z;
  reserved_bytes : Z;
  safety_margin_bytes : Z;
  last_capacity_check : option DateTime
}.

Definition set_status (s : StorageAccountStatus) (a : StorageAccountSnapshot) := {|
  account_id := account_id a; provider_id := provider_id a; pool_id := pool_id a;
  failure_domain := failure_domain a; tier := tier a; account_status := s;
  capacity_bytes := capacity_bytes a; used_bytes := used_bytes a; reserved_bytes := reserved_bytes a;
  safety_margin_bytes := safety_margin_bytes a; last_capacity_check := last_capacity_check a |}.

Definition set_usage (used reserved : Z) (a : StorageAccountSnapshot) := {|
  account_id := account_id a; provider_id := provider_id a; pool_id := pool_id a;
  failure_domain := failure_domain a; tier := tier a; account_status := account_status a;
  capacity_bytes := capacity_bytes a; used_bytes := used; reserved_bytes := reserved;
  safety_margin_bytes := safety_margin_bytes a; last_capacity_check := last_capacity_check a |}.

Definition set_capacity (capacity used : Z) (checked : DateTime) (a : StorageAccountSnapshot) := {|
  account_id := account_id a; provider_id := provider_id a; pool_id := pool_id a;
  failure_domain := failure_domain a; tier := tier a; account_status := account_status a;
  capacity_bytes := capacity; used_bytes := used; reserved_bytes := reserved_bytes a;
  safety_margin_bytes := safety_margin_bytes a; last_capacity_check := Some checked |}.

(** [StorageAccountSnapshot::usable_free_bytes]. *)
Definition usable_free_bytes (a : StorageAccountSnapshot) : Z :=
  saturating_sub (saturating_sub (saturating_sub (capacity_bytes a) (used_bytes a))
    (reserved_bytes a)) (safety_margin_bytes a).

Record CapacitySnapshot : Type := { cap_capacity_bytes : Z; cap_used_bytes : Z }.

Record StorageReservation : Type := {
  reservation_id : string;
  res_account_id : string;
  res_encoded_hash : string;
  res_bytes : Z;
  expires_at : DateTime
}.

(** ** The interface *)

(** The operations of a reservation store whose state is [L], kept beside the
    host's. *)
Class CapacityReservationStore (L : Type) : Type := {
  ensure_account : StorageAccountSnapshot -> stm (L * HostState) StorageError unit;
  set_account_status : string -> StorageAccountStatus -> stm (L * HostState) StorageError unit;
  refresh_account_capacity :
    string -> CapacitySnapshot -> stm (L * HostState) StorageError StorageAccountSnapshot;
  list_accounts : string -> stm (L * HostState) StorageError (list StorageAccountSnapshot);
  reserve : string -> string -> Z -> Duration -> stm (L * HostState) StorageError StorageReservation;
  commit : string -> stm (L * HostState) StorageError unit;
  release : string -> stm (L * HostState) StorageError unit;
  recover_expired : stm (L * HostState) StorageError Z
}.

(** ** The in-memory store *)

Inductive InMemoryReservationState : Type := Held | Committed | Released | Expired.

#[export] Instance InMemoryReservationState_eq_dec : EqDecision InMemoryReservationState.
Proof. solve_decision. Defined.

Record InMemoryReservation : Type := {
  reservation : StorageReservation;
  res_state : InMemoryReservationState
}.

Record InMemoryCapacityState : Type := {
  accounts : gmap string StorageAccountSnapshot;
  reservations : gmap string InMemoryReservation;
  next_reservation : Z
}.

Definition empty_ledger : InMemoryCapacityState := {|
  accounts := ∅; reservations := ∅; next_reservation := 0 |}.

Definition with_accounts m st := {| accounts := m; reservations := reservations st;
  next_reservation := next_reservation st |}.
Definition with_reservations m st := {| accounts := accounts st; reservations := m;
  next_reservation := next_reservation st |}.
Definition with_next n st := {| accounts := accounts st; reservations := reservations st;
  next_reservation := n |}.

Definition set_res_state (s : InMemoryReservationState) (r : InMemoryReservation) :=
  {| reservation := reservation r; res_state := s |}.

(** [Iterator::sum] on [u64]s, which wraps around. *)
Definition u64_sum {A : Type} (f : A -> Z) (l : list A) : Z := sumZ f l mod 2 ^ 64.

(** A reservation that still counts against its account. *)
Definition is_held (account : string) (r : InMemoryReservation) : bool :=
  String.eqb (res_account_id (reservation r)) account && bool_decide (res_state r = Held).

(** A reservation that serves a request for the same object again. *)
Definition res_serves (account hash : string) (r : InMemoryReservation) : bool :=
  String.eqb (res_account_id (reservation r)) account
  && String.eqb (res_encoded_hash (reservation r)) hash
  && match res_state r with Held | Committed => true | _ => false end.

Definition is_expired (t : DateTime) (r : InMemoryReservation) : bool :=
  bool_decide (res_state r = Held) && (expires_at (reservation r) <=? t).

Definition unknown_account (account : string) : StorageError :=
  Configuration ("unknown storage account " +:+ account)%string.
Definition unknown_reservation (rid : string) : StorageError :=
  Configuration ("unknown reservation " +:+ rid)%string.

(** The status [refresh_account_capacity] gives to an account. *)
Definition refreshed_status (a : StorageAccountSnapshot) : StorageAccountStatus :=
  if bool_decide (account_status a = AcDisabled) then AcDisabled
  else if usable_free_bytes a =? 0 then AcFull
  else if usable_free_bytes a <=? Z.min (safety_margin_bytes a * 2) u64_max then AcNearFull
  else AcActive.

(** The account once a reservation of [bytes] is committed, or released. *)
Definition commit_account (bytes : Z) (a : StorageAccountSnapshot) : StorageAccountSnapshot :=
  set_usage (saturating_add (used_bytes a) bytes) (saturating_sub (reserved_bytes a) bytes) a.
Definition release_account (bytes : Z) (a : StorageAccountSnapshot) : StorageAccountSnapshot :=
  set_usage (used_bytes a) (saturating_sub (reserved_bytes a) bytes) a.

Section ledger.
(** [duration_from_std] is [chrono::Duration::from_std], of a third-party
    crate: a duration in nanoseconds, or the text of its range error. *)
Context `{Host} `{HashOrder} (duration_from_std : Duration -> result Z string).

Abbreviation M := (stm (InMemoryCapacityState * HostState) StorageError).

Definition get_ledger : M InMemoryCapacityState := fun s => (s, Ok s.1).
Definition put_ledger (st : InMemoryCapacityState) : M unit := fun s => ((st, s.2), Ok tt).

Definition mem_register_snapshot (account : StorageAccountSnapshot) : M unit :=
  let! st := get_ledger in
  put_ledger (with_accounts (<[account_id account := account]> (accounts st)) st).

Definition mem_register_account (account provider : string) (capacity margin : Z) : M unit :=
  mem_register_snapshot {|
    account_id := account; provider_id := provider; pool_id := provider;
    failure_domain := "mega"; tier := Cold; account_status := AcActive;
    capacity_bytes := capacity; used_bytes := 0; reserved_bytes := 0;
    safety_margin_bytes := margin; last_capacity_check := None |}.

Definition mem_snapshots : M (list StorageAccountSnapshot) :=
  let! st := get_ledger in sret (hash_values (accounts st)).

(** Recomputes what is reserved on one account. *)
Definition recount (rs : gmap string InMemoryReservation)
  (accs : gmap string StorageAccountSnapshot) (account : string) : gmap string StorageAccountSnapshot :=
  alter (fun a => set_usage (used_bytes a)
           (u64_sum (fun r => res_bytes (reservation r))
              (filter (fun r => is_held account r = true) (hash_values rs))) a) account accs.

Definition expire_reservation (t : DateTime) (r : InMemoryReservation) : InMemoryReservation :=
  if is_expired t r then set_res_state Expired r else r.

Definition expire_locked : M Z :=
  let! t := on_snd now in
  let! st := get_ledger in
  let expired := map (fun r => res_account_id (reservation r))
                   (filter (fun r => is_expired t r = true) (hash_values (reservations st))) in
  let rs := expire_reservation t <$> reservations st in
  let! _ := put_ledger (with_accounts (fold_left (recount rs) expired (accounts st))
                          (with_reservations rs st)) in
  sret (len64 expired).

Definition mem_set_account_status (account : string) (status : StorageAccountStatus) : M unit :=
  let! st := get_ledger in
  match accounts st !! account with
  | None => sfail (unknown_account account)
  | Some a => put_ledger (with_accounts (<[account := set_status status a]> (accounts st)) st)
  end.

Definition mem_refresh_account_capacity (account : string) (snapshot : CapacitySnapshot)
  : M StorageAccountSnapshot :=
  let! st := get_ledger in
  match accounts st !! account with
  | None => sfail (unknown_account account)
  | Some a =>
      let! t := on_snd now in
      let a := set_capacity (cap_capacity_bytes snapshot) (cap_used_bytes snapshot) t a in
      let a := set_status (refreshed_status a) a in
      let! _ := put_ledger (with_accounts (<[account := a]> (accounts st)) st) in
      sret a
  end.

Definition mem_list_accounts (provider : string) : M (list StorageAccountSnapshot) :=
  let! _ := expire_locked in
  let! st := get_ledger in
  sret (sort_by (fun left right => String.compare (account_id left) (account_id right))
          (filter (fun a => String.eqb (provider_id a) provider = true) (hash_values (accounts st)))).

Definition mem_reserve (account hash : string) (bytes : Z) (ttl : Duration) : M StorageReservation :=
  let! _ := expire_locked in
  let! st := get_ledger in
  match find_first (res_serves account hash) (hash_values (reservations st)) with
  | Some existing => sret (reservation existing)
  | None =>
      match accounts st !! account with
      | None => sfail (unknown_account account)
      | Some a =>
          let available := usable_free_bytes a in
          if negb (can_allocate (account_status a)) then
            if available <? bytes then sfail (NeedsCapacity bytes available)
            else sfail (Unavailable account)
          else if available <? bytes then sfail (NeedsCapacity bytes available)
          else
            let next := saturating_add (next_reservation st) 1 in
            let! _ := put_ledger (with_next next st) in
            let! t := on_snd now in
            let! ttl := slift (map_err Configuration (duration_from_std ttl)) in
            let r := {| reservation_id := ("memory-" +:+ fmt_u next)%string;
                        res_account_id := account; res_encoded_hash := hash; res_bytes := bytes;
                        expires_at := t + ttl |} in
            let a := set_usage (used_bytes a) (saturating_add (reserved_bytes a) bytes) a in
            let! _ := put_ledger {|
              accounts := <[account := a]> (accounts st);
              reservations := <[reservation_id r := {| reservation := r; res_state := Held |}]>
                                (reservations st);
              next_reservation := next |} in
            sret r
      end
  end.

(** [commit] and [release] once the reservation is found held: it takes its
    final state, then its account, when known, is settled by [f]. *)
Definition settle (final : InMemoryReservationState)
  (f : Z -> StorageAccountSnapshot -> StorageAccountSnapshot) (rid : string) : M unit :=
  let! st := get_ledger in
  match reservations st !! rid with
  | None => sfail (unknown_reservation rid)
  | Some r =>
      if negb (bool_decide (res_state r = Held)) then sret tt
      else
        put_ledger (with_accounts
          (alter (f (res_bytes (reservation r))) (res_account_id (reservation r)) (accounts st))
          (with_reservations (<[rid := set_res_state final r]> (reservations st)) st))
  end.

Definition mem_commit : string -> M unit := settle Committed commit_account.

Definition mem_release : string -> M unit := settle Released release_account.

Definition mem_recover_expired : M Z := expire_locked.

#[export] Instance in_memory_ledger : CapacityReservationStore InMemoryCapacityState := {|
  ensure_account := mem_register_snapshot;
  set_account_status := mem_set_account_status;
  refresh_account_capacity := mem_refresh_account_capacity;
  list_accounts := mem_list_accounts;
  reserve := mem_reserve;
  commit := mem_commit;
  release := mem_release;
  recover_expired := mem_recover_expired
|}.
End ledger.

(** ** What is held against an account *)

Definition weight (account : string) (r : InMemoryReservation) : Z :=
  if is_held account r then res_bytes (reservation r) else 0.

Definition held_bytes (rs : gmap string InMemoryReservation) (account : string) : Z :=
  map_total (weight account) rs.

Lemma held_insert rs k r account :
  rs !! k = None -> held_bytes (<[k := r]> rs) account = weight account r + held_bytes rs account.
Proof. apply map_total_insert. Qed.

Lemma held_total `{HashOrder} rs account :
  u64_sum (fun r => res_bytes (reservation r))
    (filter (fun r => is_held account r = true) (hash_values rs)) = held_bytes rs account mod 2 ^ 64.
Proof. unfold u64_sum. by rewrite hash_values_total. Qed.

Lemma fold_recount `{HashOrder} rs ids accs k :
  fold_left (recount rs) ids accs !! k =
  (fun a => if decide (k ∈ ids) then set_usage (used_bytes a) (held_bytes rs k mod 2 ^ 64) a else a)
    <$> accs !! k.
Proof.
  revert accs. induction ids as [|i ids IH]; intros accs; cbn [fold_left].
  { destruct (accs !! k); [|done]. cbn. by rewrite decide_False by apply not_elem_of_nil. }
  rewrite IH. unfold recount. destruct (decide (i = k)) as [->|Hne].
  - rewrite lookup_alter_eq, held_total. destruct (accs !! k) as [a|]; [|done]. cbn. f_equal.
    rewrite (decide_True (P := k ∈ k :: ids)) by left. by destruct (decide _).
  - rewrite lookup_alter_ne by done. destruct (accs !! k); [|done]. cbn. f_equal.
    apply decide_ext. rewrite elem_of_cons. naive_solver.
Qed.

(** ** The invariant *)

Definition res_name (n : Z) : string := ("memory-" +:+ fmt_u n)%string.

Definition account_wf (a : StorageAccountSnapshot) : Prop :=
  is_u64 (capacity_bytes a) /\ is_u64 (used_bytes a) /\ is_u64 (reserved_bytes a)
  /\ is_u64 (safety_margin_bytes a).

(** What is reserved on an account is the sum of the reservations held against
    it, an object has one reservation per account, and no identifier of the
    future is in use. *)
Record ledger_ok (st : InMemoryCapacityState) : Prop := {
  ok_account : forall k a, accounts st !! k = Some a -> account_id a = k /\ account_wf a;
  ok_reserved : forall k a, accounts st !! k = Some a ->
    reserved_bytes a = held_bytes (reservations st) k;
  ok_res : forall k r, reservations st !! k = Some r ->
    reservation_id (reservation r) = k /\ is_u64 (res_bytes (reservation r))
    /\ is_Some (accounts st !! res_account_id (reservation r))
    /\ exists n, 1 <= n <= next_reservation st /\ k = res_name n;
  ok_serves : forall k k' r r' account hash,
    reservations st !! k = Some r -> reservations st !! k' = Some r' ->
    res_serves account hash r = true -> res_serves account hash r' = true -> k = k';
  ok_next : 0 <= next_reservation st
}.

Lemma fmt_u_inj a b : 0 <= a -> 0 <= b -> fmt_u a = fmt_u b -> a = b.
Proof. unfold fmt_u. intros ?? E%(inj pretty). apply Z2N.inj in E; lia. Qed.

Lemma res_name_inj a b : 0 <= a -> 0 <= b -> res_name a = res_name b -> a = b.
Proof. intros ?? E. apply fmt_u_inj; [done..|]. unfold res_name in E. by simplify_eq. Qed.

Lemma expire_serves t account hash r :
  res_serves account hash (expire_reservation t r) = true -> res_serves account hash r = true.
Proof.
  unfold expire_reservation. destruct (is_expired t r); [|done]. unfold res_serves. simpl.
  by rewrite andb_false_r.
Qed.

Lemma expire_same t r : reservation (expire_reservation t r) = reservation r.
Proof. unfold expire_reservation. by destruct (is_expired t r). Qed.

Lemma weight_expire t account r :
  0 <= res_bytes (reservation r) -> 0 <= weight account (expire_reservation t r) <= weight account r.
Proof.
  intros Hb. unfold expire_reservation. destruct (is_expired t r) eqn:E.
  - assert (weight account (set_res_state Expired r) = 0) as ->.
    { unfold weight, is_held. simpl. by rewrite andb_false_r. }
    unfold weight. destruct (is_held account r); lia.
  - unfold weight. destruct (is_held account r); lia.
Qed.

Lemma weight_not_expired t account r :
  ~ (is_expired t r = true /\ res_account_id (reservation r) = account) ->
  weight account (expire_reservation t r) = weight account r.
Proof.
  intros Hn. unfold expire_reservation. destruct (is_expired t r) eqn:E; [|done].
  assert (String.eqb (res_account_id (reservation r)) account = false) as Hne.
  { apply String.eqb_neq. naive_solver. }
  unfold weight, is_held. simpl. by rewrite Hne.
Qed.

Section invariant.
Context `{Host} `{HashOrder} (duration_from_std : Duration -> result Z string).

(** What [expire_locked] leaves. *)
Definition after_expiry (t : DateTime) (st st' : InMemoryCapacityState) : Prop :=
  reservations st' = expire_reservation t <$> reservations st
  /\ next_reservation st' = next_reservation st
  /\ forall k, accounts st' !! k = (fun a => set_usage (used_bytes a)
       (held_bytes (reservations st') k) a) <$> accounts st !! k.

Lemma set_usage_id a : set_usage (used_bytes a) (reserved_bytes a) a = a.
Proof. by destruct a. Qed.

Lemma held_expire t rs k :
  (forall i r, rs !! i = Some r -> 0 <= res_bytes (reservation r)) ->
  0 <= held_bytes (expire_reservation t <$> rs) k <= held_bytes rs k.
Proof.
  intros Hb. unfold held_bytes. rewrite map_total_fmap. split.
  - apply map_total_nonneg. intros i r Hi. apply weight_expire; eauto.
  - apply map_total_mono. intros i r Hi. apply weight_expire; eauto.
Qed.

Lemma held_not_expired t (rs : gmap string InMemoryReservation) k :
  (forall i r, rs !! i = Some r -> ~ (is_expired t r = true /\ res_account_id (reservation r) = k)) ->
  held_bytes (expire_reservation t <$> rs) k = held_bytes rs k.
Proof.
  intros Hn. unfold held_bytes. rewrite map_total_fmap. apply map_total_ext.
  intros i r Hi. eapply weight_not_expired, Hn, Hi.
Qed.

Lemma expire_locked_spec s :
  ledger_ok s.1 ->
  exists st', expire_locked s = ((st', (now (E := StorageError) s.2).1),
      Ok (len64 (filter (fun r => is_expired (host_now (ticks s.2)) r = true)
                   (hash_values (reservations s.1)))))
    /\ after_expiry (host_now (ticks s.2)) s.1 st'.
Proof.
  intros Hok. eexists. split.
  { unfold expire_locked, sbind, on_snd, get_ledger, put_ledger, sret. simpl.
    unfold len64. rewrite length_map. done. }
  split_and!; [done..|]. intros k. simpl. rewrite fold_recount.
  destruct (accounts s.1 !! k) as [a|] eqn:Ha; simpl; [|done]. f_equal.
  assert (forall i r, reservations s.1 !! i = Some r -> 0 <= res_bytes (reservation r)) as Hb.
  { intros i r Hr. apply (ok_res _ Hok) in Hr as (_ & [] & _). done. }
  pose proof (held_expire (host_now (ticks s.2)) _ k Hb) as Hle.
  pose proof (ok_reserved _ Hok k a Ha) as Hres. apply (ok_account _ Hok) in Ha as (_ & _ & _ & [_ Hmax] & _).
  destruct (decide _) as [Hin|Hout].
  - f_equal. apply Z.mod_small. unfold u64_max in Hmax. lia.
  - rewrite held_not_expired, <- Hres, set_usage_id; [done|].
    intros i r Hr [He <-]. apply Hout, list_elem_of_fmap. exists r. split; [done|].
    apply list_elem_of_filter. split; [done|]. apply elem_of_hash_values. by exists i.
Qed.

Lemma after_expiry_ok t st st' : ledger_ok st -> after_expiry t st st' -> ledger_ok st'.
Proof.
  intros Hok (Hr & Hn & Ha). split.
  - intros k a Hk. rewrite Ha in Hk. apply fmap_Some in Hk as (a0 & Ha0 & ->). cbn.
    pose proof (ok_reserved _ Hok _ _ Ha0) as Hres. apply (ok_account _ Hok) in Ha0 as (? & Hc & Hu & [? ?] & Hm).
    split; [done|]. repeat split; try apply Hc; try apply Hu; try apply Hm; cbn; rewrite Hr;
      pose proof (held_expire t (reservations st) k) as Hh; destruct Hh; try lia;
      intros i r Hi; apply (ok_res _ Hok) in Hi; apply Hi.
  - intros k a Hk. rewrite Ha in Hk. by apply fmap_Some in Hk as (a0 & Ha0 & ->).
  - intros k r Hk. rewrite Hr in Hk. rewrite Hn. apply lookup_fmap_Some in Hk as (r0 & <- & Hr0).
    rewrite expire_same. apply (ok_res _ Hok) in Hr0 as (? & ? & Hacc & ?). split_and!; try done.
    rewrite Ha. by apply fmap_is_Some.
  - intros k k' r r' account hash Hk Hk' Hs Hs'. rewrite Hr in Hk, Hk'.
    apply lookup_fmap_Some in Hk as (r0 & <- & Hr0). apply lookup_fmap_Some in Hk' as (r1 & <- & Hr1).
    apply expire_serves in Hs, Hs'. eapply (ok_serves _ Hok); eauto.
  - rewrite Hn. apply (ok_next _ Hok).
Qed.

(** ** What [reserve] promises *)

Definition granted (next : Z) (account : string) (a : StorageAccountSnapshot) (r : StorageReservation)
  (st : InMemoryCapacityState) : InMemoryCapacityState := {|
  accounts := <[account := set_usage (used_bytes a) (saturating_add (reserved_bytes a) (res_bytes r)) a]>
                (accounts st);
  reservations := <[res_name next := {| reservation := r; res_state := Held |}]> (reservations st);
  next_reservation := next |}.

(** The outcomes of a reservation, once expired ones are gone: the object is
    already served, the account is unknown, it has no room, it takes no more
    objects, the time to live is out of range, or a reservation is granted. *)
Inductive reserve_outcome (st : InMemoryCapacityState) (account hash : string) (bytes ttl : Z)
  : InMemoryCapacityState -> result StorageReservation StorageError -> Prop :=
| OutServed k e :
    reservations st !! k = Some e -> res_serves account hash e = true ->
    reserve_outcome st account hash bytes ttl st (Ok (reservation e))
| OutUnknown :
    (forall k e, reservations st !! k = Some e -> res_serves account hash e = false) ->
    accounts st !! account = None ->
    reserve_outcome st account hash bytes ttl st (Err (unknown_account account))
| OutNoRoom a :
    (forall k e, reservations st !! k = Some e -> res_serves account hash e = false) ->
    accounts st !! account = Some a -> usable_free_bytes a < bytes ->
    reserve_outcome st account hash bytes ttl st (Err (NeedsCapacity bytes (usable_free_bytes a)))
| OutClosed a :
    (forall k e, reservations st !! k = Some e -> res_serves account hash e = false) ->
    accounts st !! account = Some a -> bytes <= usable_free_bytes a ->
    can_allocate (account_status a) = false ->
    reserve_outcome st account hash bytes ttl st (Err (Unavailable account))
| OutBadTtl a message :
    (forall k e, reservations st !! k = Some e -> res_serves account hash e = false) ->
    accounts st !! account = Some a -> bytes <= usable_free_bytes a ->
    can_allocate (account_status a) = true -> duration_from_std ttl = Err message ->
    reserve_outcome st account hash bytes ttl
      (with_next (saturating_add (next_reservation st) 1) st) (Err (Configuration message))
| OutGranted a d t :
    (forall k e, reservations st !! k = Some e -> res_serves account hash e = false) ->
    accounts st !! account = Some a -> bytes <= usable_free_bytes a ->
    can_allocate (account_status a) = true -> duration_from_std ttl = Ok d ->
    let next := saturating_add (next_reservation st) 1 in
    let r := {| reservation_id := res_name next; res_account_id := account;
                res_encoded_hash := hash; res_bytes := bytes; expires_at := t + d |} in
    reserve_outcome st account hash bytes ttl (granted next account a r st) (Ok r).

Lemma reserve_run s account hash bytes ttl :
  ledger_ok s.1 ->
  exists st1, after_expiry (host_now (ticks s.2)) s.1 st1 /\
    reserve_outcome st1 account hash bytes ttl
      (mem_reserve duration_from_std account hash bytes ttl s).1.1
      (mem_reserve duration_from_std account hash bytes ttl s).2.
Proof.
  intros Hok. destruct (expire_locked_spec s Hok) as (st1 & Hrun & Hexp).
  exists st1. split; [done|]. unfold mem_reserve. rewrite !(sbind_Ok _ _ _ _ _ Hrun).
  rewrite !(sbind_Ok get_ledger _ _ _ _ eq_refl). simpl.
  destruct (find_first _ _) as [e|] eqn:Ef.
  { apply find_first_Some in Ef as [[k Hk]%elem_of_hash_values Hs]. by eapply OutServed. }
  assert (forall k e, reservations st1 !! k = Some e -> res_serves account hash e = false) as Hnew.
  { intros k e Hk. apply (proj1 (find_first_None _ _) Ef). apply elem_of_hash_values. by exists k. }
  destruct (accounts st1 !! account) as [a|] eqn:Ea; [|by apply OutUnknown].
  destruct (Z.ltb_spec (usable_free_bytes a) bytes) as [Hlt|Hge].
  { destruct (negb (can_allocate (account_status a))); by eapply OutNoRoom. }
  destruct (can_allocate (account_status a)) eqn:Ec; [|by eapply OutClosed].
  unfold slift, sbind, put_ledger, on_snd, now. simpl. destruct (duration_from_std ttl) as [d|m] eqn:Ed; simpl.
  - eapply OutGranted; eauto.
  - eapply OutBadTtl; eauto.
Qed.

Lemma usable_bounds a bytes :
  account_wf a -> 0 < bytes -> bytes <= usable_free_bytes a ->
  used_bytes a + reserved_bytes a + bytes + safety_margin_bytes a <= capacity_bytes a.
Proof. intros (?&?&?&?). unfold usable_free_bytes, saturating_sub, is_u64 in *. lia. Qed.

Lemma usable_add a bytes :
  account_wf a -> is_u64 bytes -> bytes <= usable_free_bytes a ->
  saturating_add (reserved_bytes a) bytes = reserved_bytes a + bytes.
Proof.
  intros (?&?&?&?) ?. unfold usable_free_bytes, saturating_add, saturating_sub, is_u64 in *. lia.
Qed.

Lemma granted_ok st account hash bytes d t a :
  ledger_ok st -> is_u64 bytes -> next_reservation st < u64_max ->
  (forall k e, reservations st !! k = Some e -> res_serves account hash e = false) ->
  accounts st !! account = Some a -> bytes <= usable_free_bytes a ->
  let next := saturating_add (next_reservation st) 1 in
  let r := {| reservation_id := res_name next; res_account_id := account;
              res_encoded_hash := hash; res_bytes := bytes; expires_at := t + d |} in
  ledger_ok (granted next account a r st).
Proof.
  intros Hok Hb Hlt Hnew Ha Hroom next r. assert (next = next_reservation st + 1) as Hnext.
  { unfold next, saturating_add. lia. }
  pose proof (ok_next _ Hok) as Hpos. destruct (ok_account _ Hok _ _ Ha) as [Hid Hwf].
  assert (reservations st !! res_name next = None) as Hfresh.
  { apply eq_None_not_Some. intros [e He]. apply (ok_res _ Hok) in He as (_ & _ & _ & n & ? & En).
    apply res_name_inj in En; lia. }
  assert (saturating_add (reserved_bytes a) bytes = reserved_bytes a + bytes) as Hadd by (by apply usable_add).
  split; simpl.
  - intros k a' Hk. apply lookup_insert_Some in Hk as [[<- <-]|[_ Hk]]; [|by apply (ok_account _ Hok)].
    split; [done|]. rewrite Hadd. destruct Hwf as (?&?&?&?). unfold account_wf, usable_free_bytes, saturating_sub, is_u64 in *. cbn. lia.
  - intros k a' Hk. rewrite held_insert by done. apply lookup_insert_Some in Hk as [[<- <-]|[Hne Hk]].
    + cbn. rewrite Hadd, (ok_reserved _ Hok _ _ Ha). unfold weight, is_held. cbn. rewrite String.eqb_refl, bool_decide_true by done. cbn. lia.
    + rewrite (ok_reserved _ Hok _ _ Hk). unfold weight, is_held. cbn.
      rewrite (proj2 (String.eqb_neq _ _) Hne). cbn. lia.
  - intros k e Hk. apply lookup_insert_Some in Hk as [[<- <-]|[_ Hk]].
    + cbn. split_and!; [done|done| |exists next; split; [lia|done]]. rewrite lookup_insert_eq. by eexists.
    + apply (ok_res _ Hok) in Hk as (? & ? & Hacc & n & ? & ?). split_and!; [done|done| |exists n; split; [lia|done]].
      destruct (decide (res_account_id (reservation e) = account)) as [->|];
        [rewrite lookup_insert_eq|rewrite lookup_insert_ne by done]; eauto.
  - intros k k' e e' acc h Hk Hk' Hs Hs'.
    apply lookup_insert_Some in Hk as [[<- <-]|[_ Hk]]; apply lookup_insert_Some in Hk' as [[<- <-]|[_ Hk']].
    + done.
    + exfalso. unfold res_serves in Hs at 1. simpl in Hs. breflect. subst. by rewrite (Hnew _ _ Hk') in Hs'.
    + exfalso. unfold res_serves in Hs' at 1. simpl in Hs'. breflect. subst. by rewrite (Hnew _ _ Hk) in Hs.
    + by eapply (ok_serves _ Hok).
  - lia.
Qed.
(** ** Every operation keeps the invariant *)

Lemma weight_nonneg st k r account :
  ledger_ok st -> reservations st !! k = Some r -> 0 <= weight account r.
Proof.
  intros Hok Hk. apply (ok_res _ Hok) in Hk as (_ & [] & _). unfold weight. by destruct (is_held account r).
Qed.

Lemma weight_le_held st k r account :
  ledger_ok st -> reservations st !! k = Some r -> weight account r <= held_bytes (reservations st) account.
Proof. intros Hok. apply map_total_lookup. intros. by eapply weight_nonneg. Qed.

(** What settling does to the account: the reservation stops counting. *)
Definition settles (f : Z -> StorageAccountSnapshot -> StorageAccountSnapshot) : Prop :=
  forall b a, is_u64 b -> account_wf a -> account_id (f b a) = account_id a
    /\ reserved_bytes (f b a) = saturating_sub (reserved_bytes a) b /\ account_wf (f b a).

Lemma settle_ok final f rid :
  final <> Held -> final <> Expired -> settles f -> preserves (fun s => ledger_ok s.1) (settle final f rid).
Proof.
  intros Hf Hf' Hs s Hok. unfold settle. rewrite (sbind_Ok get_ledger _ _ _ _ eq_refl).
  destruct (reservations s.1 !! rid) as [r|] eqn:Er; [|done].
  destruct (decide (res_state r = Held)) as [Hheld|]; [rewrite bool_decide_true by done|by rewrite bool_decide_false].
  pose proof (ok_res _ Hok _ _ Er) as (Hid & Hb & Hacc & Hname). simpl.
  assert (forall k, held_bytes (<[rid := set_res_state final r]> (reservations s.1)) k
      = held_bytes (reservations s.1) k
        - (if String.eqb (res_account_id (reservation r)) k then res_bytes (reservation r) else 0)) as Hheldk.
  { intros k. unfold held_bytes. rewrite (map_total_replace _ _ _ r) by done. unfold weight, is_held. simpl.
    rewrite Hheld, bool_decide_true, andb_true_r, (bool_decide_false (final = Held)), andb_false_r by done. lia. }
  split; simpl.
  - intros k a Hk. apply lookup_alter_Some in Hk as [(<- & a0 & Ha0 & ->)|[_ Hk]]; [|by apply (ok_account _ Hok)].
    apply (ok_account _ Hok) in Ha0 as [? Hwf]. destruct (Hs _ _ Hb Hwf) as (-> & _ & ?). done.
  - intros k a Hk. rewrite Hheldk. apply lookup_alter_Some in Hk as [(<- & a0 & Ha0 & ->)|[Hne Hk]].
    + pose proof (ok_account _ Hok _ _ Ha0) as [? Hwf]. destruct (Hs _ _ Hb Hwf) as (_ & -> & _).
      rewrite (ok_reserved _ Hok _ _ Ha0), String.eqb_refl. unfold saturating_sub.
      pose proof (weight_le_held _ _ _ (res_account_id (reservation r)) Hok Er) as Hw.
      unfold weight, is_held in Hw. rewrite String.eqb_refl, bool_decide_true in Hw by done. simpl in Hw. lia.
    + rewrite (ok_reserved _ Hok _ _ Hk), (proj2 (String.eqb_neq _ _) Hne). lia.
  - intros k e Hk. rewrite lookup_alter_is_Some. apply lookup_insert_Some in Hk as [[<- <-]|[_ Hk]]; [done|].
    by apply (ok_res _ Hok).
  - assert (forall k e account hash, <[rid := set_res_state final r]> (reservations s.1) !! k = Some e ->
      res_serves account hash e = true ->
      exists e0, reservations s.1 !! k = Some e0 /\ res_serves account hash e0 = true) as Hback.
    { intros k e account hash Hk Hse. apply lookup_insert_Some in Hk as [[<- <-]|[_ Hk]]; [|by exists e].
      exists r. split; [done|]. unfold res_serves in *. rewrite Hheld.
      simpl in Hse. apply andb_true_iff in Hse as [-> _]. done. }
    intros k k' e e' account hash Hk Hk' Hse Hse'.
    destruct (Hback _ _ _ _ Hk Hse) as (? & ? & ?). destruct (Hback _ _ _ _ Hk' Hse') as (? & ? & ?).
    by eapply (ok_serves _ Hok).
  - apply (ok_next _ Hok).
Qed.

Lemma commit_settles : settles commit_account.
Proof. intros b a ? (?&?&?&?). unfold commit_account, account_wf, saturating_add, saturating_sub, is_u64 in *. cbn. split; [done|]. lia. Qed.

Lemma release_settles : settles release_account.
Proof. intros b a ? (?&?&?&?). unfold release_account, account_wf, saturating_sub, is_u64 in *. cbn. split; [done|]. lia. Qed.

(** Replacing the data of an account the reservations do not depend on. *)
Lemma update_account_ok st k a a' :
  ledger_ok st -> accounts st !! k = Some a -> account_id a' = account_id a ->
  reserved_bytes a' = reserved_bytes a -> account_wf a' ->
  ledger_ok (with_accounts (<[k := a']> (accounts st)) st).
Proof.
  intros Hok Ha Hid Hres Hwf. pose proof (ok_account _ Hok _ _ Ha) as [Hk _]. split; simpl.
  - intros i e Hi. apply lookup_insert_Some in Hi as [[<- <-]|[_ Hi]]; [|by apply (ok_account _ Hok)].
    split; [congruence|done].
  - intros i e Hi. apply lookup_insert_Some in Hi as [[<- <-]|[_ Hi]]; [|by apply (ok_reserved _ Hok)].
    rewrite Hres. by apply (ok_reserved _ Hok).
  - intros i e Hi. apply (ok_res _ Hok) in Hi as (? & ? & Hacc & ?). split_and!; try done.
    destruct (decide (res_account_id (reservation e) = k)) as [->|];
      [rewrite lookup_insert_eq|rewrite lookup_insert_ne by done]; eauto.
  - apply (ok_serves _ Hok).
  - apply (ok_next _ Hok).
Qed.

Lemma set_status_ok account status :
  preserves (fun s => ledger_ok s.1) (mem_set_account_status account status).
Proof.
  intros s Hok. unfold mem_set_account_status. rewrite (sbind_Ok get_ledger _ _ _ _ eq_refl).
  destruct (accounts s.1 !! account) as [a|] eqn:Ea; [|done]. simpl. eapply update_account_ok; try done.
  by apply (ok_account _ Hok) in Ea as [_ ?].
Qed.

Lemma refresh_ok account snapshot :
  is_u64 (cap_capacity_bytes snapshot) -> is_u64 (cap_used_bytes snapshot) ->
  preserves (fun s => ledger_ok s.1) (mem_refresh_account_capacity account snapshot).
Proof.
  intros Hc Hu s Hok. unfold mem_refresh_account_capacity. rewrite (sbind_Ok get_ledger _ _ _ _ eq_refl).
  destruct (accounts s.1 !! account) as [a|] eqn:Ea; [|done]. simpl. eapply update_account_ok; try done.
  apply (ok_account _ Hok) in Ea as [_ (?&?&?&?)]. by split_and!.
Qed.

Lemma register_ok account :
  account_wf account -> reserved_bytes account = 0 ->
  forall s, ledger_ok s.1 -> accounts s.1 !! account_id account = None ->
  ledger_ok (mem_register_snapshot account s).1.1.
Proof.
  intros Hwf Hres s Hok Hnew. simpl.
  assert (forall k e, reservations s.1 !! k = Some e -> res_account_id (reservation e) <> account_id account) as Hno.
  { intros k e Hk E. apply (ok_res _ Hok) in Hk as (_ & _ & [? Hacc] & _). congruence. }
  split; simpl.
  - intros i e Hi. apply lookup_insert_Some in Hi as [[<- <-]|[_ Hi]]; [done|by apply (ok_account _ Hok)].
  - intros i e Hi. apply lookup_insert_Some in Hi as [[<- <-]|[_ Hi]]; [|by apply (ok_reserved _ Hok)].
    rewrite Hres. unfold held_bytes. rewrite (map_total_ext _ (fun _ => 0)); [by rewrite map_total_zero|].
    intros k r Hk. unfold weight, is_held. by rewrite (proj2 (String.eqb_neq _ _) (Hno _ _ Hk)).
  - intros i e Hi. pose proof (Hno _ _ Hi). apply (ok_res _ Hok) in Hi as (? & ? & Hacc & ?).
    split_and!; try done. by rewrite lookup_insert_ne.
  - apply (ok_serves _ Hok).
  - apply (ok_next _ Hok).
Qed.

Lemma expire_ok : preserves (fun s => ledger_ok s.1) expire_locked.
Proof.
  intros s Hok. destruct (expire_locked_spec s Hok) as (st1 & -> & Hexp). simpl.
  by eapply after_expiry_ok.
Qed.

Lemma reserve_ok s account hash bytes ttl :
  ledger_ok s.1 -> is_u64 bytes -> next_reservation s.1 < u64_max ->
  ledger_ok (mem_reserve duration_from_std account hash bytes ttl s).1.1 /\
  next_reservation (mem_reserve duration_from_std account hash bytes ttl s).1.1 <= next_reservation s.1 + 1.
Proof.
  intros Hok Hb Hlt. destruct (reserve_run s account hash bytes ttl Hok) as (st1 & Hexp & Hout).
  pose proof (after_expiry_ok _ _ _ Hok Hexp) as Hok1. destruct Hexp as (_ & En & _).
  pose proof (ok_next _ Hok1). rewrite <- En in Hlt |- *.
  destruct Hout; try (split; [done|lia]).
  - unfold with_next, saturating_add; simpl. split; [|lia]. destruct Hok1 as [? ? Hr ? ?]. split; simpl; try done; [|lia].
    intros k e Hk. apply Hr in Hk as (? & ? & ? & n & ? & ?). split_and!; try done. exists n. split; [lia|done].
  - split; [by eapply granted_ok|]. simpl. unfold next, saturating_add. lia.
Qed.
End invariant.

(** ** Executions *)

Section runs.
Context `{Host} `{HashOrder} (duration_from_std : Duration -> result Z string).

(** One operation of the store, with the account registered only while it is
    unknown. *)
Inductive ledger_step (s : InMemoryCapacityState * HostState) : InMemoryCapacityState * HostState -> Prop :=
| LsRegister account :
    accounts s.1 !! account_id account = None -> account_wf account -> reserved_bytes account = 0 ->
    ledger_step s (mem_register_snapshot account s).1
| LsStatus account status : ledger_step s (mem_set_account_status account status s).1
| LsRefresh account snapshot :
    is_u64 (cap_capacity_bytes snapshot) -> is_u64 (cap_used_bytes snapshot) ->
    ledger_step s (mem_refresh_account_capacity account snapshot s).1
| LsList provider : ledger_step s (mem_list_accounts provider s).1
| LsReserve account hash bytes ttl :
    is_u64 bytes -> ledger_step s (mem_reserve duration_from_std account hash bytes ttl s).1
| LsCommit rid : ledger_step s (mem_commit rid s).1
| LsRelease rid : ledger_step s (mem_release rid s).1
| LsRecover : ledger_step s (mem_recover_expired s).1.

Lemma step_ledger_ok s s' :
  ledger_step s s' -> ledger_ok s.1 -> next_reservation s.1 < u64_max ->
  ledger_ok s'.1 /\ next_reservation s'.1 <= next_reservation s.1 + 1.
Proof.
  intros Hs Hok Hlt.
  assert (forall s1 : InMemoryCapacityState * HostState, ledger_ok s1.1 ->
    next_reservation s1.1 = next_reservation s.1 ->
    ledger_ok s1.1 /\ next_reservation s1.1 <= next_reservation s.1 + 1) as Hkeep by (split; [done|lia]).
  assert (ledger_ok (expire_locked s).1.1 /\ next_reservation (expire_locked s).1.1 = next_reservation s.1) as [He1 He2].
  { split; [by apply expire_ok|]. destruct (expire_locked_spec s Hok) as (st1 & -> & (_ & E & _)). exact E. }
  destruct Hs.
  - apply Hkeep; [by apply register_ok|done].
  - apply Hkeep; [by apply set_status_ok|].
    unfold mem_set_account_status. rewrite (sbind_Ok get_ledger _ _ _ _ eq_refl). by destruct (_ !! _).
  - apply Hkeep; [by apply refresh_ok|].
    unfold mem_refresh_account_capacity. rewrite (sbind_Ok get_ledger _ _ _ _ eq_refl). by destruct (_ !! _).
  - unfold mem_list_accounts. destruct (expire_locked s) as [s1 [n|e]] eqn:E.
    + rewrite (sbind_Ok _ _ _ _ _ E). by apply Hkeep.
    + rewrite (sbind_Err _ _ _ _ _ E). by apply Hkeep.
  - by apply reserve_ok.
  - apply Hkeep; [apply settle_ok; [done|done|apply commit_settles|done]|].
    unfold mem_commit, settle. rewrite (sbind_Ok get_ledger _ _ _ _ eq_refl).
    destruct (_ !! _); [|done]. by destruct (negb _).
  - apply Hkeep; [apply settle_ok; [done|done|apply release_settles|done]|].
    unfold mem_release, settle. rewrite (sbind_Ok get_ledger _ _ _ _ eq_refl).
    destruct (_ !! _); [|done]. by destruct (negb _).
  - by apply Hkeep.
Qed.

Lemma empty_ledger_ok : ledger_ok empty_ledger.
Proof. split; simpl; [by intros ??; rewrite lookup_empty..|lia]. Qed.

Lemma nsteps_ledger_ok n s s' :
  nsteps ledger_step n s s' -> ledger_ok s.1 -> next_reservation s.1 + Z.of_nat n <= u64_max ->
  ledger_ok s'.1 /\ next_reservation s'.1 <= next_reservation s.1 + Z.of_nat n.
Proof.
  induction 1 as [s|n s s1 s2 Hs _ IH]; intros Hok Hlt; [split; [done|lia]|].
  destruct (step_ledger_ok _ _ Hs Hok) as [Hok1 Hn1]; [lia|].
  destruct IH as [? ?]; [done|lia|]. split; [done|lia].
Qed.

(** C31. In every execution of fewer than 2^64 operations that registers each
    account once, what an account shows as reserved is exactly the sum of the
    reservations held against it (so expiry, commit and release give back what
    was taken, and nothing twice), every active object has one reservation per
    account, and every number keeps its width. *)
Theorem ledger_consistent n h s :
  Z.of_nat n <= u64_max -> nsteps ledger_step n (empty_ledger, h) s ->
  ledger_ok s.1.
Proof.
  intros Hn Hs. apply (nsteps_ledger_ok _ _ _ Hs); [apply empty_ledger_ok|]. simpl. lia.
Qed.

(** C32. In a consistent store, a positive reservation is granted only for an
    object without one and only on an account that accepts objects and where it
    fits: afterwards the used bytes, everything held and the safety margin are
    together within the capacity.  An active reservation of the object is
    returned as it is.  A refusal says that the account is unknown, that the
    bytes do not fit (with the bytes that would), that the account is closed,
    or that the time to live is out of range, and it holds nothing. *)
Theorem reserve_never_overallocates s account hash bytes ttl s' r :
  ledger_ok s.1 -> is_u64 bytes -> 0 < bytes -> next_reservation s.1 < u64_max ->
  mem_reserve duration_from_std account hash bytes ttl s = (s', r) ->
  match r with
  | Ok res =>
      (exists e, reservations s'.1 !! reservation_id res = Some e /\ reservation e = res
         /\ res_serves account hash e = true)
      /\ ((exists e, reservations s.1 !! reservation_id res = Some e /\ res_serves account hash e = true)
          \/ exists a, accounts s'.1 !! account = Some a /\ can_allocate (account_status a) = true
               /\ res_bytes res = bytes
               /\ used_bytes a + held_bytes (reservations s'.1) account + safety_margin_bytes a
                    <= capacity_bytes a)
  | Err e =>
      (forall k, held_bytes (reservations s'.1) k <= held_bytes (reservations s.1) k)
      /\ match accounts s'.1 !! account with
         | None => e = unknown_account account
         | Some a => usable_free_bytes a < bytes /\ e = NeedsCapacity bytes (usable_free_bytes a)
             \/ bytes <= usable_free_bytes a /\ (e = Unavailable account \/ exists m, e = Configuration m)
         end
  end.
Proof.
  intros Hok Hb Hpos Hlt Hrun.
  destruct (reserve_run duration_from_std s account hash bytes ttl Hok) as (st1 & Hexp & Hout).
  destruct (reserve_ok duration_from_std s account hash bytes ttl Hok Hb Hlt) as [Hok' _].
  rewrite Hrun in Hout, Hok'. simpl in Hout, Hok'. pose proof (after_expiry_ok _ _ _ Hok Hexp) as Hok1.
  destruct s' as [st' h']. simpl in *. pose proof Hexp as (Hrs & _ & _).
  assert (forall k, held_bytes (reservations st1) k <= held_bytes (reservations s.1) k) as Hle.
  { intros k. rewrite Hrs. apply held_expire. intros i e Hi. by apply (ok_res _ Hok) in Hi as (_ & [] & _). }
  destruct Hout as [k e Hk Hs|Hn Ha|a Hn Ha Hroom|a Hn Ha Hroom Hc|a m Hn Ha Hroom Hc Hd|a d t Hn Ha Hroom Hc Hd next res].
  - pose proof (ok_res _ Hok1 _ _ Hk) as [Hid _]. rewrite Hid. split; [by exists e|]. left.
    rewrite Hrs in Hk. apply lookup_fmap_Some in Hk as (e0 & <- & Hk). exists e0.
    split; [done|]. by eapply expire_serves.
  - rewrite Ha. by split.
  - rewrite Ha. split; [done|]. by left.
  - rewrite Ha. split; [done|]. right. split; [done|by left].
  - simpl. rewrite Ha. split; [done|]. right. split; [done|]. right. by exists m.
  - split.
    { simpl. exists {| reservation := res; res_state := Held |}. rewrite lookup_insert_eq. split_and!; [done..|].
      unfold res_serves. simpl. by rewrite !String.eqb_refl. }
    right. assert (accounts (granted next account a res st1) !! account =
      Some (set_usage (used_bytes a) (saturating_add (reserved_bytes a) bytes) a)) as Ha'.
    { simpl. by rewrite lookup_insert_eq. }
    exists (set_usage (used_bytes a) (saturating_add (reserved_bytes a) bytes) a). split_and!; [done..|].
    pose proof (ok_reserved _ Hok' _ _ Ha') as <-. pose proof (ok_account _ Hok1 _ _ Ha) as [_ Hwf]. cbn.
    rewrite usable_add by done. pose proof (usable_bounds a bytes Hwf Hpos Hroom). lia.
Qed.
End runs.

(** ** Settling *)

Section settling.
Context `{Host} `{HashOrder} (duration_from_std : Duration -> result Z string).

Lemma settle_held final f rid s r a :
  reservations s.1 !! rid = Some r -> res_state r = Held ->
  accounts s.1 !! res_account_id (reservation r) = Some a ->
  exists s', settle final f rid s = (s', Ok tt)
    /\ s'.2 = s.2
    /\ reservations s'.1 = <[rid := set_res_state final r]> (reservations s.1)
    /\ accounts s'.1 = <[res_account_id (reservation r) := f (res_bytes (reservation r)) a]> (accounts s.1).
Proof.
  intros Hr Hh Ha. eexists. unfold settle. rewrite (sbind_Ok get_ledger _ _ _ _ eq_refl), Hr, Hh.
  rewrite bool_decide_true by done. split_and!; [done..|]. simpl.
  by apply map_eq; intros k; destruct (decide (res_account_id (reservation r) = k)) as [<-|];
    [rewrite lookup_alter_eq, Ha, lookup_insert_eq|rewrite lookup_alter_ne, lookup_insert_ne].
Qed.

Lemma settle_settled final f rid s r :
  reservations s.1 !! rid = Some r -> res_state r <> Held -> settle final f rid s = (s, Ok tt).
Proof.
  intros Hr Hh. unfold settle. rewrite (sbind_Ok get_ledger _ _ _ _ eq_refl), Hr.
  by rewrite bool_decide_false.
Qed.

(** C33. A held reservation is settled exactly once.  Committing it moves its
    bytes from reserved to used, releasing it gives them back, no other account
    changes, and any later commit or release of it is accepted without
    effect. *)
Theorem settled_once s rid r :
  ledger_ok s.1 -> reservations s.1 !! rid = Some r -> res_state r = Held ->
  let account := res_account_id (reservation r) in
  let bytes := res_bytes (reservation r) in
  exists a, accounts s.1 !! account = Some a /\ bytes <= reserved_bytes a
  /\ (exists s1, mem_commit rid s = (s1, Ok tt)
      /\ mem_commit rid s1 = (s1, Ok tt) /\ mem_release rid s1 = (s1, Ok tt)
      /\ accounts s1.1 = <[account := set_usage (Z.min (used_bytes a + bytes) u64_max)
                                        (reserved_bytes a - bytes) a]> (accounts s.1))
  /\ (exists s1, mem_release rid s = (s1, Ok tt)
      /\ mem_commit rid s1 = (s1, Ok tt) /\ mem_release rid s1 = (s1, Ok tt)
      /\ accounts s1.1 = <[account := set_usage (used_bytes a) (reserved_bytes a - bytes) a]> (accounts s.1)).
Proof.
  intros Hok Hr Hh account bytes. destruct (ok_res _ Hok _ _ Hr) as (_ & Hb & [a Ha] & _).
  exists a. split; [done|].
  assert (bytes <= reserved_bytes a) as Hle.
  { rewrite (ok_reserved _ Hok _ _ Ha). pose proof (weight_le_held _ _ _ account Hok Hr) as Hw.
    unfold weight, is_held in Hw. unfold account in *. rewrite String.eqb_refl, Hh in Hw. exact Hw. }
  assert (saturating_sub (reserved_bytes a) bytes = reserved_bytes a - bytes) as Hsub.
  { unfold saturating_sub. lia. }
  assert (forall final (s1 : InMemoryCapacityState * HostState), final <> Held ->
    reservations s1.1 = <[rid := set_res_state final r]> (reservations s.1) ->
    mem_commit rid s1 = (s1, Ok tt) /\ mem_release rid s1 = (s1, Ok tt)) as Hagain.
  { intros final s1 Hf E. assert (reservations s1.1 !! rid = Some (set_res_state final r)) as Hl
      by (by rewrite E, lookup_insert_eq). split; by eapply settle_settled. }
  split; [done|]. split.
  - destruct (settle_held Committed commit_account rid s r a Hr Hh Ha) as (s1 & Hrun & _ & Hrs & Hacc).
    exists s1. destruct (Hagain Committed s1) as [? ?]; [done..|]. split_and!; [exact Hrun|done..|].
    rewrite Hacc. unfold commit_account. fold bytes. by rewrite Hsub.
  - destruct (settle_held Released release_account rid s r a Hr Hh Ha) as (s1 & Hrun & _ & Hrs & Hacc).
    exists s1. destruct (Hagain Released s1) as [? ?]; [done..|]. split_and!; [exact Hrun|done..|].
    rewrite Hacc. unfold release_account. fold bytes. by rewrite Hsub.
Qed.

(** ** Registering an account again *)

Lemma expire_nothing s :
  (forall k r, reservations s.1 !! k = Some r -> is_expired (host_now (ticks s.2)) r = false) ->
  expire_locked s = ((s.1, (now (E := StorageError) s.2).1), Ok 0).
Proof.
  intros Hn. assert (filter (fun r => is_expired (host_now (ticks s.2)) r = true)
    (hash_values (reservations s.1)) = []) as E.
  { apply elem_of_nil_inv. intros r [Hr [k Hk]%elem_of_hash_values]%list_elem_of_filter. by rewrite (Hn k r Hk) in Hr. }
  assert (expire_reservation (host_now (ticks s.2)) <$> reservations s.1 = reservations s.1) as Em.
  { apply map_eq. intros k. rewrite lookup_fmap. destruct (_ !! k) as [r|] eqn:Ek; [|done]. simpl. f_equal.
    unfold expire_reservation. by rewrite (Hn k r Ek). }
  unfold expire_locked, sbind, on_snd, get_ledger, put_ledger, sret. simpl.
  rewrite E, Em. simpl. by destruct s as [[] ?].
Qed.

(** C34. Registering a known account again ([ensure_account] at every start)
    forgets what is held on it: as much as the account can hold is granted once
    more, on top of the reservations still held. *)
Theorem reregister_overallocates s a hash bytes ttl d s1 r1 :
  ledger_ok s.1 -> account_wf a -> is_u64 bytes -> reserved_bytes a = 0 ->
  can_allocate (account_status a) = true ->
  is_Some (accounts s.1 !! account_id a) ->
  bytes <= usable_free_bytes a -> next_reservation s.1 < u64_max ->
  (forall k r, reservations s.1 !! k = Some r ->
     is_expired (host_now (ticks s.2)) r = false /\ res_serves (account_id a) hash r = false) ->
  duration_from_std ttl = Ok d ->
  mem_register_snapshot a s = (s1, r1) ->
  exists s2 res, mem_reserve duration_from_std (account_id a) hash bytes ttl s1 = (s2, Ok res)
    /\ held_bytes (reservations s2.1) (account_id a) = held_bytes (reservations s.1) (account_id a) + bytes.
Proof.
  intros Hok Hwf Hb Hz Hc _ Hroom Hlt Hrs Hd [= <- _].
  set (s1 := (with_accounts (<[account_id a := a]> (accounts s.1)) s.1, s.2)).
  assert (expire_locked s1 = ((s1.1, (now (E := StorageError) s1.2).1), Ok 0)) as Hexp.
  { apply expire_nothing. intros k r Hk. by apply (Hrs k r). }
  unfold mem_reserve. rewrite (sbind_Ok _ _ _ _ _ Hexp), (sbind_Ok get_ledger _ _ _ _ eq_refl).
  cbn [fst]. rewrite (proj2 (find_first_None _ _)).
  2: { intros r [k Hk]%elem_of_hash_values. by apply (Hrs k r). }
  unfold s1 at 1. cbn [fst accounts with_accounts]. rewrite lookup_insert_eq, Hc. cbn [negb].
  rewrite (proj2 (Z.ltb_ge _ _)) by lia.
  unfold put_ledger, slift, sbind, on_snd, now. cbn. rewrite Hd. cbn. eexists _, _. split; [done|]. cbn.
  assert (reservations s.1 !! res_name (saturating_add (next_reservation s.1) 1) = None) as Hfresh.
  { apply eq_None_not_Some. intros [e He]. apply (ok_res _ Hok) in He as (_ & _ & _ & n & ? & En).
    pose proof (ok_next _ Hok). unfold saturating_add in En. apply res_name_inj in En; lia. }
  unfold res_name in Hfresh. rewrite held_insert by done. unfold weight, is_held. cbn.
  rewrite String.eqb_refl, bool_decide_true by done. cbn. lia.
Qed.
End settling.

(** ** Concrete executions *)

Definition demo_account : StorageAccountSnapshot := {|
  account_id := "mega-1"; provider_id := "mega"; pool_id := "mega"; failure_domain := "mega";
  tier := Cold; account_status := AcActive; capacity_bytes := 100; used_bytes := 0;
  reserved_bytes := 0; safety_margin_bytes := 10; last_capacity_check := None |}.

Definition demo_start : InMemoryCapacityState * HostState := (empty_ledger, host_init).

Definition demo_registered : InMemoryCapacityState * HostState :=
  (mem_register_snapshot demo_account demo_start).1.

(** 90 bytes of the 100 are held, the margin is left. *)
Definition demo_held : InMemoryCapacityState * HostState :=
  (@mem_reserve counting_host key_order Ok "mega-1" "h1" 90 50 demo_registered).1.

Lemma demo_held_run :
  nsteps (@ledger_step counting_host key_order Ok) 2 demo_start demo_held.
Proof.
  apply nsteps_l with demo_registered.
  - by apply LsRegister.
  - apply nsteps_once. apply LsReserve. split; done.
Qed.

Theorem ledger_consistent_witness :
  Z.of_nat 2 <= u64_max /\ held_bytes (reservations demo_held.1) "mega-1" = 90 /\ ledger_ok demo_held.1.
Proof.
  split_and!; [done|reflexivity|].
  apply (@ledger_consistent counting_host key_order Ok 2 host_init); [done|]. apply demo_held_run.
Defined.

Theorem reserve_never_overallocates_witness :
  exists s', @mem_reserve counting_host key_order Ok "mega-1" "h2" 1 50 demo_held
               = (s', Err (NeedsCapacity 1 0))
    /\ (forall k, held_bytes (reservations s'.1) k <= held_bytes (reservations demo_held.1) k).
Proof.
  assert (ledger_ok demo_held.1) as Hok.
  { apply (nsteps_ledger_ok _ _ _ _ demo_held_run); [apply empty_ledger_ok|done]. }
  eexists. split; [vm_compute; reflexivity|].
  refine (proj1 (@reserve_never_overallocates counting_host key_order Ok demo_held "mega-1" "h2" 1 50 _
    (Err (NeedsCapacity 1 0)) Hok _ _ _ _)); [split; done|done|done|vm_compute; reflexivity].
Defined.

Theorem settled_once_witness :
  exists r, reservations demo_held.1 !! "memory-1" = Some r /\ res_state r = Held /\
    (exists s1, mem_release "memory-1" demo_held = (s1, Ok tt)
      /\ accounts s1.1 = <["mega-1" := demo_account]> (accounts demo_held.1)).
Proof.
  assert (ledger_ok demo_held.1) as Hok.
  { apply (nsteps_ledger_ok _ _ _ _ demo_held_run); [apply empty_ledger_ok|done]. }
  eexists. split; [vm_compute; reflexivity|]. split; [reflexivity|].
  destruct (settled_once demo_held "memory-1" _ Hok eq_refl eq_refl) as (a & Ha & _ & _ & (s1 & Hr & _ & _ & Hacc)).
  exists s1. split; [exact Hr|]. vm_compute in Ha. injection Ha as <-. exact Hacc.
Defined.

(** 180 bytes are held on an account of 100. *)
Theorem reregister_overallocates_witness :
  held_bytes (reservations demo_held.1) "mega-1" = 90 /\
  exists s2 res,
    @mem_reserve counting_host key_order Ok "mega-1" "h2" 90 50 (mem_register_snapshot demo_account demo_held).1
      = (s2, Ok res)
    /\ held_bytes (reservations s2.1) "mega-1" = 90 + 90.
Proof.
  assert (ledger_ok demo_held.1) as Hok.
  { apply (nsteps_ledger_ok _ _ _ _ demo_held_run); [apply empty_ledger_ok|done]. }
  split; [reflexivity|].
  apply (@reregister_overallocates counting_host key_order Ok demo_held demo_account "h2" 90 50 50 _ (Ok tt));
    try done.
  intros k r Hk. assert (reservations demo_held.1 = {["memory-1" :=
      {| reservation := {| reservation_id := "memory-1"; res_account_id := "mega-1"; res_encoded_hash := "h1";
           res_bytes := 90; expires_at := 51 |}; res_state := Held |}]}) as E by reflexivity.
    rewrite E in Hk. apply lookup_singleton_Some in Hk as [<- <-]. by vm_compute.
Defined.
