(* ===== verification/MegaAccount.v ===== *)
(** * MEGA accounts ([storage/src/tiering.rs])

    The configuration of the cold pool and its validation, the interface a
    cold account offers ([MegaAccountBackend]), and the in-memory account
    [FakeMegaAccount] the tests and the staging profile use.  The account that
    drives the MEGAcmd programs is process I/O: only the way it reads a failed
    command is modelled. *)
From stdpp Require Import base gmap strings list fin_maps sets.
From Stdlib Require Import ZArith Lia Ascii.
From S2P Require Import Prelude Text Bytes Storage Effects Reservations.
Local Open Scope Z_scope.

(** ** Configuration *)

Record MegaAccountConfig : Type := {
  cfg_account_id : string;
  cfg_credential_reference : string;
  cfg_command_dir : string;
  cfg_home_dir : string;
  cfg_remote_root : string;
  cfg_capacity_bytes : Z;
  cfg_safety_margin_bytes : Z;
  cfg_timeout_seconds : Z;
  cfg_max_output_bytes : Z
}.

Record MegaColdStorageConfig : Type := {
  cfg_provider_id : string;
  cfg_accounts : list MegaAccountConfig;
  cfg_tier : StorageClass;
  cfg_reservation_ttl_seconds : Z;
  cfg_verify_existing : bool
}.

Definition blank (s : string) : bool := is_empty (trim s).

(** The loop over the accounts of [MegaColdStorageConfig::validate]. *)
Definition check_account (ids : gset string) (account : MegaAccountConfig)
  : result (gset string) StorageError :=
  if blank (cfg_account_id account) || blank (cfg_credential_reference account)
     || blank (cfg_remote_root account) || bool_decide (cfg_account_id account ∈ ids)
  then Err (Configuration "MEGA accounts require unique IDs, credential references, and remote roots")
  else Ok ({[cfg_account_id account]} ∪ ids).

Definition MegaColdStorageConfig_validate (c : MegaColdStorageConfig) : result unit StorageError :=
  if blank (cfg_provider_id c) || bool_decide (cfg_accounts c = [])
  then Err (Configuration "MEGA provider ID and at least one account are required")
  else if negb (bool_decide (cfg_tier c = Cold))
  then Err (Configuration "MEGA storage must be configured as COLD")
  else if cfg_reservation_ttl_seconds c =? 0
  then Err (Configuration "MEGA reservation TTL must be positive")
  else let? _ := try_fold check_account ∅ (cfg_accounts c) in Ok tt.

(** [MegaCliAccount::new]. *)
Definition MegaCliAccount_new (c : MegaAccountConfig) : result MegaAccountConfig StorageError :=
  if blank (cfg_account_id c) || blank (cfg_credential_reference c) || blank (cfg_remote_root c)
  then Err (Configuration "MEGA account ID, credential reference, and remote root are required")
  else Ok c.

Definition command_path (c : MegaAccountConfig) (command : string) : string :=
  let name := ("mega-" +:+ command)%string in
  if is_empty (cfg_command_dir c) then name else path_join (cfg_command_dir c) name.

(** [is_mega_network_failure]. *)
Definition is_mega_network_failure (message : string) : bool :=
  let lowered := to_ascii_lowercase message in
  contains_str "network" lowered || contains_str "connection" lowered
  || contains_str "timed out" lowered || contains_str "timeout" lowered
  || contains_str "dns" lowered || contains_str "resolve host" lowered
  || contains_str "could not connect" lowered || contains_str "failed to connect" lowered
  || contains_str "connection refused" lowered || contains_str "network is unreachable" lowered
  || contains_str "name or service not known" lowered.

(** What [run_command] makes of a command that failed, from its output. *)
Definition command_failure (command output error_output : string) : StorageError :=
  let message := if is_empty error_output then output else error_output in
  let lowered := to_ascii_lowercase message in
  if contains_str "login" lowered || contains_str "authentication" lowered
     || contains_str "session" lowered
  then Authentication "MEGAcmd session authentication failed"
  else if is_mega_network_failure message
  then NetworkUnavailable "MEGAcmd could not reach the MEGA service"
  else Unavailable (if is_empty message then ("MEGAcmd " +:+ command +:+ " failed")%string else message).

(** ** Accounts *)

(** The operations of an account; the state [B] of the remote accounts is kept
    beside the host, whose disk holds the local files. *)
Record MegaAccountBackend (B : Type) : Type := {
  be_account_id : string;
  be_remote_root : string;
  be_health : stm (B * HostState) StorageError unit;
  be_capacity : stm (B * HostState) StorageError CapacitySnapshot;
  object_size : string -> stm (B * HostState) StorageError (option Z);
  upload_file : string -> string -> stm (B * HostState) StorageError unit;
  download_file : string -> string -> stm (B * HostState) StorageError unit;
  delete_object : string -> stm (B * HostState) StorageError unit
}.
Arguments be_account_id {B}. Arguments be_remote_root {B}. Arguments be_health {B}.
Arguments be_capacity {B}. Arguments object_size {B}. Arguments upload_file {B}.
Arguments download_file {B}. Arguments delete_object {B}.

(** [?] on a file operation: its error becomes [StorageError::Io]. *)
Definition io {A} (m : stm HostState string A) : stm HostState StorageError A :=
  fun h => let '(h', r) := m h in (h', map_err Io r).

(** ** The fake account *)

Inductive FakeMegaFailure : Type := FailNone | FailUnavailable | FailAuthentication.

Record FakeMegaAccount : Type := {
  fake_account_id : string;
  fake_remote_root : string;
  fake_capacity_bytes : Z
}.

(** What an account keeps behind its mutexes. *)
Record FakeMegaState : Type := {
  fake_files : gmap string (list byte);
  failure : FakeMegaFailure
}.

Definition fake_empty : FakeMegaState := {| fake_files := ∅; failure := FailNone |}.

(** [FakeMegaAccount::new]. *)
Definition FakeMegaAccount_new (account : string) (capacity : Z) : FakeMegaAccount :=
  {| fake_account_id := account; fake_remote_root := "/launcher"; fake_capacity_bytes := capacity |}.

(** The states of the accounts by their identifiers. *)
Abbreviation FakeWorld := (gmap string FakeMegaState).

Definition fake_state (world : FakeWorld) (account : string) : FakeMegaState :=
  default fake_empty (world !! account).

Definition with_files (account : string) (f : gmap string (list byte)) (world : FakeWorld) : FakeWorld :=
  <[account := {| fake_files := f; failure := failure (fake_state world account) |}]> world.

(** The bytes stored, modulo 2^64. *)
Definition stored_bytes (f : gmap string (list byte)) : Z := sumZ len64 (map_to_list f).*2 mod 2 ^ 64.

Section fake.
Context `{Host} (self : FakeMegaAccount).

Abbreviation F := (stm (FakeWorld * HostState) StorageError).
Local Abbreviation me := (fake_account_id self).

Definition fake_get : F FakeMegaState := fun w => (w, Ok (fake_state w.1 me)).
Definition fake_put_files (f : gmap string (list byte)) : F unit := fun w => ((with_files me f w.1, w.2), Ok tt).

Definition set_failure (f : FakeMegaFailure) : F unit := fun w =>
  ((<[me := {| fake_files := fake_files (fake_state w.1 me); failure := f |}]> w.1, w.2), Ok tt).

Definition fake_contains (remote_path : string) : F bool :=
  let! st := fake_get in sret (bool_decide (is_Some (fake_files st !! remote_path))).

Definition check_failure : F unit :=
  let! st := fake_get in
  match failure st with
  | FailNone => sret tt
  | FailUnavailable => sfail (Unavailable me)
  | FailAuthentication => sfail (Authentication me)
  end.

Definition fake_health : F unit := check_failure.

Definition fake_capacity : F CapacitySnapshot :=
  let! _ := check_failure in
  let! st := fake_get in
  sret {| cap_capacity_bytes := fake_capacity_bytes self; cap_used_bytes := stored_bytes (fake_files st) |}.

Definition fake_object_size (remote_path : string) : F (option Z) :=
  let! _ := check_failure in
  let! st := fake_get in
  sret (len64 <$> fake_files st !! remote_path).

Definition fake_upload_file (local_path remote_path : string) : F unit :=
  let! _ := check_failure in
  let! bytes := on_snd (io (fs_read local_path)) in
  let! st := fake_get in
  let old_size := match fake_files st !! remote_path with Some value => len64 value | None => 0 end in
  let used_bytes := saturating_add (saturating_sub (stored_bytes (fake_files st)) old_size) (len64 bytes) in
  if fake_capacity_bytes self <? used_bytes
  then sfail (NeedsCapacity (len64 bytes) (saturating_sub (fake_capacity_bytes self) used_bytes))
  else fake_put_files (<[remote_path := bytes]> (fake_files st)).

Definition fake_download_file (remote_path local_path : string) : F unit :=
  let! _ := check_failure in
  let! st := fake_get in
  match fake_files st !! remote_path with
  | None => sfail (Unavailable "fake object missing")
  | Some bytes => on_snd (io (fs_write local_path bytes))
  end.

Definition fake_delete_object (remote_path : string) : F unit :=
  let! _ := check_failure in
  let! st := fake_get in
  fake_put_files (delete remote_path (fake_files st)).

Definition fake_backend : MegaAccountBackend FakeWorld := {|
  be_account_id := fake_account_id self;
  be_remote_root := fake_remote_root self;
  be_health := fake_health;
  be_capacity := fake_capacity;
  object_size := fake_object_size;
  upload_file := fake_upload_file;
  download_file := fake_download_file;
  delete_object := fake_delete_object
|}.
End fake.
