(* ===== verification/MegaPool.v ===== *)
(** * The cold pool ([storage/src/tiering.rs])

    [MegaColdStoragePool] spreads objects over several accounts: it stages an
    object in a bounded temporary space, reserves capacity in the ledger,
    uploads, verifies and commits, and reads back the first copy whose hash is
    right.  The accounts, the ledger and BLAKE3 are parameters. *)
From stdpp Require Import base gmap strings list fin_maps sets pretty.
From Stdlib Require Import ZArith Lia Ascii.
From S2P Require Import Prelude Text Bytes Storage Effects Placement Reservations MegaAccount.
Local Open Scope Z_scope.

(** ** Data *)

Record ProvisionedCapacity : Type := {
  pc_pool_id : string;
  pc_account_id : string;
  pc_credential_reference : string;
  pc_capacity_bytes : Z;
  pc_safety_margin_bytes : Z
}.

(** [StorageCapacityProvisioner]. *)
Record StorageCapacityProvisioner : Type := {
  pv_pool_id : string;
  pv_mode : ProvisioningMode;
  can_provision : Z -> stm HostState StorageError bool;
  provision : Z -> stm HostState StorageError ProvisionedCapacity
}.

(** [ManualStorageCapacityProvisioner::new] and its implementation of the
    interface. *)
Definition ManualStorageCapacityProvisioner (pool : string) : StorageCapacityProvisioner := {|
  pv_pool_id := pool;
  pv_mode := ModeManual;
  can_provision _ := sret false;
  provision required_bytes := sfail (NeedsCapacity required_bytes 0)
|}.

Record MegaColdStorageOptions : Type := {
  opt_safety_margin_bytes : Z;
  reservation_ttl : Z;
  opt_verify_existing : bool;
  temp_dir : string;
  temp_space_bytes : Z
}.

(** [MegaColdStorageOptions::default]. *)
Definition MegaColdStorageOptions_default : MegaColdStorageOptions := {|
  opt_safety_margin_bytes := 0;
  reservation_ttl := 3600 * 10 ^ 9;
  opt_verify_existing := true;
  temp_dir := "mega-temp";
  temp_space_bytes := 2 * 1024 * 1024 * 1024
|}.

Record MegaColdStoragePool (B : Type) : Type := {
  mp_provider_id : string;
  mp_pool : StoragePool;
  mp_accounts : list (MegaAccountBackend B);
  mp_options : MegaColdStorageOptions;
  provisioner : StorageCapacityProvisioner
}.
Arguments mp_provider_id {B}. Arguments mp_pool {B}. Arguments mp_accounts {B}.
Arguments mp_options {B}. Arguments provisioner {B}.

Record StoragePoolHealth : Type := {
  ph_pool_id : string;
  ph_provider_id : string;
  ph_storage_class : StorageClass;
  ph_provider_type : string;
  ph_priority : Z;
  ph_failure_domain : string;
  ph_enabled : bool;
  ph_provisioning_mode : ProvisioningMode;
  ph_status : StoragePoolStatus;
  total_capacity_bytes : Z;
  total_used_bytes : Z;
  total_reserved_bytes : Z;
  ph_available_bytes : Z;
  ph_accounts : list StorageAccountSnapshot
}.

(** [MegaColdStoragePool::new_with_provisioner]; [new] passes no
    provisioner. *)
Definition new_with_provisioner {B} (provider : string) (accounts : list (MegaAccountBackend B))
  (options : MegaColdStorageOptions) (chosen : option StorageCapacityProvisioner)
  : result (MegaColdStoragePool B) StorageError :=
  if blank provider || match accounts with [] => true | _ => false end
  then Err (Configuration "MEGA cold pool requires a provider ID and at least one account")
  else if is_empty (temp_dir options) || (temp_space_bytes options =? 0)
  then Err (Configuration "MEGA cold pool requires a temp directory and positive temp space limit")
  else
    let chosen := default (ManualStorageCapacityProvisioner provider) chosen in
    Ok {| mp_provider_id := provider;
          mp_pool := {| sp_id := provider; sp_storage_class := Cold; sp_provider_type := "mega";
                        sp_priority := 100; sp_failure_domain := "mega"; sp_enabled := true;
                        sp_status := PoolReady; sp_provisioning_mode := pv_mode chosen |};
          mp_accounts := sort_by (fun l r => String.compare (be_account_id l) (be_account_id r)) accounts;
          mp_options := options;
          provisioner := chosen |}.

Definition MegaColdStoragePool_new {B} provider (accounts : list (MegaAccountBackend B)) options :=
  new_with_provisioner provider accounts options None.

Definition object_path {B} (account : MegaAccountBackend B) (encoded_hash : string) : string :=
  (trim_end_matches "/" (be_remote_root account) +:+ "/chunks/" +:+ slice 0 2 encoded_hash +:+ "/"
     +:+ slice 2 4 encoded_hash +:+ "/" +:+ encoded_hash +:+ ".chunk")%string.

Definition pack_object_path {B} (account : MegaAccountBackend B) (pack_hash : string) : string :=
  (trim_end_matches "/" (be_remote_root account) +:+ "/packs/" +:+ slice 0 2 pack_hash +:+ "/"
     +:+ slice 2 4 pack_hash +:+ "/" +:+ pack_hash +:+ ".pack")%string.

Definition remote_path_of {B} (pack : bool) (account : MegaAccountBackend B) (hash : string) : string :=
  if pack then pack_object_path account hash else object_path account hash.

(** [u64] arithmetic of the atomics. *)
Definition wrap64 (z : Z) : Z := z mod 2 ^ 64.

(** ** The state *)

(** The remote accounts, the ledger, the host, and the two atomics of the
    pool. *)
Record PoolWorld (B L : Type) : Type := {
  w_backends : B;
  w_ledger : L;
  w_host : HostState;
  temp_reserved : Z;
  temp_counter : Z
}.
Arguments w_backends {B L}. Arguments w_ledger {B L}. Arguments w_host {B L}.
Arguments temp_reserved {B L}. Arguments temp_counter {B L}.

Section lifts.
Context {B L : Type}.
Abbreviation M := (stm (PoolWorld B L) StorageError).

Definition on_backend {A} (m : stm (B * HostState) StorageError A) : M A := fun w =>
  let '(s, r) := m (w_backends w, w_host w) in
  ({| w_backends := s.1; w_ledger := w_ledger w; w_host := s.2;
      temp_reserved := temp_reserved w; temp_counter := temp_counter w |}, r).

Definition on_ledger {A} (m : stm (L * HostState) StorageError A) : M A := fun w =>
  let '(s, r) := m (w_ledger w, w_host w) in
  ({| w_backends := w_backends w; w_ledger := s.1; w_host := s.2;
      temp_reserved := temp_reserved w; temp_counter := temp_counter w |}, r).

Definition on_disk {A} (m : stm HostState string A) : M A := fun w =>
  let '(h, r) := io m (w_host w) in
  ({| w_backends := w_backends w; w_ledger := w_ledger w; w_host := h;
      temp_reserved := temp_reserved w; temp_counter := temp_counter w |}, r).

Definition on_host {A} (m : stm HostState StorageError A) : M A := fun w =>
  let '(h, r) := m (w_host w) in
  ({| w_backends := w_backends w; w_ledger := w_ledger w; w_host := h;
      temp_reserved := temp_reserved w; temp_counter := temp_counter w |}, r).

Definition set_temp (reserved counter : Z) : M unit := fun w =>
  ({| w_backends := w_backends w; w_ledger := w_ledger w; w_host := w_host w;
      temp_reserved := reserved; temp_counter := counter |}, Ok tt).

(** [let _ = ...] and [.ok()]: the outcome is dropped. *)
Definition ignore {A} (m : M A) : M unit := catch! _ := m in sret tt.

End lifts.

Section pool.
Context {B L : Type} `{CapacityReservationStore L} `{Host} `{Blake3}.
Context (self : MegaColdStoragePool B).

Abbreviation M := (stm (PoolWorld B L) StorageError).
Local Abbreviation options := (mp_options self).

(** ** Temporary space *)

(** [TempReservation], dropped. *)
Definition drop_temp (bytes : Z) : M unit := fun w =>
  set_temp (wrap64 (temp_reserved w - bytes)) (temp_counter w) w.

(** Run alone, the compare-and-exchange loop succeeds at its first turn; the
    interleaved one is [TempSpace]. *)
Definition reserve_temp (encoded_hash suffix : string) (bytes : Z) : M string := fun w =>
  let available := saturating_sub (temp_space_bytes options) (temp_reserved w) in
  if available <? bytes then (w, Err (NeedsCapacity bytes available))
  else
    (let! _ := set_temp (wrap64 (temp_reserved w + bytes)) (temp_counter w) in
     catch! created := on_disk (fs_create_dir_all (temp_dir options)) in
     match created with
     | Err error => let! _ := drop_temp bytes in sfail error
     | Ok _ => fun w =>
         (let! _ := set_temp (temp_reserved w) (wrap64 (temp_counter w + 1)) in
          sret (path_join (temp_dir options)
            ("launcher-mega-" +:+ encoded_hash +:+ "-" +:+ fmt_u (temp_counter w) +:+ "-"
               +:+ suffix +:+ ".part")%string)) w
     end) w.

(** The scope of a [TempReservation]: it is dropped on every way out. *)
Definition with_temp {A} (encoded_hash suffix : string) (bytes : Z) (body : string -> M A) : M A :=
  let! temporary := reserve_temp encoded_hash suffix bytes in
  catch! r := body temporary in
  let! _ := drop_temp bytes in
  slift r.

Definition verify_bytes (pack : bool) (hash : string) (bytes : list byte) : result unit StorageError :=
  if pack then verify_pack_bytes hash bytes else verify_encoded_bytes hash bytes.

Definition verify_existing (account : MegaAccountBackend B) (remote_path encoded_hash : string)
  (expected_size : Z) (pack : bool) : M bool :=
  let! found := on_backend (object_size account remote_path) in
  match found with
  | None => sret false
  | Some size =>
      if negb (size =? expected_size) || negb (opt_verify_existing options)
      then sret ((size =? expected_size) && negb (opt_verify_existing options))
      else
        with_temp encoded_hash "verify" expected_size (fun temporary =>
          catch! r :=
            (let! _ := on_backend (download_file account remote_path temporary) in
             let! bytes := on_disk (fs_read temporary) in
             sret (is_ok (verify_bytes pack encoded_hash bytes))) in
          let! _ := ignore (on_disk (fs_remove_file temporary)) in
          slift r)
  end.

(** ** Writing *)

(** What the loop over the accounts has seen so far. *)
Record PutProgress : Type := {
  capacity_available : Z;
  capacity_checked : bool;
  last_error : option StorageError
}.

Definition put_start : PutProgress :=
  {| capacity_available := 0; capacity_checked := false; last_error := None |}.

Definition failed (error : StorageError) (p : PutProgress) : PutProgress :=
  {| capacity_available := capacity_available p; capacity_checked := capacity_checked p;
     last_error := Some error |}.

Definition upload (account : MegaAccountBackend B) (reservation : StorageReservation)
  (temporary remote_path : string) (size : Z) : M unit :=
  let! _ := on_backend (upload_file account temporary remote_path) in
  let! uploaded := on_backend (object_size account remote_path) in
  if negb (bool_decide (uploaded = Some size)) then sfail (Provider "MEGA upload size verification failed")
  else on_ledger (commit (reservation_id reservation)).

(** One turn of the loop, once no usable copy is there: [None] when the object
    is stored, the progress when the next account must be tried. *)
Definition put_upload (account : MegaAccountBackend B) (encoded_hash temporary remote_path : string)
  (size : Z) (p : PutProgress) : M (option PutProgress) :=
  catch! capacity := on_backend (be_capacity account) in
  match capacity with
  | Err error => sret (Some (failed error p))
  | Ok capacity =>
      let p := {| capacity_available := capacity_available p; capacity_checked := true;
                  last_error := last_error p |} in
      catch! snapshot := on_ledger (refresh_account_capacity (be_account_id account) capacity) in
      match snapshot with
      | Err error => sret (Some (failed error p))
      | Ok snapshot =>
          let p := {| capacity_available := saturating_add (capacity_available p) (usable_free_bytes snapshot);
                      capacity_checked := true; last_error := last_error p |} in
          catch! reservation := on_ledger
            (reserve (be_account_id account) encoded_hash size (reservation_ttl options)) in
          match reservation with
          | Err (NeedsCapacity _ _) => sret (Some p)
          | Err error => sret (Some (failed error p))
          | Ok reservation =>
              catch! uploaded := upload account reservation temporary remote_path size in
              match uploaded with
              | Ok _ => let! _ := ignore (on_disk (fs_remove_file temporary)) in sret None
              | Err error =>
                  let! _ := ignore (on_ledger (release (reservation_id reservation))) in
                  let! _ := ignore (on_backend (delete_object account remote_path)) in
                  sret (Some (failed error p))
              end
          end
      end
  end.

(** A copy that could not be used is deleted before the upload. *)
Definition delete_stale (account : MegaAccountBackend B) (remote_path : string) : M unit :=
  catch! existing := on_backend (object_size account remote_path) in
  match existing with
  | Ok (Some _) => on_backend (delete_object account remote_path)
  | _ => sret tt
  end.

Definition put_account (pack : bool) (encoded_hash temporary : string) (size : Z)
  (account : MegaAccountBackend B) (p : PutProgress) : M (option PutProgress) :=
  let remote_path := remote_path_of pack account encoded_hash in
  catch! verified := verify_existing account remote_path encoded_hash size pack in
  match verified with
  | Ok true => let! _ := ignore (on_disk (fs_remove_file temporary)) in sret None
  | Err error => sret (Some (failed error p))
  | Ok false =>
      catch! deleted := delete_stale account remote_path in
      match deleted with
      | Err error => sret (Some (failed error p))
      | Ok _ => put_upload account encoded_hash temporary remote_path size p
      end
  end.

Fixpoint put_loop (pack : bool) (encoded_hash temporary : string) (size : Z)
  (accounts : list (MegaAccountBackend B)) (p : PutProgress) : M (option PutProgress) :=
  match accounts with
  | [] => sret (Some p)
  | account :: accounts =>
      let! next := put_account pack encoded_hash temporary size account p in
      match next with
      | None => sret None
      | Some p => put_loop pack encoded_hash temporary size accounts p
      end
  end.

(** The error once every account was tried. *)
Definition put_failure (size : Z) (p : PutProgress) : StorageError :=
  match last_error p with
  | Some (Authentication message) => Authentication message
  | _ =>
      if capacity_available p =? 0 then
        match last_error p with
        | Some error => error
        | None => if capacity_checked p then NeedsCapacity size 0 else PoolUnavailable
        end
      else NeedsCapacity size (capacity_available p)
  end.

Definition put_inner_with_paths (encoded_hash : string) (bytes : list byte) (pack : bool) : M unit :=
  with_temp encoded_hash "upload" (len64 bytes) (fun temporary =>
    let! _ := on_disk (fs_write temporary bytes) in
    let! remaining := put_loop pack encoded_hash temporary (len64 bytes) (mp_accounts self) put_start in
    match remaining with
    | None => sret tt
    | Some p =>
        let! _ := ignore (on_disk (fs_remove_file temporary)) in
        sfail (put_failure (len64 bytes) p)
    end).

Definition put_inner (encoded_hash : string) (bytes : list byte) : M unit :=
  put_inner_with_paths encoded_hash bytes false.

(** ** Reading *)

(** One account: nothing there, or the outcome of fetching the object. *)
Definition fetch (account : MegaAccountBackend B) (encoded_hash : string) (pack : bool)
  : M (option (list byte)) :=
  let remote_path := remote_path_of pack account encoded_hash in
  let! found := on_backend (object_size account remote_path) in
  match found with
  | None => sret None
  | Some size =>
      with_temp encoded_hash (if pack then "pack-download" else "download") size (fun temporary =>
        catch! r :=
          (let! _ := on_backend (download_file account remote_path temporary) in
           let! bytes := on_disk (fs_read temporary) in
           if negb (size =? len64 bytes) then sfail (Provider "MEGA download size verification failed")
           else let! _ := slift (verify_bytes pack encoded_hash bytes) in sret (Some bytes)) in
        let! _ := ignore (on_disk (fs_remove_file temporary)) in
        slift r)
  end.

Fixpoint read_loop (encoded_hash : string) (pack : bool) (accounts : list (MegaAccountBackend B))
  (last : option StorageError) : M (list byte) :=
  match accounts with
  | [] => sfail (default (Unavailable ("cold object " +:+ encoded_hash +:+ " is unavailable")%string) last)
  | account :: accounts =>
      catch! r := fetch account encoded_hash pack in
      match r with
      | Ok (Some bytes) => sret bytes
      | Ok None => read_loop encoded_hash pack accounts last
      | Err error => read_loop encoded_hash pack accounts (Some error)
      end
  end.

Definition read_inner (encoded_hash : string) (pack : bool) : M (list byte) :=
  read_loop encoded_hash pack (mp_accounts self) None.

(** ** The provider's operations *)

Definition put_encoded (encoded_hash : string) (bytes : list byte) : M unit :=
  let! _ := slift (validate_hash encoded_hash) in
  let! _ := slift (verify_encoded_bytes encoded_hash bytes) in
  put_inner encoded_hash bytes.

Definition put_pack (pack_hash : string) (bytes : list byte) : M unit :=
  let! _ := slift (validate_hash pack_hash) in
  let! _ := slift (verify_pack_bytes pack_hash bytes) in
  put_inner_with_paths pack_hash bytes true.

Definition read_encoded (encoded_hash : string) : M (list byte) :=
  let! _ := slift (validate_hash encoded_hash) in
  read_inner encoded_hash false.

Definition read_pack (pack_hash : string) : M (list byte) :=
  let! _ := slift (validate_hash pack_hash) in
  read_inner pack_hash true.

Fixpoint head_loop (encoded_hash : string) (accounts : list (MegaAccountBackend B))
  (last : option StorageError) : M (option Z) :=
  match accounts with
  | [] => match last with Some error => sfail error | None => sret None end
  | account :: accounts =>
      catch! found := on_backend (object_size account (object_path account encoded_hash)) in
      match found with
      | Ok (Some size) => sret (Some size)
      | Ok None => head_loop encoded_hash accounts last
      | Err error => head_loop encoded_hash accounts (Some error)
      end
  end.

Definition head_encoded (encoded_hash : string) : M (option Z) :=
  let! _ := slift (validate_hash encoded_hash) in
  head_loop encoded_hash (mp_accounts self) None.

(** The body of [delete_encoded] and [delete_pack]: every account is tried,
    the last error is reported. *)
Fixpoint delete_loop (pack : bool) (hash : string) (accounts : list (MegaAccountBackend B))
  (last : option StorageError) : M unit :=
  match accounts with
  | [] => match last with Some error => sfail error | None => sret tt end
  | account :: accounts =>
      let remote_path := remote_path_of pack account hash in
      catch! found := on_backend (object_size account remote_path) in
      match found with
      | Ok (Some _) =>
          catch! deleted := on_backend (delete_object account remote_path) in
          delete_loop pack hash accounts (match deleted with Err error => Some error | Ok _ => last end)
      | Ok None => delete_loop pack hash accounts last
      | Err error => delete_loop pack hash accounts (Some error)
      end
  end.

Definition delete_encoded (encoded_hash : string) : M unit :=
  let! _ := slift (validate_hash encoded_hash) in
  delete_loop false encoded_hash (mp_accounts self) None.

Definition delete_pack (pack_hash : string) : M unit :=
  let! _ := slift (validate_hash pack_hash) in
  delete_loop true pack_hash (mp_accounts self) None.

Definition provision_capacity (required_bytes : Z) : M ProvisionedCapacity :=
  let! can := on_host (can_provision (provisioner self) required_bytes) in
  if negb can then sfail (NeedsCapacity required_bytes 0)
  else
    let! provisioned := on_host (provision (provisioner self) required_bytes) in
    if negb (String.eqb (pc_pool_id provisioned) (sp_id (mp_pool self)))
    then sfail (Configuration ("capacity provisioner returned pool " +:+ pc_pool_id provisioned
                  +:+ " for " +:+ sp_id (mp_pool self))%string)
    else sret provisioned.

(** ** Health *)

Record HealthCounts : Type := { healthy_accounts : Z; auth_failed : bool; network_unavailable : bool }.

(** A failed probe marks the account in the ledger. *)
Definition probe_failed (account : MegaAccountBackend B) (error : StorageError) (c : HealthCounts)
  : M HealthCounts :=
  let mark status := ignore (on_ledger (set_account_status (be_account_id account) status)) in
  match error with
  | Authentication _ =>
      let! _ := mark AcAuthFailed in
      sret {| healthy_accounts := healthy_accounts c; auth_failed := true;
              network_unavailable := network_unavailable c |}
  | NetworkUnavailable _ =>
      let! _ := mark AcUnavailable in
      sret {| healthy_accounts := healthy_accounts c; auth_failed := auth_failed c;
              network_unavailable := true |}
  | _ => let! _ := mark AcUnavailable in sret c
  end.

Definition probe (account : MegaAccountBackend B) (c : HealthCounts) : M HealthCounts :=
  catch! health := on_backend (be_health account) in
  match health with
  | Err error => probe_failed account error c
  | Ok _ =>
      catch! capacity := on_backend (be_capacity account) in
      match capacity with
      | Err error => probe_failed account error c
      | Ok capacity =>
          let! _ := ignore (on_ledger (refresh_account_capacity (be_account_id account) capacity)) in
          sret {| healthy_accounts := healthy_accounts c + 1; auth_failed := auth_failed c;
                  network_unavailable := network_unavailable c |}
      end
  end.

Fixpoint probe_all (accounts : list (MegaAccountBackend B)) (c : HealthCounts) : M HealthCounts :=
  match accounts with
  | [] => sret c
  | account :: accounts => let! c := probe account c in probe_all accounts c
  end.

Definition pool_status (accounts : list StorageAccountSnapshot) (available_bytes : Z) (c : HealthCounts)
  : StoragePoolStatus :=
  let active := filter (fun a => can_allocate (account_status a) = true) accounts in
  if negb (sp_enabled (mp_pool self)) then PoolDisabled
  else if (len64 active =? 0) && (auth_failed c || network_unavailable c) then PoolStatusUnavailable
  else if (len64 active =? 0) || (available_bytes =? 0) then PoolNeedsCapacity
  else if healthy_accounts c <? len64 (mp_accounts self) then PoolDegraded
  else PoolReady.

Definition health : M StoragePoolHealth :=
  catch! listed := on_ledger (list_accounts (mp_provider_id self)) in
  let accounts := match listed with Ok l => l | Err _ => [] end in
  let! c := probe_all (mp_accounts self)
    {| healthy_accounts := 0; auth_failed := false; network_unavailable := false |} in
  catch! listed := on_ledger (list_accounts (mp_provider_id self)) in
  let accounts := match listed with Ok l => l | Err _ => accounts end in
  let available_bytes := u64_sum usable_free_bytes accounts in
  let pool := mp_pool self in
  sret {| ph_pool_id := sp_id pool; ph_provider_id := mp_provider_id self;
          ph_storage_class := sp_storage_class pool; ph_provider_type := sp_provider_type pool;
          ph_priority := sp_priority pool; ph_failure_domain := sp_failure_domain pool;
          ph_enabled := sp_enabled pool; ph_provisioning_mode := pv_mode (provisioner self);
          ph_status := pool_status accounts available_bytes c;
          total_capacity_bytes := u64_sum capacity_bytes accounts;
          total_used_bytes := u64_sum used_bytes accounts;
          total_reserved_bytes := u64_sum reserved_bytes accounts;
          ph_available_bytes := available_bytes; ph_accounts := accounts |}.

Definition health_check : M unit :=
  let! h := health in
  match ph_status h with
  | PoolReady => sret tt
  | PoolDegraded => sfail (Unavailable "MEGA cold pool is degraded")
  | PoolNeedsCapacity => sfail (NeedsCapacity 1 (ph_available_bytes h))
  | PoolStatusUnavailable | PoolDisabled => sfail PoolUnavailable
  end.
End pool.

(** ** Configuration *)

(** [std::env::var_os] and [std::env::var]: a variable that is not Unicode
    keeps its raw bytes. *)
Inductive OsVar : Type := VarUnset | VarText (value : string) | VarRaw (bytes : string).

Definition var_os (v : OsVar) : option string :=
  match v with VarUnset => None | VarText s | VarRaw s => Some s end.

Section config.
(** The account that drives MEGAcmd, and the text of
    [VarError::NotUnicode]. *)
Context {B : Type} (cli : MegaAccountConfig -> MegaAccountBackend B) (env : string -> OsVar)
  (not_unicode : string -> string).

Definition temp_space_from_env : result Z StorageError :=
  let invalid error := Configuration ("invalid LAUNCHER_COLD_TEMP_BYTES: " +:+ error)%string in
  match env "LAUNCHER_COLD_TEMP_BYTES" with
  | VarText value => map_err invalid (parse_uint u64_max value)
  | VarUnset => Ok (2 * 1024 * 1024 * 1024)
  | VarRaw bytes => Err (invalid (not_unicode bytes))
  end.

Definition from_config (config : MegaColdStorageConfig) : result (MegaColdStoragePool B) StorageError :=
  let? _ := MegaColdStorageConfig_validate config in
  let? accounts := try_map MegaCliAccount_new (cfg_accounts config) in
  let? space := temp_space_from_env in
  MegaColdStoragePool_new (cfg_provider_id config) (map cli accounts) {|
    opt_safety_margin_bytes := foldr Z.max 0 (map cfg_safety_margin_bytes (cfg_accounts config));
    reservation_ttl := cfg_reservation_ttl_seconds config * 10 ^ 9;
    opt_verify_existing := cfg_verify_existing config;
    temp_dir := default "mega-temp"%string (var_os (env "LAUNCHER_COLD_TEMP_DIR"));
    temp_space_bytes := space |}.

(** The snapshot an account is registered with. *)
Definition registration (config : MegaColdStorageConfig) (account : MegaAccountConfig) : StorageAccountSnapshot := {|
  account_id := cfg_account_id account; Reservations.provider_id := cfg_provider_id config;
  Reservations.pool_id := cfg_provider_id config; Reservations.failure_domain := "mega"; tier := Cold;
  account_status := AcActive; capacity_bytes := cfg_capacity_bytes account; used_bytes := 0;
  reserved_bytes := 0; safety_margin_bytes := cfg_safety_margin_bytes account; last_capacity_check := None |}.

Fixpoint register_all {L} `{CapacityReservationStore L} (config : MegaColdStorageConfig)
  (accounts : list MegaAccountConfig) : stm (L * HostState) StorageError unit :=
  match accounts with
  | [] => sret tt
  | account :: accounts =>
      let! _ := ensure_account (registration config account) in
      register_all config accounts
  end.

Definition from_config_and_register {L} `{CapacityReservationStore L} (config : MegaColdStorageConfig)
  : stm (L * HostState) StorageError (MegaColdStoragePool B) :=
  let! _ := slift (MegaColdStorageConfig_validate config) in
  let! _ := register_all config (cfg_accounts config) in
  slift (from_config config).
End config.
