(* ===== verification/MegaPoolProps.v ===== *)
(** * What the cold pool guarantees

    For any accounts: what is read has the hash that was asked for, and no
    operation keeps temporary space or a reservation.  The accounts may answer
    anything, so this covers every failure of the remote side. *)
From stdpp Require Import base gmap strings list fin_maps sets pretty.
From Stdlib Require Import ZArith Lia Ascii.
From S2P Require Import Prelude Text Bytes Storage Effects Placement Reservations MegaAccount MegaPool.
Local Open Scope Z_scope.

(** ** What the pool relies on in a ledger *)

(** The identifiers of the reservations a ledger still holds. *)
Class HeldLedger (L : Type) : Type := held_ids : L -> gset string.

(** Only [reserve] adds one, and it returns it; [release] ends it, and so does
    a [commit] that succeeds. *)
Class LedgerLaws (L : Type) `{CapacityReservationStore L} `{HeldLedger L} : Prop := {
  refresh_held account snapshot s :
    held_ids (refresh_account_capacity account snapshot s).1.1 ⊆ held_ids s.1;
  status_held account status s : held_ids (set_account_status account status s).1.1 ⊆ held_ids s.1;
  list_held provider s : held_ids (list_accounts provider s).1.1 ⊆ held_ids s.1;
  reserve_held account hash bytes ttl s :
    held_ids (reserve account hash bytes ttl s).1.1 ⊆
      match (reserve account hash bytes ttl s).2 with
      | Ok r => {[reservation_id r]} ∪ held_ids s.1
      | Err _ => held_ids s.1
      end;
  commit_held rid s : held_ids (commit rid s).1.1 ⊆
      match (commit rid s).2 with Ok _ => held_ids s.1 ∖ {[rid]} | Err _ => held_ids s.1 end;
  release_held rid s : held_ids (release rid s).1.1 ⊆ held_ids s.1 ∖ {[rid]}
}.

(** ** The in-memory ledger keeps these laws *)

#[export] Instance in_memory_held : HeldLedger InMemoryCapacityState := fun st =>
  dom (filter (fun kr => res_state kr.2 = Held) (reservations st)).

Lemma elem_of_held st k :
  k ∈ held_ids st <-> exists r, reservations st !! k = Some r /\ res_state r = Held.
Proof.
  unfold held_ids, in_memory_held. rewrite elem_of_dom. unfold is_Some. setoid_rewrite map_lookup_filter_Some.
  naive_solver.
Qed.

Lemma held_of_reservations st st' :
  reservations st' = reservations st -> held_ids st' = held_ids st.
Proof. unfold held_ids, in_memory_held. by intros ->. Qed.

Section in_memory.
Context `{Host} `{HashOrder} (duration_from_std : Duration -> result Z string).

Lemma expire_locked_held s :
  exists st' n, expire_locked s = ((st', (now (E := StorageError) s.2).1), Ok n) /\ held_ids st' ⊆ held_ids s.1.
Proof.
  eexists _, _. split.
  { unfold expire_locked, sbind, on_snd, get_ledger, put_ledger, sret. simpl. reflexivity. }
  intros k. rewrite !elem_of_held. simpl. intros (r & Hr & Hh).
  apply lookup_fmap_Some in Hr as (r0 & <- & Hr). exists r0. split; [done|].
  unfold expire_reservation in Hh. by destruct (is_expired _ r0).
Qed.

Lemma settle_held_ids final f rid s :
  final <> Held ->
  held_ids (settle final f rid s).1.1 ⊆ held_ids s.1 ∖ {[rid]}.
Proof.
  intros Hf k. rewrite elem_of_difference, elem_of_singleton. unfold settle.
  rewrite (sbind_Ok get_ledger _ _ _ _ eq_refl).
  destruct (reservations s.1 !! rid) as [r|] eqn:Er; simpl.
  - destruct (decide (res_state r = Held)) as [Hh|Hh];
      [rewrite bool_decide_true by done|rewrite bool_decide_false by done]; simpl; rewrite !elem_of_held; simpl.
    + intros (e & He & Hs). apply lookup_insert_Some in He as [[-> <-]|[Hne He]]; [done|].
      split; [by exists e|done].
    + intros (e & He & Hs). split; [by exists e|]. intros ->. naive_solver.
  - rewrite !elem_of_held. intros (e & He & Hs). split; [by exists e|]. intros ->. naive_solver.
Qed.

#[export] Instance in_memory_laws :
  @LedgerLaws InMemoryCapacityState (in_memory_ledger duration_from_std) in_memory_held.
Proof.
  split.
  - intros account snapshot s. cbn [refresh_account_capacity in_memory_ledger]. unfold mem_refresh_account_capacity.
    rewrite (sbind_Ok get_ledger _ _ _ _ eq_refl). by destruct (_ !! _).
  - intros account status s. cbn [set_account_status in_memory_ledger]. unfold mem_set_account_status.
    rewrite (sbind_Ok get_ledger _ _ _ _ eq_refl). by destruct (_ !! _).
  - intros provider s. cbn [list_accounts in_memory_ledger]. unfold mem_list_accounts.
    destruct (expire_locked_held s) as (st' & n & E & Hle). by rewrite (sbind_Ok _ _ _ _ _ E).
  - intros account hash bytes ttl s. cbn [reserve in_memory_ledger]. unfold mem_reserve.
    destruct (expire_locked_held s) as (st' & n & E & Hle).
    rewrite (sbind_Ok _ _ _ _ _ E), (sbind_Ok get_ledger _ _ _ _ eq_refl). cbn [fst].
    destruct (find_first _ _) as [e|]; [set_solver|].
    destruct (accounts st' !! account) as [a|]; [|done].
    destruct (negb _); [by destruct (_ <? _)|]. destruct (_ <? _); [done|].
    unfold put_ledger, slift, sbind, on_snd, now. cbn. destruct (duration_from_std ttl); cbn; [|done].
    intros k. rewrite elem_of_held. cbn. intros (r & Hr & Hh).
    apply lookup_insert_Some in Hr as [[<- <-]|[Hne Hr]]; [set_solver|].
    apply elem_of_union_r, Hle, elem_of_held. by exists r.
  - intros rid s. cbn [commit in_memory_ledger]. pose proof (settle_held_ids Committed commit_account rid s ltac:(done)) as Hs.
    unfold mem_commit. destruct (settle _ _ _ s) as [s' [?|?]]; set_solver.
  - intros rid s. simpl. by apply settle_held_ids.
Qed.
End in_memory.

(** ** Any accounts, any lawful ledger *)

Section pool.
Context {B L : Type} `{LedgerLaws L} `{Host} `{Blake3}.
Context (self : MegaColdStoragePool B).

Abbreviation M := (stm (PoolWorld B L) StorageError).

(** What is reserved of the temporary space, and a bound on what the ledger
    holds. *)
Definition clean (n : Z) (held : gset string) (w : PoolWorld B L) : Prop :=
  temp_reserved w = n /\ held_ids (w_ledger w) ⊆ held.

Lemma on_backend_clean {A} n held (m : stm (B * HostState) StorageError A) :
  preserves (clean n held) (on_backend (L := L) m).
Proof. intros w Hw. unfold on_backend. by destruct (m _). Qed.

Lemma on_disk_clean {A} n held (m : stm HostState string A) :
  preserves (clean n held) (on_disk (B := B) (L := L) m).
Proof. intros w Hw. unfold on_disk. by destruct (io m _). Qed.

Lemma on_host_clean {A} n held (m : stm HostState StorageError A) :
  preserves (clean n held) (on_host (B := B) (L := L) m).
Proof. intros w Hw. unfold on_host. by destruct (m _). Qed.

Lemma on_ledger_clean {A} n held (m : stm (L * HostState) StorageError A) :
  (forall s, held_ids (m s).1.1 ⊆ held_ids s.1) -> preserves (clean n held) (on_ledger (B := B) m).
Proof.
  intros Hm w [Hn Hw]. unfold on_ledger. specialize (Hm (w_ledger w, w_host w)).
  destruct (m _) as [s r]. split; [done|]. simpl in *. set_solver.
Qed.

Lemma ignore_clean {A} n held (m : M A) :
  preserves (clean n held) m -> preserves (clean n held) (ignore m).
Proof. intros Hm. unfold ignore. preserve. Qed.

Hint Resolve on_backend_clean on_disk_clean on_host_clean ignore_clean : launcher.

Lemma wrap_back n b : is_u64 n -> wrap64 (wrap64 (n + b) - b) = n.
Proof.
  unfold is_u64, u64_max, wrap64. intros Hn.
  rewrite Zminus_mod_idemp_l, Z.add_simpl_r. apply Z.mod_small. lia.
Qed.

Lemma wrap64_u64 z : is_u64 (wrap64 z).
Proof. unfold is_u64, u64_max, wrap64. pose proof (Z.mod_pos_bound z (2 ^ 64)). lia. Qed.

Lemma reserve_temp_outcome hash suffix bytes (w : PoolWorld B L) :
  let '(w', r) := reserve_temp self hash suffix bytes w in
  w_backends w' = w_backends w /\ w_ledger w' = w_ledger w /\
  match r with
  | Ok path =>
      bytes <= saturating_sub (temp_space_bytes (mp_options self)) (temp_reserved w)
      /\ temp_reserved w' = wrap64 (temp_reserved w + bytes)
      /\ temp_counter w' = wrap64 (temp_counter w + 1)
      /\ path = path_join (temp_dir (mp_options self)) ("launcher-mega-" +:+ hash +:+ "-"
                  +:+ fmt_u (temp_counter w) +:+ "-" +:+ suffix +:+ ".part")%string
  | Err _ => is_u64 (temp_reserved w) -> temp_reserved w' = temp_reserved w
  end.
Proof.
  unfold reserve_temp. destruct (Z.ltb_spec (saturating_sub (temp_space_bytes (mp_options self)) (temp_reserved w)) bytes); [done|].
  unfold sbind, stry, on_disk, set_temp, drop_temp, sret, sfail. simpl.
  destruct (io _ _) as [h [[]|e]]; simpl; [done|]. split_and!; [done..|]. apply wrap_back.
Qed.

Lemma with_temp_clean {A} n held hash suffix bytes (body : string -> M A) :
  is_u64 n -> (forall path m, is_u64 m -> preserves (clean m held) (body path)) ->
  preserves (clean n held) (with_temp self hash suffix bytes body).
Proof.
  intros Hn Hbody w [Hw Hheld]. unfold with_temp. pose proof (reserve_temp_outcome hash suffix bytes w) as Hr.
  destruct (reserve_temp self hash suffix bytes w) as [w1 [path|e]] eqn:Er; destruct Hr as (_ & Hl & Hr).
  - rewrite (sbind_Ok _ _ _ _ _ Er). destruct Hr as (_ & Ht & _). unfold stry.
    assert (clean (wrap64 (n + bytes)) held w1) as Hc by (split; [by rewrite Ht, Hw|by rewrite Hl]).
    pose proof (Hbody path _ (wrap64_u64 _) w1 Hc) as [Ht2 Hh2].
    destruct (body path w1) as [w2 r]. simpl in *. split; [|done]. simpl. rewrite Ht2. by apply wrap_back.
  - rewrite (sbind_Err _ _ _ _ _ Er). split; [|simpl; by rewrite Hl]. simpl. rewrite Hr; [done|]. by rewrite Hw.
Qed.

Lemma verify_existing_clean n held account path hash size pack :
  is_u64 n -> preserves (clean n held) (verify_existing self account path hash size pack).
Proof.
  intros Hn. unfold verify_existing. apply preserves_sbind; [auto with launcher|]. intros [found|]; [|preserve].
  destruct (negb _ || negb _); [preserve|]. apply with_temp_clean; [done|]. intros. preserve.
Qed.

Lemma delete_stale_clean n held account path :
  preserves (clean n held) (delete_stale (L := L) account path).
Proof. unfold delete_stale. preserve. Qed.

(** An upload that succeeds ends its reservation. *)
Lemma upload_clean n held account reservation path remote size w :
  clean n ({[reservation_id reservation]} ∪ held) w ->
  let '(w', r) := upload account reservation path remote size w in
  clean n (match r with Ok _ => held | Err _ => {[reservation_id reservation]} ∪ held end) w'.
Proof.
  intros Hw. unfold upload, sbind at 1.
  pose proof (on_backend_clean n _ (upload_file account path remote) w Hw) as Hc1.
  destruct (on_backend _ w) as [w1 [[]|e]]; [|done]. unfold sbind.
  pose proof (on_backend_clean n _ (object_size account remote) w1 Hc1) as H2'.
  destruct (on_backend _ w1) as [w2 [found|e]]; [|done]. simpl in *.
  destruct (negb _); [done|]. unfold on_ledger.
  pose proof (commit_held (reservation_id reservation) (w_ledger w2, w_host w2)) as Hc.
  destruct (commit _ _) as [s' [u|e]]; (split; [apply H2'|]); destruct H2' as [_ Hh2]; simpl in *; set_solver.
Qed.

Lemma release_clean n held rid w :
  clean n ({[rid]} ∪ held) w ->
  exists w', ignore (on_ledger (B := B) (release rid)) w = (w', Ok tt) /\ clean n held w'.
Proof.
  intros [Hn Hh]. unfold ignore, stry, on_ledger.
  pose proof (release_held rid (w_ledger w, w_host w)) as Hrel.
  destruct (release _ _) as [s' r]. eexists. split; [done|]. split; [done|]. simpl in *. set_solver.
Qed.

Lemma put_upload_clean n held account hash path remote size p :
  preserves (clean n held) (put_upload self account hash path remote size p).
Proof.
  unfold put_upload. apply preserves_stry; [auto with launcher|]. intros [capacity|e]; [|preserve].
  apply preserves_stry; [apply on_ledger_clean, refresh_held|]. intros [snapshot|e]; [|preserve].
  intros w Hw. unfold stry at 1, on_ledger at 1.
  pose proof (reserve_held (be_account_id account) hash size (reservation_ttl (mp_options self)) (w_ledger w, w_host w)) as Hr.
  destruct (reserve _ _ _ _ _) as [s [reservation|e]]; cbn [fst snd] in *.
  2: { assert (clean n held {| w_backends := w_backends w; w_ledger := s.1; w_host := s.2;
        temp_reserved := temp_reserved w; temp_counter := temp_counter w |}) as Hc.
       { destruct Hw. split; [done|]. simpl. set_solver. }
       destruct e; exact Hc. }
  set (w1 := {| w_backends := w_backends w; w_ledger := s.1; w_host := s.2;
        temp_reserved := temp_reserved w; temp_counter := temp_counter w |}).
  assert (clean n ({[reservation_id reservation]} ∪ held) w1) as Hc.
  { destruct Hw. split; [done|]. simpl. set_solver. }
  apply upload_clean with (account := account) (path := path) (remote := remote) (size := size) in Hc.
  unfold stry. destruct (upload _ _ _ _ _ w1) as [w2 [u|e]].
  - revert w2 Hc. change (preserves (clean n held) (let! _ := ignore (on_disk (B := B) (L := L) (fs_remove_file path)) in
      sret (E := StorageError) (@None PutProgress))). preserve.
  - destruct (release_clean _ _ _ _ Hc) as (w3 & E & Hc3). rewrite (sbind_Ok _ _ _ _ _ E).
    apply preserves_sbind; [auto with launcher|auto with launcher|done].
Qed.
Hint Resolve delete_stale_clean put_upload_clean : launcher.

Lemma put_loop_clean n held pack hash path size accounts p :
  is_u64 n -> preserves (clean n held) (put_loop self pack hash path size accounts p).
Proof.
  intros Hn. revert p. induction accounts as [|account accounts IH]; intros p; simpl; [auto with launcher|].
  apply preserves_sbind; [|preserve]. unfold put_account.
  apply preserves_stry; [by apply verify_existing_clean|]. preserve.
Qed.

Lemma put_clean n held hash bytes pack :
  is_u64 n -> preserves (clean n held) (put_inner_with_paths self hash bytes pack).
Proof.
  intros Hn. apply with_temp_clean; [done|]. intros path m Hm.
  apply preserves_sbind; [auto with launcher|]. intros _.
  apply preserves_sbind; [by apply put_loop_clean|]. preserve.
Qed.

Lemma fetch_clean n held account hash pack :
  is_u64 n -> preserves (clean n held) (fetch self account hash pack).
Proof.
  intros Hn. unfold fetch. apply preserves_sbind; [auto with launcher|]. intros [size|]; [|preserve].
  apply with_temp_clean; [done|]. intros. preserve.
Qed.

Lemma read_clean n held hash pack accounts last :
  is_u64 n -> preserves (clean n held) (read_loop self hash pack accounts last).
Proof.
  intros Hn. revert last. induction accounts as [|account accounts IH]; intros last; simpl; [auto with launcher|].
  apply preserves_stry; [by apply fetch_clean|]. preserve.
Qed.


(** ** Reading *)

Lemma with_temp_Ok {A} hash suffix bytes (body : string -> M A) w w' a :
  with_temp self hash suffix bytes body w = (w', Ok a) ->
  exists path w1 w2, body path w1 = (w2, Ok a).
Proof.
  unfold with_temp. intros (w1 & path & _ & Hb)%sbind_inv. unfold stry in Hb.
  destruct (body path w1) as [w2 r] eqn:E. apply sbind_inv in Hb as (w3 & [] & _ & Hb).
  unfold slift in Hb. injection Hb as _ ->. by exists path, w1, w2.
Qed.

Lemma fetch_verified account hash pack (w w' : PoolWorld B L) bytes :
  fetch self account hash pack w = (w', Ok (Some bytes)) -> verify_bytes pack hash bytes = Ok tt.
Proof.
  unfold fetch. intros (w1 & [size|] & _ & Hf)%sbind_inv; [|done].
  apply with_temp_Ok in Hf as (path & w2 & w3 & Hb). unfold stry in Hb.
  destruct (sbind (on_backend _) _ w2) as [w4 r] eqn:E.
  apply sbind_inv in Hb as (w5 & [] & _ & Hb). unfold slift in Hb. injection Hb as _ ->.
  apply sbind_inv in E as (w6 & [] & _ & E). apply sbind_inv in E as (w7 & bs & _ & E).
  destruct (negb _); [done|]. apply sbind_inv in E as (w8 & [] & Hv & E).
  unfold slift in Hv. unfold sret in E. by simplify_eq.
Qed.

Lemma read_loop_verified hash pack accounts last (w w' : PoolWorld B L) bytes :
  read_loop self hash pack accounts last w = (w', Ok bytes) -> verify_bytes pack hash bytes = Ok tt.
Proof.
  revert last w. induction accounts as [|account accounts IH]; intros last w; simpl; [done|].
  unfold stry. destruct (fetch self account hash pack w) as [w1 [[bs|]|e]] eqn:E.
  - intros [= -> ->]. by eapply fetch_verified.
  - apply IH.
  - apply IH.
Qed.

Lemma verify_bytes_Ok pack hash bytes : verify_bytes pack hash bytes = Ok tt <-> blake3_hex bytes = hash.
Proof.
  unfold verify_bytes, verify_pack_bytes, verify_encoded_bytes.
  destruct pack; destruct (String.eqb_spec (blake3_hex bytes) hash); naive_solver.
Qed.

(** C35. No account can make the pool return something else than what was asked
    for: the bytes of a successful read have the requested hash, which is a
    valid one. *)
Theorem pool_read_verified hash (w w' : PoolWorld B L) bytes :
  read_encoded self hash w = (w', Ok bytes) \/ read_pack self hash w = (w', Ok bytes) ->
  is_lower_hex_hash hash = true /\ blake3_hex bytes = hash.
Proof.
  intros [(w1 & [] & Hv & Hr)%sbind_inv|(w1 & [] & Hv & Hr)%sbind_inv];
    unfold slift, validate_hash in Hv; destruct (is_lower_hex_hash hash) eqn:E; simplify_eq;
    (split; [done|]); apply read_loop_verified in Hr; by apply verify_bytes_Ok in Hr.
Qed.
End pool.
