(* ===== verification/MegaFake.v ===== *)
(** * The cold pool over fake accounts

    With the in-memory accounts and a disk that does not fail, an object whose
    upload succeeded can be read back. *)
From stdpp Require Import base gmap strings list fin_maps sets pretty.
From Stdlib Require Import ZArith Lia Ascii.
From S2P Require Import Prelude Text Bytes Storage Effects Placement Reservations MegaAccount MegaPool MegaPoolProps.
Local Open Scope Z_scope.

(** ** A disk that does not fail *)

Class QuietHost `{Host} : Prop := quiet : forall n, host_io n = None.

#[export] Instance counting_host_quiet : @QuietHost counting_host.
Proof. by intros n. Qed.

Section disk.
Context `{QuietHost}.

Lemma fs_write_quiet path bytes h :
  exists h', fs_write path bytes h = (h', Ok tt) /\ files h' = <[path := bytes]> (files h).
Proof. unfold fs_write, file_op. rewrite quiet. by eexists. Qed.

Lemma fs_read_quiet path h :
  exists h', fs_read path h = (h', ok_or (files h !! path) "not found"%string) /\ files h' = files h.
Proof. unfold fs_read, file_op. rewrite quiet. by eexists. Qed.

Lemma fs_remove_quiet path h :
  exists h' r, fs_remove_file path h = (h', r) /\ files h' = delete path (files h).
Proof.
  unfold fs_remove_file, file_op. rewrite quiet. destruct (files h !! path) eqn:E; eexists _, _; split; try done.
  simpl. by rewrite delete_id.
Qed.

Lemma fs_create_quiet path h :
  exists h', fs_create_dir_all path h = (h', Ok tt) /\ files h' = files h.
Proof. unfold fs_create_dir_all, file_op. rewrite quiet. by eexists. Qed.
End disk.

(** ** What the pool relies on beside the laws of the ledger *)

(** A ledger does not touch the disk. *)
Class LedgerDisk (L : Type) `{CapacityReservationStore L} : Prop := {
  refresh_disk account snapshot s :
    files (refresh_account_capacity account snapshot s).1.2 = files s.2;
  reserve_disk account hash bytes ttl s : files (reserve account hash bytes ttl s).1.2 = files s.2;
  commit_disk rid s : files (commit rid s).1.2 = files s.2;
  release_disk rid s : files (release rid s).1.2 = files s.2
}.

#[export] Instance in_memory_disk `{Host} `{HashOrder} (duration_from_std : Duration -> result Z string) :
  @LedgerDisk InMemoryCapacityState (in_memory_ledger duration_from_std).
Proof.
  split.
  - intros account snapshot s. cbn [refresh_account_capacity in_memory_ledger]. unfold mem_refresh_account_capacity.
    rewrite (sbind_Ok get_ledger _ _ _ _ eq_refl). by destruct (_ !! _).
  - intros account hash bytes ttl s. cbn [reserve in_memory_ledger]. unfold mem_reserve.
    destruct (expire_locked_held s) as (st' & n & E & _).
    rewrite (sbind_Ok _ _ _ _ _ E), (sbind_Ok get_ledger _ _ _ _ eq_refl). cbn [fst].
    destruct (find_first _ _) as [e|]; [done|]. destruct (accounts st' !! account) as [a|]; [|done].
    destruct (negb _); [by destruct (_ <? _)|]. destruct (_ <? _); [done|].
    unfold put_ledger, slift, sbind, on_snd, now. cbn. by destruct (duration_from_std ttl).
  - intros rid s. cbn [commit in_memory_ledger]. unfold mem_commit, settle.
    rewrite (sbind_Ok get_ledger _ _ _ _ eq_refl). destruct (_ !! _); [|done]. by destruct (negb _).
  - intros rid s. cbn [release in_memory_ledger]. unfold mem_release, settle.
    rewrite (sbind_Ok get_ledger _ _ _ _ eq_refl). destruct (_ !! _); [|done]. by destruct (negb _).
Qed.

(** ** Fake accounts *)

Section fake.
Context {L : Type} `{LedgerLaws L} `{!LedgerDisk L} `{QuietHost} `{Blake3}.

Abbreviation W := (PoolWorld FakeWorld L).

Definition fake_files_of (w : W) (account : FakeMegaAccount) : gmap string (list byte) :=
  fake_files (fake_state (w_backends w) (fake_account_id account)).
Definition failure_of (w : W) (account : FakeMegaAccount) : FakeMegaFailure :=
  failure (fake_state (w_backends w) (fake_account_id account)).

(** An operation that only reads: the accounts and the disk are as they
    were. *)
Definition still (w w' : W) : Prop :=
  w_backends w' = w_backends w /\ files (w_host w') = files (w_host w)
  /\ temp_reserved w' = temp_reserved w /\ temp_counter w' = temp_counter w.

Lemma check_failure_cases account (s : FakeWorld * HostState) :
  exists r, check_failure account s = (s, r) /\
    (r = Ok tt <-> failure (fake_state s.1 (fake_account_id account)) = FailNone).
Proof.
  unfold check_failure, sbind, fake_get. simpl. destruct (failure _); eexists; by split.
Qed.

Lemma fake_object_size_run account path (w : W) :
  exists w' r, on_backend (object_size (fake_backend account) path) w = (w', r) /\ still w w' /\
    match r with
    | Ok found => failure_of w account = FailNone /\ found = (len64 <$> fake_files_of w account !! path)
    | Err _ => failure_of w account <> FailNone
    end.
Proof.
  unfold on_backend. cbn [object_size fake_backend]. unfold fake_object_size.
  destruct (check_failure_cases account (w_backends w, w_host w)) as (r & E & Hr).
  destruct r as [[]|e].
  - rewrite (sbind_Ok _ _ _ _ _ E). eexists _, _. split; [done|]. split; [done|]. by split; [apply Hr|].
  - rewrite (sbind_Err _ _ _ _ _ E). eexists _, _. split; [done|]. split; [done|]. intros Hf. by apply Hr in Hf.
Qed.

Lemma fake_download_run account path local (w : W) :
  exists w' r, on_backend (download_file (fake_backend account) path local) w = (w', r) /\
    w_backends w' = w_backends w /\ temp_reserved w' = temp_reserved w /\ temp_counter w' = temp_counter w /\
    match r with
    | Ok _ => exists bytes, fake_files_of w account !! path = Some bytes
                /\ files (w_host w') = <[local := bytes]> (files (w_host w))
    | Err _ => files (w_host w') = files (w_host w)
                /\ (failure_of w account <> FailNone \/ fake_files_of w account !! path = None)
    end.
Proof.
  unfold on_backend. cbn [download_file fake_backend]. unfold fake_download_file.
  destruct (check_failure_cases account (w_backends w, w_host w)) as ([[]|e] & E & Hr).
  - rewrite (sbind_Ok _ _ _ _ _ E), (sbind_Ok (fake_get account) _ _ _ _ eq_refl). cbn [fst].
    destruct (fake_files (fake_state (w_backends w) (fake_account_id account)) !! path) as [bytes|] eqn:Eb.
    + unfold on_snd, io. cbn [snd fst]. destruct (fs_write_quiet local bytes (w_host w)) as (h' & -> & Hh).
      eexists _, _. split; [done|]. split_and!; [done..|]. simpl. by exists bytes.
    + eexists _, _. split; [done|]. split_and!; [done..|]. by right.
  - rewrite (sbind_Err _ _ _ _ _ E). eexists _, _. split; [done|]. split_and!; [done..|]. left.
    intros Hf. by apply Hr in Hf.
Qed.

Lemma on_disk_read path (w : W) :
  exists w', on_disk (fs_read path) w = (w', map_err Io (ok_or (files (w_host w) !! path) "not found"%string))
    /\ still w w'.
Proof.
  unfold on_disk, io. destruct (fs_read_quiet path (w_host w)) as (h' & -> & Hh).
  eexists. split; [done|]. by split_and!.
Qed.

Lemma on_disk_remove path (w : W) :
  exists w', ignore (on_disk (fs_remove_file path)) w = (w', Ok tt) /\ w_backends w' = w_backends w
    /\ files (w_host w') = delete path (files (w_host w)) /\ temp_reserved w' = temp_reserved w
    /\ temp_counter w' = temp_counter w.
Proof.
  unfold ignore, stry, on_disk, io. destruct (fs_remove_quiet path (w_host w)) as (h' & r & -> & Hh).
  eexists. split; [done|]. by split_and!.
Qed.
(** ** Staging an object through the temporary space *)

Context (self : MegaColdStoragePool FakeWorld).
Abbreviation M := (stm W StorageError).

Definition temp_path (hash : string) (seq : Z) (suffix : string) : string :=
  path_join (temp_dir (mp_options self)) ("launcher-mega-" +:+ hash +:+ "-" +:+ fmt_u seq +:+ "-"
    +:+ suffix +:+ ".part")%string.

Lemma temp_path_ne hash seq seq' : temp_path hash seq "verify" <> temp_path hash seq' "upload".
Proof.
  unfold temp_path. intros E%path_join_inj%(f_equal chars). rewrite !chars_app in E.
  apply (f_equal (@rev _)) in E. rewrite !rev_app_distr in E. by vm_compute in E.
Qed.

Definition room (size : Z) (w : W) : Prop :=
  size <= saturating_sub (temp_space_bytes (mp_options self)) (temp_reserved w).

Lemma reserve_temp_quiet hash suffix bytes (w : W) :
  room bytes w ->
  exists w', reserve_temp self hash suffix bytes w = (w', Ok (temp_path hash (temp_counter w) suffix))
    /\ w_backends w' = w_backends w /\ files (w_host w') = files (w_host w)
    /\ temp_reserved w' = wrap64 (temp_reserved w + bytes).
Proof.
  unfold room, reserve_temp. intros Hroom. rewrite (proj2 (Z.ltb_ge _ _)) by done.
  unfold sbind, stry, on_disk, set_temp, sret, io. simpl.
  destruct (fs_create_quiet (temp_dir (mp_options self)) (w_host w)) as (h' & -> & Hh). simpl.
  eexists. split; [done|]. by split_and!.
Qed.

Lemma reserve_temp_full hash suffix bytes (w : W) :
  ~ room bytes w ->
  reserve_temp self hash suffix bytes w = (w, Err (NeedsCapacity bytes
    (saturating_sub (temp_space_bytes (mp_options self)) (temp_reserved w)))).
Proof. unfold room, reserve_temp. intros Hroom. by rewrite (proj2 (Z.ltb_lt _ _)) by lia. Qed.

(** Downloading an object to a temporary file, reading it, examining it and
    removing it. *)
Lemma staged_run {A} account path hash suffix size (k : list byte -> M A) (c : list byte -> result A StorageError) (w : W) :
  (forall bytes w, k bytes w = (w, c bytes)) -> is_u64 (temp_reserved w) ->
  exists w' r,
    with_temp self hash suffix size (fun temporary =>
      catch! r :=
        (let! _ := on_backend (download_file (fake_backend account) path temporary) in
         let! bytes := on_disk (fs_read temporary) in
         k bytes) in
      let! _ := ignore (on_disk (fs_remove_file temporary)) in
      slift r) w = (w', r)
    /\ w_backends w' = w_backends w /\ temp_reserved w' = temp_reserved w
    /\ (files (w_host w') = files (w_host w)
        \/ files (w_host w') = delete (temp_path hash (temp_counter w) suffix) (files (w_host w)))
    /\ (forall a, r = Ok a -> exists bytes, fake_files_of w account !! path = Some bytes /\ c bytes = Ok a)
    /\ (forall bytes, room size w -> failure_of w account = FailNone ->
         fake_files_of w account !! path = Some bytes -> r = c bytes).
Proof.
  intros Hk Hn. unfold with_temp.
  assert (room size w \/ ~ room size w) as [Hroom|Hroom] by (unfold room; lia).
  2: { rewrite (sbind_Err _ _ _ _ _ (reserve_temp_full hash suffix size w Hroom)).
       eexists _, _. split; [done|]. split_and!; [done..|by left|done|]. by intros. }
  destruct (reserve_temp_quiet hash suffix size w Hroom) as (w1 & Er & Hb1 & Hf1 & Ht1).
  rewrite (sbind_Ok _ _ _ _ _ Er). set (t := temp_path hash (temp_counter w) suffix) in *.
  destruct (fake_download_run account path t w1) as (w2 & r2 & E2 & Hb2 & Ht2 & _ & Hr2).
  assert (fake_files_of w1 account = fake_files_of w account /\ failure_of w1 account = failure_of w account) as [Hsame1 Hsame2].
  { unfold fake_files_of, failure_of. by rewrite Hb1. }
  rewrite Hsame1, Hsame2 in Hr2.
  assert (exists w3 r3, (let! _ := on_backend (download_file (fake_backend account) path t) in
      let! bytes := on_disk (fs_read t) in k bytes) w1 = (w3, r3)
    /\ w_backends w3 = w_backends w /\ temp_reserved w3 = temp_reserved w1
    /\ delete t (files (w_host w3)) = delete t (files (w_host w))
    /\ (forall a, r3 = Ok a -> exists bytes, fake_files_of w account !! path = Some bytes /\ c bytes = Ok a)
    /\ (forall bytes, failure_of w account = FailNone ->
         fake_files_of w account !! path = Some bytes -> r3 = c bytes)) as (w3 & r3 & E3 & Hb3 & Ht3 & Hf3 & Hok & Hres).
  { destruct r2 as [[]|e].
    - destruct Hr2 as (bytes & Hbytes & Hf2). destruct (on_disk_read t w2) as (w3 & E3 & Hb3 & Hf3 & Ht3 & _).
      rewrite (sbind_Ok _ _ _ _ _ E2). rewrite Hf2, lookup_insert_eq in E3. simpl in E3.
      rewrite (sbind_Ok _ _ _ _ _ E3), Hk. eexists _, _. split; [done|].
      split_and!; [congruence|congruence| | |].
      + by rewrite Hf3, Hf2, delete_insert_eq, Hf1.
      + intros a Ha. by exists bytes.
      + intros bytes' _ Hb'. congruence.
    - destruct Hr2 as [Hf2 Hwhy]. rewrite (sbind_Err _ _ _ _ _ E2). eexists _, _. split; [done|].
      split_and!; [congruence|congruence|by rewrite Hf2, Hf1|done|]. intros bytes Hnone Hsome. naive_solver. }
  unfold stry at 1. unfold stry at 1. rewrite E3.
  destruct (on_disk_remove t w3) as (w4 & E4 & Hb4 & Hf4 & Ht4 & _). rewrite (sbind_Ok _ _ _ _ _ E4).
  unfold slift at 1. unfold sbind, drop_temp, set_temp, slift. eexists _, _. split; [done|]. simpl.
  split_and!; [congruence| |right; congruence|done|auto].
  rewrite Ht4, Ht3, Ht1. by apply wrap_back.
Qed.
(** ** Reading over fake accounts *)

(** The account answers and has a good copy of [size] bytes. *)
Definition copy_at (pack : bool) (hash : string) (size : Z) (account : FakeMegaAccount) (w : W) : Prop :=
  failure_of w account = FailNone /\
  exists bytes, fake_files_of w account !! remote_path_of pack (fake_backend account) hash = Some bytes
    /\ blake3_hex bytes = hash /\ len64 bytes = size.

Lemma copy_at_ext pack hash size account w w' :
  w_backends w' = w_backends w -> copy_at pack hash size account w -> copy_at pack hash size account w'.
Proof. unfold copy_at, failure_of, fake_files_of. by intros ->. Qed.

Definition check_fetched (pack : bool) (hash : string) (size : Z) (bytes : list byte)
  : result (option (list byte)) StorageError :=
  if negb (size =? len64 bytes) then Err (Provider "MEGA download size verification failed")
  else let? _ := verify_bytes pack hash bytes in Ok (Some bytes).

Lemma fetch_fake account hash pack (w : W) :
  is_u64 (temp_reserved w) ->
  exists w' r, fetch self (fake_backend account) hash pack w = (w', r)
    /\ w_backends w' = w_backends w /\ temp_reserved w' = temp_reserved w
    /\ (forall size, copy_at pack hash size account w -> room size w -> exists bytes, r = Ok (Some bytes)).
Proof.
  intros Hn. unfold fetch.
  destruct (fake_object_size_run account (remote_path_of pack (fake_backend account) hash) w)
    as (w1 & r1 & E1 & (Hb1 & Hf1 & Ht1 & _) & Hr1).
  destruct r1 as [found|e].
  2: { rewrite (sbind_Err _ _ _ _ _ E1). eexists _, _. split; [done|]. split_and!; [done..|].
       by intros size [? _]. }
  rewrite (sbind_Ok _ _ _ _ _ E1). destruct Hr1 as [Hnone ->].
  destruct (fake_files_of w account !! _) as [bytes|] eqn:Eb; simpl.
  2: { eexists _, _. split; [done|]. split_and!; [done..|]. intros size (_ & bytes & Hb & _). congruence. }
  destruct (staged_run account (remote_path_of pack (fake_backend account) hash) hash
    (if pack then "pack-download" else "download")%string (len64 bytes)
    (fun bs => if negb (len64 bytes =? len64 bs) then sfail (Provider "MEGA download size verification failed")
       else let! _ := slift (verify_bytes pack hash bs) in sret (Some bs))
    (check_fetched pack hash (len64 bytes)) w1) as (w2 & r2 & E2 & Hb2 & Ht2 & _ & _ & Hgood).
  { intros bs v. unfold check_fetched, sbind, slift, sret, sfail. destruct (negb _); [done|].
    by destruct (verify_bytes pack hash bs). }
  { congruence. }
  eexists _, _. split; [exact E2|]. split_and!; [congruence|congruence|].
  intros size (Hfail & bs & Hbs & Hhash & Hsize) Hroom. assert (bs = bytes) as -> by congruence.
  exists bytes. rewrite (Hgood bytes).
  - unfold check_fetched. rewrite Z.eqb_refl. simpl. by rewrite (proj2 (verify_bytes_Ok pack hash bytes)).
  - unfold room in *. rewrite Ht1. lia.
  - unfold failure_of in *. by rewrite Hb1.
  - unfold fake_files_of in *. by rewrite Hb1.
Qed.

Lemma read_fake hash pack size accounts account last (w : W) :
  is_u64 (temp_reserved w) -> account ∈ accounts -> copy_at pack hash size account w -> room size w ->
  exists w' bytes, read_loop self hash pack (map fake_backend accounts) last w = (w', Ok bytes).
Proof.
  intros Hn Hin. revert last w Hn. induction accounts as [|a accounts IH]; intros last w Hn Hcopy Hroom;
    [by apply elem_of_nil in Hin|].
  simpl. destruct (fetch_fake a hash pack w Hn) as (w1 & r & E & Hb & Ht & Hgood). unfold stry. rewrite E.
  apply elem_of_cons in Hin as [->|Hin].
  - destruct (Hgood size Hcopy Hroom) as [bytes ->]. by eexists _, _.
  - assert (is_u64 (temp_reserved w1)) as Hn1 by congruence.
    assert (copy_at pack hash size account w1) as Hcopy1 by (by eapply copy_at_ext).
    assert (room size w1) as Hroom1 by (unfold room in *; by rewrite Ht).
    destruct r as [[bytes|]|e]; [by eexists _, _|by apply IH|by apply IH].
Qed.

(** ** Writing over fake accounts *)

Lemma verify_existing_fake account hash pack size (w w' : W) r :
  opt_verify_existing (mp_options self) = true -> is_u64 (temp_reserved w) ->
  verify_existing self (fake_backend account) (remote_path_of pack (fake_backend account) hash) hash size pack w = (w', r) ->
  w_backends w' = w_backends w /\ temp_reserved w' = temp_reserved w
  /\ (exists seq, files (w_host w') = files (w_host w)
        \/ files (w_host w') = delete (temp_path hash seq "verify") (files (w_host w)))
  /\ (r = Ok true -> copy_at pack hash size account w').
Proof.
  intros Hopt Hn. unfold verify_existing.
  destruct (fake_object_size_run account (remote_path_of pack (fake_backend account) hash) w)
    as (w1 & r1 & E1 & (Hb1 & Hf1 & Ht1 & _) & Hr1).
  destruct r1 as [found|e].
  2: { rewrite (sbind_Err _ _ _ _ _ E1). intros [= <- <-]. split_and!; [done..| |done]. exists 0. by left. }
  rewrite (sbind_Ok _ _ _ _ _ E1). destruct Hr1 as [Hnone ->].
  destruct (fake_files_of w account !! _) as [bytes|] eqn:Eb; simpl.
  2: { intros [= <- <-]. split_and!; [done..| |done]. exists 0. by left. }
  rewrite Hopt, orb_false_r. simpl. destruct (Z.eqb_spec (len64 bytes) size) as [Hsize|]; simpl.
  2: { intros [= <- <-]. split_and!; [done..| |done]. exists 0. by left. }
  destruct (staged_run account (remote_path_of pack (fake_backend account) hash) hash "verify" size
    (fun bs => sret (is_ok (verify_bytes pack hash bs)))
    (fun bs => Ok (is_ok (verify_bytes pack hash bs))) w1) as (w2 & r2 & E2 & Hb2 & Ht2 & Hf2 & Hres & _).
  { done. }
  { congruence. }
  intros Hrun. assert ((w2, r2) = (w', r)) as [= <- <-] by (rewrite <- E2; exact Hrun).
  split_and!; [congruence|congruence| |].
  - exists (temp_counter w1). destruct Hf2 as [->| ->]; [left|right]; by rewrite Hf1.
  - intros ->. destruct (Hres true eq_refl) as (bs & Hbs & Hv). unfold copy_at, failure_of, fake_files_of in *.
    rewrite Hb2, Hb1. split; [done|]. rewrite Hb1, Eb in Hbs. exists bytes. split; [done|]. split; [|done].
    apply (verify_bytes_Ok pack). injection Hbs as <-. by destruct (verify_bytes pack hash bytes) as [[]|].
Qed.
(** The staged upload is on the disk. *)
Definition staged (path : string) (bytes : list byte) (n : Z) (w : W) : Prop :=
  files (w_host w) !! path = Some bytes /\ temp_reserved w = n.

Lemma on_ledger_frame {A} (m : stm (L * HostState) StorageError A) (w : W) :
  w_backends (on_ledger m w).1 = w_backends w /\ temp_reserved (on_ledger m w).1 = temp_reserved w
  /\ files (w_host (on_ledger m w).1) = files (m (w_ledger w, w_host w)).1.2.
Proof. unfold on_ledger. by destruct (m _). Qed.

Lemma on_ledger_staged {A} path bytes n (m : stm (L * HostState) StorageError A) :
  (forall s, files (m s).1.2 = files s.2) -> preserves (staged path bytes n) (on_ledger m).
Proof.
  intros Hm w [Hf Hn]. destruct (on_ledger_frame m w) as (_ & Ht & Hfiles). split; [|congruence].
  by rewrite Hfiles, Hm.
Qed.

Lemma fake_capacity_staged path bytes n account :
  preserves (staged path bytes n) (on_backend (L := L) (be_capacity (fake_backend account))).
Proof.
  intros w [Hf Hn]. unfold on_backend. cbn [be_capacity fake_backend]. unfold fake_capacity.
  destruct (check_failure_cases account (w_backends w, w_host w)) as ([[]|e] & E & _).
  - by rewrite (sbind_Ok _ _ _ _ _ E).
  - by rewrite (sbind_Err _ _ _ _ _ E).
Qed.

Lemma fake_delete_staged path bytes n account remote :
  preserves (staged path bytes n) (on_backend (L := L) (delete_object (fake_backend account) remote)).
Proof.
  intros w [Hf Hn]. unfold on_backend. cbn [delete_object fake_backend]. unfold fake_delete_object.
  destruct (check_failure_cases account (w_backends w, w_host w)) as ([[]|e] & E & _).
  - by rewrite (sbind_Ok _ _ _ _ _ E).
  - by rewrite (sbind_Err _ _ _ _ _ E).
Qed.

Lemma fake_size_staged path bytes n account remote :
  preserves (staged path bytes n) (on_backend (L := L) (object_size (fake_backend account) remote)).
Proof.
  intros w [Hf Hn]. destruct (fake_object_size_run account remote w) as (w' & r & -> & (_ & Hf' & Ht' & _) & _).
  split; simpl; congruence.
Qed.

Lemma ignore_staged {A} path bytes n (m : M A) :
  preserves (staged path bytes n) m -> preserves (staged path bytes n) (ignore m).
Proof. intros Hm. unfold ignore. preserve. Qed.

Hint Resolve fake_capacity_staged fake_delete_staged fake_size_staged ignore_staged : launcher.

Lemma delete_stale_staged path bytes n account remote :
  preserves (staged path bytes n) (delete_stale (L := L) (fake_backend account) remote).
Proof. unfold delete_stale. preserve. Qed.

(** An upload of the staged bytes puts them where they belong; one that fails
    leaves them staged. *)
Lemma upload_fake account reservation path bytes n remote size w w' r :
  staged path bytes n w ->
  upload (fake_backend account) reservation path remote size w = (w', r) ->
  match r with
  | Ok _ => failure_of w' account = FailNone /\ fake_files_of w' account !! remote = Some bytes
  | Err _ => True
  end /\ staged path bytes n w'.
Proof.
  intros [Hf Hn]. unfold upload. set (m := on_backend (upload_file (fake_backend account) path remote)).
  assert (exists w1 r1, m w = (w1, r1) /\ staged path bytes n w1 /\
    match r1 with
    | Ok _ => failure_of w1 account = FailNone /\ fake_files_of w1 account !! remote = Some bytes
    | Err _ => True
    end) as (w1 & r1 & E1 & Hs1 & Hr1).
  { unfold m, on_backend. cbn [upload_file fake_backend]. unfold fake_upload_file.
    destruct (check_failure_cases account (w_backends w, w_host w)) as ([[]|e] & E & Hnone).
    2: { rewrite (sbind_Err _ _ _ _ _ E). eexists _, _. by split_and!. }
    rewrite (sbind_Ok _ _ _ _ _ E). unfold sbind at 1, on_snd at 1, io at 1. cbn [fst snd].
    destruct (fs_read_quiet path (w_host w)) as (h' & -> & Hh). rewrite Hf. cbn [ok_or map_err].
    rewrite (sbind_Ok (fake_get account) _ _ _ _ eq_refl). cbn [fst].
    destruct (_ <? _).
    - eexists _, _. split; [done|]. split; [split; [by rewrite <- Hf, <- Hh|done]|done].
    - eexists _, _. split; [done|]. split; [split; [by rewrite <- Hf, <- Hh|done]|].
      unfold failure_of, fake_files_of, with_files, fake_state. simpl. rewrite lookup_insert_eq. simpl.
      split; [by apply Hnone|]. by rewrite lookup_insert_eq. }
  destruct r1 as [[]|e].
  2: { rewrite (sbind_Err _ _ _ _ _ E1). intros [= <- <-]. done. }
  rewrite (sbind_Ok _ _ _ _ _ E1).
  destruct (fake_object_size_run account remote w1) as (w2 & r2 & E2 & (Hb2 & Hf2 & Ht2 & _) & Hr2).
  assert (staged path bytes n w2) as Hs2 by (destruct Hs1; split; congruence).
  destruct r2 as [found|e].
  2: { rewrite (sbind_Err _ _ _ _ _ E2). intros [= <- <-]. done. }
  rewrite (sbind_Ok _ _ _ _ _ E2). destruct (negb _).
  { intros [= <- <-]. done. }
  intros Hc. pose proof (on_ledger_frame (commit (reservation_id reservation)) w2) as (Hbc & _ & _).
  rewrite Hc in Hbc. simpl in Hbc. split.
  - destruct r; [|done]. unfold failure_of, fake_files_of in *. by rewrite Hbc, Hb2.
  - pose proof (on_ledger_staged path bytes n _ (commit_disk (reservation_id reservation)) w2 Hs2) as Hs. by rewrite Hc in Hs.
Qed.
Lemma preserves_run {A} (I : W -> Prop) (m : M A) w w' r : preserves I m -> I w -> m w = (w', r) -> I w'.
Proof. intros Hm Hw E. specialize (Hm w Hw). by rewrite E in Hm. Qed.

(** Either the copy is there, or the upload is still staged. *)
Definition put_outcome (hash path : string) (bytes : list byte) (n : Z) (pack : bool) (account : FakeMegaAccount)
  (r : result (option PutProgress) StorageError) (w : W) : Prop :=
  match r with
  | Ok None => copy_at pack hash (len64 bytes) account w
  | Ok (Some _) => staged path bytes n w
  | Err _ => True
  end.

Lemma put_upload_fake account hash path bytes n pack p w :
  blake3_hex bytes = hash -> staged path bytes n w ->
  let '(w', r) := put_upload self (fake_backend account) hash path
    (remote_path_of pack (fake_backend account) hash) (len64 bytes) p w in
  put_outcome hash path bytes n pack account r w'.
Proof.
  intros Hhash Hs. unfold put_upload. unfold stry at 1.
  destruct (on_backend _ w) as [w1 [capacity|e]] eqn:E1.
  all: pose proof (preserves_run _ _ _ _ _ (fake_capacity_staged path bytes n account) Hs E1) as Hs1.
  2: exact Hs1.
  unfold stry at 1. destruct (on_ledger (refresh_account_capacity _ _) w1) as [w2 [snapshot|e]] eqn:E2.
  all: pose proof (preserves_run _ _ _ _ _ (on_ledger_staged path bytes n _ (refresh_disk _ _)) Hs1 E2) as Hs2.
  2: exact Hs2.
  unfold stry at 1. destruct (on_ledger (reserve _ _ _ _) w2) as [w3 [reservation|e]] eqn:E3.
  all: pose proof (preserves_run _ _ _ _ _ (on_ledger_staged path bytes n _ (reserve_disk _ _ _ _)) Hs2 E3) as Hs3.
  2: destruct e; exact Hs3.
  unfold stry at 1. destruct (upload _ _ _ _ _ w3) as [w4 [[]|e]] eqn:E4.
  - apply upload_fake with (bytes := bytes) (n := n) in E4 as [[Hfail Hcopy] _]; [|done].
    destruct (on_disk_remove path w4) as (w5 & E5 & Hb5 & _). rewrite (sbind_Ok _ _ _ _ _ E5). simpl.
    unfold copy_at, failure_of, fake_files_of in *. rewrite Hb5. split; [done|]. by exists bytes.
  - apply upload_fake with (bytes := bytes) (n := n) in E4 as [_ Hs4]; [|done].
    destruct (ignore (on_ledger (release (reservation_id reservation))) w4) as [w5 r5] eqn:E5.
    pose proof (preserves_run _ _ _ _ _ (ignore_staged _ _ _ _ (on_ledger_staged path bytes n _
      (release_disk (reservation_id reservation)))) Hs4 E5) as Hs5.
    destruct r5 as [[]|e5]; [rewrite (sbind_Ok _ _ _ _ _ E5)|by rewrite (sbind_Err _ _ _ _ _ E5)].
    destruct (ignore (on_backend (L := L) (delete_object (fake_backend account)
      (remote_path_of pack (fake_backend account) hash))) w5) as [w6 r6] eqn:E6.
    pose proof (preserves_run _ _ _ _ _ (ignore_staged _ _ _ _ (fake_delete_staged path bytes n account _)) Hs5 E6) as Hs6.
    destruct r6 as [[]|e6]; [by rewrite (sbind_Ok _ _ _ _ _ E6)|by rewrite (sbind_Err _ _ _ _ _ E6)].
Qed.

Lemma put_account_fake account hash seq bytes n pack p w :
  opt_verify_existing (mp_options self) = true -> is_u64 n ->
  blake3_hex bytes = hash -> staged (temp_path hash seq "upload") bytes n w ->
  let '(w', r) := put_account self pack hash (temp_path hash seq "upload") (len64 bytes) (fake_backend account) p w in
  put_outcome hash (temp_path hash seq "upload") bytes n pack account r w'.
Proof.
  intros Hopt Hn Hhash Hs. unfold put_account. unfold stry at 1.
  destruct (verify_existing _ _ _ _ _ _ w) as [w1 r1] eqn:E1.
  apply verify_existing_fake in E1 as (Hb1 & Ht1 & (seq' & Hf1) & Hcopy1); [|done|by destruct Hs as [_ ->]].
  assert (staged (temp_path hash seq "upload") bytes n w1) as Hs1.
  { destruct Hs as [Hf Hw]. split; [|congruence]. destruct Hf1 as [->| ->]; [done|].
    rewrite lookup_delete_ne; [done|]. apply temp_path_ne. }
  destruct r1 as [[|]|e]; [| |exact Hs1].
  - destruct (on_disk_remove (temp_path hash seq "upload") w1) as (w2 & E2 & Hb2 & _).
    rewrite (sbind_Ok _ _ _ _ _ E2). simpl. eapply copy_at_ext; [|by apply Hcopy1]. done.
  - unfold stry. destruct (delete_stale _ _ w1) as [w2 [u|e]] eqn:E2.
    all: pose proof (preserves_run _ _ _ _ _ (delete_stale_staged _ bytes n account _) Hs1 E2) as Hs2.
  2: exact Hs2.
    by apply put_upload_fake.
Qed.

Lemma put_loop_fake hash seq bytes n pack accounts p w w' :
  opt_verify_existing (mp_options self) = true -> is_u64 n ->
  blake3_hex bytes = hash -> staged (temp_path hash seq "upload") bytes n w ->
  put_loop self pack hash (temp_path hash seq "upload") (len64 bytes) (map fake_backend accounts) p w = (w', Ok None) ->
  exists account, account ∈ accounts /\ copy_at pack hash (len64 bytes) account w'.
Proof.
  intros Hopt Hn Hhash. revert p w. induction accounts as [|account accounts IH]; intros p w Hs; simpl; [done|].
  pose proof (put_account_fake account hash seq bytes n pack p w Hopt Hn Hhash Hs) as Ho.
  destruct (put_account _ _ _ _ _ _ _ w) as [w1 [[q|]|e]] eqn:E; simpl in Ho.
  - rewrite (sbind_Ok _ _ _ _ _ E). intros Hrun. destruct (IH _ _ Ho Hrun) as (a & ? & ?). exists a. set_solver.
  - rewrite (sbind_Ok _ _ _ _ _ E). intros [= <-]. exists account. set_solver.
  - by rewrite (sbind_Err _ _ _ _ _ E).
Qed.

Lemma put_inner_fake accounts hash bytes pack w w' :
  mp_accounts self = map fake_backend accounts ->
  opt_verify_existing (mp_options self) = true -> is_u64 (temp_reserved w) -> blake3_hex bytes = hash ->
  put_inner_with_paths self hash bytes pack w = (w', Ok tt) ->
  temp_reserved w' = temp_reserved w /\ room (len64 bytes) w
  /\ exists account, account ∈ accounts /\ copy_at pack hash (len64 bytes) account w'.
Proof.
  intros Hacc Hopt Hn Hhash Hrun.
  pose proof (put_clean self (temp_reserved w) (held_ids (w_ledger w)) hash bytes pack Hn w) as [Ht _]; [done|].
  rewrite Hrun in Ht. split; [exact Ht|]. revert Hrun. unfold put_inner_with_paths, with_temp.
  assert (room (len64 bytes) w \/ ~ room (len64 bytes) w) as [Hroom|Hroom] by (unfold room; lia).
  2: { by rewrite (sbind_Err _ _ _ _ _ (reserve_temp_full _ _ _ w Hroom)). }
  destruct (reserve_temp_quiet hash "upload" (len64 bytes) w Hroom) as (w1 & E1 & Hb1 & Hf1 & Ht1).
  rewrite (sbind_Ok _ _ _ _ _ E1). set (t := temp_path hash (temp_counter w) "upload") in *.
  intros Hrun. split; [done|]. unfold stry in Hrun. destruct (sbind _ _ w1) as [w2 r2] eqn:E2.
  apply sbind_inv in Hrun as (w3 & [] & E3 & Hrun). unfold slift in Hrun. injection Hrun as -> ->.
  assert (w_backends w' = w_backends w2) as Hb3 by (unfold drop_temp, set_temp in E3; by injection E3 as <-).
  apply sbind_inv in E2 as (w4 & [] & E4 & E2).
  assert (staged t bytes (wrap64 (temp_reserved w + len64 bytes)) w4) as Hs4.
  { unfold on_disk, io in E4. destruct (fs_write_quiet t bytes (w_host w1)) as (h' & Eh & Hh).
    rewrite Eh in E4. injection E4 as <-. split; simpl; [|done]. by rewrite Hh, lookup_insert_eq. }
  apply sbind_inv in E2 as (w5 & remaining & E5 & E2). rewrite Hacc in E5. destruct remaining as [p|].
  { apply sbind_inv in E2 as (w6 & [] & _ & E2). done. }
  apply put_loop_fake with (n := wrap64 (temp_reserved w + len64 bytes)) in E5 as (a & Ha & Hcopy);
    [|done|apply wrap64_u64|done|done].
  exists a. split; [done|]. injection E2 as ->. by eapply copy_at_ext.
Qed.

Lemma validated hash : validate_hash hash = Ok tt -> is_lower_hex_hash hash = true.
Proof. unfold validate_hash. by destruct (is_lower_hex_hash hash). Qed.

(** C37. With fake accounts and a disk that does not fail, an object or a pack
    whose upload succeeded is read back: some account keeps a copy whose bytes
    have the hash, and a read finds one whatever the accounts tried before it
    hold.  (Copies found in place count only when they are verified, so
    [verify_existing] is required.) *)
Theorem put_then_read accounts hash bytes w w' :
  mp_accounts self = map fake_backend accounts ->
  opt_verify_existing (mp_options self) = true -> is_u64 (temp_reserved w) ->
  (put_encoded self hash bytes w = (w', Ok tt) ->
     exists w2 read, read_encoded self hash w' = (w2, Ok read) /\ blake3_hex read = blake3_hex bytes)
  /\ (put_pack self hash bytes w = (w', Ok tt) ->
     exists w2 read, read_pack self hash w' = (w2, Ok read) /\ blake3_hex read = blake3_hex bytes).
Proof.
  intros Hacc Hopt Hn.
  assert (forall pack, verify_bytes pack hash bytes = Ok tt -> put_inner_with_paths self hash bytes pack w = (w', Ok tt) ->
    exists w2 read, read_inner self hash pack w' = (w2, Ok read) /\ blake3_hex read = blake3_hex bytes) as Hboth.
  { intros pack Hv Hrun. apply verify_bytes_Ok in Hv.
    destruct (put_inner_fake accounts hash bytes pack w w' Hacc Hopt Hn Hv Hrun) as (Ht & Hroom & a & Ha & Hcopy).
    unfold read_inner. rewrite Hacc.
    destruct (read_fake hash pack (len64 bytes) accounts a None w') as (w2 & bs & Hread); [congruence|done|done| |].
    { unfold room in *. by rewrite Ht. }
    exists w2, bs. split; [done|]. apply read_loop_verified, verify_bytes_Ok in Hread. congruence. }
  split; intros (w1 & [] & Hval & Hrun)%sbind_inv; apply sbind_inv in Hrun as (w3 & [] & Hv & Hrun);
    unfold slift in Hval, Hv; injection Hval as <- Hval; injection Hv as <- Hv.
  - unfold read_encoded, slift, sbind. rewrite Hval. by apply (Hboth false).
  - unfold read_pack, slift, sbind. rewrite Hval. by apply (Hboth true).
Qed.
End fake.

(** ** A concrete pool *)

Definition demo_blake3 : Blake3 := fun bs => to_le 32 (len64 bs).
Definition demo_ledger : CapacityReservationStore InMemoryCapacityState := @in_memory_ledger counting_host key_order Ok.
Definition demo_fake : FakeMegaAccount := FakeMegaAccount_new "mega-1" 1000.

Definition demo_pool : MegaColdStoragePool FakeWorld := {|
  mp_provider_id := "mega";
  mp_pool := {| sp_id := "mega"; sp_storage_class := Cold; sp_provider_type := "mega"; sp_priority := 100;
    sp_failure_domain := "mega"; sp_enabled := true; sp_status := PoolReady; sp_provisioning_mode := ModeManual |};
  mp_accounts := [@fake_backend counting_host demo_fake];
  mp_options := MegaColdStorageOptions_default;
  provisioner := ManualStorageCapacityProvisioner "mega"
|}.

Lemma demo_pool_new :
  MegaColdStoragePool_new "mega" [@fake_backend counting_host demo_fake] MegaColdStorageOptions_default = Ok demo_pool.
Proof. reflexivity. Qed.

Definition demo_world : PoolWorld FakeWorld InMemoryCapacityState := {|
  w_backends := ∅;
  w_ledger := (mem_register_account "mega-1" "mega" 1000 10 demo_start).1.1;
  w_host := host_init; temp_reserved := 0; temp_counter := 0 |}.

Definition demo_bytes : list byte := bytes_of_string "cold object".
Definition demo_hash : string := @blake3_hex demo_blake3 demo_bytes.

Definition demo_put := @put_encoded _ _ demo_ledger counting_host demo_blake3 demo_pool demo_hash demo_bytes demo_world.

Theorem put_then_read_witness :
  demo_put.2 = Ok tt /\
  exists w2 read,
    @read_encoded _ InMemoryCapacityState counting_host demo_blake3 demo_pool demo_hash demo_put.1 = (w2, Ok read)
    /\ @blake3_hex demo_blake3 read = demo_hash.
Proof.
  assert (demo_put.2 = Ok tt) as E by (vm_compute; reflexivity). split; [exact E|].
  apply (proj1 (@put_then_read InMemoryCapacityState demo_ledger in_memory_held
    (@in_memory_laws counting_host key_order Ok) (@in_memory_disk counting_host key_order Ok)
    counting_host counting_host_quiet demo_blake3 demo_pool [demo_fake] demo_hash demo_bytes demo_world demo_put.1
    eq_refl eq_refl ltac:(split; done))).
  change (demo_put = (demo_put.1, Ok tt)). rewrite <- E. by destruct demo_put.
Defined.

Theorem pool_read_verified_witness :
  let '(w2, r) := @read_encoded _ InMemoryCapacityState counting_host demo_blake3 demo_pool demo_hash demo_put.1 in
  r = Ok demo_bytes /\ @blake3_hex demo_blake3 demo_bytes = demo_hash.
Proof.
  destruct (@read_encoded _ _ counting_host demo_blake3 demo_pool demo_hash demo_put.1) as [w2 r] eqn:E.
  assert (r = Ok demo_bytes) as ->.
  { apply (f_equal snd) in E. vm_compute in E. by rewrite <- E. }
  split; [reflexivity|].
  apply (proj2 (@pool_read_verified FakeWorld InMemoryCapacityState counting_host demo_blake3
    demo_pool demo_hash demo_put.1 w2 demo_bytes (or_introl E))).
Defined.

