(* ===== verification/TempSpace.v ===== *)
(** * The temporary space under concurrency ([storage/src/tiering.rs])

    [MegaColdStoragePool::reserve_temp] shares one atomic counter between the
    uploads and downloads in flight.  Here its compare-and-exchange loop is cut
    into its atomic accesses, and any number of threads interleave them. *)
From stdpp Require Import base list relations.
From Stdlib Require Import ZArith Lia.
From S2P Require Import Prelude MegaPool.
Local Open Scope Z_scope.

(** Where a thread is: outside, in the loop with the value of [reserved] it
    last saw, or holding its [TempReservation]. *)
Inductive TempThread : Type :=
| Outside
| InLoop (bytes reserved : Z)
| Holding (bytes : Z).

Record TempShared : Type := { counter : Z; threads : list TempThread }.

(** One atomic access of thread [i]: the load that enters the loop, a turn of
    the loop (the test, then the exchange), and the drop of the guard. *)
Inductive TempAction : Type :=
| Load (i : nat) (bytes : Z)
| Exchange (i : nat)
| Drop (i : nat).

Definition temp_step (limit : Z) (s : TempShared) (a : TempAction) : option TempShared :=
  let set i t := Some {| counter := counter s; threads := <[i := t]> (threads s) |} in
  match a with
  | Load i bytes =>
      match threads s !! i with
      | Some Outside => if (0 <=? bytes) && (bytes <=? u64_max) then set i (InLoop bytes (counter s)) else None
      | _ => None
      end
  | Exchange i =>
      match threads s !! i with
      | Some (InLoop bytes reserved) =>
          if saturating_sub limit reserved <? bytes then set i Outside
          else if counter s =? reserved
          then Some {| counter := wrap64 (reserved + bytes); threads := <[i := Holding bytes]> (threads s) |}
          else set i (InLoop bytes (counter s))
      | _ => None
      end
  | Drop i =>
      match threads s !! i with
      | Some (Holding bytes) =>
          Some {| counter := wrap64 (counter s - bytes); threads := <[i := Outside]> (threads s) |}
      | _ => None
      end
  end.

(** What a thread holds of the space. *)
Definition holds (t : TempThread) : Z := match t with Holding bytes => bytes | _ => 0 end.

Definition temp_init (n : nat) : TempShared := {| counter := 0; threads := replicate n Outside |}.

Definition temp_reaches (limit : Z) : TempShared -> TempShared -> Prop :=
  rtc (fun s s' => exists a, temp_step limit s a = Some s').

(** The counter is what is held, within the limit, and no thread carries a
    negative size. *)
Record temp_ok (limit : Z) (s : TempShared) : Prop := {
  temp_sum : counter s = sumZ holds (threads s);
  temp_bound : counter s <= limit;
  temp_sizes : forall t, t ∈ threads s ->
    match t with Outside => True | InLoop bytes _ | Holding bytes => 0 <= bytes end
}.

Lemma sumZ_update {A} (f : A -> Z) l i x y :
  l !! i = Some x -> sumZ f (<[i := y]> l) = sumZ f l - f x + f y.
Proof.
  revert i. induction l as [|a l IH]; intros [|i] Hi; simplify_eq/=; [lia|]. rewrite (IH _ Hi). lia.
Qed.

Lemma holds_nonneg limit s : temp_ok limit s -> forall t, t ∈ threads s -> 0 <= holds t.
Proof. intros Hok t Ht. apply (temp_sizes _ _ Hok) in Ht. by destruct t. Qed.

Lemma holds_le limit s i t : temp_ok limit s -> threads s !! i = Some t -> holds t <= counter s.
Proof.
  intros Hok Hi. rewrite (temp_sum _ _ Hok). pose proof (sumZ_update holds _ _ _ Outside Hi) as Hu. simpl in Hu.
  assert (0 <= sumZ holds (<[i := Outside]> (threads s))); [|lia].
  apply sumZ_nonneg. intros u Hu'. apply list_elem_of_lookup in Hu' as [j Hj].
  apply list_lookup_insert_Some in Hj as [(-> & <- & _)|[_ Hj]]; [done|].
  eapply holds_nonneg; [done|]. by eapply list_elem_of_lookup_2.
Qed.

Lemma temp_sizes_insert s i t :
  (forall t, t ∈ threads s ->
    match t with Outside => True | InLoop bytes _ | Holding bytes => 0 <= bytes end) ->
  match t with Outside => True | InLoop bytes _ | Holding bytes => 0 <= bytes end ->
  forall u, u ∈ <[i := t]> (threads s) ->
    match u with Outside => True | InLoop bytes _ | Holding bytes => 0 <= bytes end.
Proof.
  intros Hs Ht u [j Hj]%list_elem_of_lookup.
  apply list_lookup_insert_Some in Hj as [(-> & <- & _)|[_ Hj]]; [done|]. by apply Hs, (list_elem_of_lookup_2 _ j).
Qed.

Lemma temp_step_ok limit s a s' :
  is_u64 limit -> temp_ok limit s -> temp_step limit s a = Some s' -> temp_ok limit s'.
Proof.
  unfold is_u64, u64_max. intros Hlim Hok Hs.
  pose proof (temp_sizes _ _ Hok) as Hsizes. pose proof (temp_sum _ _ Hok) as Hsum. pose proof (temp_bound _ _ Hok).
  assert (0 <= counter s) as Hpos.
  { rewrite Hsum. apply sumZ_nonneg. by eapply holds_nonneg. }
  destruct a as [i bytes|i|i]; simpl in Hs; destruct (threads s !! i) as [t|] eqn:Ei; try done; destruct t as [|b r|b]; try done.
  - destruct (_ && _) eqn:E; [|done]. breflect. simplify_eq. split; simpl; [|done|by apply temp_sizes_insert].
    rewrite (sumZ_update _ _ _ _ _ Ei). simpl. lia.
  - assert (0 <= b) as Hb by (by apply (Hsizes (InLoop b r)), (list_elem_of_lookup_2 _ i)).
    destruct (Z.ltb_spec (saturating_sub limit r) b) as [|Hroom]; [|destruct (Z.eqb_spec (counter s) r) as [Hr|]]; simplify_eq.
    + split; simpl; [|done|by apply temp_sizes_insert]. rewrite (sumZ_update _ _ _ _ _ Ei). simpl. lia.
    + assert (wrap64 (counter s + b) = counter s + b) as E.
      { unfold wrap64, saturating_sub in *. apply Z.mod_small. lia. }
      split; simpl; [|unfold saturating_sub in *; lia|by apply temp_sizes_insert].
      rewrite (sumZ_update _ _ _ _ _ Ei). simpl. lia.
    + split; simpl; [|done|by apply temp_sizes_insert]. rewrite (sumZ_update _ _ _ _ _ Ei). simpl. lia.
  - simplify_eq. pose proof (holds_le _ _ _ _ Hok Ei) as Hle. simpl in Hle.
    assert (0 <= b) as Hb by (by apply (Hsizes (Holding b)), (list_elem_of_lookup_2 _ i)).
    assert (wrap64 (counter s - b) = counter s - b) as E by (unfold wrap64; apply Z.mod_small; lia).
    split; simpl; [|lia|by apply temp_sizes_insert]. rewrite (sumZ_update _ _ _ _ _ Ei). simpl. lia.
Qed.

Lemma temp_init_ok limit n : 0 <= limit -> temp_ok limit (temp_init n).
Proof.
  intros Hl. split; simpl; [|done|].
  - induction n; simpl; lia.
  - intros t Ht. apply elem_of_replicate in Ht as [-> _]. done.
Qed.

(** C38. However the threads interleave their atomic accesses, the counter is
    exactly the space held by the live reservations and never exceeds the
    limit.  A thread that is not disturbed between two turns of the loop is
    decided at once: it holds its bytes when they fit, it is refused when they
    do not. *)
Theorem temp_space_bounded limit n s :
  is_u64 limit -> temp_reaches limit (temp_init n) s ->
  counter s = sumZ holds (threads s) /\ counter s <= limit
  /\ forall i bytes s1, temp_step limit s (Load i bytes) = Some s1 ->
       exists s2, temp_step limit s1 (Exchange i) = Some s2 /\
         threads s2 !! i = Some (if counter s + bytes <=? limit then Holding bytes else Outside).
Proof.
  intros Hlim Hs. assert (temp_ok limit s) as Hok.
  { pose proof (temp_init_ok limit n ltac:(apply Hlim)) as H0. revert H0.
    induction Hs as [|x y z [a Ha] _ IH]; intros H0; [done|]. apply IH. by eapply temp_step_ok. }
  pose proof (temp_sum _ _ Hok). pose proof (temp_bound _ _ Hok). split_and!; [done..|].
  intros i bytes s1. simpl. destruct (threads s !! i) as [t|] eqn:Ei; [|done]. destruct t; try done.
  destruct (_ && _) eqn:E; [|done]. breflect. intros [= <-]. simpl.
  pose proof (lookup_lt_Some _ _ _ Ei). rewrite list_lookup_insert_eq by done. rewrite Z.eqb_refl.
  assert (0 <= counter s) by (rewrite (temp_sum _ _ Hok); apply sumZ_nonneg; by eapply holds_nonneg).
  destruct (Z.ltb_spec (saturating_sub limit (counter s)) bytes) as [Hno|Hroom];
    destruct (Z.leb_spec (counter s + bytes) limit); unfold saturating_sub in *; try lia;
    (eexists; split; [done|]); simpl; by rewrite list_lookup_insert_eq by (rewrite length_insert; done).
Qed.

Theorem temp_space_bounded_witness :
  exists s, temp_reaches 100 (temp_init 2) s /\ threads s = [Holding 60; InLoop 60 0] /\ counter s <= 100.
Proof.
  assert (temp_reaches 100 (temp_init 2) {| counter := 60; threads := [Holding 60; InLoop 60 0] |}) as Hr.
  { eapply rtc_l; [exists (Load 0 60); reflexivity|]. eapply rtc_l; [exists (Load 1 60); reflexivity|].
    eapply rtc_l; [exists (Exchange 0); reflexivity|]. apply rtc_refl. }
  eexists. split; [exact Hr|]. split; [reflexivity|].
  apply (temp_space_bounded 100 2 _ ltac:(split; done) Hr).
Defined.
