(* ===== verification/LedgerDb.v ===== *)
(** * The reservation store of the database ([database/src/lib.rs])

    [Database] implements the interface of [Reservations] over PostgreSQL.  The
    tables it touches are the state; each SQL statement is translated to what
    it does to them, with the constraints of the migrations it can violate.
    Any statement may also fail for a reason of the server's own, and a
    transaction that does not commit leaves the tables as they were. *)
From stdpp Require Import base gmap strings list fin_maps sets pretty.
From Stdlib Require Import ZArith Lia.
From S2P Require Import Prelude Text Storage Effects Placement Reservations.
Local Open Scope Z_scope.

(** ** Tables *)

Abbreviation Uuid := Z (only parsing).

(** [storage_accounts]. *)
Record AccountRow : Type := {
  ar_provider_id : string;
  ar_pool_id : option string;
  ar_failure_domain : option string;
  ar_tier : string;
  ar_status : string;
  ar_capacity_bytes : Z;
  ar_used_bytes : Z;
  ar_reserved_bytes : Z;
  ar_safety_margin_bytes : Z;
  ar_last_capacity_check : option Z
}.

(** [storage_reservations]. *)
Record ReservationRow : Type := {
  rr_account_id : string;
  rr_encoded_hash : string;
  rr_bytes : Z;
  rr_state : string;
  rr_expires_at : Z
}.

Record DbState : Type := {
  storage_pools : gmap string StoragePool;
  storage_providers : gmap string string;
  storage_accounts : gmap string AccountRow;
  storage_reservations : gmap Uuid ReservationRow;
  storage_health_events : list (string * string * string);
  chunks : gset string
}.

Definition with_pools_db p d := {| storage_pools := p; storage_providers := storage_providers d;
  storage_accounts := storage_accounts d; storage_reservations := storage_reservations d;
  storage_health_events := storage_health_events d; chunks := chunks d |}.
Definition with_providers_db p d := {| storage_pools := storage_pools d; storage_providers := p;
  storage_accounts := storage_accounts d; storage_reservations := storage_reservations d;
  storage_health_events := storage_health_events d; chunks := chunks d |}.
Definition with_accounts_db a d := {| storage_pools := storage_pools d; storage_providers := storage_providers d;
  storage_accounts := a; storage_reservations := storage_reservations d;
  storage_health_events := storage_health_events d; chunks := chunks d |}.
Definition with_reservations_db r d := {| storage_pools := storage_pools d; storage_providers := storage_providers d;
  storage_accounts := storage_accounts d; storage_reservations := r;
  storage_health_events := storage_health_events d; chunks := chunks d |}.
Definition with_events_db e d := {| storage_pools := storage_pools d; storage_providers := storage_providers d;
  storage_accounts := storage_accounts d; storage_reservations := storage_reservations d;
  storage_health_events := e; chunks := chunks d |}.

Definition set_row_status (s : string) (a : AccountRow) := {|
  ar_provider_id := ar_provider_id a; ar_pool_id := ar_pool_id a; ar_failure_domain := ar_failure_domain a;
  ar_tier := ar_tier a; ar_status := s; ar_capacity_bytes := ar_capacity_bytes a; ar_used_bytes := ar_used_bytes a;
  ar_reserved_bytes := ar_reserved_bytes a; ar_safety_margin_bytes := ar_safety_margin_bytes a;
  ar_last_capacity_check := ar_last_capacity_check a |}.

Definition set_row_usage (used reserved : Z) (a : AccountRow) := {|
  ar_provider_id := ar_provider_id a; ar_pool_id := ar_pool_id a; ar_failure_domain := ar_failure_domain a;
  ar_tier := ar_tier a; ar_status := ar_status a; ar_capacity_bytes := ar_capacity_bytes a; ar_used_bytes := used;
  ar_reserved_bytes := reserved; ar_safety_margin_bytes := ar_safety_margin_bytes a;
  ar_last_capacity_check := ar_last_capacity_check a |}.

Definition set_row_state (s : string) (r : ReservationRow) := {|
  rr_account_id := rr_account_id r; rr_encoded_hash := rr_encoded_hash r; rr_bytes := rr_bytes r;
  rr_state := s; rr_expires_at := rr_expires_at r |}.

(** ** Values *)

Definition i64_max : Z := 2 ^ 63 - 1.

(** [u64_to_i64] and [i64_to_u64]; the error is the text of
    [DatabaseError::Integer]. *)
Definition u64_to_i64 (value : Z) : result Z string :=
  if value <=? i64_max then Ok value else Err "invalid database integer"%string.
Definition i64_to_u64 (value : Z) : result Z string :=
  if 0 <=? value then Ok value else Err "invalid database integer"%string.

(** [i64::saturating_sub]. *)
Definition i64_saturating_sub (a b : Z) : Z := Z.max (- 2 ^ 63) (Z.min (a - b) i64_max).

(** The result of [bigint] arithmetic, which the server checks. *)
Definition bigint (z : Z) : result Z string :=
  if (- 2 ^ 63 <=? z) && (z <=? i64_max) then Ok z else Err "bigint out of range"%string.

Definition storage_error (error : string) : StorageError :=
  Unavailable ("database storage operation failed: " +:+ error)%string.

(** The text of [DatabaseError::Manifest]. *)
Definition manifest_error (message : string) : string :=
  ("manifest is missing or invalid: " +:+ message)%string.

Definition parse_storage_status (value : string) : result StorageAccountStatus string :=
  if String.eqb value "ACTIVE" then Ok AcActive
  else if String.eqb value "NEAR_FULL" then Ok AcNearFull
  else if String.eqb value "FULL" then Ok AcFull
  else if String.eqb value "UNAVAILABLE" then Ok AcUnavailable
  else if String.eqb value "AUTH_FAILED" then Ok AcAuthFailed
  else if String.eqb value "DISABLED" then Ok AcDisabled
  else if String.eqb value "NEEDS_REAUTH" then Ok AcNeedsReauth
  else Err (manifest_error ("unknown storage account status " +:+ debug_str value)%string).

(** [parse_storage_tier]. *)
Definition parse_storage_tier (value : string) : result StorageClass string :=
  map_err (fun e => manifest_error (error_to_string e)) (class_from_str value).

Definition account_snapshot_from_row (id : string) (row : AccountRow) : result StorageAccountSnapshot string :=
  let provider := ar_provider_id row in
  let pool := default provider (ar_pool_id row) in
  let domain := default pool (ar_failure_domain row) in
  let? tier := parse_storage_tier (ar_tier row) in
  let? status := parse_storage_status (ar_status row) in
  let? capacity := i64_to_u64 (ar_capacity_bytes row) in
  let? used := i64_to_u64 (ar_used_bytes row) in
  let? reserved := i64_to_u64 (ar_reserved_bytes row) in
  let? margin := i64_to_u64 (ar_safety_margin_bytes row) in
  Ok {| account_id := id; Reservations.provider_id := provider; Reservations.pool_id := pool;
        Reservations.failure_domain := domain; Reservations.tier := tier; account_status := status;
        capacity_bytes := capacity; used_bytes := used; reserved_bytes := reserved;
        safety_margin_bytes := margin; last_capacity_check := ar_last_capacity_check row |}.

(** ** Statements and transactions *)

Section database.
(** The order the server's collation gives to text, [Uuid::parse_str] and
    [Uuid::to_string], and [chrono::Duration::from_std]. *)
Context `{Host} (collate : string -> string -> comparison)
  (parse_uuid : string -> result Uuid string) (uuid_to_string : Uuid -> string)
  (duration_from_std : Duration -> result Z string).

Abbreviation M := (stm (DbState * HostState) StorageError).

Definition tick_io (h : HostState) : HostState :=
  {| ticks := ticks h; draws := draws h; uuids := uuids h; ios := S (ios h); files := files h |}.

(** One statement: the server's failure, or what it does to the tables. *)
Definition sql {A} (f : DbState -> result (DbState * A) string) : M A := fun s =>
  match host_io (ios s.2) with
  | Some e => ((s.1, tick_io s.2), Err (storage_error e))
  | None =>
      match f s.1 with
      | Ok (d, a) => ((d, tick_io s.2), Ok a)
      | Err e => ((s.1, tick_io s.2), Err (storage_error e))
      end
  end.

Definition query {A} (f : DbState -> A) : M A := sql (fun d => Ok (d, f d)).

(** [self.pool.begin()] to [transaction.commit()]: an error in between, or of
    the two, leaves the tables as they were.  [now()] is the time of the
    beginning. *)
Definition transaction {A} (body : Z -> M A) : M A := fun s =>
  let '(s', r) := (let! _ := sql (fun d => Ok (d, tt)) in
                   let! t := on_snd now in
                   let! a := body t in
                   let! _ := sql (fun d => Ok (d, tt)) in
                   sret a) s in
  match r with
  | Ok a => (s', Ok a)
  | Err e => ((s.1, s'.2), Err e)
  end.

(** [UPDATE storage_accounts ... WHERE id=$n]. *)
Definition update_account (f : AccountRow -> result AccountRow string) (id : string) : M unit :=
  sql (fun d => match storage_accounts d !! id with
                | None => Ok (d, tt)
                | Some row => let? row := f row in
                              Ok (with_accounts_db (<[id := row]> (storage_accounts d)) d, tt)
                end).

(** [UPDATE storage_reservations SET state=... WHERE id=$1]. *)
Definition update_reservation (state : string) (id : Uuid) : M unit :=
  sql (fun d => Ok (with_reservations_db (alter (set_row_state state) id (storage_reservations d)) d, tt)).

(** [reserved_bytes=GREATEST(0, reserved_bytes-$1)]. *)
Definition take_back (bytes : Z) (row : AccountRow) : result AccountRow string :=
  let? reserved := bigint (ar_reserved_bytes row - bytes) in
  Ok (set_row_usage (ar_used_bytes row) (Z.max 0 reserved) row).

(** ** Operations *)

Definition db_ensure_account (account : StorageAccountSnapshot) : M unit :=
  let! capacity := slift (map_err Configuration (u64_to_i64 (capacity_bytes account))) in
  let! margin := slift (map_err Configuration (u64_to_i64 (safety_margin_bytes account))) in
  let pool := if is_empty (Reservations.pool_id account) then Reservations.provider_id account
              else Reservations.pool_id account in
  let domain := if is_empty (Reservations.failure_domain account) then "mega"%string
                else Reservations.failure_domain account in
  let! _ := sql (fun d => Ok (match storage_pools d !! pool with
      | Some _ => d
      | None => with_pools_db (<[pool := {|
          sp_id := pool; sp_storage_class := Cold; sp_provider_type := "mega"; sp_priority := 100;
          sp_failure_domain := domain; sp_enabled := true; sp_status := PoolReady;
          sp_provisioning_mode := ModeManual |}]> (storage_pools d)) d
      end, tt)) in
  let! _ := sql (fun d => Ok (with_providers_db
      (<[Reservations.provider_id account := pool]> (storage_providers d)) d, tt)) in
  sql (fun d => Ok (with_accounts_db (<[account_id account :=
      match storage_accounts d !! account_id account with
      | None => {|
          ar_provider_id := Reservations.provider_id account; ar_pool_id := Some pool;
          ar_failure_domain := Some domain; ar_tier := "COLD";
          ar_status := account_status_as_str (account_status account); ar_capacity_bytes := capacity;
          ar_used_bytes := 0; ar_reserved_bytes := 0; ar_safety_margin_bytes := margin;
          ar_last_capacity_check := None |}
      | Some row => {|
          ar_provider_id := Reservations.provider_id account; ar_pool_id := Some pool;
          ar_failure_domain := Some domain; ar_tier := "COLD"; ar_status := ar_status row;
          ar_capacity_bytes := capacity; ar_used_bytes := ar_used_bytes row;
          ar_reserved_bytes := ar_reserved_bytes row; ar_safety_margin_bytes := margin;
          ar_last_capacity_check := ar_last_capacity_check row |}
      end]> (storage_accounts d)) d, tt)).

(** [Database::set_storage_account_status]; the caller words its errors. *)
Definition db_set_account_status (account : string) (status : StorageAccountStatus) : M unit :=
  transaction (fun _ =>
    let! row := query (fun d => storage_accounts d !! account) in
    match row with
    | None => sfail (storage_error (manifest_error ("unknown storage account " +:+ account)%string))
    | Some row =>
        let! _ := update_account (fun row => Ok (set_row_status (account_status_as_str status) row)) account in
        sql (fun d => Ok (with_events_db (storage_health_events d
               ++ [(ar_provider_id row, account, account_status_as_str status)]) d, tt))
    end).

(** The [CASE] of the update, over the row before it. *)
Definition refresh_status (capacity used : Z) (row : AccountRow) : result string string :=
  if String.eqb (ar_status row) "DISABLED" then Ok "DISABLED"%string
  else
    let? free := bigint (capacity - used) in
    let? free := bigint (free - ar_reserved_bytes row) in
    let? free := bigint (free - ar_safety_margin_bytes row) in
    if Z.max 0 free =? 0 then Ok "FULL"%string
    else
      let? twice := bigint (ar_safety_margin_bytes row * 2) in
      if Z.max 0 free <=? twice then Ok "NEAR_FULL"%string else Ok "ACTIVE"%string.

Definition db_refresh_account_capacity (account : string) (snapshot : CapacitySnapshot)
  : M StorageAccountSnapshot :=
  let! capacity := slift (map_err Configuration (u64_to_i64 (cap_capacity_bytes snapshot))) in
  let! used := slift (map_err Configuration (u64_to_i64 (cap_used_bytes snapshot))) in
  let! t := on_snd now in
  let! row := sql (fun d => match storage_accounts d !! account with
    | None => Ok (d, None)
    | Some row =>
        let? status := refresh_status capacity used row in
        let row := {|
          ar_provider_id := ar_provider_id row; ar_pool_id := ar_pool_id row;
          ar_failure_domain := ar_failure_domain row; ar_tier := ar_tier row; ar_status := status;
          ar_capacity_bytes := capacity; ar_used_bytes := used; ar_reserved_bytes := ar_reserved_bytes row;
          ar_safety_margin_bytes := ar_safety_margin_bytes row; ar_last_capacity_check := Some t |} in
        Ok (with_accounts_db (<[account := row]> (storage_accounts d)) d, Some row)
    end) in
  match row with
  | None => sfail (unknown_account account)
  | Some row => slift (map_err storage_error (account_snapshot_from_row account row))
  end.

Definition db_list_accounts (provider : string) : M (list StorageAccountSnapshot) :=
  let! rows := query (fun d => sort_by (fun l r => collate l.1 r.1)
    (map_to_list (filter (fun ar => ar_provider_id ar.2 = provider) (storage_accounts d)))) in
  slift (map_err storage_error (try_map (fun ar => account_snapshot_from_row ar.1 ar.2) rows)).

Definition row_held (t : Z) (account : string) (row : ReservationRow) : bool :=
  String.eqb (rr_account_id row) account && String.eqb (rr_state row) "HELD" && (rr_expires_at row <=? t).

Definition row_serves (account hash : string) (row : ReservationRow) : bool :=
  String.eqb (rr_account_id row) account && String.eqb (rr_encoded_hash row) hash
  && (String.eqb (rr_state row) "HELD" || String.eqb (rr_state row) "COMMITTED").

(** [INSERT INTO storage_reservations]: the constraints of the table. *)
Definition insert_reservation (id : Uuid) (row : ReservationRow) (d : DbState) : result (DbState * unit) string :=
  if bool_decide (is_Some (storage_reservations d !! id)) then Err "duplicate key value"%string
  else if negb (bool_decide (is_Some (storage_accounts d !! rr_account_id row)))
       || negb (bool_decide (rr_encoded_hash row ∈ chunks d))
  then Err "insert violates foreign key constraint"%string
  else if rr_bytes row <? 0 then Err "new row violates check constraint"%string
  else if existsb (row_serves (rr_account_id row) (rr_encoded_hash row)) (map_to_list (storage_reservations d)).*2
  then Err "duplicate key value"%string
  else Ok (with_reservations_db (<[id := row]> (storage_reservations d)) d, tt).

(** The reservations of the account that have expired are ended, and their
    bytes given back. *)
Definition expire_rows (t : Z) (account : string) : M Z :=
  let! expired := sql (fun d =>
    let? bytes := bigint (map_total (fun row => if row_held t account row then rr_bytes row else 0)
                            (storage_reservations d)) in Ok (d, bytes)) in
  let! _ := (if 0 <? expired then
      let! _ := sql (fun d => Ok (with_reservations_db
        ((fun row => if row_held t account row then set_row_state "EXPIRED" row else row)
           <$> storage_reservations d) d, tt)) in
      update_account (take_back expired) account
    else sret tt) in
  sret expired.

Definition reserve_body (account hash : string) (bytes ttl t : Z) : M (Uuid * Z * Z) :=
  let! row := query (fun d => storage_accounts d !! account) in
  match row with
  | None => sfail (unknown_account account)
  | Some row =>
      let! expired := expire_rows t account in
      let! existing := query (fun d => head (sort_by (fun l r => l.1 ?= r.1)
        (map_to_list (filter (fun ir => row_serves account hash ir.2 = true) (storage_reservations d))))) in
      match existing with
      | Some (id, existing) => sret (id, rr_bytes existing, rr_expires_at existing)
      | None =>
          let reserved := if 0 <? expired then Z.max 0 (i64_saturating_sub (ar_reserved_bytes row) expired)
                          else ar_reserved_bytes row in
          let available := Z.max 0 (i64_saturating_sub (i64_saturating_sub (i64_saturating_sub
            (ar_capacity_bytes row) (ar_used_bytes row)) reserved) (ar_safety_margin_bytes row)) in
          if negb (String.eqb (ar_status row) "ACTIVE" || String.eqb (ar_status row) "NEAR_FULL") then
            if available <? bytes then sfail (NeedsCapacity bytes available)
            else sfail (Unavailable ("storage account " +:+ account +:+ " is " +:+ ar_status row)%string)
          else if available <? bytes then sfail (NeedsCapacity bytes available)
          else
            let! id := on_snd new_uuid in
            let! t := on_snd now in
            let! _ := sql (insert_reservation id {| rr_account_id := account; rr_encoded_hash := hash;
              rr_bytes := bytes; rr_state := "HELD"; rr_expires_at := t + ttl |}) in
            let! _ := update_account (fun row =>
              let? reserved := bigint (ar_reserved_bytes row + bytes) in
              Ok (set_row_usage (ar_used_bytes row) reserved row)) account in
            sret (id, bytes, t + ttl)
      end
  end.

Definition db_reserve (account hash : string) (bytes : Z) (ttl : Duration) : M StorageReservation :=
  let! bytes := slift (map_err Configuration (u64_to_i64 bytes)) in
  let! ttl := slift (map_err Configuration (duration_from_std ttl)) in
  let! granted := transaction (reserve_body account hash bytes ttl) in
  let '(id, bytes, expires) := granted in
  if bytes <? 0 then sfail (Configuration "negative reservation bytes")
  else sret {| reservation_id := uuid_to_string id; res_account_id := account; res_encoded_hash := hash;
               res_bytes := bytes; expires_at := expires |}.

(** The transactions of [commit] and [release]. *)
Definition settle_body (state : string) (f : Z -> AccountRow -> result AccountRow string) (id : Uuid) (t : Z) : M unit :=
  let! row := query (fun d => storage_reservations d !! id) in
  match row with
  | None => sfail (unknown_reservation (uuid_to_string id))
  | Some row =>
      if String.eqb (rr_state row) "HELD" then
        let! _ := update_reservation state id in
        update_account (f (rr_bytes row)) (rr_account_id row)
      else sret tt
  end.

Definition commit_row (bytes : Z) (row : AccountRow) : result AccountRow string :=
  let? row := take_back bytes row in
  let? used := bigint (ar_used_bytes row + bytes) in
  Ok (set_row_usage used (ar_reserved_bytes row) row).

Definition db_commit (rid : string) : M unit :=
  let! id := slift (map_err Configuration (parse_uuid rid)) in
  transaction (settle_body "COMMITTED" commit_row id).

Definition db_release (rid : string) : M unit :=
  let! id := slift (map_err Configuration (parse_uuid rid)) in
  transaction (settle_body "RELEASED" take_back id).

(** The loop of [recover_expired] over the rows of its query. *)
Fixpoint recover_rows (rows : list (Uuid * ReservationRow)) : M unit :=
  match rows with
  | [] => sret tt
  | (id, row) :: rows =>
      let! _ := update_reservation "EXPIRED" id in
      let! _ := update_account (take_back (rr_bytes row)) (rr_account_id row) in
      recover_rows rows
  end.

Definition db_recover_expired : M Z :=
  transaction (fun t =>
    let! rows := query (fun d => map_to_list (filter (fun ir =>
      rr_state ir.2 = "HELD"%string /\ rr_expires_at ir.2 <= t) (storage_reservations d))) in
    let! _ := recover_rows rows in
    sret (len64 rows)).

#[export] Instance database_ledger : CapacityReservationStore DbState := {|
  ensure_account := db_ensure_account;
  set_account_status := db_set_account_status;
  refresh_account_capacity := db_refresh_account_capacity;
  list_accounts := db_list_accounts;
  reserve := db_reserve;
  commit := db_commit;
  release := db_release;
  recover_expired := db_recover_expired
|}.
End database.
