(* ===== verification/LedgerDbProps.v ===== *)
(** * What the database ledger guarantees

    Whatever statements fail, the accounts show exactly what is held against
    them; registering an account again keeps it so; and no reservation can be
    made for an object that is not a chunk. *)
From stdpp Require Import base gmap strings list fin_maps sets relations.
From Stdlib Require Import ZArith Lia.
From S2P Require Import Prelude Text Storage Effects Placement Reservations LedgerDb.
Local Open Scope Z_scope.

(** ** The invariant *)

Definition row_weight (account : string) (r : ReservationRow) : Z :=
  if String.eqb (rr_account_id r) account && String.eqb (rr_state r) "HELD" then rr_bytes r else 0.

Definition db_held (d : DbState) (account : string) : Z :=
  map_total (row_weight account) (storage_reservations d).

Record db_ok (d : DbState) : Prop := {
  db_account : forall k a, storage_accounts d !! k = Some a ->
    0 <= ar_capacity_bytes a /\ 0 <= ar_used_bytes a /\ 0 <= ar_safety_margin_bytes a
    /\ ar_reserved_bytes a = db_held d k /\ db_held d k <= i64_max;
  db_row : forall i r, storage_reservations d !! i = Some r ->
    0 <= rr_bytes r /\ is_Some (storage_accounts d !! rr_account_id r) /\ rr_encoded_hash r ∈ chunks d;
  db_unique : forall i j r r' account hash,
    storage_reservations d !! i = Some r -> storage_reservations d !! j = Some r' ->
    row_serves account hash r = true -> row_serves account hash r' = true -> i = j
}.

Lemma row_weight_nonneg account r : 0 <= rr_bytes r -> 0 <= row_weight account r.
Proof. intros. unfold row_weight. by destruct (_ && _). Qed.

Lemma row_weight_state account state r :
  state <> "HELD"%string -> row_weight account (set_row_state state r) = 0.
Proof. intros Hs. unfold row_weight. simpl. by rewrite (proj2 (String.eqb_neq _ _) Hs), andb_false_r. Qed.

Lemma serves_state account hash state r :
  state <> "HELD"%string -> state <> "COMMITTED"%string -> row_serves account hash (set_row_state state r) = false.
Proof.
  intros H1 H2. unfold row_serves. simpl.
  by rewrite (proj2 (String.eqb_neq _ _) H1), (proj2 (String.eqb_neq _ _) H2), andb_false_r.
Qed.

Lemma db_held_nonneg d k : db_ok d -> 0 <= db_held d k.
Proof. intros Hok. apply map_total_nonneg. intros i r Hi. apply row_weight_nonneg. by apply (db_row _ Hok) in Hi as [? _]. Qed.

Section statements.
Context `{Host}.

Lemma sql_inv {A} (f : DbState -> result (DbState * A) string) s s' a :
  sql f s = (s', Ok a) -> f s.1 = Ok (s'.1, a).
Proof.
  unfold sql. destruct (host_io _); [done|]. destruct (f s.1) as [[d b]|]; [|done].
  intros [= <- <-]. done.
Qed.

Lemma query_inv {A} (f : DbState -> A) s s' a : query f s = (s', Ok a) -> s'.1 = s.1 /\ a = f s.1.
Proof. unfold query. intros E%sql_inv. by simplify_eq. Qed.

Lemma update_account_inv f id s s' u :
  update_account f id s = (s', Ok u) ->
  match storage_accounts s.1 !! id with
  | None => s'.1 = s.1
  | Some row => exists row', f row = Ok row' /\ s'.1 = with_accounts_db (<[id := row']> (storage_accounts s.1)) s.1
  end.
Proof.
  unfold update_account. intros E%sql_inv. destruct (storage_accounts s.1 !! id) as [row|]; [|by simplify_eq].
  apply rbind_Ok in E as (row' & Hf & E). exists row'. by simplify_eq.
Qed.

Lemma on_snd_db {A} (m : stm HostState StorageError A) (s s' : DbState * HostState) a :
  on_snd m s = (s', Ok a) -> s'.1 = s.1.
Proof. unfold on_snd. destruct (m s.2). by intros [= <- _]. Qed.

(** A transaction keeps what a completed body keeps. *)
Lemma transaction_ok {A} (I : DbState -> Prop) (body : Z -> stm (DbState * HostState) StorageError A) :
  (forall t s s' a, I s.1 -> body t s = (s', Ok a) -> I s'.1) ->
  preserves (fun s => I s.1) (transaction body).
Proof.
  intros Hbody s Hs. unfold transaction. destruct (sbind _ _ s) as [s' [a|e]] eqn:E; [|done].
  apply sbind_inv in E as (s1 & [] & E1%sql_inv & E). apply sbind_inv in E as (s2 & t & E2%on_snd_db & E).
  apply sbind_inv in E as (s3 & b & E3 & E). apply sbind_inv in E as (s4 & [] & E4%sql_inv & E).
  unfold sret in E. simplify_eq. simpl. assert (s'.1 = s3.1) as -> by congruence.
  apply (Hbody t s2 s3 a); [|done]. assert (s2.1 = s.1) as -> by congruence. done.
Qed.

Lemma transaction_inv {A} (body : Z -> stm (DbState * HostState) StorageError A) s s' a :
  transaction body s = (s', Ok a) -> exists t s1 s2, s1.1 = s.1 /\ body t s1 = (s2, Ok a) /\ s'.1 = s2.1.
Proof.
  unfold transaction. destruct (sbind _ _ s) as [s3 [b|e]] eqn:E; [|done]. intros [= <- <-].
  apply sbind_inv in E as (s1 & [] & E1%sql_inv & E). apply sbind_inv in E as (s2 & t & E2%on_snd_db & E).
  apply sbind_inv in E as (s4 & c & E3 & E). apply sbind_inv in E as (s5 & [] & E4%sql_inv & E).
  unfold sret in E. simplify_eq. exists t, s2, s4. split_and!; [congruence|done|congruence].
Qed.

Lemma bigint_Ok z b : bigint z = Ok b -> b = z /\ - 2 ^ 63 <= z <= i64_max.
Proof. unfold bigint. destruct (_ && _) eqn:E; [|done]. breflect. intros [= <-]. lia. Qed.

(** ** Ending one held reservation *)

(** The reservation gets a state in which it is not held, and its bytes leave
    what its account shows as reserved. *)
Lemma end_reservation d id row state arow arow' :
  db_ok d -> storage_reservations d !! id = Some row -> rr_state row = "HELD"%string ->
  state <> "HELD"%string -> storage_accounts d !! rr_account_id row = Some arow ->
  ar_capacity_bytes arow' = ar_capacity_bytes arow /\ ar_safety_margin_bytes arow' = ar_safety_margin_bytes arow
  /\ 0 <= ar_used_bytes arow' /\ ar_reserved_bytes arow' = ar_reserved_bytes arow - rr_bytes row ->
  db_ok (with_accounts_db (<[rr_account_id row := arow']> (storage_accounts d))
           (with_reservations_db (alter (set_row_state state) id (storage_reservations d)) d)).
Proof.
  intros Hok Hrow Hheld Hst Harow (Hc & Hm & Hu & Hr).
  assert (alter (set_row_state state) id (storage_reservations d) = <[id := set_row_state state row]> (storage_reservations d)) as ->.
  { apply map_eq. intros j. destruct (decide (j = id)) as [->|];
      [by rewrite lookup_alter_eq, Hrow, lookup_insert_eq|by rewrite lookup_alter_ne, lookup_insert_ne]. }
  assert (forall k, map_total (row_weight k) (<[id := set_row_state state row]> (storage_reservations d))
    = db_held d k - (if String.eqb (rr_account_id row) k then rr_bytes row else 0)) as Htotal.
  { intros k. rewrite (map_total_replace _ _ _ row) by done. rewrite row_weight_state by done.
    unfold db_held, row_weight at 2. rewrite Hheld. simpl. rewrite andb_true_r. lia. }
  pose proof (db_row _ Hok _ _ Hrow) as (Hb & _ & _). split; simpl.
  - intros k a Hk. unfold db_held at 1 2. simpl. rewrite Htotal.
    apply lookup_insert_Some in Hk as [[<- <-]|[Hne Hk]].
    + rewrite String.eqb_refl. destruct (db_account _ Hok _ _ Harow) as (?&?&?&?&?). lia.
    + rewrite (proj2 (String.eqb_neq _ _) Hne). destruct (db_account _ Hok _ _ Hk) as (?&?&?&?&?). lia.
  - intros i r Hi. assert (is_Some (storage_accounts d !! rr_account_id r) /\ 0 <= rr_bytes r /\ rr_encoded_hash r ∈ chunks d)
      as ([x Hx] & ? & ?).
    { apply lookup_insert_Some in Hi as [[<- <-]|[_ Hi]]; [|by apply (db_row _ Hok) in Hi as (?&?&?)].
      simpl. apply (db_row _ Hok) in Hrow as (?&?&?). done. }
    split_and!; [done| |done]. destruct (decide (rr_account_id r = rr_account_id row)) as [->|];
      [rewrite lookup_insert_eq|rewrite lookup_insert_ne by done]; eauto.
  - assert (forall i r account hash, <[id := set_row_state state row]> (storage_reservations d) !! i = Some r ->
      row_serves account hash r = true -> exists r0, storage_reservations d !! i = Some r0 /\ row_serves account hash r0 = true) as Hback.
    { intros i r account hash Hi Hs. apply lookup_insert_Some in Hi as [[<- <-]|[_ Hi]]; [|by exists r].
      exists row. split; [done|]. unfold row_serves in *. simpl in Hs. rewrite Hheld. simpl.
      apply andb_true_iff in Hs as [-> _]. done. }
    intros i j r r' account hash Hi Hj Hs Hs'.
    destruct (Hback _ _ _ _ Hi Hs) as (? & ? & ?). destruct (Hback _ _ _ _ Hj Hs') as (? & ? & ?).
    by eapply (db_unique _ Hok).
Qed.
Definition settling (f : Z -> AccountRow -> result AccountRow string) : Prop :=
  forall b row row', 0 <= b <= ar_reserved_bytes row -> 0 <= ar_used_bytes row -> f b row = Ok row' ->
    ar_capacity_bytes row' = ar_capacity_bytes row /\ ar_safety_margin_bytes row' = ar_safety_margin_bytes row
    /\ 0 <= ar_used_bytes row' /\ ar_reserved_bytes row' = ar_reserved_bytes row - b.

Lemma take_back_settling : settling take_back.
Proof.
  intros b row row' Hb Hu E. apply rbind_Ok in E as (r & [-> Hr]%bigint_Ok & [= <-]). simpl. lia.
Qed.

Lemma commit_row_settling : settling commit_row.
Proof.
  intros b row row' Hb Hu E. apply rbind_Ok in E as (row1 & Et & E).
  apply take_back_settling in Et as Ht; [|done|done]. apply rbind_Ok in E as (u & [-> Hr]%bigint_Ok & [= <-]).
  apply rbind_Ok in Et as (r & _ & [= <-]). simpl in *. lia.
Qed.

Lemma held_le d id row : db_ok d -> storage_reservations d !! id = Some row -> rr_state row = "HELD"%string ->
  rr_bytes row <= db_held d (rr_account_id row).
Proof.
  intros Hok Hrow Hheld. assert (rr_bytes row = row_weight (rr_account_id row) row) as ->.
  { unfold row_weight. by rewrite String.eqb_refl, Hheld. }
  eapply map_total_lookup; [|done]. intros i r Hi. apply row_weight_nonneg. by apply (db_row _ Hok) in Hi as [? _].
Qed.

(** One reservation read as held is ended and its bytes settled. *)
Lemma end_one_ok d id row state f s1 s2 s3 :
  db_ok d -> s1.1 = d -> storage_reservations d !! id = Some row -> rr_state row = "HELD"%string ->
  state <> "HELD"%string -> settling f ->
  update_reservation state id s1 = (s2, Ok tt) -> update_account (f (rr_bytes row)) (rr_account_id row) s2 = (s3, Ok tt) ->
  db_ok s3.1 /\ storage_reservations s3.1 = alter (set_row_state state) id (storage_reservations d).
Proof.
  intros Hok Es1 Hrow Hheld Hst Hf E1%sql_inv E2%update_account_inv. rewrite Es1 in E1.
  assert (s2.1 = with_reservations_db (alter (set_row_state state) id (storage_reservations d)) d) as Hs2 by congruence.
  destruct (db_row _ Hok _ _ Hrow) as (Hb & [arow Harow] & _).
  rewrite Hs2 in E2. simpl in E2. rewrite Harow in E2. destruct E2 as (arow' & Hfa & Hs3). rewrite Hs3. split; [|done].
  pose proof (held_le _ _ _ Hok Hrow Hheld). destruct (db_account _ Hok _ _ Harow) as (?&?&?&?&?).
  eapply end_reservation; eauto. apply Hf in Hfa; [done|lia|lia].
Qed.

Lemma settle_body_ok uuid_to_string state f id t s s' u :
  state <> "HELD"%string -> settling f -> db_ok s.1 ->
  settle_body uuid_to_string state f id t s = (s', Ok u) -> db_ok s'.1.
Proof.
  intros Hst Hf Hok E. apply sbind_inv in E as (s1 & row & [Es1 Erow]%query_inv & E).
  destruct row as [row|]; [|done]. destruct (String.eqb_spec (rr_state row) "HELD") as [Hheld|]; [|by injection E as <- _; rewrite Es1].
  apply sbind_inv in E as (s2 & [] & E1 & E2). destruct u. by eapply (end_one_ok s.1).
Qed.

Lemma recover_rows_ok rows s s' u :
  NoDup rows.*1 -> db_ok s.1 ->
  (forall id row, (id, row) ∈ rows -> storage_reservations s.1 !! id = Some row /\ rr_state row = "HELD"%string) ->
  recover_rows rows s = (s', Ok u) -> db_ok s'.1.
Proof.
  revert s. induction rows as [|[id row] rows IH]; intros s Hn Hok Hrows; simpl; [by intros [= <- _]|].
  intros E. apply sbind_inv in E as (s1 & [] & E1 & E). apply sbind_inv in E as (s2 & [] & E2 & E).
  apply NoDup_cons in Hn as [Hid Hn]. destruct (Hrows id row) as [Hrow Hheld]; [left|].
  destruct (end_one_ok s.1 id row "EXPIRED" take_back s s1 s2) as [Hok2 Hres]; try done; [apply take_back_settling|].
  apply (IH s2); [done|done| |done]. intros id' row' Hin. rewrite Hres.
  destruct (Hrows id' row') as [? ?]; [by right|]. rewrite lookup_alter_ne; [done|].
  intros ->. apply Hid, list_elem_of_fmap. by exists (id', row').
Qed.

(** ** Expiry inside [reserve] *)

Definition expired_total (t : Z) (account : string) (d : DbState) : Z :=
  map_total (fun row => if row_held t account row then rr_bytes row else 0) (storage_reservations d).

Definition expire_row (t : Z) (account : string) (row : ReservationRow) : ReservationRow :=
  if row_held t account row then set_row_state "EXPIRED" row else row.

Lemma weight_expire_row t account k row :
  row_weight k (expire_row t account row)
  = row_weight k row - (if String.eqb account k then (if row_held t account row then rr_bytes row else 0) else 0).
Proof.
  unfold expire_row. destruct (row_held t account row) eqn:E; [|destruct (String.eqb account k); lia].
  rewrite row_weight_state by done. unfold row_held in E. breflect. unfold row_weight.
  match goal with Ha : rr_account_id row = account, Hs : rr_state row = _ |- _ => rewrite Ha, Hs end.
  rewrite String.eqb_refl, andb_true_r. destruct (String.eqb account k); lia.
Qed.

Lemma expire_rows_ok t account s s' expired :
  db_ok s.1 -> is_Some (storage_accounts s.1 !! account) ->
  expire_rows t account s = (s', Ok expired) ->
  db_ok s'.1 /\ chunks s'.1 = chunks s.1 /\ 0 <= expired
  /\ (forall i r, storage_reservations s'.1 !! i = Some r -> exists r0, storage_reservations s.1 !! i = Some r0
        /\ (forall hash, row_serves account hash r = true -> r0 = r))
  /\ forall a, storage_accounts s.1 !! account = Some a ->
       storage_accounts s'.1 !! account = Some (set_row_usage (ar_used_bytes a) (ar_reserved_bytes a - expired) a).
Proof.
  intros Hok [a Ha] E. apply sbind_inv in E as (s1 & e & E1%sql_inv & E).
  apply rbind_Ok in E1 as (b & [-> Hrange]%bigint_Ok & E1). fold (expired_total t account s.1) in *.
  assert (s1.1 = s.1 /\ e = expired_total t account s.1) as [Hs1 ->] by (split; congruence). clear E1.
  assert (0 <= expired_total t account s.1) as Hpos.
  { apply map_total_nonneg. intros i r Hi. apply (db_row _ Hok) in Hi as [? _]. by destruct (row_held _ _ _). }
  apply sbind_inv in E as (s2 & [] & E2 & [= -> <-]). destruct (Z.ltb_spec 0 (expired_total t account s.1)) as [Hlt|Hle].
  2: { injection E2 as <-. rewrite Hs1. split_and!; [done..| |].
       - intros i r Hi. exists r. by split.
       - intros a' Ha'. assert (expired_total t account s.1 = 0) as -> by lia. rewrite Z.sub_0_r, Ha'. by destruct a'. }
  apply sbind_inv in E2 as (s3 & [] & E3%sql_inv & E4%update_account_inv). rewrite Hs1 in E3.
  change (fun row => if row_held t account row then set_row_state "EXPIRED" row else row) with (expire_row t account) in E3.
  assert (s3.1 = with_reservations_db (expire_row t account <$> storage_reservations s.1) s.1) as Hs3 by congruence.
  rewrite Hs3 in E4. simpl in E4. rewrite Ha in E4. destruct E4 as (a' & Htake & Hs').
  assert (forall k, map_total (row_weight k) (expire_row t account <$> storage_reservations s.1)
    = db_held s.1 k - (if String.eqb account k then expired_total t account s.1 else 0)) as Htotal.
  { intros k. rewrite map_total_fmap. rewrite (map_total_ext _ _ _ (fun i r _ => weight_expire_row t account k r)).
    rewrite map_total_sub. unfold db_held. f_equal. destruct (String.eqb account k); [done|apply map_total_zero]. }
  pose proof (Htotal account) as Hta. rewrite String.eqb_refl in Hta.
  assert (0 <= map_total (row_weight account) (expire_row t account <$> storage_reservations s.1)) as Hta0.
  { rewrite map_total_fmap. apply map_total_nonneg. intros i r Hi. apply row_weight_nonneg.
    apply (db_row _ Hok) in Hi as [? _]. unfold expire_row. by destruct (row_held _ _ _). }
  destruct (db_account _ Hok _ _ Ha) as (Hcap & Hused & Hmargin & Hres & Hmax).
  apply rbind_Ok in Htake as (r & [-> _]%bigint_Ok & [= <-]).
  rewrite Z.max_r in Hs' by lia. rewrite Hs'. simpl. split_and!; [|done|done| |].
  - split; simpl.
    + intros k x Hk. unfold db_held at 1 2. simpl. rewrite Htotal. apply lookup_insert_Some in Hk as [[<- <-]|[Hne Hk]].
      * rewrite String.eqb_refl. simpl. lia.
      * rewrite (proj2 (String.eqb_neq _ _) Hne). destruct (db_account _ Hok _ _ Hk) as (?&?&?&?&?). lia.
    + intros i r Hi. apply lookup_fmap_Some in Hi as (r0 & <- & Hi). apply (db_row _ Hok) in Hi as (Hb & [x Hx] & Hc).
      assert (rr_bytes (expire_row t account r0) = rr_bytes r0 /\ rr_account_id (expire_row t account r0) = rr_account_id r0
        /\ rr_encoded_hash (expire_row t account r0) = rr_encoded_hash r0) as (-> & -> & ->)
        by (unfold expire_row; by destruct (row_held _ _ _)).
      split_and!; [done| |done]. destruct (decide (rr_account_id r0 = account)) as [->|];
        [rewrite lookup_insert_eq|rewrite lookup_insert_ne by done]; eauto.
    + assert (forall r acc hash, row_serves acc hash (expire_row t account r) = true -> row_serves acc hash r = true) as Hback.
      { intros r acc hash. unfold expire_row. destruct (row_held _ _ _); [|done]. by rewrite serves_state. }
      intros i j r r' acc hash Hi Hj Hs Hs'2. apply lookup_fmap_Some in Hi as (r0 & <- & Hi).
      apply lookup_fmap_Some in Hj as (r1 & <- & Hj). eapply (db_unique _ Hok); eauto.
  - intros i r Hi. apply lookup_fmap_Some in Hi as (r0 & <- & Hi). exists r0. split; [done|].
    intros hash. unfold expire_row. destruct (row_held _ _ _); [|done]. by rewrite serves_state.
  - intros a' Ha'. rewrite lookup_insert_eq. congruence.
Qed.
(** ** Granting *)

Lemma head_filter_serves account hash (d : DbState) :
  match head (sort_by (fun l r => l.1 ?= r.1)
    (map_to_list (filter (fun ir => row_serves account hash ir.2 = true) (storage_reservations d)))) with
  | Some (id, row) => storage_reservations d !! id = Some row /\ row_serves account hash row = true
  | None => forall id row, storage_reservations d !! id = Some row -> row_serves account hash row = false
  end.
Proof.
  set (l := map_to_list _).
  assert (forall id row, (id, row) ∈ sort_by (fun l r => l.1 ?= r.1) l <->
    storage_reservations d !! id = Some row /\ row_serves account hash row = true) as Hin.
  { intros id row. rewrite elem_of_sort_by. unfold l. rewrite elem_of_map_to_list, map_lookup_filter_Some. done. }
  destruct (sort_by _ l) as [|[id row] k]; simpl.
  - intros id row Hrow. destruct (row_serves account hash row) eqn:E; [|done].
    assert ((id, row) ∈ []) as Hn by (by apply Hin). by apply elem_of_nil in Hn.
  - apply Hin. left.
Qed.

Lemma insert_reservation_inv id row d d' u :
  insert_reservation id row d = Ok (d', u) ->
  storage_reservations d !! id = None /\ rr_encoded_hash row ∈ chunks d
  /\ (forall i r, storage_reservations d !! i = Some r ->
        row_serves (rr_account_id row) (rr_encoded_hash row) r = false)
  /\ d' = with_reservations_db (<[id := row]> (storage_reservations d)) d.
Proof.
  unfold insert_reservation. destruct (bool_decide (is_Some _)) eqn:E1; [done|].
  destruct (_ || _) eqn:E2; [done|]. destruct (_ <? _); [done|]. destruct (existsb _ _) eqn:E3; [done|].
  intros [= <- _]. breflect. split_and!; [by apply eq_None_not_Some|done| |done].
  intros i r Hi. destruct (row_serves _ _ r) eqn:E; [|done].
  assert (existsb (row_serves (rr_account_id row) (rr_encoded_hash row)) (map_to_list (storage_reservations d)).*2 = true); [|congruence].
  apply existsb_exists. exists r. split; [|done]. apply list_elem_of_In, list_elem_of_fmap. exists (i, r).
  split; [done|]. by apply elem_of_map_to_list.
Qed.

(** What a completed [reserve] leaves: an active reservation that was there, or
    a new one that fits and names a chunk. *)
Definition reserve_post (account hash : string) (bytes : Z) (d d' : DbState) (granted : Uuid * Z * Z) : Prop :=
  let '(id, b, e) := granted in
  (exists row, storage_reservations d !! id = Some row /\ storage_reservations d' !! id = Some row
     /\ row_serves account hash row = true /\ rr_bytes row = b)
  \/ (b = bytes /\ hash ∈ chunks d /\ exists a, storage_accounts d' !! account = Some a
      /\ (ar_status a = "ACTIVE"%string \/ ar_status a = "NEAR_FULL"%string)
      /\ (0 < bytes -> ar_used_bytes a + db_held d' account + ar_safety_margin_bytes a <= ar_capacity_bytes a)).

Lemma reserve_body_ok account hash bytes ttl t s s' granted :
  db_ok s.1 -> 0 <= bytes -> reserve_body account hash bytes ttl t s = (s', Ok granted) ->
  db_ok s'.1 /\ reserve_post account hash bytes s.1 s'.1 granted.
Proof.
  intros Hok Hb E. apply sbind_inv in E as (s1 & row & [Es1 Erow]%query_inv & E).
  destruct row as [row|]; [|done]. symmetry in Erow.
  apply sbind_inv in E as (s2 & expired & E2 & E). rewrite <- Es1 in Hok, Erow.
  apply expire_rows_ok in E2 as (Hok2 & Hchunks & Hexp & Hback & Hacc); [|done|by rewrite Erow].
  specialize (Hacc row Erow). rewrite Es1 in Hback, Hchunks.
  apply sbind_inv in E as (s3 & existing & [Es3 ->]%query_inv & E).
  pose proof (head_filter_serves account hash s2.1) as Hhead. rewrite <- Es3 in *.
  destruct (head _) as [[id r]|].
  { injection E as <- <-. split; [done|]. left. destruct Hhead as [Hr Hs].
    destruct (Hback _ _ Hr) as (r0 & Hr0 & Hsame). rewrite (Hsame hash Hs) in Hr0. by exists r. }
  set (reserved := if 0 <? expired then Z.max 0 (i64_saturating_sub (ar_reserved_bytes row) expired) else ar_reserved_bytes row) in *.
  cbv zeta in E.
  destruct (negb _) eqn:Est; [by destruct (_ <? bytes)|]. destruct (Z.ltb_spec
    (Z.max 0 (i64_saturating_sub (i64_saturating_sub (i64_saturating_sub
       (ar_capacity_bytes row) (ar_used_bytes row)) reserved) (ar_safety_margin_bytes row))) bytes) as [|Hroom]; [done|].
  apply sbind_inv in E as (s4 & id & E4%on_snd_db & E). apply sbind_inv in E as (s5 & t' & E5%on_snd_db & E).
  apply sbind_inv in E as (s6 & [] & E6%sql_inv & E).
  apply insert_reservation_inv in E6 as (Hfresh & Hchunk & Hnone & Hs6). simpl in Hchunk, Hnone.
  rewrite E5, E4 in Hfresh, Hchunk, Hnone, Hs6.
  apply sbind_inv in E as (s7 & [] & E7%update_account_inv & [= -> <-]).
  rewrite Hs6 in E7. simpl in E7. rewrite Hacc in E7. destruct E7 as (row' & Erow' & Hs7).
  apply rbind_Ok in Erow' as (r & [-> Hrange]%bigint_Ok & [= <-]). simpl in *.
  pose proof (db_account _ Hok2 _ _ Hacc) as (Hcap & Hused & Hmargin & Hres & Hmax). simpl in *.
  pose proof (db_held_nonneg _ account Hok2) as Hheld0.
  set (new := {| rr_account_id := account; rr_encoded_hash := hash; rr_bytes := bytes; rr_state := "HELD";
                 rr_expires_at := t' + ttl |}) in *.
  assert (forall k, map_total (row_weight k) (<[id := new]> (storage_reservations s3.1))
    = (if String.eqb account k then bytes else 0) + db_held s3.1 k) as Htotal.
  { intros k. rewrite map_total_insert by done. unfold row_weight at 1. simpl. by rewrite andb_true_r. }
  assert (0 < bytes -> ar_used_bytes row + (db_held s3.1 account + bytes) + ar_safety_margin_bytes row <= ar_capacity_bytes row) as Hfits.
  { intros Hpos. assert (reserved = db_held s3.1 account) as Hreserved.
    { unfold reserved, i64_saturating_sub, i64_max in *. destruct (Z.ltb_spec 0 expired); lia. }
    rewrite Hreserved in Hroom. unfold i64_saturating_sub, i64_max in *. lia. }
  split.
  - rewrite Hs7. split; simpl.
    + intros k a Hk. unfold db_held at 1 2. simpl. rewrite Htotal. apply lookup_insert_Some in Hk as [[<- <-]|[Hne Hk]].
      * rewrite String.eqb_refl. simpl. unfold i64_max in *. lia.
      * rewrite (proj2 (String.eqb_neq _ _) Hne). destruct (db_account _ Hok2 _ _ Hk) as (?&?&?&?&?). lia.
    + intros i r Hi. assert (0 <= rr_bytes r /\ rr_encoded_hash r ∈ chunks s3.1 /\
        is_Some (storage_accounts s3.1 !! rr_account_id r)) as (? & ? & [x Hx]).
      { apply lookup_insert_Some in Hi as [[<- <-]|[_ Hi]]; [simpl; rewrite Hacc; eauto|].
        apply (db_row _ Hok2) in Hi as (?&?&?). done. }
      split_and!; [done| |done]. destruct (decide (rr_account_id r = account)) as [->|];
        [rewrite lookup_insert_eq|rewrite lookup_insert_ne by done]; eauto.
    + intros i j r r' acc h Hi Hj Hs Hs'.
      apply lookup_insert_Some in Hi as [[<- <-]|[_ Hi]]; apply lookup_insert_Some in Hj as [[<- <-]|[_ Hj]]; [done| | |].
      * exfalso. unfold row_serves in Hs at 1. simpl in Hs. breflect. subst. by rewrite (Hnone _ _ Hj) in Hs'.
      * exfalso. unfold row_serves in Hs' at 1. simpl in Hs'. breflect. subst. by rewrite (Hnone _ _ Hi) in Hs.
      * by eapply (db_unique _ Hok2).
  - right. split; [done|]. split; [by rewrite <- Hchunks|]. rewrite Hs7. simpl. eexists. rewrite lookup_insert_eq.
    split; [done|]. simpl. split.
    + apply negb_false_iff, orb_true_iff in Est as [?|?]; breflect; auto.
    + intros Hpos. unfold db_held. simpl. rewrite Htotal, String.eqb_refl. specialize (Hfits Hpos). lia.
Qed.
End statements.

(** ** Executions *)

Section runs.
Context `{Host} (collate : string -> string -> comparison)
  (parse_uuid : string -> result Uuid string) (uuid_to_string : Uuid -> string)
  (duration_from_std : Duration -> result Z string).

(** One operation of the store, with any of its statements failing: an account
    may be registered again at any time. *)
Inductive db_step (s : DbState * HostState) : DbState * HostState -> Prop :=
| DbEnsure account : account_wf account -> db_step s (db_ensure_account account s).1
| DbStatus account status : db_step s (db_set_account_status account status s).1
| DbRefresh account snapshot :
    is_u64 (cap_capacity_bytes snapshot) -> is_u64 (cap_used_bytes snapshot) ->
    db_step s (db_refresh_account_capacity account snapshot s).1
| DbList provider : db_step s (db_list_accounts collate provider s).1
| DbReserve account hash bytes ttl :
    is_u64 bytes -> db_step s (db_reserve uuid_to_string duration_from_std account hash bytes ttl s).1
| DbCommit rid : db_step s (db_commit parse_uuid uuid_to_string rid s).1
| DbRelease rid : db_step s (db_release parse_uuid uuid_to_string rid s).1
| DbRecover : db_step s (db_recover_expired s).1.

Abbreviation okdb := (fun s : DbState * HostState => db_ok s.1).

Lemma sql_keeps {A} (f : DbState -> result (DbState * A) string) :
  (forall d d' a, db_ok d -> f d = Ok (d', a) -> db_ok d') -> preserves okdb (sql f).
Proof.
  intros Hf s Hok. unfold sql. destruct (host_io _); [done|]. destruct (f s.1) as [[d a]|e] eqn:E; [|done].
  by eapply Hf.
Qed.

Lemma query_keeps {A} (f : DbState -> A) : preserves okdb (query f).
Proof. apply sql_keeps. intros d d' a Hok E. by simplify_eq. Qed.

Lemma now_keeps : preserves okdb (on_snd (E := StorageError) now).
Proof. by intros s Hok. Qed.

(** An account whose reserved bytes stay, or a new one with nothing held. *)
Lemma put_account_ok d k row :
  db_ok d -> 0 <= ar_capacity_bytes row -> 0 <= ar_used_bytes row -> 0 <= ar_safety_margin_bytes row ->
  ar_reserved_bytes row = match storage_accounts d !! k with Some a => ar_reserved_bytes a | None => 0 end ->
  db_ok (with_accounts_db (<[k := row]> (storage_accounts d)) d).
Proof.
  intros Hok Hc Hu Hm Hr. split; simpl.
  - intros i a Hi. apply lookup_insert_Some in Hi as [[<- <-]|[_ Hi]]; [|by apply (db_account _ Hok)].
    split_and!; [done..| |]; unfold db_held; simpl; fold (db_held d k).
    + rewrite Hr. destruct (storage_accounts d !! k) as [a|] eqn:E; [by apply (db_account _ Hok)|].
      symmetry. unfold db_held. rewrite (map_total_ext _ (fun _ => 0)); [apply map_total_zero|].
      intros j r Hj. apply (db_row _ Hok) in Hj as (_ & [x Hx] & _). unfold row_weight.
      rewrite (proj2 (String.eqb_neq _ _)); [done|]. intros E'. congruence.
    + destruct (storage_accounts d !! k) as [a|] eqn:E; [by apply (db_account _ Hok) in E as (_&_&_&_&?)|].
      unfold db_held. rewrite (map_total_ext _ (fun _ => 0)); [by rewrite map_total_zero|].
      intros j r Hj. apply (db_row _ Hok) in Hj as (_ & [x Hx] & _). unfold row_weight.
      rewrite (proj2 (String.eqb_neq _ _)); [done|]. intros E'. congruence.
  - intros i r Hi. apply (db_row _ Hok) in Hi as (? & [x Hx] & ?). split_and!; [done| |done].
    destruct (decide (rr_account_id r = k)) as [->|]; [rewrite lookup_insert_eq|rewrite lookup_insert_ne by done]; eauto.
  - apply (db_unique _ Hok).
Qed.

Lemma other_tables_ok d d' :
  db_ok d -> storage_accounts d' = storage_accounts d -> storage_reservations d' = storage_reservations d ->
  chunks d' = chunks d -> db_ok d'.
Proof.
  intros [Ha Hr Hu] E1 E2 E3. split; unfold db_held in *; rewrite ?E1, ?E2, ?E3; done.
Qed.

Lemma u64_to_i64_Ok z v : map_err Configuration (u64_to_i64 z) = Ok v -> v = z.
Proof. unfold u64_to_i64. destruct (_ <=? _); by intros [= <-]. Qed.

Lemma ensure_keeps account : account_wf account -> preserves okdb (db_ensure_account account).
Proof.
  intros ([Hc _] & _ & _ & [Hm _]). unfold db_ensure_account.
  apply preserves_bind_slift. intros capacity ->%u64_to_i64_Ok.
  apply preserves_bind_slift. intros margin ->%u64_to_i64_Ok.
  apply preserves_sbind; [|intros _; apply preserves_sbind; [|intros _]]; apply sql_keeps; intros d d' u Hok E;
    injection E as <- _.
  - destruct (storage_pools d !! _); [done|]. by eapply other_tables_ok.
  - by eapply other_tables_ok.
  - destruct (storage_accounts d !! account_id account) as [row|] eqn:Erow; apply put_account_ok; simpl; try done.
    + by apply (db_account _ Hok) in Erow as (_ & ? & _).
    + by rewrite Erow.
    + by rewrite Erow.
Qed.

Lemma status_keeps account status : preserves okdb (db_set_account_status account status).
Proof.
  apply transaction_ok. intros t s s' u Hok E. apply sbind_inv in E as (s1 & row & [Es1 Erow]%query_inv & E).
  destruct row as [row|]; [|done]. symmetry in Erow. apply sbind_inv in E as (s2 & [] & E1%update_account_inv & E2%sql_inv).
  rewrite <- Es1 in Hok, Erow. rewrite Erow in E1. destruct E1 as (row' & [= <-] & Es2).
  assert (db_ok s2.1) as Hok2.
  { rewrite Es2. destruct (db_account _ Hok _ _ Erow) as (?&?&?&?&?). apply put_account_ok; simpl; try done. by rewrite Erow. }
  eapply other_tables_ok; [exact Hok2|..]; injection E2 as <- _; done.
Qed.

Lemma refresh_keeps account snapshot :
  is_u64 (cap_capacity_bytes snapshot) -> is_u64 (cap_used_bytes snapshot) ->
  preserves okdb (db_refresh_account_capacity account snapshot).
Proof.
  intros [Hc _] [Hu _]. unfold db_refresh_account_capacity.
  apply preserves_bind_slift. intros capacity ->%u64_to_i64_Ok.
  apply preserves_bind_slift. intros used ->%u64_to_i64_Ok.
  apply preserves_sbind; [apply now_keeps|]. intros t. apply preserves_sbind; [|preserve].
  apply sql_keeps. intros d d' row Hok E. destruct (storage_accounts d !! account) as [a|] eqn:Ea; [|by simplify_eq].
  apply rbind_Ok in E as (status & _ & [= <- _]). destruct (db_account _ Hok _ _ Ea) as (?&?&?&?&?).
  apply put_account_ok; simpl; try done. by rewrite Ea.
Qed.

Lemma reserve_keeps account hash bytes ttl :
  is_u64 bytes -> preserves okdb (db_reserve uuid_to_string duration_from_std account hash bytes ttl).
Proof.
  intros [Hb _]. unfold db_reserve. apply preserves_bind_slift. intros b ->%u64_to_i64_Ok.
  apply preserves_bind_slift. intros d _. apply preserves_sbind; [|preserve].
  apply transaction_ok. intros t s s' granted Hok E. by eapply reserve_body_ok in E as [? _].
Qed.

Lemma settle_keeps state f rid :
  state <> "HELD"%string -> settling f ->
  preserves okdb (let! id := slift (map_err Configuration (parse_uuid rid)) in
                  transaction (settle_body uuid_to_string state f id)).
Proof.
  intros Hst Hf. apply preserves_sbind; [apply preserves_slift|]. intros id. apply transaction_ok.
  intros t s s' u Hok E. by eapply settle_body_ok in E.
Qed.

Lemma recover_keeps : preserves okdb db_recover_expired.
Proof.
  apply transaction_ok. intros t s s' n Hok E. apply sbind_inv in E as (s1 & rows & [Es1 ->]%query_inv & E).
  apply sbind_inv in E as (s2 & [] & E & [= <- _]). rewrite <- Es1 in *.
  eapply recover_rows_ok; [|exact Hok| |exact E].
  - apply NoDup_fst_map_to_list.
  - intros id row Hin. apply elem_of_map_to_list, map_lookup_filter_Some in Hin as (? & ? & _). done.
Qed.

Lemma db_step_ok s s' : db_step s s' -> db_ok s.1 -> db_ok s'.1.
Proof.
  intros Hs Hok. destruct Hs.
  - by apply ensure_keeps.
  - by apply status_keeps.
  - by apply refresh_keeps.
  - assert (preserves okdb (db_list_accounts collate provider)) as Hp; [|by apply Hp].
    apply preserves_sbind; [apply query_keeps|preserve].
  - by apply reserve_keeps.
  - apply (settle_keeps _ _ rid); [done|apply commit_row_settling|done].
  - apply (settle_keeps _ _ rid); [done|apply take_back_settling|done].
  - by apply recover_keeps.
Qed.

Definition empty_db (known : gset string) : DbState := {|
  storage_pools := ∅; storage_providers := ∅; storage_accounts := ∅; storage_reservations := ∅;
  storage_health_events := []; chunks := known |}.

Lemma empty_db_ok known : db_ok (empty_db known).
Proof. split; simpl; intros *; by rewrite lookup_empty. Qed.

(** C39. In every execution over the database, with any statements failing and
    accounts registered again at any time, what an account shows as reserved is
    the sum of its held reservations, active objects have one reservation per
    account; and a reservation is granted only for a chunk the database knows,
    on an account that accepts objects and where it fits next to everything
    held and the margin. *)
Theorem db_ledger_consistent known h s :
  rtc db_step (empty_db known, h) s ->
  db_ok s.1 /\
  forall account hash bytes ttl s' r, is_u64 bytes ->
    db_reserve uuid_to_string duration_from_std account hash bytes ttl s = (s', Ok r) ->
    exists id, reservation_id r = uuid_to_string id /\ reserve_post account hash bytes s.1 s'.1 (id, res_bytes r, expires_at r).
Proof.
  intros Hs. assert (db_ok s.1) as Hok.
  { pose proof (empty_db_ok known) as H0. change (db_ok (empty_db known, h).1) in H0. revert H0.
    induction Hs as [|x y z Hxy _ IH]; [done|]. intros H0. apply IH. by eapply db_step_ok. }
  split; [done|]. intros account hash bytes ttl s' r [Hb _] E.
  apply sbind_inv in E as (s1 & b & E1 & E). apply sbind_inv in E as (s2 & d & E2 & E).
  apply sbind_inv in E as (s3 & [[id b'] e] & E3 & E). destruct (b' <? 0); [done|].
  unfold slift in E1, E2. injection E1 as <- ->%u64_to_i64_Ok. injection E2 as <- _. injection E as <- <-.
  apply transaction_inv in E3 as (t & s4 & s5 & Es4 & E3 & Es5). rewrite Es5. rewrite <- Es4 in *.
  apply reserve_body_ok in E3 as [_ Hpost]; [|done|done]. exists id. simpl. split; [done|]. exact Hpost.
Qed.
End runs.

(** ** A concrete execution *)

Definition demo_db_empty : DbState * HostState := (empty_db {["h1"%string]}, host_init).
Definition demo_db_once : DbState * HostState := (@db_ensure_account counting_host demo_account demo_db_empty).1.
Definition demo_db : DbState * HostState := (@db_ensure_account counting_host demo_account demo_db_once).1.

Lemma demo_db_run :
  rtc (@db_step counting_host String.compare (parse_uint u64_max) fmt_u Ok) demo_db_empty demo_db.
Proof.
  assert (account_wf demo_account) as Hwf by done.
  apply rtc_l with demo_db_once; [by apply (DbEnsure _ _ _ _ demo_db_empty demo_account)|].
  apply rtc_once. by apply (DbEnsure _ _ _ _ demo_db_once demo_account).
Qed.

Theorem db_ledger_consistent_witness :
  exists s' r, @db_reserve counting_host fmt_u Ok "mega-1" "h1" 90 50 demo_db = (s', Ok r)
    /\ exists id, reservation_id r = fmt_u id
         /\ reserve_post "mega-1" "h1" 90 demo_db.1 s'.1 (id, res_bytes r, expires_at r).
Proof.
  destruct (@db_reserve counting_host fmt_u Ok "mega-1" "h1" 90 50 demo_db) as [s' [r|e]] eqn:E.
  2: { apply (f_equal snd) in E. vm_compute in E. discriminate E. }
  exists s', r. split; [done|].
  apply (proj2 (@db_ledger_consistent counting_host String.compare (parse_uint u64_max) fmt_u Ok
    {["h1"%string]} host_init demo_db demo_db_run) "mega-1"%string "h1"%string 90 50 s' r); [split; done|exact E].
Defined.
