(* ===== verification/LedgerDbPool.v ===== *)
(** * Cold packs over the database ledger

    The cold pool reserves room for a pack under the hash of the pack; the
    table of reservations only accepts the hashes of chunks. *)
From stdpp Require Import base gmap strings list fin_maps sets relations.
From Stdlib Require Import ZArith Lia.
From S2P Require Import Prelude Text Bytes Storage Effects Placement Reservations MegaAccount MegaPool MegaPoolProps MegaFake LedgerDb LedgerDbProps.
Local Open Scope Z_scope.

(** Every reservation is for a known chunk. *)
Definition reservations_known (d : DbState) : Prop :=
  forall i r, storage_reservations d !! i = Some r -> rr_encoded_hash r ∈ chunks d.

Lemma db_ok_known d : db_ok d -> reservations_known d.
Proof. intros Hok i r Hi. by apply (db_row _ Hok) in Hi as (_ & _ & ?). Qed.

Section database.
Context `{Host} (collate : string -> string -> comparison)
  (parse_uuid : string -> result Uuid string) (uuid_to_string : Uuid -> string)
  (duration_from_std : Duration -> result Z string).

Lemma transaction_err {A} (body : Z -> stm (DbState * HostState) StorageError A) s s' e :
  transaction body s = (s', Err e) -> s'.1 = s.1.
Proof. unfold transaction. destruct (sbind _ _ s) as [s1 [a|e1]]; [done|]. by intros [= <- _]. Qed.

Lemma expire_rows_known t account s s' n :
  reservations_known s.1 -> expire_rows t account s = (s', Ok n) ->
  reservations_known s'.1 /\ chunks s'.1 = chunks s.1.
Proof.
  intros Hk E. apply sbind_inv in E as (s1 & e & E1%sql_inv & E).
  apply rbind_Ok in E1 as (b & _ & E1). assert (s1.1 = s.1) as Hs1 by congruence. clear E1.
  apply sbind_inv in E as (s2 & [] & E2 & [= -> _]). destruct (_ <? _).
  2: { injection E2 as <-. by rewrite Hs1. }
  apply sbind_inv in E2 as (s3 & [] & E3%sql_inv & E4%update_account_inv). rewrite Hs1 in E3.
  assert (reservations_known s3.1 /\ chunks s3.1 = chunks s.1) as [Hk3 Hc3].
  { injection E3 as E3. rewrite <- E3. split; [|done]. intros i r Hi. simpl in *.
    apply lookup_fmap_Some in Hi as (r0 & <- & Hi). apply Hk in Hi. by destruct (row_held _ _ _). }
  destruct (_ !! _); [destruct E4 as (row' & _ & ->)|rewrite E4]; done.
Qed.

Lemma reserve_body_known account hash bytes ttl t s s' granted :
  reservations_known s.1 -> reserve_body account hash bytes ttl t s = (s', Ok granted) -> hash ∈ chunks s.1.
Proof.
  intros Hk E. apply sbind_inv in E as (s1 & row & [Es1 _]%query_inv & E). rewrite <- Es1 in *.
  destruct row as [row|]; [|done]. apply sbind_inv in E as (s2 & expired & [Hk2 <-]%expire_rows_known & E); [|done].
  apply sbind_inv in E as (s3 & existing & [Es3 ->]%query_inv & E).
  pose proof (head_filter_serves account hash s2.1) as Hhead. rewrite <- Es3 in *.
  destruct (head _) as [[id r]|].
  { destruct Hhead as [Hr%Hk2 Hs]. unfold row_serves in Hs. breflect. by subst. }
  cbv zeta in E. destruct (negb _); [by destruct (_ <? bytes)|]. destruct (_ <? bytes); [done|].
  apply sbind_inv in E as (s4 & id & E4%on_snd_db & E). apply sbind_inv in E as (s5 & t' & E5%on_snd_db & E).
  apply sbind_inv in E as (s6 & [] & (_ & Hchunk & _)%sql_inv%insert_reservation_inv & _).
  simpl in Hchunk. by rewrite E5, E4 in Hchunk.
Qed.

Lemma db_reserve_unknown account hash bytes ttl s :
  reservations_known s.1 -> hash ∉ chunks s.1 ->
  exists s' e, db_reserve uuid_to_string duration_from_std account hash bytes ttl s = (s', Err e) /\ s'.1 = s.1.
Proof.
  intros Hk Hno. unfold db_reserve. destruct (map_err Configuration (u64_to_i64 bytes)) as [b|e] eqn:E1.
  2: { eexists _, _. by split. }
  rewrite (sbind_Ok (slift (Ok b)) _ s s b eq_refl).
  destruct (map_err Configuration (duration_from_std ttl)) as [d|e] eqn:E2.
  2: { eexists _, _. by split. }
  rewrite (sbind_Ok (slift (Ok d)) _ s s d eq_refl).
  destruct (transaction (reserve_body account hash b d) s) as [s' [granted|e]] eqn:E3.
  - apply transaction_inv in E3 as (t & s1 & s2 & Es1 & E3 & _). rewrite <- Es1 in *.
    by apply reserve_body_known in E3.
  - rewrite (sbind_Err _ _ _ _ _ E3). eexists _, _. split; [done|]. by apply transaction_err in E3.
Qed.

Lemma db_refresh_tables account snapshot s :
  storage_reservations (db_refresh_account_capacity account snapshot s).1.1 = storage_reservations s.1
  /\ chunks (db_refresh_account_capacity account snapshot s).1.1 = chunks s.1.
Proof.
  set (I := fun s' : DbState * HostState => storage_reservations s'.1 = storage_reservations s.1 /\ chunks s'.1 = chunks s.1).
  assert (preserves I (db_refresh_account_capacity account snapshot)) as Hp; [|by apply Hp].
  unfold db_refresh_account_capacity. apply preserves_sbind; [apply preserves_slift|]. intros capacity.
  apply preserves_sbind; [apply preserves_slift|]. intros used. apply preserves_sbind; [by intros x Hx|]. intros t.
  apply preserves_sbind; [|preserve]. intros x Hx. unfold sql. destruct (host_io _); [done|].
  destruct (storage_accounts x.1 !! account); [|done]. by destruct (refresh_status _ _ _).
Qed.
End database.

(** ** Packs *)

Section packs.
Context `{Host} `{Blake3} (collate : string -> string -> comparison)
  (parse_uuid : string -> result Uuid string) (uuid_to_string : Uuid -> string)
  (duration_from_std : Duration -> result Z string).
Context (self : MegaColdStoragePool FakeWorld) (hash : string).

Let ledger_instance : CapacityReservationStore DbState :=
  database_ledger collate parse_uuid uuid_to_string duration_from_std.
#[local] Existing Instance ledger_instance.

Abbreviation W := (PoolWorld FakeWorld DbState).

(** The hash is unknown to the database, and no account has the pack. *)
Definition pack_unknown (accounts : list FakeMegaAccount) (w : W) : Prop :=
  reservations_known (w_ledger w) /\ hash ∉ chunks (w_ledger w)
  /\ forall a, a ∈ accounts ->
       fake_files (fake_state (w_backends w) (fake_account_id a)) !! remote_path_of true (fake_backend a) hash = None.

Lemma pack_unknown_ext accounts w w' :
  w_backends w' = w_backends w -> w_ledger w' = w_ledger w -> pack_unknown accounts w -> pack_unknown accounts w'.
Proof. unfold pack_unknown. by intros -> ->. Qed.

Lemma size_unknown accounts a w :
  pack_unknown accounts w -> a ∈ accounts ->
  exists w' r, on_backend (object_size (fake_backend a) (remote_path_of true (fake_backend a) hash)) w = (w', r)
    /\ pack_unknown accounts w' /\ match r with Ok found => found = None | Err _ => True end.
Proof.
  intros Hw Ha. unfold on_backend. cbn [object_size fake_backend]. unfold fake_object_size.
  destruct (check_failure_cases a (w_backends w, w_host w)) as ([[]|e] & E & _).
  - rewrite (sbind_Ok _ _ _ _ _ E). eexists _, _. split; [done|]. split; [by apply (pack_unknown_ext _ w)|].
    destruct Hw as (_ & _ & Hno). specialize (Hno a Ha).
    cbn -[remote_path_of] in *. by rewrite Hno.
  - rewrite (sbind_Err _ _ _ _ _ E). eexists _, _. split; [done|]. split; [by apply (pack_unknown_ext _ w)|done].
Qed.

Lemma put_unknown accounts a temporary size p w :
  pack_unknown accounts w -> a ∈ accounts ->
  exists w' q, put_account self true hash temporary size (fake_backend a) p w = (w', Ok (Some q))
    /\ pack_unknown accounts w'.
Proof.
  intros Hw Ha. unfold put_account.
  assert (exists w1 r1, verify_existing self (fake_backend a) (remote_path_of true (fake_backend a) hash) hash size true w = (w1, r1)
    /\ pack_unknown accounts w1 /\ r1 <> Ok true) as (w1 & r1 & E1 & Hw1 & Hr1).
  { unfold verify_existing. destruct (size_unknown accounts a w Hw Ha) as (w1 & [found|e] & E & Hw1 & Hf).
    - subst found. rewrite (sbind_Ok _ _ _ _ _ E). by eexists _, _.
    - rewrite (sbind_Err _ _ _ _ _ E). by eexists _, _. }
  unfold stry at 1. rewrite E1. destruct r1 as [[]|e]; [done| |by eexists _, _].
  assert (exists w2 r2, delete_stale (fake_backend a) (remote_path_of true (fake_backend a) hash) w1 = (w2, r2)
    /\ pack_unknown accounts w2) as (w2 & r2 & E2 & Hw2).
  { unfold delete_stale, stry. destruct (size_unknown accounts a w1 Hw1 Ha) as (w2 & [found|e] & E & Hw2 & Hf); rewrite E.
    - subst found. by eexists _, _.
    - by eexists _, _. }
  unfold stry at 1. rewrite E2. destruct r2 as [u|e]; [|by eexists _, _].
  unfold put_upload. unfold stry at 1.
  destruct (on_backend (be_capacity (fake_backend a)) w2) as [w3 r3] eqn:E3.
  assert (pack_unknown accounts w3) as Hw3.
  { apply (pack_unknown_ext _ w2); [| |done].
    - unfold on_backend in E3. cbn [be_capacity fake_backend] in E3. unfold fake_capacity in E3.
      destruct (check_failure_cases a (w_backends w2, w_host w2)) as ([[]|e] & E & _).
      + rewrite (sbind_Ok _ _ _ _ _ E) in E3. by injection E3 as <- _.
      + rewrite (sbind_Err _ _ _ _ _ E) in E3. by injection E3 as <- _.
    - unfold on_backend in E3. destruct (be_capacity _ _). by injection E3 as <- _. }
  destruct r3 as [capacity|e]; [|by eexists _, _]. unfold stry at 1.
  destruct (on_ledger (refresh_account_capacity (be_account_id (fake_backend a)) capacity) w3) as [w4 r4] eqn:E4.
  assert (pack_unknown accounts w4) as Hw4.
  { destruct Hw3 as (Hk & Hno & Hf). unfold on_ledger in E4.
    destruct (db_refresh_tables (be_account_id (fake_backend a)) capacity (w_ledger w3, w_host w3)) as [Er Ec].
    cbn [refresh_account_capacity database_ledger ledger_instance] in E4.
    destruct (db_refresh_account_capacity _ _ _) as [s r]. injection E4 as <- _. simpl in *.
    split_and!; [|simpl; by rewrite Ec|done]. intros i x. simpl. rewrite Er, Ec. apply Hk. }
  destruct r4 as [snapshot|e]; [|by eexists _, _]. unfold stry at 1, on_ledger at 1.
  cbn [reserve database_ledger ledger_instance].
  destruct (db_reserve_unknown uuid_to_string duration_from_std (be_account_id (fake_backend a)) hash size
    (reservation_ttl (mp_options self)) (w_ledger w4, w_host w4)) as (s' & e & E5 & Es); [apply Hw4|apply Hw4|].
  rewrite E5. assert (pack_unknown accounts {| w_backends := w_backends w4; w_ledger := s'.1; w_host := s'.2;
    temp_reserved := temp_reserved w4; temp_counter := temp_counter w4 |}) as Hw5 by (by apply (pack_unknown_ext _ w4)).
  destruct e; by eexists _, _.
Qed.

(** C40. Over the database ledger a pack can never be stored in the cold pool
    (unless an account already has it): reservations refer to chunks, the
    hash of a pack is not one, so every account refuses the reservation. *)
Theorem cold_pack_never_stored accounts bytes w w' r :
  mp_accounts self = map fake_backend accounts -> pack_unknown accounts w ->
  put_pack self hash bytes w = (w', r) -> r <> Ok tt.
Proof.
  intros Hacc Hw Hrun ->. apply sbind_inv in Hrun as (w1 & [] & E1 & Hrun).
  apply sbind_inv in Hrun as (w2 & [] & E2 & Hrun). unfold slift in E1, E2. injection E1 as <- _. injection E2 as <- _.
  unfold put_inner_with_paths, with_temp in Hrun. apply sbind_inv in Hrun as (w3 & path & E3 & Hrun).
  pose proof (reserve_temp_outcome self hash "upload" (len64 bytes) w) as Ho. rewrite E3 in Ho. destruct Ho as (Hb3 & Hl3 & _).
  unfold stry in Hrun. destruct (sbind _ _ w3) as [w4 r4] eqn:E4.
  apply sbind_inv in Hrun as (w5 & [] & _ & Hrun). unfold slift in Hrun. injection Hrun as _ ->.
  apply sbind_inv in E4 as (w6 & [] & E6 & E4).
  assert (pack_unknown accounts w6) as Hw6.
  { apply (pack_unknown_ext _ w); [| |done]; unfold on_disk in E6; destruct (io _ _); injection E6 as <- _; simpl; congruence. }
  apply sbind_inv in E4 as (w7 & remaining & E7 & E4). destruct remaining as [p|].
  { by apply sbind_inv in E4 as (w8 & [] & _ & E4). }
  rewrite Hacc in E7. clear Hacc Hw E3 Hb3 Hl3 E6 E4.
  assert (forall l p w, pack_unknown accounts w -> (forall a, a ∈ l -> a ∈ accounts) ->
    (put_loop self true hash path (len64 bytes) (map fake_backend l) p w).2 <> Ok None) as Hloop.
  { induction l as [|a l IH]; intros p v Hv Hl; simpl; [done|].
    destruct (put_unknown accounts a path (len64 bytes) p v) as (v1 & q & E & Hv1); [done|apply Hl; left|].
    rewrite (sbind_Ok _ _ _ _ _ E). apply IH; [done|]. intros b Hb. apply Hl. by right. }
  apply (Hloop accounts put_start w6 Hw6 (fun _ Ha => Ha)). by rewrite E7.
Qed.
End packs.

(** ** A concrete pool *)

Definition demo_db_world : PoolWorld FakeWorld DbState := {|
  w_backends := ∅; w_ledger := demo_db.1; w_host := host_init; temp_reserved := 0; temp_counter := 0 |}.

Definition demo_put_pack :=
  @put_pack _ _ (@database_ledger counting_host String.compare (parse_uint u64_max) fmt_u Ok)
    counting_host demo_blake3 demo_pool demo_hash demo_bytes demo_db_world.

Theorem cold_pack_never_stored_witness :
  demo_put_pack.2 <> Ok tt /\ pack_unknown (H := counting_host) demo_hash [demo_fake] demo_db_world.
Proof.
  assert (pack_unknown (H := counting_host) demo_hash [demo_fake] demo_db_world) as Hw.
  { split_and!.
    - assert (storage_reservations demo_db.1 = ∅) as E by reflexivity. intros i r Hi.
      change (storage_reservations demo_db.1 !! i = Some r) in Hi. rewrite E in Hi. by rewrite lookup_empty in Hi.
    - assert (chunks demo_db.1 = {["h1"%string]}) as E by reflexivity.
      change (demo_hash ∉ chunks demo_db.1). rewrite E, elem_of_singleton. by vm_compute.
    - intros a ->%list_elem_of_singleton. reflexivity. }
  split; [|exact Hw].
  apply (@cold_pack_never_stored counting_host demo_blake3 String.compare (parse_uint u64_max) fmt_u Ok
    demo_pool demo_hash [demo_fake] demo_bytes demo_db_world demo_put_pack.1 _ eq_refl Hw).
  unfold demo_put_pack. by destruct (put_pack _ _ _ _).
Defined.
